(* ===== verification/_CoqProject ===== *)
-Q . S2P
Prelude.v
Encoding.v
Env.v
DhtId.v
DhtTable.v
DhtRelay.v
DhtWire.v
DhtNode.v
DhtGossip.v
TunnelWire.v
UdpRelay.v
UdpAssoc.v
MirrorTransport.v
Cidr.v
DialWindow.v
Auth.v
Session.v
DialerPool.v
LogRing.v
Watchdog.v
Mirror.v
Discovery.v
Bypass.v
Socks5.v
Identity.v
Router.v
ParaExit.v
LogRotate.v
Camouflage.v
AuthRequest.v
TunnelDial.v
UdpControl.v
TimeZone.v
Tun.v
ProcFilter.v
Tls.v
Punch.v
Lifecycle.v
PeerPool.v
MirrorFs.v
Replication.v
UdpDrain.v
FileCache.v
WinTun.v
Decoys.v
WinPlatform.v
Logging.v
ControlLink.v
Client.v
Egress.v
