(* ===== verification/Prelude.v ===== *)
(** * tunnelcat-core: a model of the tunnel client and its theorems

    The program (src/, Go) is the client side of a tunnel.  An [Authenticator]
    logs in and keeps a session token; a [TunnelDialer] opens connections whose
    bytes travel as encrypted HTTP posts and streaming responses; a pool of
    dialers is weighted by round-trip time.  A DHT of nodes spreads relay
    entries, control manifests and content manifests, all signed by an arbiter.
    UDP sockets opened by hole punching carry relay requests and the chunks of
    mirrored content.  A SOCKS5 server offers all this to applications.

    ** Files and what they model

    - [Prelude], [Encoding], [Env]: Go slices, integers of fixed width, panics
      ([res]), hex and base64, and the code outside the repository as classes:
      [AEAD] (XChaCha20-Poly1305, BLAKE2b), [Signatures] (Ed25519, SHA-256),
      [JSON], [Net], [SliceSort] ([sort.Slice]).  Law classes state their
      documented behaviour; [Env.Toy] has an instance of each.
    - [DhtId], [DhtTable], [DhtRelay], [DhtWire]: dht/dht.go, dht/dht_wire.go
      and the stores of dht/dht_node.go and dht/dht_content.go: identifiers with
      the XOR metric, buckets and routing table, relay entries, datagrams.
    - [DhtNode]: dht/dht_node.go and dht/dht_content.go: the state of a node,
      every handler, client operation and maintenance tick.  A handler maps the
      state to the new state and the actions it performs.  [DhtGossip]: what an
      exchange of datagrams between two nodes achieves.
    - [TunnelWire], [Auth], [AuthRequest], [DialWindow], [TunnelDial]: tunnel.go:
      frames; login, token refresh and the authenticated POST; the login requests
      and the reading of their answers; the outcome window and retries of a dialer;
      a dial as a whole, the dialer with its connections, datagrams and streams over
      the tunnel.
    - [Session]: session.go: a connection as a step system of its writer, its reader,
      [Close], the pipelined sends and the stream goroutine; a call is as many steps as
      it waits or lets go of a lock.
    - [DialerPool]: dialer_pool.go.
    - [UdpRelay], [UdpAssoc]: udp_relay.go and udp_assoc.go: requests over a
      punched socket, and SOCKS5 UDP ASSOCIATE sessions.
    - [MirrorTransport], [Mirror]: mirror_transport.go, holepunch.go, nat.go and
      mirror.go: transport of chunks, and the manager that mirrors a content
      manifest.
    - [Discovery]: discovery.go: the verified list of control nodes.
    - [Router], [UdpControl]: router.go and udp_control.go: which control and relays
      to use, and the UDP probe of a control.
    - [Socks5], [Bypass], [Cidr]: socks5.go; bypass.go with dns_cache.go; cidr.go: the
      proxy's handshake and routing, and what goes around the tunnel.
    - [Identity], [ParaExit]: key.go, nodeid.go, relay.go; para_exit.go: the node's
      keys and signed entries, and the reverse tunnel to regional exits.
    - [Camouflage], [Tls], [Tun], [ProcFilter], [TimeZone]: headers.go, pacing.go and
      decoy.go; tls.go; the three TUN bridges; procfilter_windows.go; tz_country.go.
    - [Decoys]: decoy.go: the requests, bursts and connections of the decoy manager.
    - [LogRing], [LogRotate], [Logging], [Watchdog]: log_upload.go; log.go, with writes
      that fail or stop short; the two loggers that share the file and the buffer for
      upload under mutexes of their own; watchdog.go and watchdog_state.go.
    - [Punch]: holepunch.go and nat.go: two peers punching against each other over a
      filtered, lossy network that also brings in foreign datagrams; the NAT probe.
    - [PeerPool], [MirrorFs], [Replication]: mirror.go: the connections concurrent fetches
      share; the download of a file call by call on a file system, alone and against
      another one; the mirror end to end, from a peer's disk over the chunk transport.
    - [UdpDrain]: udp_assoc.go: the goroutines of a session and its end.
    - [Lifecycle]: the polling goroutines of discovery.go, log_upload.go, bypass.go and
      dialer_pool.go, and the [Stop] methods under concurrent calls.
    - [FileCache]: nodeid_other.go, nodeid_windows.go and the two [persist] methods:
      what a cache file gives back after a restart.
    - [WinTun], [WinPlatform]: the driver library, its adapters, and process names on
      Windows (internal/wintun, tools/fetch_wintun, tun.go, procfilter_windows.go).
    - [ControlLink]: udp_relay.go, udp_control.go and router.go together: a tunnel
      request through a relay peer, and the dialer made for a control.
    - [Egress]: dial_control.go and every dialer: which sockets leave around the TUN
      interface, and the server names they send.
    - [Client]: socks5.go and cmd/demo: the accept loop, and the demo client as the
      composition of login, dialer, proxy and TUN bridge.

    ** What the theorems show

    - Invariants over every sequence of events: [node_invariant] (a DHT node),
      [routing_table_invariant], [relay_store_invariant],
      [relay_system_invariant] (pending requests), [assoc_session_invariant],
      [dial_window_invariant], [pool_invariant],
      [discovery_controls_authentic], [bypass_list_authentic], [router_invariant],
      [limiter_invariant], [open_conns_exact] (a dialer and its connections),
      [peer_pool_no_leak] (every peer connection is closed or accounted for),
      [adapters_cleaned] (the adapters a session can leave behind).
    - Refinements: [conn_streams_in_order] (a connection loses and
      duplicates nothing, and reorders nothing but in polling mode, where an answer of a
      write crosses a read), [sync_file_refines] (a file is replaced as a whole), [ring_snapshot_suffix] (the ring is the end of
      the history), [dns_cache_refines] (the cache is the last answer learned),
      [flap_penalty_refines], [cidr_contains_correct] (bisection decides membership),
      [socks5_request_iff] (the handshake accepts exactly the grammar),
      [should_bypass_exact], [closest_selects_nearest], [relay_call_refines] (a call
      over a lossy network is one answer of the control, asked at least once, and no
      frame exceeds a datagram), [relayed_post_equals_direct] (a POST through a relay peer
      over a network that loses nothing is one to the control, where all fits a datagram),
      [ring_holds_kept_lines].
    - Delivery and round trips: what one side encodes the other decodes, for
      datagrams, upload frames, streams, relay requests, chunks, SOCKS5 headers
      and the persisted files; the pull protocols of manifests; a dial, a stream and
      a datagram through the tunnel ([dial_contract], [stream_open_delivers],
      [udp_frames_delivered]); [rotation_keeps_everything]; the whole content of a
      peer ([mirror_replicates]); [caches_survive_restart].
    - Safety: only signed data is kept or announced ([mirror_accepts_newer_signed],
      [mirror_complete_is_true], [serve_chunk_verified],
      [content_complete_is_earned]); a tunnelled destination is not contacted
      directly ([no_direct_leak], [connect_routing]); paths use alive nodes of
      distinct operators ([build_paths_sound], [control_policy]); [punch_two_sided];
      [control_dialer_transport]; [torrent_process_blocked]; [egress_of_dialers];
      no datagram, frame or header received makes its parser panic, and a POST panics only
      where it meets a session token of fewer than eight bytes ([do_post_safe]).
    - Termination and policies: [stream_loop_gives_up], [refresh_policy],
      [roundtrip_terminates], [login_outcome], [login_complete], [do_post_safe],
      [stop_ends_worker], [linux_bridge], [poller_contract], [stop_cas_safe],
      [session_stops], [demo_starts].
    - Bounds: [jitter_bounds], [backoff_bounds], [decoy_rate], [pnp_settled].

    Several theorems state behaviour that a comment or the evident intent of the
    code contradicts; their own comments say so.

    ** Modelling choices

    Bytes are [byte] lists and integers are [Z] with the wrap-around of their type
    written out.  A body that runs under a lock is one step; goroutines are the
    interleaving of such steps.  A dial is one step of its dialer, and one sync of the
    mirror is the only writer of its disk ([MirrorFs] says what becomes of two).  Time, randomness, the iteration order of maps and
    the network are arguments, and theorems quantify over them.  Errors carry a
    short label where the code formats a message.  Fuel occurs three times:
    [Cidr.bisect] (bounded by the length of the table), [TunnelWire.decode_frames]
    (four bytes a frame) and [TunnelWire.read_loop] (a caller that reads to the
    end); the theorems show that the fuel given suffices.

    ** Not modelled

    Code that only configures a library: the http, http2 and yamux transports, the
    tun2socks engine, uTLS, the Windows calls, flag parsing.  Each appears as an
    argument of the definitions that use it, and so do [net/http] and the operating
    system.  Setters that store a callback are the argument that says whether one is
    set.  The type aliases of dht.go, dht_node.go and dht_wire.go, accessors that return
    a field, and measurements that are only logged have no definition of their own. *)
From Stdlib Require Export ZArith Lia Strings.Byte.
From Stdlib Require String Ascii.
From Stdlib Require Export Permutation Sorted.
From stdpp Require Export prelude gmap.
Export String.StringSyntax.

#[global] Set Default Goal Selector "!".
Open Scope Z_scope.

(** ** Go results: a value, an error, or a run-time panic *)

Inductive res (A : Type) : Type :=
| Ok (a : A)
| Err (msg : String.string)
| Panic.
Arguments Ok {A} a.
Arguments Err {A} msg%_string_scope.
Arguments Panic {A}.

#[global] Instance res_ret : MRet res := @Ok.
#[global] Instance res_bind : MBind res := fun A B f r =>
  match r with Ok a => f a | Err e => Err e | Panic => Panic end.

Definition no_panic {A} (r : res A) : Prop := r <> Panic.

Definition is_err {A} (r : res A) : bool :=
  match r with Err _ => true | _ => false end.

(** ** Bytes *)

#[global] Instance byte_eq_decision : EqDecision byte := Byte.byte_eq_dec.

#[global] Program Instance byte_countable : Countable byte :=
  inj_countable Byte.to_N Byte.of_N _.
Next Obligation. intros b. apply Byte.of_to_N. Qed.

#[global] Instance byte_inhabited : Inhabited byte := populate x00.

(** The unsigned value of a byte, and the truncating conversion [byte(z)]. *)
Definition b2z (b : byte) : Z := Z.of_N (Byte.to_N b).

Definition z2b (z : Z) : byte :=
  match Byte.of_N (Z.to_N (z mod 256)) with Some b => b | None => x00 end.

Lemma b2z_range b : 0 <= b2z b < 256.
Proof.
  unfold b2z. pose proof (Byte.to_N_bounded b). lia.
Qed.

Lemma b2z_z2b z : b2z (z2b z) = z mod 256.
Proof.
  unfold b2z, z2b. pose proof (Z.mod_pos_bound z 256 ltac:(lia)) as Hr.
  destruct (Byte.of_N _) as [b|] eqn:E.
  - apply Byte.to_of_N in E. lia.
  - apply Byte.of_N_None_iff in E. lia.
Qed.

Lemma b2z_inj a b : b2z a = b2z b -> a = b.
Proof.
  unfold b2z. intros H%N2Z.inj.
  pose proof (Byte.of_to_N a) as Ea. pose proof (Byte.of_to_N b) as Eb.
  rewrite H in Ea. congruence.
Qed.

Lemma z2b_b2z b : z2b (b2z b) = b.
Proof.
  apply b2z_inj. rewrite b2z_z2b. apply Z.mod_small, b2z_range.
Qed.

Lemma z2b_mod z : z2b (z mod 256) = z2b z.
Proof. apply b2z_inj. rewrite !b2z_z2b. apply Z.mod_mod. lia. Qed.

(** Byte equality through the unsigned values, as the code's [==] on bytes. *)
Definition byte_eqb (a b : byte) : bool := bool_decide (a = b).

(** Go strings and [[]byte] slices are both byte lists. *)
Abbreviation bytes := (list byte).

Definition str (s : String.string) : bytes := String.list_byte_of_string s.
Arguments str s%_string_scope.

(** ** Slices: the bounds checks Go performs *)

(** [s[i:j]]; out of range is a run-time panic. *)
Definition slice {A} (s : list A) (i j : Z) : res (list A) :=
  if (0 <=? i) && (i <=? j) && (j <=? Z.of_nat (length s))
  then Ok (take (Z.to_nat (j - i)) (drop (Z.to_nat i) s))
  else Panic.

(** [s[i:]]. *)
Definition slice_from {A} (s : list A) (i : Z) : res (list A) :=
  slice s i (Z.of_nat (length s)).

(** [s[i]]. *)
Definition index {A} (s : list A) (i : Z) : res A :=
  if 0 <=? i
  then match s !! Z.to_nat i with Some a => Ok a | None => Panic end
  else Panic.

Definition zlen {A} (s : list A) : Z := Z.of_nat (length s).

Lemma zlen_nonneg {A} (s : list A) : 0 <= zlen s.
Proof. unfold zlen. lia. Qed.

Lemma zlen_app {A} (s t : list A) : zlen (s ++ t) = zlen s + zlen t.
Proof. unfold zlen. rewrite length_app. lia. Qed.

Lemma zlen_cons {A} (a : A) s : zlen (a :: s) = 1 + zlen s.
Proof. unfold zlen. simpl length. lia. Qed.

Lemma zlen_nil {A} : zlen (@nil A) = 0.
Proof. reflexivity. Qed.

Lemma slice_ok {A} (s : list A) i j :
  0 <= i -> i <= j -> j <= zlen s ->
  slice s i j = Ok (take (Z.to_nat (j - i)) (drop (Z.to_nat i) s)).
Proof.
  unfold slice, zlen. intros.
  rewrite !(proj2 (Z.leb_le _ _)) by lia. reflexivity.
Qed.

Lemma slice_app {A} (p m q : list A) i j :
  i = zlen p -> j = zlen p + zlen m -> slice (p ++ m ++ q) i j = Ok m.
Proof.
  intros -> ->.
  pose proof (zlen_nonneg p). pose proof (zlen_nonneg m).
  pose proof (zlen_nonneg q).
  rewrite slice_ok; rewrite ?zlen_app; try lia. f_equal.
  replace (Z.to_nat (zlen p)) with (length p) by (unfold zlen; lia).
  rewrite drop_app_length.
  replace (Z.to_nat (zlen p + zlen m - zlen p)) with (length m) by (unfold zlen; lia).
  apply take_app_length.
Qed.

Lemma slice_from_app {A} (p q : list A) i :
  i = zlen p -> slice_from (p ++ q) i = Ok q.
Proof.
  intros ->. unfold slice_from.
  rewrite <- (app_nil_r q) at 1.
  apply slice_app; [reflexivity|]. rewrite length_app. unfold zlen. lia.
Qed.

Lemma slice_no_panic {A} (s : list A) i j :
  0 <= i -> i <= j -> j <= zlen s -> slice s i j <> Panic.
Proof. intros. rewrite slice_ok by assumption. discriminate. Qed.

Lemma slice_length {A} (s : list A) i j r :
  slice s i j = Ok r -> zlen r = j - i.
Proof.
  unfold slice.
  destruct (_ && _ && _) eqn:E; [|discriminate]. intros [= <-].
  apply andb_prop in E as [[E1 E2]%andb_prop E3].
  apply Z.leb_le in E1, E2, E3.
  unfold zlen. rewrite length_take, length_drop. lia.
Qed.

Lemma index_ok {A} (s : list A) i :
  0 <= i < zlen s -> exists a, index s i = Ok a /\ s !! Z.to_nat i = Some a.
Proof.
  unfold index, zlen. intros.
  rewrite (proj2 (Z.leb_le _ _)) by lia.
  destruct (s !! Z.to_nat i) as [a|] eqn:E; [eauto|].
  apply lookup_ge_None in E. lia.
Qed.

Lemma index_app {A} (p : list A) a q i :
  i = zlen p -> index (p ++ a :: q) i = Ok a.
Proof.
  intros ->. unfold index, zlen. rewrite (proj2 (Z.leb_le _ _)) by lia.
  rewrite Nat2Z.id, list_lookup_middle; reflexivity.
Qed.

(** Go's [copy(dst, src)]: overwrites a prefix of [dst], returns the count. *)
Definition copy {A} (dst src : list A) : list A :=
  take (length dst) src ++ drop (length src) dst.

Lemma length_copy {A} (dst src : list A) : length (copy dst src) = length dst.
Proof. unfold copy. rewrite length_app, length_take, length_drop. lia. Qed.

Lemma copy_exact {A} (dst src : list A) : length dst = length src -> copy dst src = src.
Proof.
  intros H. unfold copy. rewrite H, take_ge by lia.
  rewrite drop_ge by lia. apply app_nil_r.
Qed.

(** [make([]byte, n)]. *)
Definition make_bytes (n : Z) : bytes := replicate (Z.to_nat n) x00.

(** ** Big-endian integers: [binary.BigEndian.PutUintN] and [UintN] *)

Fixpoint be_put (n : nat) (z : Z) : bytes :=
  match n with
  | O => []
  | S m => z2b (Z.shiftr z (8 * Z.of_nat m)) :: be_put m z
  end.

Definition be_get (l : bytes) : Z := fold_left (fun acc b => acc * 256 + b2z b) l 0.

Definition put_u16 (z : Z) : bytes := be_put 2 z.
Definition put_u32 (z : Z) : bytes := be_put 4 z.
Definition put_u64 (z : Z) : bytes := be_put 8 z.

Lemma length_be_put n z : length (be_put n z) = n.
Proof. induction n; simpl; congruence. Qed.

Lemma zlen_be_put n z : zlen (be_put n z) = Z.of_nat n.
Proof. unfold zlen. rewrite length_be_put. reflexivity. Qed.

Lemma be_get_acc l acc :
  fold_left (fun acc b => acc * 256 + b2z b) l acc = acc * 256 ^ zlen l + be_get l.
Proof.
  unfold be_get. revert acc. induction l as [|b l IH]; intros acc; cbn [fold_left].
  - rewrite zlen_nil. lia.
  - rewrite (IH (acc * 256 + b2z b)), (IH (0 * 256 + b2z b)).
    rewrite zlen_cons, Z.pow_add_r by (try apply zlen_nonneg; lia).
    lia.
Qed.

Lemma be_get_cons b l : be_get (b :: l) = b2z b * 256 ^ zlen l + be_get l.
Proof. unfold be_get at 1. simpl. rewrite be_get_acc. lia. Qed.

Lemma be_get_app l1 l2 : be_get (l1 ++ l2) = be_get l1 * 256 ^ zlen l2 + be_get l2.
Proof. unfold be_get at 1. rewrite fold_left_app. apply be_get_acc. Qed.

Lemma pow256_pos n : 0 <= n -> 0 < 256 ^ n.
Proof. intros. apply Z.pow_pos_nonneg; lia. Qed.

Lemma be_get_range l : 0 <= be_get l < 256 ^ zlen l.
Proof.
  induction l as [|b l IH]; [by vm_compute|].
  rewrite be_get_cons, zlen_cons, Z.pow_add_r by (try apply zlen_nonneg; lia).
  pose proof (b2z_range b). pose proof (pow256_pos (zlen l) (zlen_nonneg l)). nia.
Qed.

Lemma be_get_put n z : be_get (be_put n z) = z mod 256 ^ Z.of_nat n.
Proof.
  induction n as [|n IH]; simpl be_put.
  - unfold be_get. simpl. rewrite Z.mod_1_r. reflexivity.
  - rewrite be_get_cons, zlen_be_put, IH, b2z_z2b, Z.shiftr_div_pow2 by lia.
    pose proof (pow256_pos (Z.of_nat n) ltac:(lia)).
    rewrite Nat2Z.inj_succ, Z.pow_succ_r by lia.
    replace (2 ^ (8 * Z.of_nat n)) with (256 ^ Z.of_nat n)
      by (rewrite Z.pow_mul_r by lia; reflexivity).
    rewrite (Z.mul_comm 256), Z.rem_mul_r by lia. lia.
Qed.

Lemma be_get_put_small n z : 0 <= z < 256 ^ Z.of_nat n -> be_get (be_put n z) = z.
Proof. intros. rewrite be_get_put. apply Z.mod_small. assumption. Qed.

Lemma be_get_inj l1 l2 : length l1 = length l2 -> be_get l1 = be_get l2 -> l1 = l2.
Proof.
  revert l2. induction l1 as [|a l1 IH]; intros [|b l2]; try discriminate; [done|].
  intros [= Hl]. rewrite !be_get_cons.
  replace (zlen l2) with (zlen l1) by (unfold zlen; lia). intros Hv.
  pose proof (be_get_range l1). pose proof (be_get_range l2) as H2.
  replace (zlen l2) with (zlen l1) in H2 by (unfold zlen; lia).
  assert (b2z a = b2z b) by nia.
  f_equal; [by apply b2z_inj|]. apply IH; [done|]. nia.
Qed.

Lemma be_put_get n l : length l = n -> be_put n (be_get l) = l.
Proof.
  intros Hl. apply be_get_inj; [by rewrite length_be_put|]. apply be_get_put_small. rewrite <- Hl. apply be_get_range.
Qed.

(** [binary.BigEndian.UintN(s[i:])]: reads [n] bytes at offset [i]. *)
Definition be_at (n : Z) (s : bytes) (i : Z) : res Z :=
  b ← slice s i (i + n); Ok (be_get b).

Lemma be_at_app n p m q i :
  i = zlen p -> zlen m = n -> be_at n (p ++ m ++ q) i = Ok (be_get m).
Proof.
  intros. unfold be_at. rewrite (slice_app p m q) by lia. reflexivity.
Qed.

Lemma be_at_ok n s i :
  0 <= n -> 0 <= i -> i + n <= zlen s ->
  exists v, be_at n s i = Ok v /\ 0 <= v < 256 ^ n.
Proof.
  intros. unfold be_at.
  destruct (slice s i (i + n)) as [b| |] eqn:E.
  - exists (be_get b). split; [reflexivity|].
    apply slice_length in E. replace n with (zlen b) by lia. apply be_get_range.
  - exfalso. rewrite slice_ok in E by lia. discriminate.
  - exfalso. rewrite slice_ok in E by lia. discriminate.
Qed.

(** The same facts for a buffer known to be a concatenation. *)
Lemma slice_at {A} (s p m q : list A) i j :
  s = p ++ m ++ q -> i = zlen p -> j = i + zlen m -> slice s i j = Ok m.
Proof. intros -> -> ->. by apply slice_app. Qed.

Lemma slice_from_at {A} (s p q : list A) i : s = p ++ q -> i = zlen p -> slice_from s i = Ok q.
Proof. intros ->. apply slice_from_app. Qed.

Lemma index_at {A} (s p : list A) a q i : s = p ++ a :: q -> i = zlen p -> index s i = Ok a.
Proof. intros ->. apply index_app. Qed.

Lemma be_at_at n s p m q i :
  s = p ++ m ++ q -> i = zlen p -> zlen m = n -> be_at n s i = Ok (be_get m).
Proof. intros ->. apply be_at_app. Qed.

Lemma zlen_put_u16 z : zlen (put_u16 z) = 2.
Proof. apply zlen_be_put. Qed.
Lemma zlen_put_u32 z : zlen (put_u32 z) = 4.
Proof. apply zlen_be_put. Qed.
Lemma zlen_put_u64 z : zlen (put_u64 z) = 8.
Proof. apply zlen_be_put. Qed.

Lemma be_get_u16 z : 0 <= z < 2 ^ 16 -> be_get (put_u16 z) = z.
Proof. intros. by apply be_get_put_small. Qed.
Lemma be_get_u32 z : 0 <= z < 2 ^ 32 -> be_get (put_u32 z) = z.
Proof. intros. by apply be_get_put_small. Qed.
Lemma be_get_u64 z : 0 <= z < 2 ^ 64 -> be_get (put_u64 z) = z.
Proof. intros. by apply be_get_put_small. Qed.

(** ** Sorting: [sort.Slice]

    Go's [sort.Slice] returns some ordering of the input that respects [less];
    it promises no particular order among elements that compare equal. *)
Class SliceSort := {
  sort_slice : forall {A : Type}, (A -> A -> bool) -> list A -> list A;
  sort_slice_perm : forall {A} (less : A -> A -> bool) l,
    Permutation l (sort_slice less l);
  sort_slice_sorted : forall {A} (less : A -> A -> bool) l,
    (forall x y z, less y x = false -> less z y = false -> less z x = false) ->
    (forall x y, less x y = true -> less y x = false) ->
    StronglySorted (fun x y => less y x = false) (sort_slice less l)
}.

(** Insertion sort, the reference instance. *)
Fixpoint insert_by {A} (less : A -> A -> bool) (a : A) (l : list A) : list A :=
  match l with
  | [] => [a]
  | b :: l' => if less b a then b :: insert_by less a l' else a :: b :: l'
  end.

Definition insertion_sort {A} (less : A -> A -> bool) (l : list A) : list A :=
  fold_right (insert_by less) [] l.

Lemma insert_by_perm {A} (less : A -> A -> bool) a l :
  Permutation (a :: l) (insert_by less a l).
Proof.
  induction l as [|b l IH]; simpl; [done|].
  destruct (less b a); [|done].
  rewrite <- IH. constructor.
Qed.

Lemma insertion_sort_perm {A} (less : A -> A -> bool) l :
  Permutation l (insertion_sort less l).
Proof.
  induction l as [|a l IH]; simpl; [done|].
  rewrite <- insert_by_perm. by constructor.
Qed.

Lemma insert_by_sorted {A} (less : A -> A -> bool) a l :
  (forall x y z, less y x = false -> less z y = false -> less z x = false) ->
  (forall x y, less x y = true -> less y x = false) ->
  StronglySorted (fun x y => less y x = false) l ->
  StronglySorted (fun x y => less y x = false) (insert_by less a l).
Proof.
  intros Htr Has. induction 1 as [|b l Hs IH Hall]; simpl.
  - repeat constructor.
  - destruct (less b a) eqn:E.
    + constructor; [done|].
      assert (Forall (fun y => less y b = false) (a :: l)) as H
        by (constructor; [by apply Has|done]).
      by rewrite (insert_by_perm less a l) in H.
    + constructor; [by constructor|]. constructor; [done|].
      eapply Forall_impl; [exact Hall|]. simpl. eauto.
Qed.

Lemma insertion_sort_sorted {A} (less : A -> A -> bool) l :
  (forall x y z, less y x = false -> less z y = false -> less z x = false) ->
  (forall x y, less x y = true -> less y x = false) ->
  StronglySorted (fun x y => less y x = false) (insertion_sort less l).
Proof.
  intros Htr Has. induction l as [|a l IH]; simpl; [constructor|].
  by apply insert_by_sorted.
Qed.

Definition insertion_slice_sort : SliceSort := {|
  sort_slice := @insertion_sort;
  sort_slice_perm := @insertion_sort_perm;
  sort_slice_sorted := @insertion_sort_sorted
|}.

(** ** Small list facts *)

Lemma StronglySorted_app_inv {A} (R : A -> A -> Prop) l1 l2 x y :
  StronglySorted R (l1 ++ l2) -> x ∈ l1 -> y ∈ l2 -> R x y.
Proof.
  induction l1 as [|a l1 IH]; simpl; intros Hs Hx Hy; [by apply not_elem_of_nil in Hx|].
  inversion_clear Hs as [|? ? Hs' Hall].
  apply elem_of_cons in Hx as [->|Hx]; [|by apply IH].
  rewrite Forall_forall in Hall. apply Hall. apply elem_of_app. by right.
Qed.

Lemma StronglySorted_app_l {A} (R : A -> A -> Prop) l1 l2 :
  StronglySorted R (l1 ++ l2) -> StronglySorted R l1.
Proof.
  induction l1 as [|a l1 IH]; simpl; intros Hs; [constructor|].
  inversion_clear Hs as [|? ? Hs' Hall]. constructor; [by apply IH|].
  by apply Forall_app in Hall as [? _].
Qed.

Lemma elem_of_take {A} n (l : list A) x : x ∈ take n l -> x ∈ l.
Proof. intros H. rewrite <- (take_drop n l). apply elem_of_app. by left. Qed.

Lemma elem_of_drop {A} n (l : list A) x : x ∈ drop n l -> x ∈ l.
Proof. intros H. rewrite <- (take_drop n l). apply elem_of_app. by right. Qed.

Lemma mjoin_cons {A} (x : list A) l : mjoin (x :: l) = x ++ mjoin l.
Proof. reflexivity. Qed.

(** ** Automation *)

(** Turn the boolean tests of the code into propositions. *)
Ltac bool_to_prop :=
  repeat match goal with
  | H : (_ && _)%bool = true |- _ => apply andb_prop in H as [? ?]
  | H : (_ || _)%bool = false |- _ => apply orb_false_elim in H as [? ?]
  | H : negb _ = true |- _ => apply negb_true_iff in H
  | H : negb _ = false |- _ => apply negb_false_iff in H
  | H : (_ <=? _) = true |- _ => apply Z.leb_le in H
  | H : (_ <=? _) = false |- _ => apply Z.leb_gt in H
  | H : (_ <? _) = true |- _ => apply Z.ltb_lt in H
  | H : (_ <? _) = false |- _ => apply Z.ltb_ge in H
  | H : (_ =? _) = true |- _ => apply Z.eqb_eq in H
  | H : (_ =? _) = false |- _ => apply Z.eqb_neq in H
  | H : bool_decide _ = true |- _ => apply bool_decide_eq_true in H
  | H : bool_decide _ = false |- _ => apply bool_decide_eq_false in H
  end.

(** Decide a closed goal by computation. *)
Ltac by_decide :=
  match goal with |- ?P => apply (bool_decide_eq_true_1 P); vm_compute; reflexivity end.

(** Case on the innermost scrutinee of the goal, keeping its equation. *)
Ltac case_goal :=
  match goal with
  | |- context [match ?x with _ => _ end] =>
      lazymatch x with
      | context [match _ with _ => _ end] => fail
      | _ => destruct x eqn:?
      end
  end.

Create HintDb wire.
Create Rewrite HintDb wire.
#[export] Hint Rewrite @zlen_app @zlen_cons @zlen_nil zlen_be_put zlen_put_u16 zlen_put_u32 zlen_put_u64 : wire.
#[export] Hint Resolve zlen_nonneg b2z_range be_get_range : wire.

(** Arithmetic on the lengths of concatenated buffers. *)
Ltac wire_lia :=
  first [ autorewrite with wire; simpl Z.of_nat; lia
        | autorewrite with wire in *; simpl Z.of_nat in *; lia ].

(** [s = p ++ m ++ q] up to associativity. *)
Ltac wire_split := try reflexivity; subst; rewrite <- ?app_assoc; simpl; rewrite <- ?app_assoc; reflexivity.
