(* ===== verification/Encoding.v ===== *)
(** * Encoding: the text encodings of Go's standard library the code uses

    [hex] (encoding/hex), [b64] (encoding/base64, RawURLEncoding) and the [%d]
    verb of fmt.  All are executable on byte lists; each has its round trip. *)
From Stdlib Require DecimalString DecimalZ.
From S2P Require Import Prelude.

(** ** encoding/hex *)
Module Hex.

Definition digit (v : Z) : byte :=
  if v <? 10 then z2b (48 + v) else z2b (87 + v).

(** Value of a hex digit, either case. *)
Definition from_digit (b : byte) : option Z :=
  let v := b2z b in
  if (48 <=? v) && (v <=? 57) then Some (v - 48)
  else if (97 <=? v) && (v <=? 102) then Some (v - 87)
  else if (65 <=? v) && (v <=? 70) then Some (v - 55)
  else None.

(** [hex.EncodeToString]. *)
Fixpoint encode (l : bytes) : bytes :=
  match l with
  | [] => []
  | b :: l' => digit (Z.shiftr (b2z b) 4) :: digit (Z.land (b2z b) 15) :: encode l'
  end.

(** [hex.DecodeString]; [None] is the error result. *)
Fixpoint decode (s : bytes) : option bytes :=
  match s with
  | [] => Some []
  | [_] => None
  | h :: l :: s' =>
      match from_digit h, from_digit l, decode s' with
      | Some a, Some b, Some r => Some (z2b (Z.lor (Z.shiftl a 4) b) :: r)
      | _, _, _ => None
      end
  end.

Lemma hex_from_digit v : 0 <= v < 16 -> from_digit (digit v) = Some v.
Proof.
  intros Hv.
  assert (v ∈ (seqZ 0 16)) as H by (apply elem_of_seqZ; lia).
  clear Hv. revert v H. apply Forall_forall. by repeat constructor.
Qed.

Lemma digits_join b :
  Z.lor (Z.shiftl (Z.shiftr (b2z b) 4) 4) (Z.land (b2z b) 15) = b2z b.
Proof.
  rewrite <- Z.ldiff_ones_r by lia. change 15 with (Z.ones 4).
  apply Z.bits_inj'. intros n Hn.
  rewrite Z.lor_spec, Z.ldiff_spec, Z.land_spec.
  destruct (Z.testbit (b2z b) n), (Z.testbit (Z.ones 4) n); reflexivity.
Qed.

Lemma hex_decode_encode l : decode (encode l) = Some l.
Proof.
  induction l as [|b l IH]; [done|]. cbn [encode decode].
  pose proof (b2z_range b).
  rewrite !hex_from_digit.
  - rewrite IH, digits_join, z2b_b2z. reflexivity.
  - change 15 with (Z.ones 4). rewrite Z.land_ones by lia. apply Z.mod_pos_bound. lia.
  - rewrite Z.shiftr_div_pow2 by lia. change (2 ^ 4) with 16.
    split; [apply Z.div_pos; lia|]. apply Z.div_lt_upper_bound; lia.
Qed.

Lemma length_encode l : length (encode l) = (2 * length l)%nat.
Proof. induction l; simpl; lia. Qed.

Lemma decode_length s : forall l, decode s = Some l -> length s = (2 * length l)%nat.
Proof.
  induction s as [s IH] using (induction_ltof1 _ (@length byte)). unfold ltof in IH.
  destruct s as [|h [|lo s]]; intros l; cbn [decode]; [by intros [= <-]|done|].
  destruct (from_digit h); [|done]. destruct (from_digit lo); [|done].
  destruct (decode s) as [r|] eqn:E; [|done]. intros [= <-].
  apply IH in E; simpl in *; lia.
Qed.

Lemma encode_inj a b : encode a = encode b -> a = b.
Proof.
  intros H. assert (Some a = Some b) as [= ->]; [|done].
  by rewrite <- !hex_decode_encode, H.
Qed.

End Hex.

(** ** encoding/base64, RawURLEncoding (no padding, '-' and '_') *)
Module B64.

Definition digit (v : Z) : byte :=
  if v <? 26 then z2b (65 + v)
  else if v <? 52 then z2b (71 + v)
  else if v <? 62 then z2b (v - 4)
  else if v =? 62 then x2d else x5f.

Definition from_digit (b : byte) : option Z :=
  let v := b2z b in
  if (65 <=? v) && (v <=? 90) then Some (v - 65)
  else if (97 <=? v) && (v <=? 122) then Some (v - 71)
  else if (48 <=? v) && (v <=? 57) then Some (v + 4)
  else if v =? 45 then Some 62
  else if v =? 95 then Some 63
  else None.

Fixpoint encode (l : bytes) : bytes :=
  match l with
  | [] => []
  | [a] => let v := be_get [a] in
      [digit (v / 4); digit (v mod 4 * 16)]
  | [a; b] => let v := be_get [a; b] in
      [digit (v / 1024); digit (v / 16 mod 64); digit (v mod 16 * 4)]
  | a :: b :: c :: l' => let v := be_get [a; b; c] in
      digit (v / 262144) :: digit (v / 4096 mod 64) :: digit (v / 64 mod 64)
      :: digit (v mod 64) :: encode l'
  end.

(** The decoder skips CR and LF and does not check the unused trailing bits
    (Go's default, non-strict mode). *)
Definition skip_nl (s : bytes) : bytes :=
  List.filter (fun b => negb (byte_eqb b x0a || byte_eqb b x0d)) s.

Fixpoint decode_digits (l : list Z) : option bytes :=
  match l with
  | [] => Some []
  | [_] => None
  | [a; b] => Some [z2b ((a * 64 + b) / 16)]
  | [a; b; c] => let v := ((a * 64 + b) * 64 + c) / 4 in Some (be_put 2 v)
  | a :: b :: c :: d :: l' =>
      match decode_digits l' with
      | Some r => Some (be_put 3 (((a * 64 + b) * 64 + c) * 64 + d) ++ r)
      | None => None
      end
  end.

(** [base64.RawURLEncoding.DecodeString]; [None] is the error result. *)
Definition decode (s : bytes) : option bytes :=
  match mapM from_digit (skip_nl s) with
  | Some ds => decode_digits ds
  | None => None
  end.

Lemma b64_from_digit v : 0 <= v < 64 -> from_digit (digit v) = Some v.
Proof.
  intros Hv.
  assert (v ∈ (seqZ 0 64)) as H by (apply elem_of_seqZ; lia).
  clear Hv. revert v H. apply Forall_forall. by repeat constructor.
Qed.

Lemma digit_not_nl v : 0 <= v < 64 ->
  (byte_eqb (digit v) x0a || byte_eqb (digit v) x0d) = false.
Proof.
  intros Hv.
  assert (v ∈ (seqZ 0 64)) as H by (apply elem_of_seqZ; lia).
  clear Hv. revert v H. apply Forall_forall. by repeat constructor.
Qed.

(** Decoding a list of digits gives back the digit values. *)
Lemma decode_map_digit ds :
  Forall (fun d => 0 <= d < 64) ds -> decode (map digit ds) = decode_digits ds.
Proof.
  intros Hds. unfold decode.
  replace (skip_nl (map digit ds)) with (map digit ds).
  - replace (mapM from_digit (map digit ds)) with (Some ds); [done|].
    induction Hds as [|d ds Hd Hds IH]; [done|].
    cbn. rewrite b64_from_digit by done. cbn. cbn in IH. by rewrite <- IH.
  - induction Hds as [|d ds Hd Hds IH]; [done|].
    cbn. rewrite digit_not_nl by done. cbn. by f_equal.
Qed.

Fixpoint sextets (l : bytes) : list Z :=
  match l with
  | [] => []
  | [a] => let v := be_get [a] in [v / 4; v mod 4 * 16]
  | [a; b] => let v := be_get [a; b] in [v / 1024; v / 16 mod 64; v mod 16 * 4]
  | a :: b :: c :: l' => let v := be_get [a; b; c] in
      v / 262144 :: v / 4096 mod 64 :: v / 64 mod 64 :: v mod 64 :: sextets l'
  end.

Lemma list_ind3 {A} (P : list A -> Prop) :
  P [] -> (forall a, P [a]) -> (forall a b, P [a; b]) ->
  (forall a b c l, P l -> P (a :: b :: c :: l)) -> forall l, P l.
Proof.
  intros H0 H1 H2 H3 l.
  induction l as [l IH] using (induction_ltof1 _ (@length A)). unfold ltof in IH.
  destruct l as [|a [|b [|c l]]]; auto. apply H3, IH. simpl. lia.
Qed.

Lemma encode_sextets l : encode l = map digit (sextets l).
Proof.
  induction l as [| | |a b c l IH] using list_ind3; [done..|].
  cbn [encode sextets map]. by rewrite IH.
Qed.

Lemma sextets_range l : Forall (fun d => 0 <= d < 64) (sextets l).
Proof.
  induction l as [|a|a b|a b c l IH] using list_ind3; cbn [sextets]; [constructor|..].
  - pose proof (be_get_range [a]) as H. change (256 ^ zlen [a]) with 256 in H.
    repeat constructor; Z.div_mod_to_equations; lia.
  - pose proof (be_get_range [a; b]) as H. change (256 ^ zlen [a; b]) with 65536 in H.
    repeat constructor; Z.div_mod_to_equations; lia.
  - pose proof (be_get_range [a; b; c]) as H.
    change (256 ^ zlen [a; b; c]) with 16777216 in H.
    repeat constructor; try done; Z.div_mod_to_equations; lia.
Qed.

Lemma be_put_get_id n l : length l = n -> be_put n (be_get l) = l.
Proof.
  intros <-. apply be_get_inj; [apply length_be_put|].
  rewrite be_get_put. apply Z.mod_small. apply be_get_range.
Qed.

Lemma decode_digits_sextets l : decode_digits (sextets l) = Some l.
Proof.
  induction l as [|a|a b|a b c l IH] using list_ind3; cbn [sextets decode_digits]; [done|..].
  - pose proof (be_get_range [a]) as H. change (256 ^ zlen [a]) with 256 in H.
    replace (_ / 16) with (be_get [a]) by (Z.div_mod_to_equations; lia).
    change (be_get [a]) with (b2z a). by rewrite z2b_b2z.
  - pose proof (be_get_range [a; b]) as H. change (256 ^ zlen [a; b]) with 65536 in H.
    replace (_ / 4) with (be_get [a; b]) by (Z.div_mod_to_equations; lia).
    by rewrite be_put_get_id.
  - rewrite IH. pose proof (be_get_range [a; b; c]) as H.
    change (256 ^ zlen [a; b; c]) with 16777216 in H.
    replace ((((be_get [a; b; c] / 262144) * 64 + _) * 64 + _) * 64 + _)
      with (be_get [a; b; c]) by (Z.div_mod_to_equations; lia).
    by rewrite be_put_get_id.
Qed.

Lemma b64_decode_encode l : decode (encode l) = Some l.
Proof.
  rewrite encode_sextets, decode_map_digit by apply sextets_range.
  apply decode_digits_sextets.
Qed.

End B64.

(** ** fmt.Sprintf("%d", z) *)
Module Dec.

Definition print (z : Z) : bytes :=
  str (DecimalString.NilZero.string_of_int (Z.to_int z)).

Lemma print_inj a b : print a = print b -> a = b.
Proof.
  unfold print, str. intros H.
  apply (f_equal String.string_of_list_byte) in H.
  rewrite !String.string_of_list_byte_of_string in H.
  apply (f_equal DecimalString.NilZero.int_of_string) in H.
  assert (forall z, DecimalString.NilZero.int_of_string
    (DecimalString.NilZero.string_of_int (Z.to_int z)) = Some (Z.to_int z)) as Hr.
  { intros [|p|p]; apply DecimalString.NilZero.isi; simpl; try discriminate;
      intros [=Hp]; revert Hp; apply DecimalPos.Unsigned.to_uint_nonnil. }
  rewrite !Hr in H. injection H as H.
  by apply (f_equal Z.of_int) in H; rewrite !DecimalZ.of_to in H.
Qed.

End Dec.

(** ** package strings *)

(** ASCII [strings.ToLower]. *)
Definition to_lower (s : bytes) : bytes :=
  (fun b => if (65 <=? b2z b) && (b2z b <=? 90) then z2b (b2z b + 32) else b) <$> s.

(** [strings.TrimRight(s, "/")]. *)
Fixpoint trim_right_slash (s : bytes) : bytes :=
  match s with
  | [] => []
  | b :: s' =>
    match trim_right_slash s' with
    | [] => if byte_eqb b x2f then [] else [b]
    | t => b :: t
    end
  end.

Definition has_prefix (s p : bytes) : bool := bool_decide (take (length p) s = p).

Definition has_suffix (s p : bytes) : bool :=
  bool_decide (length p <= length s)%nat && bool_decide (drop (length s - length p) s = p).

Definition trim_suffix (s p : bytes) : bytes := if has_suffix s p then take (length s - length p) s else s.
