(* ===== verification/Env.v ===== *)
(** * Env: what the program takes from outside the repository

    Cryptography (golang.org/x/crypto and crypto/ed25519), the JSON codec, name
    resolution and address parsing enter the models as operation classes; the
    facts a component relies on are separate law classes, which state documented
    behaviour only.  The [Toy] module instantiates each class with a concrete
    function, so every law is satisfiable. *)
From S2P Require Import Prelude.

(** ** ChaCha20-Poly1305 and BLAKE2b (golang.org/x/crypto) *)

Definition key_size : Z := 32.
Definition nonce_size : Z := 12.
Definition aead_overhead : Z := 16.

Class AEAD := {
  aead_seal : bytes -> bytes -> bytes -> bytes;          (* key nonce plaintext *)
  aead_open : bytes -> bytes -> bytes -> option bytes;   (* key nonce ciphertext *)
  blake2b_256 : bytes -> bytes
}.

Class AEADLaws `{AEAD} : Prop := {
  aead_open_seal : forall k n p, zlen k = key_size -> zlen n = nonce_size ->
    aead_open k n (aead_seal k n p) = Some p;
  aead_open_length : forall k n c p, aead_open k n c = Some p ->
    zlen c = zlen p + aead_overhead;
  blake2b_length : forall m, zlen (blake2b_256 m) = key_size
}.

Lemma aead_seal_length `{AEADLaws} k n p :
  zlen k = key_size -> zlen n = nonce_size -> zlen (aead_seal k n p) = zlen p + aead_overhead.
Proof. intros Hk Hn. by apply (aead_open_length k n), aead_open_seal. Qed.

(** [chacha20poly1305.New]: rejects a key of the wrong size. *)
Definition chacha_new (key : bytes) : res unit :=
  if zlen key =? key_size then Ok tt else Err "chacha20poly1305: bad key length".

(** [rand.Read(buf)] fills [buf]; [rnd] is what the generator delivers. *)
Definition rand_fill (n : Z) (rnd : bytes) : bytes := copy (make_bytes n) rnd.

Lemma zlen_rand_fill n rnd : 0 <= n -> zlen (rand_fill n rnd) = n.
Proof.
  intros. unfold zlen, rand_fill, make_bytes.
  rewrite length_copy, length_replicate. lia.
Qed.

#[export] Hint Rewrite zlen_rand_fill using lia : wire.

(** ** crypto/ed25519 and crypto/sha256 *)

Definition ed25519_public_key_size : Z := 32.
Definition ed25519_signature_size : Z := 64.

Class Signatures := {
  ed25519_check : bytes -> bytes -> bytes -> bool;       (* public key, message, signature *)
  sha256_sum : bytes -> bytes
}.

(** [ed25519.Verify] panics on a public key of the wrong size. *)
Definition ed25519_verify `{Signatures} (pub msg sig : bytes) : res bool :=
  if zlen pub =? ed25519_public_key_size then Ok (ed25519_check pub msg sig) else Panic.

(** ** encoding/json *)

Class JSON (T : Type) := {
  json_marshal : T -> option bytes;
  json_unmarshal : bytes -> option T
}.

(** Decoding what [Marshal] produced gives the value back.  Go replaces invalid
    UTF-8 in strings, so the law is relative to the values [ok] whose strings
    survive (plain ASCII, for the types used here). *)
Class JSONLaws (T : Type) `{JSON T} (ok : T -> Prop) : Prop := {
  json_marshal_total : forall v : T, ok v -> is_Some (json_marshal v);
  json_roundtrip : forall (v : T) b, ok v -> json_marshal v = Some b -> json_unmarshal b = Some v
}.

Definition is_ascii (s : bytes) : Prop := Forall (fun b => b2z b < 128) s.

(** ** package net *)

Class Net := {
  UDPAddr : Type;
  UDPAddr_string : UDPAddr -> bytes;                 (* UDPAddr.String *)
  resolve_udp : bytes -> option UDPAddr;             (* net.ResolveUDPAddr("udp", s) *)
  parse_ip : bytes -> option bytes                   (* net.ParseIP: 16-byte form *)
}.

(** [net.SplitHostPort] up to the port check: host and port of "host:port" or
    "[host]:port", an error otherwise. *)
Fixpoint last_colon (s : bytes) (i : nat) (acc : option nat) : option nat :=
  match s with
  | [] => acc
  | b :: s' => last_colon s' (S i) (if byte_eqb b x3a then Some i else acc)
  end.

Fixpoint find_byte (c : byte) (s : bytes) : option nat :=
  match s with
  | [] => None
  | b :: s' => if byte_eqb b c then Some O else S <$> find_byte c s'
  end.

Definition split_host_port (s : bytes) : option (bytes * bytes) :=
  match last_colon s 0 None with
  | None => None                                       (* missing port *)
  | Some i =>
      match s with
      | x5b :: _ =>                                     (* '[' *)
          match find_byte x5d s with                    (* ']' *)
          | None => None
          | Some e =>
              if Nat.eqb (S e) (length s) then None     (* no ':' behind ']' *)
              else if Nat.eqb (S e) i then
                let host := take (e - 1) (drop 1 s) in
                if existsb (byte_eqb x5b) (drop 1 s) || existsb (byte_eqb x5d) (drop (S e) s)
                then None
                else Some (host, drop (S i) s)
              else None
          end
      | _ =>
          let host := take i s in
          if existsb (byte_eqb x3a) host then None      (* too many colons *)
          else if existsb (byte_eqb x5b) s || existsb (byte_eqb x5d) s then None
          else Some (host, drop (S i) s)
      end
  end.

(** [net.IP.IsUnspecified] on the 16-byte form: "::" or "0.0.0.0". *)
Definition v4_in_v6_prefix : bytes := replicate 10 x00 ++ [xff; xff].
Definition ip_is_unspecified (ip : bytes) : bool :=
  bool_decide (ip = replicate 16 x00) ||
  bool_decide (ip = v4_in_v6_prefix ++ replicate 4 x00) ||
  bool_decide (ip = replicate 4 x00).

(** ** Concrete instances *)
Module Toy.

(** A cipher that appends a constant 16-byte tag and checks it. *)
Definition tag : bytes := replicate 16 x00.

#[export] Instance aead : AEAD := {
  aead_seal := fun k n p => p ++ tag;
  aead_open := fun k n c =>
    let m := (length c - 16)%nat in
    if bool_decide (drop m c = tag) then Some (take m c) else None;
  blake2b_256 := fun m => copy (make_bytes 32) m
}.

#[export] Instance aead_laws : AEADLaws.
Proof.
  split.
  - intros k n p _ _. simpl. unfold tag. rewrite length_app, length_replicate.
    replace (length p + 16 - 16)%nat with (length p) by lia.
    rewrite drop_app_length, bool_decide_eq_true_2, take_app_length; done.
  - intros k n c p. simpl. case_bool_decide as Ht; [|done]. intros [= <-].
    apply (f_equal length) in Ht. unfold tag in Ht.
    rewrite length_drop, length_replicate in Ht.
    unfold zlen, aead_overhead. rewrite length_take. lia.
  - intros m. apply (zlen_rand_fill 32). lia.
Qed.

(** Accepts the signature made of the message's first 64 bytes (zero padded). *)
Definition sign (msg : bytes) : bytes := copy (make_bytes 64) msg.

#[export] Instance signatures : Signatures := {
  ed25519_check := fun pub msg sig => bool_decide (sig = sign msg);
  sha256_sum := fun m => copy (make_bytes 32) m
}.

(** Any countable type is serialised through its code. *)
Fixpoint pos_bits (p : positive) : bytes :=
  match p with
  | xH => []
  | xO p => x00 :: pos_bits p
  | xI p => x01 :: pos_bits p
  end.

Fixpoint bits_pos (l : bytes) : option positive :=
  match l with
  | [] => Some xH
  | x00 :: l => xO <$> bits_pos l
  | x01 :: l => xI <$> bits_pos l
  | _ => None
  end.

Lemma bits_pos_bits p : bits_pos (pos_bits p) = Some p.
Proof. induction p as [p IH|p IH|]; simpl; rewrite ?IH; done. Qed.

Definition json_of_countable (T : Type) `{Countable T} : JSON T := {|
  json_marshal := fun v => Some (pos_bits (encode v));
  json_unmarshal := fun b => p ← bits_pos b; decode p
|}.

Lemma json_of_countable_laws (T : Type) `{Countable T} :
  forall ok, @JSONLaws T (json_of_countable T) ok.
Proof.
  split.
  - intros v _. eexists. reflexivity.
  - intros v b _ [= <-]. simpl. by rewrite bits_pos_bits; simpl; rewrite decode_encode.
Qed.

(** Addresses are their own textual form; every numeric IP parses to zeros but
    one. *)
#[export] Instance net : Net := {
  UDPAddr := bytes;
  UDPAddr_string := fun a => a;
  resolve_udp := fun s => if bool_decide (s = []) then None else Some s;
  parse_ip := fun s => if bool_decide (s = str "0.0.0.0") then Some (replicate 16 x00)
    else if bool_decide (s = []) then None else Some (copy (replicate 16 x01) s)
}.

End Toy.
