(* ===== verification/DhtId.v ===== *)
(** * DhtId: 256-bit node identifiers and the XOR metric (dht/dht.go)

    An [ID] is the code's [[32]byte]; the operations are those of the type, and
    the lemmas relate them to the number an identifier denotes. *)
From Stdlib Require Import Eqdep_dec.
From S2P Require Import Prelude Encoding Env.

Definition IDBits : Z := 256.
Definition IDBytes : nat := 32.

(** [type ID [IDBytes]byte]. *)
Record ID := MkID {
  id_raw : bytes;
  id_ok : Nat.eqb (length id_raw) IDBytes = true
}.

Lemma id_length (a : ID) : length (id_raw a) = IDBytes.
Proof. apply Nat.eqb_eq, id_ok. Qed.

Lemma id_eq (a b : ID) : id_raw a = id_raw b -> a = b.
Proof.
  destruct a as [a Ha], b as [b Hb]. simpl. intros ->. f_equal.
  apply UIP_dec. apply Bool.bool_dec.
Qed.

#[global] Instance ID_eq_dec : EqDecision ID.
Proof.
  intros a b. destruct (decide (id_raw a = id_raw b)) as [H|H].
  - left. by apply id_eq.
  - right. congruence.
Defined.

Definition mk_id (l : bytes) : option ID :=
  match Bool.bool_dec (Nat.eqb (length l) IDBytes) true with
  | left H => Some (MkID l H)
  | right _ => None
  end.

Lemma mk_id_raw (a : ID) : mk_id (id_raw a) = Some a.
Proof.
  unfold mk_id. destruct (Bool.bool_dec _ _) as [H|H].
  - f_equal. by apply id_eq.
  - destruct H. apply id_ok.
Qed.

Lemma mk_id_Some l a : mk_id l = Some a -> id_raw a = l.
Proof. unfold mk_id. destruct (Bool.bool_dec _ _); [|done]. by intros [= <-]. Qed.

Lemma mk_id_None l : length l <> IDBytes -> mk_id l = None.
Proof.
  unfold mk_id. destruct (Bool.bool_dec _ _) as [H|]; [|done].
  intros []. by apply Nat.eqb_eq.
Qed.

(** [ParseID]: 64 hex characters of either case. *)
Definition ParseID (s : bytes) : option ID :=
  match Hex.decode s with
  | Some b => if zlen b =? Z.of_nat IDBytes then mk_id b else None
  | None => None
  end.

(** [ID.String]. *)
Definition id_String (a : ID) : bytes := Hex.encode (id_raw a).

(** [byte ^ byte]. *)
Definition byte_xor (a b : byte) : byte := z2b (Z.lxor (b2z a) (b2z b)).

Lemma xor_ok (a b : ID) :
  Nat.eqb (length (zip_with byte_xor (id_raw a) (id_raw b))) IDBytes = true.
Proof. rewrite length_zip_with, !id_length. reflexivity. Qed.

(** [ID.XOR]. *)
Definition XOR (a b : ID) : ID :=
  MkID (zip_with byte_xor (id_raw a) (id_raw b)) (xor_ok a b).

(** [bits.LeadingZeros8]. *)
Definition leading_zeros8 (b : byte) : Z :=
  if b2z b =? 0 then 8 else 7 - Z.log2 (b2z b).

(** The scanning loop of [ID.BucketIndex] from byte [i] on. *)
Fixpoint bucket_index_from (i : Z) (l : bytes) : Z :=
  match l with
  | [] => IDBits - 1
  | b :: l' => if b2z b =? 0 then bucket_index_from (i + 1) l'
               else i * 8 + leading_zeros8 b
  end.

(** [ID.BucketIndex]. *)
Definition BucketIndex (d : ID) : Z := bucket_index_from 0 (id_raw d).

(** The comparison loop of [ID.Closer]. *)
Fixpoint bytes_less (da db : bytes) : bool :=
  match da, db with
  | a :: da', b :: db' => if b2z a =? b2z b then bytes_less da' db' else b2z a <? b2z b
  | _, _ => false
  end.

(** [ID.Closer]: [a] is XOR-closer to [target] than [b]. *)
Definition Closer (a b target : ID) : bool :=
  bytes_less (id_raw (XOR a target)) (id_raw (XOR b target)).

(** ** The number an identifier denotes *)

Definition id_val (a : ID) : Z := be_get (id_raw a).
Definition distance (a b : ID) : Z := id_val (XOR a b).

Lemma id_val_range a : 0 <= id_val a < 2 ^ IDBits.
Proof.
  pose proof (be_get_range (id_raw a)) as H. unfold zlen in H.
  rewrite id_length in H. unfold id_val. exact H.
Qed.

Lemma id_val_inj a b : id_val a = id_val b -> a = b.
Proof. intros H. apply id_eq, be_get_inj; [by rewrite !id_length|done]. Qed.

(** A number below [2^n] has no bit at or above [n], and conversely. *)
Lemma testbit_small b n k : 0 <= b < 2 ^ n -> n <= k -> Z.testbit b k = false.
Proof.
  intros Hb Hk. destruct (Z.eq_dec b 0) as [->|]; [apply Z.bits_0|].
  apply Z.bits_above_log2; [lia|].
  assert (Z.log2 b < n) by (apply Z.log2_lt_pow2; lia). lia.
Qed.

Lemma lxor_small u v n :
  0 <= n -> 0 <= u < 2 ^ n -> 0 <= v < 2 ^ n -> 0 <= Z.lxor u v < 2 ^ n.
Proof.
  intros Hn Hu Hv. rewrite <- (Z.mod_small u (2 ^ n)), <- (Z.mod_small v (2 ^ n)) by lia.
  rewrite <- !Z.land_ones by lia.
  replace (Z.lxor _ _) with (Z.land (Z.lxor u v) (Z.ones n)).
  - rewrite Z.land_ones by lia. apply Z.mod_pos_bound. lia.
  - apply Z.bits_inj'. intros k Hk. rewrite !Z.lxor_spec, !Z.land_spec, Z.lxor_spec.
    by destruct (Z.testbit u k), (Z.testbit v k), (Z.testbit (Z.ones n) k).
Qed.

Lemma b2z_xor a b : b2z (byte_xor a b) = Z.lxor (b2z a) (b2z b).
Proof.
  unfold byte_xor. rewrite b2z_z2b. apply Z.mod_small.
  apply (lxor_small _ _ 8); [lia|apply b2z_range..].
Qed.

Lemma mul_add_testbit a b n k :
  0 <= n -> 0 <= b < 2 ^ n -> 0 <= k ->
  Z.testbit (a * 2 ^ n + b) k = if k <? n then Z.testbit b k else Z.testbit a (k - n).
Proof.
  intros Hn Hb Hk. destruct (k <? n) eqn:E; bool_to_prop.
  - rewrite <- (Z.mod_pow2_bits_low (a * 2 ^ n + b) n k) by lia.
    rewrite Z.add_comm, Z.mod_add, Z.mod_small by lia. done.
  - replace (Z.testbit a (k - n)) with (Z.testbit ((a * 2 ^ n + b) / 2 ^ n) (k - n)).
    + rewrite Z.div_pow2_bits by lia. f_equal. lia.
    + f_equal. rewrite Z.add_comm, Z.div_add, Z.div_small by lia. lia.
Qed.

(** Concatenating digits commutes with bitwise xor. *)
Lemma lxor_shift_add x y u v n :
  0 <= n -> 0 <= u < 2 ^ n -> 0 <= v < 2 ^ n ->
  Z.lxor (x * 2 ^ n + u) (y * 2 ^ n + v) = Z.lxor x y * 2 ^ n + Z.lxor u v.
Proof.
  intros Hn Hu Hv. apply Z.bits_inj'. intros k Hk.
  rewrite Z.lxor_spec, !mul_add_testbit by (try apply lxor_small; lia).
  destruct (k <? n); by rewrite Z.lxor_spec.
Qed.

Lemma be_get_xor l1 l2 :
  length l1 = length l2 ->
  be_get (zip_with byte_xor l1 l2) = Z.lxor (be_get l1) (be_get l2).
Proof.
  revert l2. induction l1 as [|a l1 IH]; intros [|b l2]; try discriminate; [done|].
  intros [= Hl]. cbn [zip_with]. rewrite !be_get_cons, IH, b2z_xor by done.
  unfold zlen. rewrite length_zip_with, <- Hl, Nat.min_id.
  pose proof (be_get_range l1) as H1. pose proof (be_get_range l2) as H2.
  unfold zlen in H1, H2. rewrite <- Hl in H2.
  assert (256 ^ Z.of_nat (length l1) = 2 ^ (8 * Z.of_nat (length l1))) as E
    by (rewrite Z.pow_mul_r by lia; done).
  rewrite E in *. rewrite lxor_shift_add by lia. done.
Qed.

Lemma distance_lxor a b : distance a b = Z.lxor (id_val a) (id_val b).
Proof. unfold distance, id_val. apply be_get_xor. by rewrite !id_length. Qed.

Lemma distance_sym a b : distance a b = distance b a.
Proof. rewrite !distance_lxor. apply Z.lxor_comm. Qed.

Lemma distance_zero a b : distance a b = 0 <-> a = b.
Proof.
  rewrite distance_lxor. split.
  - intros H%Z.lxor_eq. by apply id_val_inj.
  - intros ->. apply Z.lxor_nilpotent.
Qed.

Lemma distance_triangle a b c : distance a c <= distance a b + distance b c.
Proof.
  rewrite !distance_lxor.
  assert (Z.lxor (id_val a) (id_val c) =
    Z.lxor (Z.lxor (id_val a) (id_val b)) (Z.lxor (id_val b) (id_val c))) as ->.
  { rewrite Z.lxor_assoc, <- (Z.lxor_assoc (id_val b)), Z.lxor_nilpotent.
    by rewrite Z.lxor_0_l. }
  rewrite <- (Z.add_lxor_2land (Z.lxor (id_val a) (id_val b))).
  assert (0 <= Z.land (Z.lxor (id_val a) (id_val b)) (Z.lxor (id_val b) (id_val c))); [|lia].
  apply Z.land_nonneg. left. apply Z.lxor_nonneg.
  pose proof (id_val_range a). pose proof (id_val_range b). lia.
Qed.

(** ** The comparison loop and the bucket index *)

Lemma bytes_less_val l1 l2 :
  length l1 = length l2 -> bytes_less l1 l2 = (be_get l1 <? be_get l2).
Proof.
  revert l2. induction l1 as [|a l1 IH]; intros [|b l2]; try discriminate; [done|].
  intros [= Hl]. cbn [bytes_less]. rewrite !be_get_cons.
  pose proof (be_get_range l1) as H1. pose proof (be_get_range l2) as H2.
  replace (zlen l2) with (zlen l1) in * by (unfold zlen; lia).
  destruct (b2z a =? b2z b) eqn:E; bool_to_prop.
  - rewrite IH by done. rewrite E.
    destruct (be_get l1 <? be_get l2) eqn:F; bool_to_prop; symmetry;
      [apply Z.ltb_lt|apply Z.ltb_ge]; lia.
  - destruct (b2z a <? b2z b) eqn:F; bool_to_prop; symmetry;
      [apply Z.ltb_lt|apply Z.ltb_ge]; nia.
Qed.

Lemma bucket_index_from_spec i l :
  be_get l <> 0 -> bucket_index_from i l = 8 * (i + zlen l) - 1 - Z.log2 (be_get l).
Proof.
  revert i. induction l as [|b l IH]; intros i; [by vm_compute|].
  rewrite be_get_cons. cbn [bucket_index_from].
  pose proof (b2z_range b). pose proof (be_get_range l). pose proof (zlen_nonneg l).
  assert (256 ^ zlen l = 2 ^ (8 * zlen l)) as E by (rewrite Z.pow_mul_r by lia; done).
  rewrite zlen_cons. destruct (b2z b =? 0) eqn:F; bool_to_prop.
  - rewrite F. intros Hne. rewrite IH by lia. rewrite Z.mul_0_l, Z.add_0_l. lia.
  - intros _. unfold leading_zeros8. rewrite (proj2 (Z.eqb_neq _ _) F).
    assert (Z.log2 (b2z b * 256 ^ zlen l + be_get l) = Z.log2 (b2z b) + 8 * zlen l) as ->; [|lia].
    pose proof (Z.log2_spec (b2z b) ltac:(lia)). pose proof (Z.log2_nonneg (b2z b)).
    rewrite E in *. apply Z.log2_unique; [lia|].
    rewrite <- Z.add_succ_l, !Z.pow_add_r by lia. nia.
Qed.

Lemma bucket_index_log2 d :
  id_val d <> 0 -> BucketIndex d = 255 - Z.log2 (id_val d).
Proof.
  intros H. unfold BucketIndex, id_val in *. rewrite bucket_index_from_spec by done.
  unfold zlen. rewrite id_length. unfold IDBytes. lia.
Qed.

Lemma bucket_index_zero d : id_val d = 0 -> BucketIndex d = 255.
Proof.
  unfold BucketIndex, id_val.
  enough (forall l i, be_get l = 0 -> bucket_index_from i l = 255) by eauto.
  induction l as [|b l IH]; intros i; [done|]. rewrite be_get_cons. cbn [bucket_index_from].
  pose proof (b2z_range b). pose proof (be_get_range l).
  pose proof (pow256_pos (zlen l) (zlen_nonneg l)). intros Hz.
  assert (b2z b = 0) as -> by nia. simpl. apply IH. nia.
Qed.

Lemma bucket_index_range d : 0 <= BucketIndex d < IDBits.
Proof.
  destruct (Z.eq_dec (id_val d) 0) as [E|E].
  - rewrite bucket_index_zero by done. done.
  - rewrite bucket_index_log2 by done. pose proof (id_val_range d).
    assert (Z.log2 (id_val d) < 256) by (apply Z.log2_lt_pow2; unfold IDBits in *; lia).
    pose proof (Z.log2_nonneg (id_val d)). unfold IDBits. lia.
Qed.

(** The XOR distance of the routing table is a metric on identifiers: zero
    exactly on equal identifiers, symmetric, with the triangle inequality, and
    unidirectional (one identifier at each distance). *)
Theorem xor_distance_metric (a b c : ID) :
  (id_val (XOR a b) = 0 <-> a = b) /\
  XOR a b = XOR b a /\
  id_val (XOR a c) <= id_val (XOR a b) + id_val (XOR b c) /\
  (XOR a b = XOR a c -> b = c).
Proof.
  split; [apply distance_zero|]. split; [apply id_val_inj, distance_sym|].
  split; [apply distance_triangle|].
  intros H%(f_equal id_val). change (distance a b = distance a c) in H.
  rewrite !distance_lxor in H. apply id_val_inj.
  apply (f_equal (Z.lxor (id_val a))) in H.
  by rewrite <- !Z.lxor_assoc, !Z.lxor_nilpotent, !Z.lxor_0_l in H.
Qed.

(** [Closer] is the strict order of XOR distances read as 256-bit
    big-endian numbers. *)
Theorem closer_compares_distance (a b target : ID) :
  Closer a b target = (id_val (XOR a target) <? id_val (XOR b target)).
Proof. apply bytes_less_val. by rewrite !id_length. Qed.

(** Two distinct identifiers whose distance falls in bucket [i] agree on
    their first [i] bits and differ in the next one; the index is a valid bucket. *)
Theorem bucket_index_common_prefix (a b : ID) (Hne : a <> b) :
  let i := BucketIndex (XOR a b) in
  0 <= i < IDBits /\
  (forall k, 0 <= k < i ->
     Z.testbit (id_val a) (255 - k) = Z.testbit (id_val b) (255 - k)) /\
  Z.testbit (id_val a) (255 - i) <> Z.testbit (id_val b) (255 - i).
Proof.
  intros i. assert (id_val (XOR a b) <> 0) as Hd by (by intros E%distance_zero).
  assert (Z.log2 (id_val (XOR a b)) = 255 - i) as Hlog
    by (unfold i; rewrite bucket_index_log2 by done; lia).
  pose proof (id_val_range (XOR a b)) as Hr.
  pose proof (distance_lxor a b) as Hx. unfold distance in Hx.
  split; [apply bucket_index_range|]. split.
  - intros k Hk. apply xorb_eq. rewrite <- Z.lxor_spec, <- Hx.
    apply Z.bits_above_log2; lia.
  - intros E. assert (Z.testbit (id_val (XOR a b)) (255 - i) = true) as T
      by (rewrite <- Hlog; apply Z.bit_log2; lia).
    rewrite Hx, Z.lxor_spec, E, xorb_nilpotent in T. done.
Qed.

Definition id_of_byte (b : byte) : ID :=
  default (MkID (replicate 32 x00) eq_refl) (mk_id (b :: replicate 31 x00)).

Lemma bucket_index_common_prefix_witness :
  BucketIndex (XOR (id_of_byte x10) (id_of_byte x11)) = 7 /\
  Z.testbit (id_val (id_of_byte x10)) 248 <> Z.testbit (id_val (id_of_byte x11)) 248.
Proof.
  assert (id_of_byte x10 <> id_of_byte x11) as H by (intros E%(f_equal id_raw); by vm_compute in E).
  destruct (bucket_index_common_prefix _ _ H) as (_ & _ & H3).
  split; [by vm_compute|].
  intros E. apply H3. vm_compute. by vm_compute in E.
Defined.

Lemma parse_id_String a : ParseID (id_String a) = Some a.
Proof.
  unfold ParseID, id_String. rewrite Hex.hex_decode_encode.
  unfold zlen. rewrite id_length. simpl. apply mk_id_raw.
Qed.

(** Parsing the textual form of an identifier gives it back, and [ParseID]
    accepts nothing that is not 64 hex characters. *)
Theorem parse_id_roundtrip (a : ID) :
  ParseID (id_String a) = Some a /\
  forall s b, ParseID s = Some b -> length s = 64%nat /\ ParseID (id_String b) = Some b.
Proof.
  split; [apply parse_id_String|]. intros s b. unfold ParseID at 1.
  destruct (Hex.decode s) as [l|] eqn:E; [|done].
  destruct (zlen l =? _) eqn:F; [|done]. bool_to_prop. intros _.
  split; [|apply parse_id_String]. apply Hex.decode_length in E. unfold zlen, IDBytes in F. lia.
Qed.
