(* ===== verification/DhtTable.v ===== *)
(** * DhtTable: contacts, buckets and the Kademlia routing table (dht/dht.go)

    A bucket is the code's slice of contacts, oldest first; the table is the
    array of [IDBits] buckets.  Every method of the code holds the table's lock
    for its whole body, so each is one atomic function on the table. *)
From S2P Require Import Prelude Encoding Env DhtId.

Definition K : Z := 8.
Definition maxMissedPings : Z := 4.

Record Contact := mkContact {
  c_ID : ID;
  c_Addr : bytes;
  c_LastSeen : Z;
  c_MissedPings : Z;
  c_Suspect : bool
}.

#[global] Instance Contact_eq_dec : EqDecision Contact.
Proof. solve_decision. Defined.

(** ** bucket *)
Module Bucket.

Abbreviation t := (list Contact).

(** Index of the first contact with this identifier (the loops over
    [b.contacts] that stop at [e.ID == id]). *)
Definition find (b : t) (id : ID) : option nat := fst <$> list_find (fun e => c_ID e = id) b.

Definition add (b : t) (c : Contact) : t :=
  match find b (c_ID c) with
  | Some i => <[i := c]> b
  | None => (if zlen b >=? K then drop 1 b else b) ++ [c]
  end.

Definition remove (b : t) (id : ID) : t :=
  match find b id with
  | Some i => take i b ++ drop (S i) b
  | None => b
  end.

Definition mark (e : Contact) : Contact :=
  mkContact (c_ID e) (c_Addr e) (c_LastSeen e) (c_MissedPings e + 1) true.

Definition markMissed (b : t) (id : ID) : t :=
  match list_find (fun e => c_ID e = id) b with
  | Some (i, e) =>
      let b' := <[i := mark e]> b in
      if c_MissedPings (mark e) >=? maxMissedPings then take i b' ++ drop (S i) b' else b'
  | None => b
  end.

Definition clear (e : Contact) : Contact :=
  mkContact (c_ID e) (c_Addr e) (c_LastSeen e) 0 false.

Definition resetMissed (b : t) (id : ID) : t :=
  match list_find (fun e => c_ID e = id) b with
  | Some (i, e) => <[i := clear e]> b
  | None => b
  end.

(** The contact the bucket holds for [id]. *)
Definition lookup (b : t) (id : ID) : option Contact :=
  snd <$> list_find (fun e => c_ID e = id) b.

End Bucket.

(** ** RoutingTable *)

Record RoutingTable := mkRT {
  rt_self : ID;
  rt_buckets : list Bucket.t
}.

Definition NewRoutingTable (self : ID) : RoutingTable :=
  mkRT self (replicate (Z.to_nat IDBits) []).

(** The bucket of the table responsible for [id]. *)
Definition bucket_of (rt : RoutingTable) (id : ID) : nat :=
  Z.to_nat (BucketIndex (XOR (rt_self rt) id)).

Definition on_bucket (rt : RoutingTable) (id : ID) (f : Bucket.t -> Bucket.t) : RoutingTable :=
  mkRT (rt_self rt) (alter f (bucket_of rt id) (rt_buckets rt)).

Definition rt_Add (rt : RoutingTable) (c : Contact) : RoutingTable :=
  if decide (c_ID c = rt_self rt) then rt
  else on_bucket rt (c_ID c) (fun b => Bucket.add b c).

Definition rt_Remove (rt : RoutingTable) (id : ID) : RoutingTable :=
  on_bucket rt id (fun b => Bucket.remove b id).

Definition rt_MarkMissed (rt : RoutingTable) (id : ID) : RoutingTable :=
  on_bucket rt id (fun b => Bucket.markMissed b id).

Definition rt_ResetMissed (rt : RoutingTable) (id : ID) : RoutingTable :=
  on_bucket rt id (fun b => Bucket.resetMissed b id).

Definition rt_All (rt : RoutingTable) : list Contact := mjoin (rt_buckets rt).

Definition rt_SuspectContacts (rt : RoutingTable) : list Contact :=
  List.filter c_Suspect (rt_All rt).

Definition rt_Size (rt : RoutingTable) : Z :=
  fold_left (fun n b => n + zlen b) (rt_buckets rt) 0.

(** The sort key of [Closest]: the first eight bytes of the distance. *)
Definition dist64 (target : ID) (c : Contact) : Z :=
  be_get (take 8 (id_raw (XOR (c_ID c) target))).

Definition live_contacts (rt : RoutingTable) : list Contact :=
  List.filter (fun c => negb (c_Suspect c)) (rt_All rt).

Definition rt_Closest `{SliceSort} (rt : RoutingTable) (target : ID) (n : Z) : list Contact :=
  let all := sort_slice (fun x y => dist64 target x <? dist64 target y) (live_contacts rt) in
  if zlen all >? n then take (Z.to_nat n) all else all.

(** The table as a map from identifiers to contacts. *)
Definition rt_lookup (rt : RoutingTable) (id : ID) : option Contact :=
  b ← rt_buckets rt !! bucket_of rt id; Bucket.lookup b id.

(** ** Well-formed tables *)

Definition contact_wf (c : Contact) : Prop :=
  0 <= c_MissedPings c < maxMissedPings /\ c_Suspect c = (0 <? c_MissedPings c).

Record bucket_wf (self : ID) (i : nat) (b : Bucket.t) : Prop := {
  bwf_size : zlen b <= K;
  bwf_nodup : NoDup (c_ID <$> b);
  bwf_place : Forall (fun c => c_ID c <> self /\
                Z.to_nat (BucketIndex (XOR self (c_ID c))) = i) b;
  bwf_contacts : Forall contact_wf b
}.

Record table_wf (rt : RoutingTable) : Prop := {
  twf_len : length (rt_buckets rt) = Z.to_nat IDBits;
  twf_buckets : forall i b, rt_buckets rt !! i = Some b -> bucket_wf (rt_self rt) i b
}.

(** The part of it that holds whatever contacts are added. *)
Record bucket_shape (self : ID) (i : nat) (b : Bucket.t) : Prop := {
  bs_size : zlen b <= K;
  bs_nodup : NoDup (c_ID <$> b);
  bs_place : Forall (fun c => c_ID c <> self /\
                Z.to_nat (BucketIndex (XOR self (c_ID c))) = i) b
}.

Record table_shape (rt : RoutingTable) : Prop := {
  ts_len : length (rt_buckets rt) = Z.to_nat IDBits;
  ts_buckets : forall i b, rt_buckets rt !! i = Some b -> bucket_shape (rt_self rt) i b
}.

(** ** Bucket lemmas *)

Section bucket_lemmas.
Implicit Types (b : Bucket.t) (c e : Contact) (id : ID).

Lemma list_find_none b id :
  list_find (fun e => c_ID e = id) b = None <-> id ∉ (c_ID <$> b).
Proof.
  rewrite list_find_None, Forall_forall. split.
  - intros H (x & -> & Hx)%list_elem_of_fmap. by eapply H.
  - intros H x Hx <-. apply H. by apply list_elem_of_fmap_2.
Qed.

Lemma lookup_cons c b id :
  Bucket.lookup (c :: b) id = if decide (c_ID c = id) then Some c else Bucket.lookup b id.
Proof.
  unfold Bucket.lookup. simpl. destruct (decide (c_ID c = id)); [done|].
  by destruct (list_find _ b) as [[??]|].
Qed.

Lemma lookup_app b1 b2 id :
  Bucket.lookup (b1 ++ b2) id =
  match Bucket.lookup b1 id with Some c => Some c | None => Bucket.lookup b2 id end.
Proof.
  induction b1 as [|e b1 IH]; [done|]. simpl app. rewrite !lookup_cons.
  by destruct (decide _).
Qed.

Lemma lookup_nil id : Bucket.lookup [] id = None.
Proof. done. Qed.

Lemma lookup_none b id : Bucket.lookup b id = None <-> id ∉ (c_ID <$> b).
Proof.
  rewrite <- list_find_none. unfold Bucket.lookup.
  destruct (list_find _ b) as [[??]|]; done.
Qed.

Lemma lookup_some b id c : Bucket.lookup b id = Some c -> c ∈ b /\ c_ID c = id.
Proof.
  unfold Bucket.lookup. destruct (list_find _ b) as [[i e]|] eqn:E; [|done].
  simpl. intros [= ->]. apply list_find_Some in E as (Hi & He & _).
  split; [|done]. by eapply list_elem_of_lookup_2.
Qed.

Lemma lookup_elem b c : NoDup (c_ID <$> b) -> c ∈ b -> Bucket.lookup b (c_ID c) = Some c.
Proof.
  induction b as [|e b IH]; [by intros _ ?%not_elem_of_nil|].
  rewrite fmap_cons. intros [Hn Hnd]%NoDup_cons [->|Hc]%elem_of_cons; rewrite lookup_cons.
  - by rewrite decide_True.
  - rewrite decide_False; [by apply IH|]. intros E. apply Hn. rewrite E.
    by apply list_elem_of_fmap_2.
Qed.

(** Either the bucket has no contact with [id], or it splits around the first. *)
Lemma bucket_view b id :
  (list_find (fun e => c_ID e = id) b = None /\ id ∉ (c_ID <$> b)) \/
  (exists p e q, b = p ++ e :: q /\ c_ID e = id /\ (id ∉ (c_ID <$> p)) /\
    list_find (fun e => c_ID e = id) b = Some (length p, e)).
Proof.
  destruct (list_find _ b) as [[i e]|] eqn:E; [right|left].
  - assert (length (take i b) = i) as Hlen.
    { apply list_find_Some in E as (Hi & _). apply lookup_lt_Some in Hi.
      rewrite length_take. lia. }
    apply list_find_Some in E as (Hi & He & Hbefore).
    exists (take i b), e, (drop (S i) b).
    rewrite take_drop_middle, Hlen by done. repeat split; try done.
    intros (x & -> & Hx)%list_elem_of_fmap.
    apply list_elem_of_lookup in Hx as [j Hj].
    apply lookup_take_Some in Hj as [Hj Hlt]. by eapply Hbefore.
  - split; [done|]. by apply list_find_none.
Qed.

Lemma middle_insert {A} (p q : list A) x y : <[length p := y]> (p ++ x :: q) = p ++ y :: q.
Proof. rewrite insert_app_r_alt by lia. by rewrite Nat.sub_diag. Qed.

Lemma middle_remove {A} (p q : list A) x :
  take (length p) (p ++ x :: q) ++ drop (S (length p)) (p ++ x :: q) = p ++ q.
Proof.
  rewrite take_app_length. f_equal. change (x :: q) with ([x] ++ q).
  rewrite app_assoc. replace (S (length p)) with (length (p ++ [x])).
  - apply drop_app_length.
  - rewrite length_app. simpl. lia.
Qed.

Lemma add_found p e q c :
  list_find (fun x => c_ID x = c_ID c) (p ++ e :: q) = Some (length p, e) ->
  Bucket.add (p ++ e :: q) c = p ++ c :: q.
Proof. intros E. unfold Bucket.add, Bucket.find. rewrite E. apply middle_insert. Qed.

Lemma remove_found p e q id :
  list_find (fun x => c_ID x = id) (p ++ e :: q) = Some (length p, e) ->
  Bucket.remove (p ++ e :: q) id = p ++ q.
Proof. intros E. unfold Bucket.remove, Bucket.find. rewrite E. apply middle_remove. Qed.

Lemma mark_found p e q id :
  list_find (fun x => c_ID x = id) (p ++ e :: q) = Some (length p, e) ->
  Bucket.markMissed (p ++ e :: q) id =
  if c_MissedPings e + 1 >=? maxMissedPings then p ++ q else p ++ Bucket.mark e :: q.
Proof.
  intros E. unfold Bucket.markMissed. rewrite E. cbv zeta beta iota.
  by rewrite middle_insert, middle_remove.
Qed.

Lemma reset_found p e q id :
  list_find (fun x => c_ID x = id) (p ++ e :: q) = Some (length p, e) ->
  Bucket.resetMissed (p ++ e :: q) id = p ++ Bucket.clear e :: q.
Proof. intros E. unfold Bucket.resetMissed. rewrite E. apply middle_insert. Qed.

Lemma bucket_wf_replace self i p e q c :
  bucket_wf self i (p ++ e :: q) -> c_ID c = c_ID e -> contact_wf c ->
  bucket_wf self i (p ++ c :: q).
Proof.
  intros [H1 H2 H3 H4] Hid Hc. split.
  - unfold zlen in *. rewrite length_app in *. done.
  - rewrite fmap_app, fmap_cons in *. by rewrite Hid.
  - rewrite Forall_app, Forall_cons in *. rewrite Hid. done.
  - rewrite Forall_app, Forall_cons in *. naive_solver.
Qed.

Lemma bucket_wf_drop self i p e q :
  bucket_wf self i (p ++ e :: q) -> bucket_wf self i (p ++ q).
Proof.
  intros [H1 H2 H3 H4]. split.
  - unfold zlen in *. rewrite length_app in *. simpl in *. lia.
  - rewrite fmap_app, fmap_cons in *. apply NoDup_app in H2 as (Ha & Hb & Hc).
    apply NoDup_cons in Hc as [_ Hc]. apply NoDup_app. set_solver.
  - rewrite Forall_app, Forall_cons in *. naive_solver.
  - rewrite Forall_app, Forall_cons in *. naive_solver.
Qed.

Lemma bucket_wf_snoc self i b c :
  bucket_wf self i b -> zlen b < K -> c_ID c ∉ (c_ID <$> b) -> c_ID c <> self ->
  Z.to_nat (BucketIndex (XOR self (c_ID c))) = i -> contact_wf c ->
  bucket_wf self i (b ++ [c]).
Proof.
  intros [H1 H2 H3 H4] Hl Hn Hs Hi Hc. split.
  - rewrite zlen_app. unfold zlen at 2. simpl. lia.
  - rewrite fmap_app. simpl. apply NoDup_app.
    split; [done|]. split; [|apply NoDup_singleton]. set_solver.
  - rewrite Forall_app. split; [done|]. by apply Forall_singleton.
  - rewrite Forall_app. split; [done|]. by apply Forall_singleton.
Qed.

Lemma bucket_add_wf self i b c :
  bucket_wf self i b -> c_ID c <> self ->
  Z.to_nat (BucketIndex (XOR self (c_ID c))) = i -> contact_wf c ->
  bucket_wf self i (Bucket.add b c).
Proof.
  intros Hb Hs Hi Hc.
  destruct (bucket_view b (c_ID c)) as [[E Hn]|(p & e & q & -> & He & Hp & E)].
  - unfold Bucket.add, Bucket.find. rewrite E. simpl.
    destruct (zlen b >=? K) eqn:F; rewrite Z.geb_leb in F; bool_to_prop.
    + destruct b as [|x b]; [by vm_compute in F|]. simpl drop. rewrite drop_0.
      pose proof (bwf_size _ _ _ Hb) as Hz. rewrite zlen_cons in Hz.
      apply bucket_wf_snoc; try done.
      * by apply (bucket_wf_drop self i [] x b).
      * lia.
      * rewrite fmap_cons in Hn. set_solver.
    + by apply bucket_wf_snoc.
  - rewrite add_found by done. by eapply bucket_wf_replace.
Qed.

Lemma bucket_remove_wf self i b id :
  bucket_wf self i b -> bucket_wf self i (Bucket.remove b id).
Proof.
  intros Hb. destruct (bucket_view b id) as [[E Hn]|(p & e & q & -> & He & Hp & E)].
  - unfold Bucket.remove, Bucket.find. by rewrite E.
  - rewrite remove_found by done. by eapply bucket_wf_drop.
Qed.

Lemma bucket_shape_replace self i p e q c :
  bucket_shape self i (p ++ e :: q) -> c_ID c = c_ID e -> bucket_shape self i (p ++ c :: q).
Proof.
  intros [H1 H2 H3] Hid. split.
  - unfold zlen in *. rewrite length_app in *. done.
  - rewrite fmap_app, fmap_cons in *. by rewrite Hid.
  - rewrite Forall_app, Forall_cons in *. rewrite Hid. done.
Qed.

Lemma bucket_shape_drop self i p e q : bucket_shape self i (p ++ e :: q) -> bucket_shape self i (p ++ q).
Proof.
  intros [H1 H2 H3]. split.
  - unfold zlen in *. rewrite length_app in *. simpl in *. lia.
  - rewrite fmap_app, fmap_cons in *. apply NoDup_app in H2 as (Ha & Hb & Hc).
    apply NoDup_cons in Hc as [_ Hc]. apply NoDup_app. set_solver.
  - rewrite Forall_app, Forall_cons in *. naive_solver.
Qed.

Lemma bucket_shape_snoc self i b c :
  bucket_shape self i b -> zlen b < K -> c_ID c ∉ (c_ID <$> b) -> c_ID c <> self ->
  Z.to_nat (BucketIndex (XOR self (c_ID c))) = i -> bucket_shape self i (b ++ [c]).
Proof.
  intros [H1 H2 H3] Hl Hn Hs Hi. split.
  - rewrite zlen_app. unfold zlen at 2. simpl. lia.
  - rewrite fmap_app. simpl. apply NoDup_app.
    split; [done|]. split; [|apply NoDup_singleton]. set_solver.
  - rewrite Forall_app. split; [done|]. by apply Forall_singleton.
Qed.

Lemma bucket_add_shape self i b c :
  bucket_shape self i b -> c_ID c <> self -> Z.to_nat (BucketIndex (XOR self (c_ID c))) = i ->
  bucket_shape self i (Bucket.add b c).
Proof.
  intros Hb Hs Hi.
  destruct (bucket_view b (c_ID c)) as [[E Hn]|(p & e & q & -> & He & Hp & E)].
  - unfold Bucket.add, Bucket.find. rewrite E. simpl.
    destruct (zlen b >=? K) eqn:F; rewrite Z.geb_leb in F; bool_to_prop; [|by apply bucket_shape_snoc].
    destruct b as [|x b]; [by vm_compute in F|]. simpl drop. rewrite drop_0.
    pose proof (bs_size _ _ _ Hb) as Hz. rewrite zlen_cons in Hz. rewrite fmap_cons in Hn.
    apply bucket_shape_snoc; [by apply (bucket_shape_drop self i [] x b)|lia|set_solver|done|done].
  - rewrite add_found by done. by eapply bucket_shape_replace.
Qed.

Lemma bucket_remove_shape self i b id : bucket_shape self i b -> bucket_shape self i (Bucket.remove b id).
Proof.
  intros Hb. destruct (bucket_view b id) as [[E Hn]|(p & e & q & -> & He & Hp & E)].
  - unfold Bucket.remove, Bucket.find. by rewrite E.
  - rewrite remove_found by done. by eapply bucket_shape_drop.
Qed.

Lemma bucket_mark_shape self i b id : bucket_shape self i b -> bucket_shape self i (Bucket.markMissed b id).
Proof.
  intros Hb. destruct (bucket_view b id) as [[E Hn]|(p & e & q & -> & He & Hp & E)].
  - unfold Bucket.markMissed. by rewrite E.
  - rewrite mark_found by done. destruct (_ >=? _); [by eapply bucket_shape_drop|by eapply bucket_shape_replace].
Qed.

Lemma bucket_reset_shape self i b id : bucket_shape self i b -> bucket_shape self i (Bucket.resetMissed b id).
Proof.
  intros Hb. destruct (bucket_view b id) as [[E Hn]|(p & e & q & -> & He & Hp & E)].
  - unfold Bucket.resetMissed. by rewrite E.
  - rewrite reset_found by done. by eapply bucket_shape_replace.
Qed.

Lemma contact_wf_middle self i p e q : bucket_wf self i (p ++ e :: q) -> contact_wf e.
Proof. intros [_ _ _ H]. by apply Forall_app in H as [_ [H _]%Forall_cons]. Qed.

Lemma bucket_mark_wf self i b id :
  bucket_wf self i b -> bucket_wf self i (Bucket.markMissed b id).
Proof.
  intros Hb. destruct (bucket_view b id) as [[E Hn]|(p & e & q & -> & He & Hp & E)].
  - unfold Bucket.markMissed. by rewrite E.
  - rewrite mark_found by done. pose proof (contact_wf_middle _ _ _ _ _ Hb) as [Hm Hsu].
    destruct (_ >=? _) eqn:F; [by eapply bucket_wf_drop|].
    rewrite Z.geb_leb in F. bool_to_prop.
    eapply bucket_wf_replace; [done..|]. split; simpl; [lia|].
    symmetry. apply Z.ltb_lt. lia.
Qed.

Lemma bucket_reset_wf self i b id :
  bucket_wf self i b -> bucket_wf self i (Bucket.resetMissed b id).
Proof.
  intros Hb. destruct (bucket_view b id) as [[E Hn]|(p & e & q & -> & He & Hp & E)].
  - unfold Bucket.resetMissed. by rewrite E.
  - rewrite reset_found by done. eapply bucket_wf_replace; [done..|]. by split.
Qed.
End bucket_lemmas.

(** ** Table operations as steps *)

Inductive table_op :=
| OpAdd (c : Contact)
| OpRemove (id : ID)
| OpMarkMissed (id : ID)
| OpResetMissed (id : ID).

Definition apply_op (rt : RoutingTable) (op : table_op) : RoutingTable :=
  match op with
  | OpAdd c => rt_Add rt c
  | OpRemove id => rt_Remove rt id
  | OpMarkMissed id => rt_MarkMissed rt id
  | OpResetMissed id => rt_ResetMissed rt id
  end.

(** What callers in the program add: contacts off the wire or of the peers file,
    unmissed and not suspect. *)
Definition op_ok (op : table_op) : Prop :=
  match op with OpAdd c => contact_wf c | _ => True end.

Lemma new_table_wf self : table_wf (NewRoutingTable self).
Proof.
  split; [apply length_replicate|].
  intros i b H. apply lookup_replicate in H as [-> _].
  split; [by vm_compute|constructor..].
Qed.

Lemma on_bucket_wf rt id f :
  table_wf rt ->
  (forall b, bucket_wf (rt_self rt) (bucket_of rt id) b ->
             bucket_wf (rt_self rt) (bucket_of rt id) (f b)) ->
  table_wf (on_bucket rt id f).
Proof.
  intros [Hl Hb] Hf. split; simpl; [by rewrite length_alter|].
  intros i b H. destruct (decide (i = bucket_of rt id)) as [->|Hne].
  - rewrite list_lookup_alter_eq in H.
    destruct (rt_buckets rt !! bucket_of rt id) as [b0|] eqn:E; [|done].
    injection H as <-. by apply Hf, Hb.
  - rewrite list_lookup_alter_ne in H by done. by apply Hb.
Qed.

Lemma apply_op_wf rt op : table_wf rt -> op_ok op -> table_wf (apply_op rt op).
Proof.
  intros Hwf Hok. destruct op as [c|id|id|id]; simpl.
  - unfold rt_Add. destruct (decide _) as [|Hs]; [done|].
    apply on_bucket_wf; [done|]. intros b Hb. by apply bucket_add_wf.
  - apply on_bucket_wf; [done|]. intros b. apply bucket_remove_wf.
  - apply on_bucket_wf; [done|]. intros b. apply bucket_mark_wf.
  - apply on_bucket_wf; [done|]. intros b. apply bucket_reset_wf.
Qed.

Lemma new_table_shape self : table_shape (NewRoutingTable self).
Proof.
  split; [apply length_replicate|]. intros i b H. apply lookup_replicate in H as [-> _]. split; [by vm_compute|constructor..].
Qed.

Lemma on_bucket_shape rt id f :
  table_shape rt ->
  (forall b, bucket_shape (rt_self rt) (bucket_of rt id) b -> bucket_shape (rt_self rt) (bucket_of rt id) (f b)) ->
  table_shape (on_bucket rt id f).
Proof.
  intros [Hl Hb] Hf. split; simpl; [by rewrite length_alter|].
  intros i b H. destruct (decide (i = bucket_of rt id)) as [->|Hne].
  - rewrite list_lookup_alter_eq in H.
    destruct (rt_buckets rt !! bucket_of rt id) as [b0|] eqn:E; [|done].
    injection H as <-. by apply Hf, Hb.
  - rewrite list_lookup_alter_ne in H by done. by apply Hb.
Qed.

Lemma apply_op_shape rt op : table_shape rt -> table_shape (apply_op rt op).
Proof.
  intros Hwf. destruct op as [c|id|id|id]; simpl.
  - unfold rt_Add. destruct (decide _) as [|Hs]; [done|].
    apply on_bucket_shape; [done|]. intros b Hb. by apply bucket_add_shape.
  - apply on_bucket_shape; [done|]. intros b. apply bucket_remove_shape.
  - apply on_bucket_shape; [done|]. intros b. apply bucket_mark_shape.
  - apply on_bucket_shape; [done|]. intros b. apply bucket_reset_shape.
Qed.

Lemma bucket_of_lt rt id : (bucket_of rt id < Z.to_nat IDBits)%nat.
Proof.
  unfold bucket_of. pose proof (bucket_index_range (XOR (rt_self rt) id)). lia.
Qed.

Lemma table_bucket rt id :
  table_wf rt -> exists b, rt_buckets rt !! bucket_of rt id = Some b /\
    bucket_wf (rt_self rt) (bucket_of rt id) b.
Proof.
  intros [Hl Hb]. destruct (lookup_lt_is_Some_2 (rt_buckets rt) (bucket_of rt id)) as [b E].
  - rewrite Hl. apply bucket_of_lt.
  - exists b. split; [done|]. by apply Hb.
Qed.

(** Where a contact of the table is, and that the map view finds it. *)
Lemma rt_all_lookup rt c :
  table_wf rt -> c ∈ rt_All rt <-> rt_lookup rt (c_ID c) = Some c.
Proof.
  intros Hwf. unfold rt_All, rt_lookup. rewrite list_elem_of_join. split.
  - intros (b & Hc & [i Hi]%list_elem_of_lookup).
    pose proof (twf_buckets rt Hwf i b Hi) as [_ Hnd Hplace _].
    rewrite Forall_forall in Hplace. destruct (Hplace c Hc) as [_ <-].
    fold (bucket_of rt (c_ID c)). unfold bucket_of. rewrite Hi. simpl.
    by apply lookup_elem.
  - destruct (table_bucket rt (c_ID c) Hwf) as (b & E & _). rewrite E. simpl.
    intros [Hc _]%lookup_some. exists b. split; [done|]. by eapply list_elem_of_lookup_2.
Qed.

Lemma on_bucket_lookup rt id f id' b :
  rt_buckets rt !! bucket_of rt id = Some b ->
  rt_lookup (on_bucket rt id f) id' =
  if decide (bucket_of rt id' = bucket_of rt id) then Bucket.lookup (f b) id'
  else rt_lookup rt id'.
Proof.
  intros E. unfold rt_lookup, on_bucket. simpl.
  change (bucket_of (mkRT _ _) id') with (bucket_of rt id').
  destruct (decide _) as [->|Hne].
  - rewrite list_lookup_alter_eq, E. done.
  - by rewrite list_lookup_alter_ne.
Qed.

Lemma rt_lookup_bucket rt id id' b :
  rt_buckets rt !! bucket_of rt id = Some b -> bucket_of rt id' = bucket_of rt id ->
  rt_lookup rt id' = Bucket.lookup b id'.
Proof. intros E Hb. unfold rt_lookup. by rewrite Hb, E. Qed.

(** Looking up in a bucket split around one contact. *)
Lemma lookup_middle p e q id :
  NoDup (c_ID <$> p ++ e :: q) ->
  Bucket.lookup (p ++ e :: q) id =
  if decide (id = c_ID e) then Some e else Bucket.lookup (p ++ q) id.
Proof.
  rewrite fmap_app, fmap_cons. intros (_ & Hd & _)%NoDup_app.
  rewrite !lookup_app, lookup_cons. destruct (decide (id = c_ID e)) as [->|Hne].
  - assert (Bucket.lookup p (c_ID e) = None) as ->.
    { apply lookup_none. set_solver. }
    by rewrite decide_True.
  - rewrite decide_False by done. done.
Qed.

Lemma lookup_remove_middle p e q :
  NoDup (c_ID <$> p ++ e :: q) -> Bucket.lookup (p ++ q) (c_ID e) = None.
Proof.
  rewrite fmap_app, fmap_cons. intros (_ & Hd & [Hq _]%NoDup_cons)%NoDup_app.
  apply lookup_none. rewrite fmap_app. set_solver.
Qed.

(** A bucket operation that acts on one identifier only. *)
Definition acts_on (id : ID) (f : Bucket.t -> Bucket.t) (g : option Contact -> option Contact) :=
  forall b id', NoDup (c_ID <$> b) ->
    Bucket.lookup (f b) id' =
    if decide (id' = id) then g (Bucket.lookup b id) else Bucket.lookup b id'.

Lemma acts_on_table rt id f g id' :
  table_wf rt -> acts_on id f g ->
  rt_lookup (on_bucket rt id f) id' =
  if decide (id' = id) then g (rt_lookup rt id) else rt_lookup rt id'.
Proof.
  intros Hwf Hf. destruct (table_bucket rt id Hwf) as (b & E & Hb).
  rewrite (on_bucket_lookup _ _ _ _ b E), (rt_lookup_bucket rt id id b E eq_refl).
  destruct (decide (id' = id)) as [->|Hne].
  - rewrite decide_True, Hf, decide_True; try done. apply Hb.
  - destruct (decide _) as [Hbk|]; [|done].
    rewrite Hf, decide_False, (rt_lookup_bucket rt id id' b E Hbk); try done. apply Hb.
Qed.

(** An absent identifier: the operation is the identity on the bucket. *)
Lemma acts_on_absent b id id' :
  id ∉ (c_ID <$> b) ->
  Bucket.lookup b id' = if decide (id' = id) then None else Bucket.lookup b id'.
Proof. intros Hn%lookup_none. by destruct (decide _) as [->|]. Qed.

Ltac by_bucket_view b id :=
  destruct (bucket_view b id) as [[?E ?Hn]|(p & e & q & -> & <- & ?Hp & ?E)].

Lemma remove_acts id : acts_on id (fun b => Bucket.remove b id) (fun _ => None).
Proof.
  intros b id' Hnd. by_bucket_view b id.
  - unfold Bucket.remove, Bucket.find. rewrite E. by apply acts_on_absent.
  - rewrite remove_found, (lookup_middle _ _ _ id') by done.
    destruct (decide _) as [->|]; [|done]. by eapply lookup_remove_middle.
Qed.

Definition marked (o : option Contact) : option Contact :=
  e ← o; if c_MissedPings e + 1 >=? maxMissedPings then None else Some (Bucket.mark e).

Lemma nodup_replace (p q : list Contact) e c :
  c_ID c = c_ID e -> NoDup (c_ID <$> p ++ e :: q) -> NoDup (c_ID <$> p ++ c :: q).
Proof. rewrite !fmap_app, !fmap_cons. by intros ->. Qed.

Lemma mark_acts id : acts_on id (fun b => Bucket.markMissed b id) marked.
Proof.
  intros b id' Hnd. by_bucket_view b id.
  - unfold Bucket.markMissed. rewrite E, (proj2 (lookup_none b id)) by done.
    by apply acts_on_absent.
  - rewrite mark_found, !lookup_middle by done. rewrite (decide_True (P := c_ID e = c_ID e)) by done.
    simpl. destruct (_ >=? _).
    + destruct (decide _) as [->|]; [|done]. by eapply lookup_remove_middle.
    + rewrite lookup_middle; [by destruct (decide _)|]. by apply (nodup_replace p q e).
Qed.

Lemma reset_acts id : acts_on id (fun b => Bucket.resetMissed b id) (fmap Bucket.clear).
Proof.
  intros b id' Hnd. by_bucket_view b id.
  - unfold Bucket.resetMissed. rewrite E, (proj2 (lookup_none b id)) by done.
    by apply acts_on_absent.
  - rewrite reset_found by done. rewrite lookup_middle by (by apply (nodup_replace p q e)).
    rewrite !(lookup_middle p e q) by done. simpl. rewrite (decide_True (P := c_ID e = c_ID e)) by done.
    by destruct (decide _).
Qed.

(** The contact [Add] pushes out: the oldest one of a full bucket, when the
    added contact is new to it. *)
Definition evicted (rt : RoutingTable) (c : Contact) : option ID :=
  b ← rt_buckets rt !! bucket_of rt (c_ID c);
  match Bucket.lookup b (c_ID c) with
  | Some _ => None
  | None => if zlen b >=? K then c_ID <$> head b else None
  end.

Lemma lookup_snoc b c id :
  c_ID c ∉ (c_ID <$> b) ->
  Bucket.lookup (b ++ [c]) id = if decide (id = c_ID c) then Some c else Bucket.lookup b id.
Proof.
  intros Hn%lookup_none. rewrite lookup_app, lookup_cons, lookup_nil.
  destruct (decide (id = c_ID c)) as [->|Hne].
  - by rewrite Hn, decide_True.
  - rewrite decide_False by done. by destruct (Bucket.lookup b id).
Qed.

Lemma bucket_add_lookup b c id :
  NoDup (c_ID <$> b) ->
  Bucket.lookup (Bucket.add b c) id =
  if decide (id = c_ID c) then Some c
  else if decide ((match Bucket.lookup b (c_ID c) with
                   | Some _ => None
                   | None => if zlen b >=? K then c_ID <$> head b else None
                   end) = Some id) then None
  else Bucket.lookup b id.
Proof.
  intros Hnd. destruct (bucket_view b (c_ID c)) as [[E Hn]|(p & e & q & -> & He & Hp & E)].
  - rewrite (proj2 (lookup_none b _) Hn). unfold Bucket.add, Bucket.find. rewrite E. simpl.
    destruct b as [|x b]; [by apply lookup_snoc|]. rewrite fmap_cons in Hnd, Hn.
    apply NoDup_cons in Hnd as [Hx Hnd]. apply not_elem_of_cons in Hn as [Hcx Hn].
    destruct (zlen (x :: b) >=? K).
    + simpl drop. rewrite drop_0, lookup_snoc, lookup_cons by done. simpl.
      destruct (decide (id = c_ID c)); [done|].
      destruct (decide (Some (c_ID x) = Some id)) as [[= <-]|Hne].
      * by apply lookup_none.
      * rewrite decide_False by congruence. done.
    + rewrite lookup_snoc; [done|]. rewrite fmap_cons. by apply not_elem_of_cons.
  - rewrite add_found by done. rewrite (lookup_middle p e q (c_ID c)) by done.
    rewrite (decide_True (P := c_ID c = c_ID e)) by done.
    rewrite (decide_False (P := None = Some id)) by done.
    rewrite lookup_middle by (by apply (nodup_replace p q e)). rewrite (lookup_middle p e q) by done.
    destruct (decide (id = c_ID c)); [done|]. rewrite decide_False by congruence. done.
Qed.

Lemma rt_add_lookup rt c id :
  table_wf rt -> c_ID c <> rt_self rt ->
  rt_lookup (rt_Add rt c) id =
  if decide (id = c_ID c) then Some c
  else if decide (evicted rt c = Some id) then None
  else rt_lookup rt id.
Proof.
  intros Hwf Hs. unfold rt_Add. rewrite decide_False by done.
  destruct (table_bucket rt (c_ID c) Hwf) as (b & E & Hb).
  rewrite (on_bucket_lookup _ _ _ _ b E). unfold evicted. rewrite E. simpl.
  destruct (decide (bucket_of rt id = _)) as [Hbk|Hbk].
  - rewrite bucket_add_lookup by apply Hb. by rewrite (rt_lookup_bucket rt (c_ID c) id b E Hbk).
  - rewrite decide_False by congruence. rewrite decide_False; [done|].
    intros Hev. apply Hbk. destruct (Bucket.lookup b (c_ID c)); [done|].
    destruct (_ >=? _); [|done]. destruct b as [|x b]; [done|]. injection Hev as <-.
    pose proof (bwf_place _ _ _ Hb) as [[_ Hp] _]%Forall_cons. done.
Qed.

Lemma rt_mark_lookup rt id id' :
  table_wf rt -> rt_lookup (rt_MarkMissed rt id) id' =
  if decide (id' = id) then marked (rt_lookup rt id) else rt_lookup rt id'.
Proof. intros Hwf. by apply acts_on_table, mark_acts. Qed.

Lemma rt_reset_lookup rt id id' :
  table_wf rt -> rt_lookup (rt_ResetMissed rt id) id' =
  if decide (id' = id) then Bucket.clear <$> rt_lookup rt id else rt_lookup rt id'.
Proof. intros Hwf. by apply acts_on_table, reset_acts. Qed.

Lemma rt_remove_lookup rt id id' :
  table_wf rt -> rt_lookup (rt_Remove rt id) id' =
  if decide (id' = id) then None else rt_lookup rt id'.
Proof. intros Hwf. by rewrite (acts_on_table _ _ _ _ _ Hwf (remove_acts id)). Qed.

Lemma rt_size_all rt : rt_Size rt = zlen (rt_All rt).
Proof.
  unfold rt_Size, rt_All. destruct rt as [self bs]. simpl. clear self.
  enough (forall n, fold_left (fun n b => n + zlen b) bs n = n + zlen (mjoin bs)) as H
    by (rewrite H; lia).
  induction bs as [|b bs IH]; intros n; simpl.
  - rewrite zlen_nil. lia.
  - rewrite IH, zlen_app. lia.
Qed.

Lemma rt_size_bound rt : table_shape rt -> 0 <= rt_Size rt <= K * IDBits.
Proof.
  intros [Hl Hb]. rewrite rt_size_all. split; [apply zlen_nonneg|].
  unfold rt_All. assert (Forall (fun b => zlen b <= K) (rt_buckets rt)) as Hf.
  { apply Forall_forall. intros b [i Hi]%list_elem_of_lookup. by eapply bs_size, Hb. }
  assert (zlen (mjoin (rt_buckets rt)) <= K * zlen (rt_buckets rt)) as H.
  { clear Hl Hb. induction Hf as [|b bs Hb Hbs IH]; simpl; [by vm_compute|].
    rewrite zlen_app, zlen_cons. lia. }
  unfold zlen in *. rewrite Hl in H. unfold IDBits in *. lia.
Qed.

Lemma table_wf_shape rt : table_wf rt -> table_shape rt.
Proof. intros [Hl Hb]. split; [done|]. intros i b Hi. destruct (Hb i b Hi). by split. Qed.

Lemma apply_op_self rt op : rt_self (apply_op rt op) = rt_self rt.
Proof. destruct op; simpl; [|done..]. unfold rt_Add. by destruct (decide _). Qed.

(** C2: under any sequence of its operations, with whatever contacts, the routing table
    keeps its shape: every bucket holds at most [K] contacts with distinct identifiers,
    each in the bucket of its XOR distance, the node itself is never a contact, and the
    size is at most [K * IDBits].  Where the contacts added have fewer than four missed
    pings and are suspect exactly when they missed one (every caller in the program adds
    contacts with none), all contacts of the table stay so. *)
Theorem routing_table_invariant (self : ID) (ops : list table_op) :
  let rt := fold_left apply_op ops (NewRoutingTable self) in
  table_shape rt /\ rt_self rt = self /\ 0 <= rt_Size rt <= K * IDBits /\
  (Forall op_ok ops -> forall c, c ∈ rt_All rt -> 0 <= c_MissedPings c < 4 /\ c_Suspect c = (0 <? c_MissedPings c)).
Proof.
  cbv zeta. assert (forall rt, table_shape rt -> table_shape (fold_left apply_op ops rt) /\
    rt_self (fold_left apply_op ops rt) = rt_self rt /\ (Forall op_ok ops -> table_wf rt -> table_wf (fold_left apply_op ops rt))) as H.
  { induction ops as [|op ops IH]; intros rt Hwf; simpl; [done|].
    destruct (IH (apply_op rt op)) as (H1 & H2 & H3); [by apply apply_op_shape|].
    split; [done|]. split; [by rewrite H2, apply_op_self|]. intros [Hop Hops]%Forall_cons Hrt. apply H3; [done|]. by apply apply_op_wf. }
  destruct (H (NewRoutingTable self) (new_table_shape self)) as (H1 & H2 & H3).
  split; [done|]. split; [done|]. split; [by apply rt_size_bound|]. intros Hok c Hc.
  destruct (H3 Hok (new_table_wf self)) as [_ Hb]. unfold rt_All in Hc. apply list_elem_of_join in Hc as (b & Hcb & [i Hi]%list_elem_of_lookup).
  pose proof (bwf_contacts _ _ _ (Hb i b Hi)) as Hf. rewrite Forall_forall in Hf. by apply Hf.
Qed.

Definition wit_contact (b : byte) : Contact := mkContact (id_of_byte b) (str "10.0.0.1:1") 0 0 false.

Lemma routing_table_invariant_witness :
  let ops := OpAdd (wit_contact x01) :: OpMarkMissed (id_of_byte x01) :: OpAdd (wit_contact x02) :: [] in
  let rt := fold_left apply_op ops (NewRoutingTable (id_of_byte x00)) in
  table_shape rt /\ forall c, c ∈ rt_All rt -> c_Suspect c = (0 <? c_MissedPings c).
Proof.
  intros ops rt. destruct (routing_table_invariant (id_of_byte x00) ops) as (Hs & _ & _ & Hc). split; [exact Hs|].
  intros c Hin. apply Hc; [|exact Hin]. repeat apply Forall_cons_2; [by vm_compute|done|by vm_compute|constructor].
Defined.

(** Adding a contact that is not the node itself makes it the table's entry
    for its identifier, forgets the oldest contact of its bucket when the bucket
    was full and the contact new, and leaves every other entry alone. *)
Theorem add_then_lookup (rt : RoutingTable) (c : Contact) (id : ID)
    (Hwf : table_wf rt) (Hself : c_ID c <> rt_self rt) :
  rt_lookup (rt_Add rt c) id =
  if decide (id = c_ID c) then Some c
  else if decide (evicted rt c = Some id) then None
  else rt_lookup rt id.
Proof. by apply rt_add_lookup. Qed.

Lemma add_then_lookup_witness :
  rt_lookup (rt_Add (NewRoutingTable (id_of_byte x00)) (wit_contact x01)) (id_of_byte x01)
  = Some (wit_contact x01).
Proof.
  rewrite add_then_lookup.
  - by rewrite decide_True.
  - apply new_table_wf.
  - intros E%(f_equal id_raw). by vm_compute in E.
Defined.

(** Missing [n] pings in a row. *)
Definition mark_n (n : nat) (rt : RoutingTable) (id : ID) : RoutingTable :=
  Nat.iter n (fun rt => rt_MarkMissed rt id) rt.

Lemma mark_n_wf n rt id : table_wf rt -> table_wf (mark_n n rt id).
Proof. intros Hwf. induction n; [done|]. by apply (apply_op_wf _ (OpMarkMissed id)). Qed.

(** A contact that misses fewer than [maxMissedPings] pings in a row stays,
    as a suspect with that count; one answer clears it; at the fourth miss it
    leaves the table.  Other contacts are untouched throughout. *)
Theorem missed_pings_lifecycle (rt : RoutingTable) (c : Contact) (n : nat)
    (Hwf : table_wf rt) (Hc : rt_lookup rt (c_ID c) = Some c)
    (Hfresh : c_MissedPings c = 0) (Hn : (0 < n)%nat) :
  let rt' := mark_n n rt (c_ID c) in
  (Z.of_nat n < maxMissedPings ->
     rt_lookup rt' (c_ID c) =
       Some (mkContact (c_ID c) (c_Addr c) (c_LastSeen c) (Z.of_nat n) true) /\
     rt_lookup (rt_ResetMissed rt' (c_ID c)) (c_ID c) =
       Some (mkContact (c_ID c) (c_Addr c) (c_LastSeen c) 0 false)) /\
  (maxMissedPings <= Z.of_nat n -> rt_lookup rt' (c_ID c) = None) /\
  (forall id, id <> c_ID c -> rt_lookup rt' id = rt_lookup rt id).
Proof.
  intros rt'.
  assert (rt_lookup rt' (c_ID c) = if Z.of_nat n <? maxMissedPings
    then Some (mkContact (c_ID c) (c_Addr c) (c_LastSeen c) (Z.of_nat n) true) else None) as H.
  { subst rt'. induction Hn as [|m Hm IH]; simpl.
    - rewrite rt_mark_lookup, decide_True, Hc by done. simpl. unfold Bucket.mark. by rewrite Hfresh.
    - rewrite rt_mark_lookup, decide_True by (try apply mark_n_wf; done).
      fold (mark_n m rt (c_ID c)). rewrite IH. unfold maxMissedPings in *.
      destruct (Z.of_nat m <? 4) eqn:F; destruct (Z.of_nat (S m) <? 4) eqn:G;
        bool_to_prop; simpl; unfold maxMissedPings; try lia.
      + destruct (_ >=? _) eqn:X; rewrite Z.geb_leb in X; bool_to_prop; [lia|].
        unfold Bucket.mark. simpl. do 2 f_equal. lia.
      + destruct (_ >=? _) eqn:X; rewrite Z.geb_leb in X; bool_to_prop; [done|lia].
      + done. }
  assert (table_wf rt') as Hwf' by (by apply mark_n_wf).
  repeat split.
  - rewrite H. by rewrite (proj2 (Z.ltb_lt _ _)).
  - rewrite rt_reset_lookup, decide_True, H, (proj2 (Z.ltb_lt _ _)) by done. done.
  - intros Hge. rewrite H. by rewrite (proj2 (Z.ltb_ge _ _)).
  - intros id Hid. subst rt'. clear H Hwf' Hn. induction n as [|m IH]; [done|]. simpl.
    rewrite rt_mark_lookup, decide_False by (try apply mark_n_wf; done). apply IH.
Qed.

Lemma missed_pings_lifecycle_witness :
  let rt := rt_Add (NewRoutingTable (id_of_byte x00)) (wit_contact x01) in
  rt_lookup (mark_n 4 rt (id_of_byte x01)) (id_of_byte x01) = None.
Proof.
  intros rt.
  assert (id_of_byte x01 <> id_of_byte x00) as Hne by (intros E%(f_equal id_raw); by vm_compute in E).
  assert (table_wf rt) as Hwf
    by (apply (apply_op_wf _ (OpAdd (wit_contact x01))); [apply new_table_wf|by vm_compute]).
  assert (rt_lookup rt (c_ID (wit_contact x01)) = Some (wit_contact x01)) as Hl
    by (subst rt; rewrite rt_add_lookup by (done || apply new_table_wf); by rewrite decide_True).
  destruct (missed_pings_lifecycle rt (wit_contact x01) 4 Hwf Hl eq_refl ltac:(lia)) as (_ & H & _).
  apply H. by vm_compute.
Defined.

(** ** Closest *)

Section closest.
Context `{SliceSort}.
Implicit Types (rt : RoutingTable) (target : ID).

Lemma less64_trans target x y z :
  (dist64 target y <? dist64 target x) = false ->
  (dist64 target z <? dist64 target y) = false ->
  (dist64 target z <? dist64 target x) = false.
Proof. intros. bool_to_prop. apply Z.ltb_ge. lia. Qed.

Lemma less64_asym target x y :
  (dist64 target x <? dist64 target y) = true ->
  (dist64 target y <? dist64 target x) = false.
Proof. intros. bool_to_prop. apply Z.ltb_ge. lia. Qed.

(** [Closest] is a prefix of a sorted arrangement of the live contacts. *)
Lemma closest_split rt target n :
  0 <= n ->
  exists rest, Permutation (live_contacts rt) (rt_Closest rt target n ++ rest) /\
    StronglySorted (fun x y => (dist64 target y <? dist64 target x) = false)
      (rt_Closest rt target n ++ rest) /\
    zlen (rt_Closest rt target n) = Z.min n (zlen (live_contacts rt)).
Proof.
  intros Hn. unfold rt_Closest.
  set (less := fun x y => dist64 target x <? dist64 target y).
  pose proof (sort_slice_perm less (live_contacts rt)) as Hp.
  pose proof (sort_slice_sorted less (live_contacts rt) (less64_trans target)
                (less64_asym target)) as Hs.
  assert (zlen (sort_slice less (live_contacts rt)) = zlen (live_contacts rt)) as Hl
    by (unfold zlen; by rewrite <- Hp).
  destruct (_ >? n) eqn:E; rewrite Z.gtb_ltb in E; bool_to_prop.
  - exists (drop (Z.to_nat n) (sort_slice less (live_contacts rt))). rewrite take_drop.
    split; [done|]. split; [done|]. unfold zlen in *. rewrite length_take. lia.
  - exists []. rewrite app_nil_r. split; [done|]. split; [done|]. lia.
Qed.

Lemma elem_of_live rt c : c ∈ live_contacts rt <-> c ∈ rt_All rt /\ c_Suspect c = false.
Proof.
  unfold live_contacts. rewrite !list_elem_of_In, List.filter_In, negb_true_iff. done.
Qed.

(** [Closest] returns [min n live] contacts of the table, none of them
    suspect, ordered by the first 64 bits of their distance to the target, and
    no live contact it leaves out is nearer in those 64 bits than one it
    returns. *)
Theorem closest_selects_nearest rt target (n : Z) (Hn : 0 <= n) :
  let r := rt_Closest rt target n in
  zlen r = Z.min n (zlen (live_contacts rt)) /\
  (forall c, c ∈ r -> c ∈ rt_All rt /\ c_Suspect c = false) /\
  StronglySorted (fun x y => dist64 target x <= dist64 target y) r /\
  (forall x y, x ∈ r -> y ∈ rt_All rt -> c_Suspect y = false -> y ∉ r ->
     dist64 target x <= dist64 target y).
Proof.
  intros r. destruct (closest_split rt target n Hn) as (rest & Hp & Hs & Hl). fold r in Hp, Hs, Hl.
  split; [done|]. split; [|split].
  - intros c Hc. apply elem_of_live. rewrite Hp. apply elem_of_app. by left.
  - apply StronglySorted_app_l in Hs. clear -Hs. induction Hs as [|x l Hs IH Hall]; constructor; [done|].
    eapply Forall_impl; [exact Hall|]. intros y Hy. by apply Z.ltb_ge.
  - intros x y Hx Hy Hsu Hny. assert (y ∈ r ++ rest) as [?|Hr]%elem_of_app; [|done|].
    { rewrite <- Hp. by apply elem_of_live. }
    apply Z.ltb_ge. by apply (StronglySorted_app_inv _ r rest x y Hs).
Qed.
End closest.

Lemma closest_selects_nearest_witness :
  let rt := rt_Add (rt_Add (NewRoutingTable (id_of_byte x00)) (wit_contact x01)) (wit_contact x02) in
  zlen (rt_Closest (H := insertion_slice_sort) rt (id_of_byte x03) 1) = 1.
Proof.
  intros rt.
  destruct (closest_selects_nearest (H := insertion_slice_sort) rt (id_of_byte x03) 1 ltac:(lia)) as (Hl & _).
  rewrite Hl. by vm_compute.
Defined.

(** The order of [Closest] looks at the first 64 bits of the distance only:
    there are contacts of which one is XOR-closer to the target and which the
    comparison does not tell apart. *)
Theorem closest_ignores_low_bits :
  exists (x y : Contact) (target : ID),
    Closer (c_ID x) (c_ID y) target = true /\
    dist64 target x = dist64 target y.
Proof.
  set (tail := fun b : byte => default (id_of_byte x00) (mk_id (replicate 31 x00 ++ [b]))).
  exists (mkContact (tail x01) [] 0 0 false), (mkContact (tail x02) [] 0 0 false), (tail x00).
  split; by vm_compute.
Qed.
