(* ===== verification/DhtRelay.v ===== *)
(** * DhtRelay: signed relay entries and the stores built from gossip

    [RelayEntry], its canonical payload and verification (dht/dht.go), the relay
    store (dht/dht_node.go) and the "who has it" index (dht/dht_content.go).
    Times are Unix seconds for relay entries and nanoseconds for the index, as
    in the code; [time.Now()] is an argument. *)
From S2P Require Import Prelude Encoding Env DhtId DhtTable.

(** Two's-complement 64-bit wrap-around. *)
Definition wrap64 (z : Z) : Z := (z + 2 ^ 63) mod 2 ^ 64 - 2 ^ 63.
Definition int64 (z : Z) : Prop := - 2 ^ 63 <= z < 2 ^ 63.

Lemma wrap64_id z : int64 z -> wrap64 z = z.
Proof. unfold int64, wrap64. intros. rewrite Z.mod_small; lia. Qed.

Definition second : Z := 1000000000.
(** [RelayTTL = 2 * time.Minute], and its value in seconds. *)
Definition RelayTTL : Z := 120 * second.
Definition RelayTTL_seconds : Z := RelayTTL / second.

Record RelayEntry := mkRelayEntry {
  re_NodeID : bytes;
  re_Addr : bytes;
  re_CountryCode : bytes;
  re_TS : Z;
  re_Sig : bytes
}.

Definition bar : byte := x7c.

Definition relayEntryPayload (e : RelayEntry) : bytes :=
  re_NodeID e ++ [bar] ++ re_Addr e ++ [bar] ++ re_CountryCode e ++ [bar] ++ Dec.print (re_TS e).

(** [relayStore]: the entries, keyed by node identifier. *)
Abbreviation relayStore := (gmap bytes RelayEntry).

Section signatures.
Context `{Signatures}.

Definition VerifyRelayEntry (e : RelayEntry) : res unit :=
  if negb (zlen (re_NodeID e) =? 2 * ed25519_public_key_size) then Err "dht: bad node_id length"
  else match Hex.decode (re_NodeID e) with
  | None => Err "dht: node_id not hex"
  | Some pub =>
    match B64.decode (re_Sig e) with
    | None => Err "dht: bad sig encoding"
    | Some sig =>
      if negb (zlen sig =? ed25519_signature_size) then Err "dht: bad sig encoding"
      else
        ok ← ed25519_verify pub (relayEntryPayload e) sig;
        if ok : bool then Ok tt else Err "dht: signature verification failed"
    end
  end.

Definition relay_stale (now : Z) (e : RelayEntry) : bool :=
  let age := wrap64 (now - re_TS e) in
  (age >? RelayTTL_seconds) || (age <? - RelayTTL_seconds).

(** [relayStore.store]: the returned error, and the store afterwards. *)
Definition relay_store (now : Z) (s : relayStore) (e : RelayEntry) : res unit * relayStore :=
  match VerifyRelayEntry e with
  | Err _ => (Err "relay-store: invalid sig", s)
  | Panic => (Panic, s)
  | Ok _ =>
    if relay_stale now e then (Err "relay-store: stale/future entry", s)
    else match s !! re_NodeID e with
    | Some existing =>
        if re_TS existing >=? re_TS e then (Ok tt, s)
        else (Ok tt, <[re_NodeID e := e]> s)
    | None => (Ok tt, <[re_NodeID e := e]> s)
    end
  end.

(** [relayStore.all]: the entries of the map that are not too old.  Go iterates
    over the map in an unspecified order. *)
Definition relay_all (now : Z) (s : relayStore) : list RelayEntry :=
  List.filter (fun e => wrap64 (now - re_TS e) <=? RelayTTL_seconds) (snd <$> map_to_list s).

(** Entries arriving one after the other, each at its own time. *)
Definition relay_stores (s : relayStore) (arrivals : list (Z * RelayEntry)) : relayStore :=
  fold_left (fun s a => (relay_store (fst a) s (snd a)).2) arrivals s.

(** ** Lemmas *)

Lemma verify_no_panic e : VerifyRelayEntry e <> Panic.
Proof.
  unfold VerifyRelayEntry. destruct (negb _) eqn:E; [done|]. bool_to_prop.
  destruct (Hex.decode _) as [pub|] eqn:F; [|done].
  destruct (B64.decode _) as [sig|]; [|done]. destruct (negb _); [done|].
  apply Hex.decode_length in F. unfold ed25519_verify.
  rewrite (proj2 (Z.eqb_eq _ _)) by (unfold zlen in *; lia). simpl.
  by destruct (ed25519_check _ _ _).
Qed.

(** What one arrival does to the entry of its node. *)
Lemma relay_store_cases now s e :
  (VerifyRelayEntry e = Ok tt /\ relay_stale now e = false /\
   (relay_store now s e).1 = Ok tt /\
   (relay_store now s e).2 =
     match s !! re_NodeID e with
     | Some x => if re_TS x >=? re_TS e then s else <[re_NodeID e := e]> s
     | None => <[re_NodeID e := e]> s
     end) \/
  ((exists m, (relay_store now s e).1 = Err m) /\ (relay_store now s e).2 = s /\
   (is_err (VerifyRelayEntry e) = true \/ relay_stale now e = true)).
Proof.
  unfold relay_store. pose proof (verify_no_panic e).
  destruct (VerifyRelayEntry e) as [[]|m|]; [|right; by eauto|done].
  destruct (relay_stale now e) eqn:E; [right; by eauto|left].
  destruct (s !! re_NodeID e) as [x|]; [|done]. by destruct (_ >=? _).
Qed.

(** A store all of whose entries passed verification under their own key. *)
Definition relay_store_ok (s : relayStore) : Prop :=
  forall k e, s !! k = Some e -> k = re_NodeID e /\ VerifyRelayEntry e = Ok tt.

Lemma relay_store_preserves now s e :
  relay_store_ok s -> relay_store_ok (relay_store now s e).2.
Proof.
  intros Hs. destruct (relay_store_cases now s e) as [(Hv & _ & _ & ->)|(_ & -> & _)]; [|done].
  assert (relay_store_ok (<[re_NodeID e := e]> s)) as Hi.
  { intros k x. rewrite lookup_insert. case_decide as Hk; [by intros [= ->]|apply Hs]. }
  destruct (s !! _); [|done]. by destruct (_ >=? _).
Qed.

Lemma relay_store_monotone now s e k x :
  s !! k = Some x ->
  exists y, (relay_store now s e).2 !! k = Some y /\ re_TS x <= re_TS y.
Proof.
  intros Hx. destruct (relay_store_cases now s e) as [(_ & _ & _ & ->)|(_ & -> & _)];
    [|exists x; split; [done|lia]].
  destruct (decide (re_NodeID e = k)) as [<-|Hne].
  - rewrite Hx. destruct (re_TS x >=? re_TS e) eqn:E; rewrite Z.geb_leb in E; bool_to_prop.
    + exists x. split; [done|lia].
    + exists e. rewrite lookup_insert_eq. split; [done|lia].
  - exists x. split; [|lia]. destruct (s !! re_NodeID e); [|by rewrite lookup_insert_ne].
    destruct (_ >=? _); [done|by rewrite lookup_insert_ne].
Qed.
End signatures.

Section relay_properties.
Context `{Signatures}.

Lemma relay_stores_ok s arrivals :
  relay_store_ok s -> relay_store_ok (relay_stores s arrivals).
Proof.
  revert s. induction arrivals as [|[t e] l IH]; intros s Hs; simpl; [done|].
  by apply IH, relay_store_preserves.
Qed.

Lemma relay_stores_monotone s arrivals k x :
  s !! k = Some x ->
  exists y, relay_stores s arrivals !! k = Some y /\ re_TS x <= re_TS y.
Proof.
  revert s x. induction arrivals as [|[t e] l IH]; intros s x Hx; simpl; [eauto with lia|].
  destruct (relay_store_monotone t s e k x Hx) as (y & Hy & Hle).
  destruct (IH _ _ Hy) as (z & Hz & Hle'). exists z. split; [done|lia].
Qed.

Lemma relay_store_ok_empty : relay_store_ok (∅ : gmap bytes RelayEntry).
Proof. intros k e. by rewrite lookup_empty. Qed.

(** C3: whatever entries arrive and in whatever order, the relay store only ever
    holds entries whose signature verified, each under its own node identifier,
    and the timestamp kept for a node never goes back. *)
Theorem relay_store_invariant (before after : list (Z * RelayEntry)) (k : bytes) (x : RelayEntry)
    (Hx : relay_stores ∅ before !! k = Some x) :
  VerifyRelayEntry x = Ok tt /\ k = re_NodeID x /\
  exists y, relay_stores ∅ (before ++ after) !! k = Some y /\
    VerifyRelayEntry y = Ok tt /\ k = re_NodeID y /\ re_TS x <= re_TS y.
Proof.
  destruct (relay_stores_ok ∅ before relay_store_ok_empty k x Hx) as [Hk Hv].
  destruct (relay_stores_monotone _ after k x Hx) as (y & Hy & Hle).
  assert (relay_stores ∅ (before ++ after) = relay_stores (relay_stores ∅ before) after) as E
    by apply fold_left_app.
  rewrite <- E in Hy.
  destruct (relay_stores_ok ∅ (before ++ after) relay_store_ok_empty k y Hy).
  split; [done|]. split; [done|]. by exists y.
Qed.

Lemma relay_stale_spec now e :
  int64 (re_TS e) -> 0 <= now < 2 ^ 62 ->
  relay_stale now e = false <-> now - RelayTTL_seconds <= re_TS e <= now + RelayTTL_seconds.
Proof.
  intros Hts Hnow. unfold relay_stale. change RelayTTL_seconds with 120.
  rewrite orb_false_iff, Z.gtb_ltb, !Z.ltb_ge. unfold wrap64, int64 in *.
  destruct (Z.lt_ge_cases (now - re_TS e + 2 ^ 63) (2 ^ 64)).
  - rewrite Z.mod_small by lia. lia.
  - rewrite <- (Z.mod_unique (now - re_TS e + 2 ^ 63) (2 ^ 64) 1 (now - re_TS e + 2 ^ 63 - 2 ^ 64)) by lia.
    lia.
Qed.

(** Storing an entry whose signature verifies succeeds exactly when its
    timestamp is within [RelayTTL] of the clock, on the 64-bit arithmetic of the
    code; then the store has for that node the newer of the old and the new
    entry, and the entry is listed.  Otherwise the store is unchanged. *)
Theorem relay_store_outcome (now : Z) (s : relayStore) (e : RelayEntry)
    (Hv : VerifyRelayEntry e = Ok tt) (Hts : int64 (re_TS e)) (Hnow : 0 <= now < 2 ^ 62) :
  let r := relay_store now s e in
  (fst r = Ok tt <-> now - 120 <= re_TS e <= now + 120) /\
  (fst r = Ok tt -> exists x, snd r !! re_NodeID e = Some x /\
     re_TS x = match s !! re_NodeID e with
               | Some old => Z.max (re_TS old) (re_TS e) | None => re_TS e end /\
     forall k, k <> re_NodeID e -> snd r !! k = s !! k) /\
  (fst r <> Ok tt -> snd r = s).
Proof.
  intros r. pose proof (relay_stale_spec now e Hts Hnow) as Hst.
  change RelayTTL_seconds with 120 in Hst.
  destruct (relay_store_cases now s e) as [(_ & Hf & H1 & H2)|([m H1] & H2 & Hbad)];
    fold r in H1, H2; rewrite H1, H2.
  - split; [by rewrite <- Hst|]. split; [|done]. intros _.
    destruct (s !! re_NodeID e) as [old|] eqn:Eo.
    + destruct (re_TS old >=? re_TS e) eqn:G; rewrite Z.geb_leb in G; bool_to_prop.
      * exists old. split; [done|]. split; [lia|done].
      * exists e. rewrite lookup_insert_eq. split; [done|]. split; [lia|].
        intros k Hk. by rewrite lookup_insert_ne.
    + exists e. rewrite lookup_insert_eq. split; [done|]. split; [done|].
      intros k Hk. by rewrite lookup_insert_ne.
  - rewrite Hv in Hbad. destruct Hbad as [Hbad|Hbad]; [done|].
    split; [|done]. rewrite <- Hst, Hbad. done.
Qed.

Lemma elem_of_relay_all now s e :
  e ∈ relay_all now s <-> (exists k, s !! k = Some e) /\ wrap64 (now - re_TS e) <= RelayTTL_seconds.
Proof.
  unfold relay_all. rewrite list_elem_of_In, List.filter_In, <- list_elem_of_In, Z.leb_le.
  rewrite list_elem_of_fmap. split.
  - intros [([k y] & -> & Hy%elem_of_map_to_list) Ht]. simpl in *. eauto.
  - intros [[k Hk] Ht]. split; [|done]. exists (k, e). split; [done|].
    by apply elem_of_map_to_list.
Qed.
End relay_properties.

(** ** The canonical payload *)

Lemma app_bar_inj (a b x y : bytes) :
  bar ∉ a -> bar ∉ b -> a ++ bar :: x = b ++ bar :: y -> a = b /\ x = y.
Proof.
  revert b. induction a as [|h a IH]; intros [|g b]; simpl; intros Ha Hb E.
  - by injection E.
  - injection E as <- _. set_solver.
  - injection E as -> _. set_solver.
  - injection E as -> E. apply IH in E as [-> ->]; set_solver.
Qed.

Lemma app_same_length_inj (a b x y : bytes) :
  length a = length b -> a ++ x = b ++ y -> a = b /\ x = y.
Proof.
  revert b. induction a as [|h a IH]; intros [|g b]; simpl; intros Hl E; try done.
  injection E as -> E. apply IH in E as [-> ->]; [done|lia].
Qed.

(** The signed payload determines the entry's node, address, country and
    timestamp, among entries whose address and country hold no separator
    (numeric endpoints and ISO codes do not). *)
Theorem relay_payload_injective (e1 e2 : RelayEntry)
    (Hlen : length (re_NodeID e1) = length (re_NodeID e2))
    (Ha1 : bar ∉ re_Addr e1) (Ha2 : bar ∉ re_Addr e2)
    (Hc1 : bar ∉ re_CountryCode e1) (Hc2 : bar ∉ re_CountryCode e2)
    (Heq : relayEntryPayload e1 = relayEntryPayload e2) :
  re_NodeID e1 = re_NodeID e2 /\ re_Addr e1 = re_Addr e2 /\
  re_CountryCode e1 = re_CountryCode e2 /\ re_TS e1 = re_TS e2.
Proof.
  unfold relayEntryPayload in Heq. simpl in Heq.
  apply app_same_length_inj in Heq as [-> Heq]; [|done]. injection Heq as Heq.
  apply app_bar_inj in Heq as [-> Heq]; [|done..].
  apply app_bar_inj in Heq as [-> Heq]; [|done..].
  by apply Dec.print_inj in Heq.
Qed.

Lemma relay_payload_injective_witness :
  let e := mkRelayEntry (str "ab") (str "1.2.3.4:5") (str "RU") 7 [] in
  let e' := mkRelayEntry (str "ab") (str "1.2.3.4:5") (str "RU") 7 (str "s") in
  re_TS e = re_TS e'.
Proof.
  intros e e'.
  apply (relay_payload_injective e e'); try reflexivity;
    by_decide.
Defined.

(** Without that restriction the payload is ambiguous: moving text across
    the separator gives two entries with different addresses and the same signed
    bytes, so that one signature verifies both. *)
Theorem relay_payload_ambiguous `{Signatures} (sig : bytes) :
  exists e1 e2 : RelayEntry,
    re_Sig e1 = sig /\ re_Sig e2 = sig /\
    zlen (re_NodeID e1) = 64 /\ re_NodeID e1 = re_NodeID e2 /\
    re_Addr e1 <> re_Addr e2 /\
    relayEntryPayload e1 = relayEntryPayload e2 /\
    VerifyRelayEntry e1 = VerifyRelayEntry e2.
Proof.
  exists (mkRelayEntry (Hex.encode (replicate 32 x01)) (str "1.2.3.4:5") (str "6|RU") 0 sig),
         (mkRelayEntry (Hex.encode (replicate 32 x01)) (str "1.2.3.4:5|6") (str "RU") 0 sig).
  by repeat split.
Qed.

(** ** Witnesses: entries signed under the toy scheme *)

Definition toy_entry (ts : Z) : RelayEntry :=
  let e sig := mkRelayEntry (Hex.encode (replicate 32 x01)) (str "1.2.3.4:5") (str "RU") ts sig in
  e (B64.encode (Toy.sign (relayEntryPayload (e [])))).

Lemma relay_store_invariant_witness :
  exists y, relay_stores (H := Toy.signatures) ∅ ([(1000, toy_entry 990)] ++ [(1001, toy_entry 1000)])
              !! re_NodeID (toy_entry 990) = Some y /\ re_TS (toy_entry 990) <= re_TS y.
Proof.
  destruct (relay_store_invariant (H := Toy.signatures) [(1000, toy_entry 990)] [(1001, toy_entry 1000)]
    (re_NodeID (toy_entry 990)) (toy_entry 990)) as (_ & _ & y & Hy & _ & _ & Hle).
  - vm_compute. reflexivity.
  - exists y. split; [exact Hy|exact Hle].
Defined.

Lemma relay_store_outcome_witness :
  fst (relay_store (H := Toy.signatures) 1000 ∅ (toy_entry 1120)) = Ok tt.
Proof.
  destruct (relay_store_outcome (H := Toy.signatures) 1000 ∅ (toy_entry 1120)) as [H _].
  - vm_compute. reflexivity.
  - by vm_compute.
  - by vm_compute.
  - apply H. by vm_compute.
Defined.

(** ** completeStore: which peers reported a full copy of a content version *)

Record completePeerEntry := mkCompletePeer {
  cp_addr : bytes;
  cp_ts : Z;
  cp_complete : bool;
  cp_lastSeen : Z      (* nanoseconds *)
}.

Abbreviation completeStore := (gmap bytes completePeerEntry).

Definition complete_record (now : Z) (s : completeStore) (addr : bytes) (ts : Z) (complete : bool)
  : completeStore :=
  <[addr := mkCompletePeer addr ts complete now]> s.

(** [peersFor]: complete for exactly [ts], seen after the cutoff. *)
Definition complete_peersFor (now : Z) (s : completeStore) (ts : Z) : list bytes :=
  let cutoff := now - RelayTTL in
  cp_addr <$> List.filter (fun e => cp_complete e && (cp_ts e =? ts) && (cp_lastSeen e >? cutoff))
    (snd <$> map_to_list s).

Definition complete_ok (s : completeStore) : Prop := forall k e, s !! k = Some e -> cp_addr e = k.

Lemma complete_record_ok now s addr ts c :
  complete_ok s -> complete_ok (complete_record now s addr ts c).
Proof.
  intros Hs k e. unfold complete_record. rewrite lookup_insert.
  case_decide as Hk; [by intros [= <-]|apply Hs].
Qed.

Lemma elem_of_peersFor now s ts a :
  complete_ok s ->
  a ∈ complete_peersFor now s ts <->
  exists e, s !! a = Some e /\ cp_complete e = true /\ cp_ts e = ts /\ now - RelayTTL < cp_lastSeen e.
Proof.
  intros Hs. unfold complete_peersFor. rewrite list_elem_of_fmap. split.
  - intros (e & -> & He). apply list_elem_of_In, List.filter_In in He as [He Hb].
    apply list_elem_of_In, list_elem_of_fmap in He as ([k y] & -> & Hy%elem_of_map_to_list).
    simpl in *. rewrite Z.gtb_ltb in Hb. bool_to_prop.
    exists y. rewrite (Hs _ _ Hy). done.
  - intros (e & He & Hc & Ht & Hl). exists e. split; [by rewrite (Hs _ _ He)|].
    apply list_elem_of_In, List.filter_In. split.
    + apply list_elem_of_In, list_elem_of_fmap. exists (a, e). split; [done|].
      by apply elem_of_map_to_list.
    + rewrite Hc, Z.gtb_ltb, (proj2 (Z.eqb_eq _ _)), (proj2 (Z.ltb_lt _ _)); done.
Qed.

(** The index answers from the last report of each peer alone: after a peer
    reports (version, complete), it is offered for version [ts] exactly when
    that report was complete and for [ts] and is younger than [RelayTTL]; other
    peers' answers are unchanged. *)
Theorem complete_peers_last_report (s : completeStore) (t0 now : Z) (a : bytes) (v : Z) (c : bool) (ts : Z)
    (Hs : complete_ok s) :
  let s' := complete_record t0 s a v c in
  complete_ok s' /\
  (a ∈ complete_peersFor now s' ts <-> c = true /\ v = ts /\ now < t0 + RelayTTL) /\
  (forall b, b <> a -> b ∈ complete_peersFor now s' ts <-> b ∈ complete_peersFor now s ts).
Proof.
  intros s'. assert (complete_ok s') as Hs' by (by apply complete_record_ok).
  split; [done|]. split.
  - rewrite elem_of_peersFor by done. unfold s', complete_record. rewrite lookup_insert_eq. split.
    + intros (e & [= <-] & Hc & Ht & Hl). simpl in *. split; [done|]. split; [done|lia].
    + intros (-> & -> & Hl). eexists. split; [done|]. simpl. split; [done|]. split; [done|lia].
  - intros b Hb. rewrite !elem_of_peersFor by done. unfold s', complete_record.
    by rewrite lookup_insert_ne.
Qed.

Lemma complete_peers_last_report_witness :
  str "p" ∈ complete_peersFor 5 (complete_record 1 ∅ (str "p") 9 true) 9.
Proof.
  destruct (complete_peers_last_report ∅ 1 5 (str "p") 9 true 9) as (_ & H & _).
  - intros k e. by rewrite lookup_empty.
  - apply H. split; [done|]. split; [done|]. unfold RelayTTL, second. lia.
Defined.

(** ** Contacts on the wire *)

Record ContactJSON := mkContactJSON { cj_ID : bytes; cj_Addr : bytes }.

Definition ContactToJSON (c : Contact) : ContactJSON := mkContactJSON (id_String (c_ID c)) (c_Addr c).

Definition ContactFromJSON (now : Z) (j : ContactJSON) : option Contact :=
  id ← ParseID (cj_ID j); Some (mkContact id (cj_Addr j) now 0 false).

Lemma contact_json_roundtrip now c :
  ContactFromJSON now (ContactToJSON c) = Some (mkContact (c_ID c) (c_Addr c) now 0 false).
Proof.
  unfold ContactFromJSON, ContactToJSON. simpl.
  by rewrite parse_id_String.
Qed.

Lemma contact_from_json_wf now j c : ContactFromJSON now j = Some c -> contact_wf c.
Proof.
  unfold ContactFromJSON. destruct (ParseID _); simpl; [|done]. intros [= <-]. split; simpl; [unfold maxMissedPings; lia|done].
Qed.
