(* ===== verification/DhtWire.v ===== *)
(** * DhtWire: encrypted framing of DHT datagrams (dht/dht_wire.go)

    [Seal] and [Open] over an abstract cipher and JSON codec.  What the random
    generator delivers is an argument; a failed read is [None]. *)
From S2P Require Import Prelude Encoding Env DhtId DhtTable DhtRelay.

Definition MsgPing : byte := x01.
Definition MsgPong : byte := x02.
Definition MsgFindNode : byte := x03.
Definition MsgNodes : byte := x04.
Definition MsgAnnounce : byte := x05.
Definition MsgAck : byte := x06.
Definition MsgGetRelays : byte := x07.
Definition MsgRelayList : byte := x08.
Definition MsgManifestHave : byte := x09.
Definition MsgManifestWant : byte := x0a.
Definition MsgManifest : byte := x0b.
Definition MsgHolePunch : byte := x0c.
Definition MsgContentHave : byte := x0d.
Definition MsgContentWant : byte := x0e.
Definition MsgContent : byte := x0f.
Definition MsgMirrorPunch : byte := x10.

Definition MaxTTL : Z := 8.

(** ** Message bodies *)

Record FindNodePayload := mkFindNode { fn_From : ContactJSON; fn_Target : bytes }.
Record NodesPayload := mkNodes { np_From : ContactJSON; np_Nodes : list ContactJSON }.
Record AnnouncePayload := mkAnnounce { ap_Entry : RelayEntry }.
Record RelayListPayload := mkRelayList { rl_Entries : list RelayEntry }.
Record ManifestHavePayload := mkManifestHave { mh_TS : Z }.
Record ManifestPayload := mkManifest { mp_TS : Z; mp_Raw : bytes }.
Record HolePunchPayload := mkHolePunch { hp_Peer : bytes; hp_Control : bytes }.
Record ContentHavePayload := mkContentHave { ch_TS : Z; ch_Complete : bool }.
Record ContentPayload := mkContent { ct_TS : Z; ct_Raw : bytes }.
Record MirrorPunchPayload := mkMirrorPunch { mi_Peer : bytes }.

(** The type of the absent payload ([nil]). *)
#[export] Instance json_none : JSON Empty_set := {|
  json_marshal := fun _ => None;
  json_unmarshal := fun _ => None
|}.

(** The three reads of one [Seal]. *)
Record seal_rnd := mkRnd {
  rnd_pad : option byte;
  rnd_fill : option bytes;
  rnd_nonce : option bytes
}.

Section wire.
Context `{AEAD}.

Definition dht_key : bytes := blake2b_256 (str "snc-dht-v1").

Definition Seal {P} `{JSON P} (rnd : seal_rnd) (msgType : byte) (ttl : Z) (payload : option P) : res bytes :=
  match chacha_new dht_key with
  | Ok _ =>
    let ttl := if ttl =? 0 then MaxTTL else ttl in
    match (match payload with None => Some [] | Some p => json_marshal p end) with
    | None => Err "dht-wire: marshal"
    | Some body =>
      match rnd_pad rnd with
      | None => Err "dht-wire: pad"
      | Some padByte =>
        let padLen := Z.land (b2z padByte) 15 in
        match (if padLen >? 0 then rnd_fill rnd else Some []) with
        | None => Err "dht-wire: pad fill"
        | Some fill =>
          let plain := [msgType; z2b ttl; z2b padLen] ++ rand_fill padLen fill ++ body in
          match rnd_nonce rnd with
          | None => Err "dht-wire: nonce"
          | Some n =>
            let nonce := rand_fill nonce_size n in
            Ok (nonce ++ aead_seal dht_key nonce plain)
          end
        end
      end
    end
  | _ => Err "dht-wire: aead"
  end.

Definition Open (pkt : bytes) : res (byte * Z * bytes) :=
  match chacha_new dht_key with
  | Ok _ =>
    let minLen := nonce_size + 3 + aead_overhead in
    if zlen pkt <? minLen then Err "dht-wire: packet too short" else
    nonce ← slice pkt 0 nonce_size;
    ct ← slice_from pkt nonce_size;
    match aead_open dht_key nonce ct with
    | None => Err "dht-wire: auth failed"
    | Some plain =>
      p2 ← index plain 2;
      let padLen := b2z p2 in
      if 3 + padLen >? zlen plain then Err "dht-wire: invalid pad_len" else
      t ← index plain 0;
      l ← index plain 1;
      rest ← slice_from plain (3 + padLen);
      Ok (t, b2z l, rest)
    end
  | _ => Err "dht-wire: aead"
  end.

End wire.

(** ** Lemmas *)

Section wire_lemmas.
Context `{AEADLaws}.

Lemma dht_key_ok : chacha_new dht_key = Ok tt.
Proof. unfold chacha_new, dht_key. by rewrite blake2b_length. Qed.

Lemma pad_range b : 0 <= Z.land (b2z b) 15 < 16.
Proof.
  change 15 with (Z.ones 4). rewrite Z.land_ones by lia. apply Z.mod_pos_bound. lia.
Qed.

(** What a successful [Seal] built. *)
Lemma seal_shape {P} `{JSON P} rnd t ttl (payload : option P) pkt :
  Seal rnd t ttl payload = Ok pkt ->
  exists body nonce pad,
    match payload with None => Some [] | Some p => json_marshal p end = Some body /\
    zlen nonce = nonce_size /\ zlen pad < 16 /\
    pkt = nonce ++ aead_seal dht_key nonce
      ([t; z2b (if ttl =? 0 then MaxTTL else ttl); z2b (zlen pad)] ++ pad ++ body).
Proof.
  unfold Seal. rewrite dht_key_ok. cbv zeta.
  destruct (match payload with None => _ | _ => _ end) as [body|] eqn:Eb; [|done].
  destruct (rnd_pad rnd) as [pb|]; [|done].
  destruct (if _ >? 0 then _ else _) as [fill|]; [|done].
  destruct (rnd_nonce rnd) as [n|]; [|done]. intros [= <-].
  pose proof (pad_range pb) as Hp.
  exists body, (rand_fill nonce_size n), (rand_fill (Z.land (b2z pb) 15) fill).
  rewrite !zlen_rand_fill by (unfold nonce_size; lia).
  split; [done|]. split; [done|]. split; [lia|done].
Qed.

Lemma open_sealed t l pad body nonce :
  zlen nonce = nonce_size -> zlen pad < 256 ->
  Open (nonce ++ aead_seal dht_key nonce ([t; l; z2b (zlen pad)] ++ pad ++ body)) = Ok (t, b2z l, body).
Proof.
  intros Hn Hp. unfold Open. rewrite dht_key_ok. cbv zeta.
  assert (zlen dht_key = key_size) as Hk by apply blake2b_length.
  set (plain := [t; l; z2b (zlen pad)] ++ pad ++ body).
  assert (zlen plain = 3 + zlen pad + zlen body) as Hpl.
  { unfold plain. autorewrite with wire. lia. }
  pose proof (zlen_nonneg pad). pose proof (zlen_nonneg body).
  rewrite (proj2 (Z.ltb_ge _ _)).
  2:{ rewrite zlen_app, aead_seal_length by done. lia. }
  pose proof (slice_app [] nonce (aead_seal dht_key nonce plain) 0 nonce_size) as Hs0.
  simpl in Hs0. rewrite Hs0 by (rewrite ?Hn; done). simpl mbind.
  rewrite slice_from_app by done. simpl mbind. rewrite aead_open_seal by done.
  change (index plain 2) with (Ok (z2b (zlen pad))).
  change (index plain 1) with (Ok l). change (index plain 0) with (Ok t).
  cbn [mbind res_bind]. rewrite b2z_z2b, Z.mod_small, Z.gtb_ltb, (proj2 (Z.ltb_ge _ _)) by lia.
  unfold plain. rewrite app_assoc, slice_from_app by (autorewrite with wire; lia). done.
Qed.

Lemma open_total pkt : Open pkt <> Panic.
Proof.
  unfold Open. rewrite dht_key_ok. cbv zeta. destruct (_ <? _) eqn:E; [done|]. bool_to_prop.
  unfold slice_from. fold (zlen pkt).
  rewrite !slice_ok by (unfold nonce_size, aead_overhead in *; lia). simpl mbind.
  destruct (aead_open _ _ _) as [plain|] eqn:Eo; [|done].
  apply aead_open_length in Eo.
  assert (3 <= zlen plain) as Hpl.
  { unfold zlen in *. rewrite length_take, length_drop in Eo.
    unfold nonce_size, aead_overhead in *. lia. }
  destruct (index_ok plain 2) as (p2 & -> & _); [lia|]. simpl mbind.
  destruct (_ >? _) eqn:G; rewrite Z.gtb_ltb in G; [done|]. bool_to_prop.
  destruct (index_ok plain 0) as (t & -> & _); [lia|].
  destruct (index_ok plain 1) as (l & -> & _); [lia|]. simpl mbind.
  pose proof (b2z_range p2). fold (zlen plain). rewrite slice_ok by lia. done.
Qed.

Lemma open_of_seal {P} `{JSON P} rnd t ttl (payload : option P) pkt :
  0 <= ttl < 256 -> Seal rnd t ttl payload = Ok pkt ->
  exists body, match payload with None => Some [] | Some p => json_marshal p end = Some body /\
    Open pkt = Ok (t, if ttl =? 0 then MaxTTL else ttl, body).
Proof.
  intros Ht (body & nonce & pad & Hb & Hn & Hp & ->)%seal_shape. exists body. split; [done|].
  rewrite open_sealed by lia. rewrite b2z_z2b, Z.mod_small; [done|].
  unfold MaxTTL. destruct (_ =? _); lia.
Qed.

(** C30: a datagram built by [Seal] is opened by every node to the same message
    type, the given TTL (the maximum when 0 was passed) and exactly the encoded
    payload, for every padding the generator chose; its length hides the payload
    length behind at most 15 bytes of padding. *)
Theorem seal_open_roundtrip {P} `{JSON P} (rnd : seal_rnd) (t : byte) (ttl : Z) (payload : option P)
    (pkt : bytes) (Httl : 0 <= ttl < 256) (Hs : Seal rnd t ttl payload = Ok pkt) :
  exists body, match payload with None => Some [] | Some p => json_marshal p end = Some body /\
    Open pkt = Ok (t, if ttl =? 0 then MaxTTL else ttl, body) /\
    31 + zlen body <= zlen pkt <= 46 + zlen body.
Proof.
  destruct (open_of_seal rnd t ttl payload pkt Httl Hs) as (body & Hb & Ho).
  exists body. split; [done|]. split; [done|].
  apply seal_shape in Hs as (body' & nonce & pad & Hb' & Hn & Hp & ->).
  assert (body' = body) as -> by congruence.
  rewrite zlen_app, aead_seal_length; [|apply blake2b_length|done].
  autorewrite with wire. pose proof (zlen_nonneg pad). unfold nonce_size, aead_overhead in *. lia.
Qed.

(** C40: no datagram, however malformed, makes [Open] panic, and [Seal] succeeds
    whenever the payload marshals and the generator delivers. *)
Theorem wire_total {P} `{JSON P} :
  (forall pkt, no_panic (Open pkt)) /\
  (forall rnd t ttl (payload : option P), no_panic (Seal rnd t ttl payload)) /\
  (forall b f n t ttl (p : P), is_Some (json_marshal p) ->
     exists pkt, Seal (mkRnd (Some b) (Some f) (Some n)) t ttl (Some p) = Ok pkt).
Proof.
  split; [apply open_total|]. split.
  - intros rnd t ttl payload. unfold no_panic, Seal. rewrite dht_key_ok. cbv zeta.
    by repeat (case_goal; try done).
  - intros b f n t ttl p [body Hb]. unfold Seal. rewrite dht_key_ok. cbv zeta. simpl.
    rewrite Hb. destruct (_ >? _); eauto.
Qed.

End wire_lemmas.

(** ** Witness: a sealed "have" advertisement under the toy cipher *)

#[local] Existing Instances Toy.aead Toy.aead_laws.

Definition toy_rnd : seal_rnd := mkRnd (Some x13) (Some [xaa; xbb; xcc]) (Some [x01]).

Lemma seal_open_roundtrip_witness :
  exists pkt body, Seal toy_rnd MsgPing 0 (@None Empty_set) = Ok pkt /\
    Open pkt = Ok (MsgPing, 8, body) /\ body = [].
Proof.
  destruct (Seal toy_rnd MsgPing 0 (@None Empty_set)) as [pkt| |] eqn:E; [|done..].
  destruct (seal_open_roundtrip toy_rnd MsgPing 0 (@None Empty_set) pkt ltac:(lia) E)
    as (body & [= <-] & Ho & _).
  exists pkt, []. done.
Defined.

Lemma wire_total_witness :
  no_panic (Open (str "too short")) /\ Open (str "too short") = Err "dht-wire: packet too short".
Proof.
  split; [|reflexivity]. destruct (wire_total (P := Empty_set)) as [Ho _]. apply Ho.
Defined.
