(* ===== verification/DhtNode.v ===== *)
(** * DhtNode: the DHT node (dht/dht_node.go, dht/dht_content.go)

    The node's state is a record and every handler a function from the state to
    the new state and the actions it performs: datagrams written to the socket
    (the very bytes [Seal] produced) and callbacks invoked.  The goroutine that
    [pingAddr] starts is an entry of [n_timers] until it fires.  [time.Now()] is
    an argument in nanoseconds; [rnd i] is the randomness of a handler's i-th
    [Seal]. *)
From S2P Require Import Prelude Encoding Env DhtId DhtTable DhtRelay DhtWire.

Definition bootstrapAlpha : Z := 3.

(** [time.Now().Unix()]. *)
Definition unix (now : Z) : Z := now / second.

(** The JSON codecs of the message bodies and of the persisted files. *)
Record peersFile := mkPeersFile { pf_Contacts : list ContactJSON }.

Class DhtJSON := {
  json_find_node :: JSON FindNodePayload;
  json_nodes :: JSON NodesPayload;
  json_announce :: JSON AnnouncePayload;
  json_relay_list :: JSON RelayListPayload;
  json_manifest_have :: JSON ManifestHavePayload;
  json_manifest :: JSON ManifestPayload;
  json_hole_punch :: JSON HolePunchPayload;
  json_content_have :: JSON ContentHavePayload;
  json_content :: JSON ContentPayload;
  json_mirror_punch :: JSON MirrorPunchPayload;
  json_peers_file :: JSON peersFile;
  json_relay_file :: JSON (list RelayEntry)
}.

(** ** State *)

Record Node := mkNode {
  n_id : ID;
  n_localAddr : bytes;                                  (* conn.LocalAddr().String() *)
  n_ownAddr : bytes;
  n_rt : RoutingTable;
  n_relays : relayStore;
  n_peersPath : bytes;
  n_ownEntry : option RelayEntry;
  n_entryRefresher : option (Z -> option RelayEntry);
  n_pendingPings : gmap bytes ID;
  n_manifestRaw : bytes;
  n_manifestTS : Z;
  n_onManifest : bool;                                  (* a handler is registered *)
  n_contentRaw : bytes;
  n_contentTS : Z;
  n_contentComplete : bool;
  n_onContent : bool;
  n_completePeers : completeStore;
  n_holePunchHandler : bool;
  n_mirrorPunchHandler : bool;
  n_timers : list (bytes * ID)                          (* running pingAddr goroutines *)
}.

Definition NewNode (id : ID) (localAddr peersPath : bytes) : Node :=
  mkNode id localAddr [] (NewRoutingTable id) ∅ peersPath None None ∅ [] 0 false [] 0 false false ∅
    false false [].

(** *** Assignments to single fields *)

Definition with_rt (n : Node) (rt : RoutingTable) : Node :=
  mkNode (n_id n) (n_localAddr n) (n_ownAddr n) rt (n_relays n) (n_peersPath n) (n_ownEntry n)
    (n_entryRefresher n) (n_pendingPings n) (n_manifestRaw n) (n_manifestTS n) (n_onManifest n)
    (n_contentRaw n) (n_contentTS n) (n_contentComplete n) (n_onContent n) (n_completePeers n)
    (n_holePunchHandler n) (n_mirrorPunchHandler n) (n_timers n).

Definition with_relays (n : Node) (r : relayStore) : Node :=
  mkNode (n_id n) (n_localAddr n) (n_ownAddr n) (n_rt n) r (n_peersPath n) (n_ownEntry n)
    (n_entryRefresher n) (n_pendingPings n) (n_manifestRaw n) (n_manifestTS n) (n_onManifest n)
    (n_contentRaw n) (n_contentTS n) (n_contentComplete n) (n_onContent n) (n_completePeers n)
    (n_holePunchHandler n) (n_mirrorPunchHandler n) (n_timers n).

Definition with_pings (n : Node) (p : gmap bytes ID) (ts : list (bytes * ID)) : Node :=
  mkNode (n_id n) (n_localAddr n) (n_ownAddr n) (n_rt n) (n_relays n) (n_peersPath n) (n_ownEntry n)
    (n_entryRefresher n) p (n_manifestRaw n) (n_manifestTS n) (n_onManifest n)
    (n_contentRaw n) (n_contentTS n) (n_contentComplete n) (n_onContent n) (n_completePeers n)
    (n_holePunchHandler n) (n_mirrorPunchHandler n) ts.

Definition with_manifest (n : Node) (raw : bytes) (ts : Z) : Node :=
  mkNode (n_id n) (n_localAddr n) (n_ownAddr n) (n_rt n) (n_relays n) (n_peersPath n) (n_ownEntry n)
    (n_entryRefresher n) (n_pendingPings n) raw ts (n_onManifest n)
    (n_contentRaw n) (n_contentTS n) (n_contentComplete n) (n_onContent n) (n_completePeers n)
    (n_holePunchHandler n) (n_mirrorPunchHandler n) (n_timers n).

Definition with_content (n : Node) (raw : bytes) (ts : Z) (complete : bool) : Node :=
  mkNode (n_id n) (n_localAddr n) (n_ownAddr n) (n_rt n) (n_relays n) (n_peersPath n) (n_ownEntry n)
    (n_entryRefresher n) (n_pendingPings n) (n_manifestRaw n) (n_manifestTS n) (n_onManifest n)
    raw ts complete (n_onContent n) (n_completePeers n)
    (n_holePunchHandler n) (n_mirrorPunchHandler n) (n_timers n).

Definition with_completePeers (n : Node) (s : completeStore) : Node :=
  mkNode (n_id n) (n_localAddr n) (n_ownAddr n) (n_rt n) (n_relays n) (n_peersPath n) (n_ownEntry n)
    (n_entryRefresher n) (n_pendingPings n) (n_manifestRaw n) (n_manifestTS n) (n_onManifest n)
    (n_contentRaw n) (n_contentTS n) (n_contentComplete n) (n_onContent n) s
    (n_holePunchHandler n) (n_mirrorPunchHandler n) (n_timers n).

Definition with_ownEntry (n : Node) (e : option RelayEntry) : Node :=
  mkNode (n_id n) (n_localAddr n) (n_ownAddr n) (n_rt n) (n_relays n) (n_peersPath n) e
    (n_entryRefresher n) (n_pendingPings n) (n_manifestRaw n) (n_manifestTS n) (n_onManifest n)
    (n_contentRaw n) (n_contentTS n) (n_contentComplete n) (n_onContent n) (n_completePeers n)
    (n_holePunchHandler n) (n_mirrorPunchHandler n) (n_timers n).

Definition with_ownAddr (n : Node) (a : bytes) : Node :=
  mkNode (n_id n) (n_localAddr n) a (n_rt n) (n_relays n) (n_peersPath n) (n_ownEntry n)
    (n_entryRefresher n) (n_pendingPings n) (n_manifestRaw n) (n_manifestTS n) (n_onManifest n)
    (n_contentRaw n) (n_contentTS n) (n_contentComplete n) (n_onContent n) (n_completePeers n)
    (n_holePunchHandler n) (n_mirrorPunchHandler n) (n_timers n).

Definition with_refresher (n : Node) (f : option (Z -> option RelayEntry)) : Node :=
  mkNode (n_id n) (n_localAddr n) (n_ownAddr n) (n_rt n) (n_relays n) (n_peersPath n) (n_ownEntry n)
    f (n_pendingPings n) (n_manifestRaw n) (n_manifestTS n) (n_onManifest n)
    (n_contentRaw n) (n_contentTS n) (n_contentComplete n) (n_onContent n) (n_completePeers n)
    (n_holePunchHandler n) (n_mirrorPunchHandler n) (n_timers n).

(** The four handler registrations: manifest, content, hole punch, mirror punch. *)
Definition with_handlers (n : Node) (m c h p : bool) : Node :=
  mkNode (n_id n) (n_localAddr n) (n_ownAddr n) (n_rt n) (n_relays n) (n_peersPath n) (n_ownEntry n)
    (n_entryRefresher n) (n_pendingPings n) (n_manifestRaw n) (n_manifestTS n) m
    (n_contentRaw n) (n_contentTS n) (n_contentComplete n) c (n_completePeers n)
    h p (n_timers n).

(** ** Actions *)

Section node.
Context `{AEAD} `{Signatures} `{Net} `{SliceSort} `{DhtJSON}.

Inductive action :=
| ASend (pkt : bytes) (dst : UDPAddr)
| AManifest (raw : bytes)
| AContent (raw : bytes)
| AHolePunch (peer control : bytes)
| AMirrorPunch (peer : bytes).

Abbreviation handler_result := (Node * list action)%type.

(** [pkt, err := Seal(...); if err != nil { return }; n.send(pkt, dst)]. *)
Definition seal_send {P} `{JSON P} (rnd : seal_rnd) (t : byte) (ttl : Z) (p : option P) (dst : UDPAddr)
    : list action :=
  match Seal rnd t ttl p with Ok pkt => [ASend pkt dst] | _ => [] end.

(** The loops that seal a message for every contact and send it. *)
Definition seal_send_each {P} `{JSON P} (rnd : nat -> seal_rnd) (t : byte) (p : option P)
    (cs : list Contact) : list action :=
  mjoin (imap (fun i c =>
    match Seal (rnd i) t 0 p with
    | Ok pkt => match resolve_udp (c_Addr c) with Some raddr => [ASend pkt raddr] | None => [] end
    | _ => []
    end) cs).

(** The loops that send one packet to every contact. *)
Definition send_each (pkt : bytes) (cs : list Contact) : list action :=
  mjoin ((fun c => match resolve_udp (c_Addr c) with Some raddr => [ASend pkt raddr] | None => [] end) <$> cs).

(** ** Setters and getters *)

Definition SetManifest (n : Node) (raw : bytes) (ts : Z) : Node :=
  if ts >? n_manifestTS n then with_manifest n raw ts else n.

Definition SetContent (n : Node) (raw : bytes) (ts : Z) : Node :=
  if ts >? n_contentTS n then with_content n raw ts false else n.

Definition SetContentComplete (n : Node) (ts : Z) (complete : bool) : Node :=
  if ts =? n_contentTS n then with_content n (n_contentRaw n) (n_contentTS n) complete else n.

Definition SetOwnAddr (n : Node) (addr : bytes) : Node := with_ownAddr n addr.

Definition SetEntryRefresher (n : Node) (f : option (Z -> option RelayEntry)) : Node := with_refresher n f.

(** Registering a handler ([true]) or clearing it with nil ([false]). *)
Definition SetManifestHandler (n : Node) (b : bool) : Node :=
  with_handlers n b (n_onContent n) (n_holePunchHandler n) (n_mirrorPunchHandler n).

Definition SetContentHandler (n : Node) (b : bool) : Node :=
  with_handlers n (n_onManifest n) b (n_holePunchHandler n) (n_mirrorPunchHandler n).

Definition SetHolePunchHandler (n : Node) (b : bool) : Node :=
  with_handlers n (n_onManifest n) (n_onContent n) b (n_mirrorPunchHandler n).

Definition SetMirrorPunchHandler (n : Node) (b : bool) : Node :=
  with_handlers n (n_onManifest n) (n_onContent n) (n_holePunchHandler n) b.

Definition CompletePeers (now : Z) (n : Node) (ts : Z) : list bytes :=
  complete_peersFor now (n_completePeers n) ts.

Definition Relays (now : Z) (n : Node) : list RelayEntry := relay_all (unix now) (n_relays n).

Definition OwnEntry (n : Node) : option RelayEntry := n_ownEntry n.
Definition RoutingTableSize (n : Node) : Z := rt_Size (n_rt n).

Definition selfAddr (n : Node) : bytes :=
  if bool_decide (n_ownAddr n = []) then n_localAddr n else n_ownAddr n.

Definition isValidContactAddr (addr : bytes) : bool :=
  match split_host_port addr with
  | None => false
  | Some (host, _) =>
    match parse_ip host with
    | None => false
    | Some ip => negb (ip_is_unspecified ip)
    end
  end.

Definition self_contact (n : Node) : ContactJSON := mkContactJSON (id_String (n_id n)) (selfAddr n).

(** ** Message handlers *)

Definition learnContact (n : Node) (src : UDPAddr) : Node := n.

Definition clearSuspectByAddr (n : Node) (src : UDPAddr) : Node :=
  let addr := UDPAddr_string src in
  match n_pendingPings n !! addr with
  | Some id =>
      with_rt (with_pings n (delete addr (n_pendingPings n)) (n_timers n)) (rt_ResetMissed (n_rt n) id)
  | None => n
  end.

Definition handlePing (rnd : seal_rnd) (n : Node) (src : UDPAddr) (ttl : Z) : handler_result :=
  let n := learnContact n src in
  (n, seal_send rnd MsgPong MaxTTL (@None Empty_set) src).

Definition handleFindNode (now : Z) (rnd : seal_rnd) (n : Node) (src : UDPAddr) (ttl : Z) (raw : bytes)
    : handler_result :=
  let n := learnContact n src in
  match json_unmarshal raw with
  | None => (n, [])
  | Some req =>
    match ParseID (fn_Target req) with
    | None => (n, [])
    | Some target =>
      let n := match ContactFromJSON now (fn_From req) with
               | Some c => with_rt n (rt_Add (n_rt n) c)
               | None => n
               end in
      let closest := rt_Closest (n_rt n) target K in
      let nodes := ContactToJSON <$> closest in
      (n, seal_send rnd MsgNodes MaxTTL (Some (mkNodes (self_contact n) nodes)) src)
    end
  end.

(** One contact of a [Nodes] answer. *)
Definition add_valid (now : Z) (rt : RoutingTable) (j : ContactJSON) : RoutingTable :=
  if isValidContactAddr (cj_Addr j) then
    match ContactFromJSON now j with Some c => rt_Add rt c | None => rt end
  else rt.

Definition handleNodes (now : Z) (n : Node) (src : UDPAddr) (raw : bytes) : handler_result :=
  let n := learnContact n src in
  match json_unmarshal raw with
  | None => (n, [])
  | Some resp =>
    let rt := if negb (bool_decide (cj_ID (np_From resp) = []))
              then add_valid now (n_rt n) (np_From resp) else n_rt n in
    (with_rt n (fold_left (add_valid now) (np_Nodes resp) rt), [])
  end.

Definition handleAnnounce (now : Z) (rnd : seal_rnd) (n : Node) (src : UDPAddr) (raw : bytes)
    : handler_result :=
  let n := learnContact n src in
  match json_unmarshal raw with
  | None => (n, [])
  | Some req =>
    match relay_store (unix now) (n_relays n) (ap_Entry req) with
    | (Ok _, s) =>
        let ack := match Seal rnd MsgAck MaxTTL (@None Empty_set) with Ok p => p | _ => [] end in
        (with_relays n s, [ASend ack src])
    | (_, s) => (with_relays n s, [])
    end
  end.

Definition handleGetRelays (now : Z) (rnd : seal_rnd) (n : Node) (src : UDPAddr) (ttl : Z) : handler_result :=
  let n := learnContact n src in
  let entries := relay_all (unix now) (n_relays n) in
  (n, seal_send rnd MsgRelayList MaxTTL (Some (mkRelayList entries)) src).

Definition handleRelayList (now : Z) (n : Node) (raw : bytes) : handler_result :=
  match json_unmarshal raw with
  | None => (n, [])
  | Some resp =>
    (with_relays n (fold_left (fun s e => (relay_store (unix now) s e).2) (rl_Entries resp) (n_relays n)), [])
  end.

Definition handleManifestHave (rnd : seal_rnd) (n : Node) (src : UDPAddr) (raw : bytes) : handler_result :=
  match json_unmarshal raw with
  | None => (n, [])
  | Some req =>
    let ours := n_manifestTS n in
    if mh_TS req >? ours then (n, seal_send rnd MsgManifestWant MaxTTL (@None Empty_set) src)
    else (n, [])
  end.

Definition handleManifestWant (rnd : seal_rnd) (n : Node) (src : UDPAddr) : handler_result :=
  if zlen (n_manifestRaw n) =? 0 then (n, [])
  else (n, seal_send rnd MsgManifest MaxTTL (Some (mkManifest (n_manifestTS n) (n_manifestRaw n))) src).

Definition handleManifestData (n : Node) (raw : bytes) : handler_result :=
  match json_unmarshal raw with
  | None => (n, [])
  | Some msg =>
    if mp_TS msg <=? n_manifestTS n then (n, [])
    else (n, if n_onManifest n then [AManifest (mp_Raw msg)] else [])
  end.

Definition handleHolePunch (n : Node) (src : UDPAddr) (raw : bytes) : handler_result :=
  if zlen raw =? 0 then (n, []) else
  match json_unmarshal raw with
  | None => (n, [])
  | Some payload =>
    if bool_decide (hp_Peer payload = []) then (n, [])
    else if negb (n_holePunchHandler n) then (n, [])
    else if negb (bool_decide (hp_Control payload = [])) && bool_decide (hp_Control payload = selfAddr n)
    then (n, [])
    else (n, [AHolePunch (hp_Peer payload) (hp_Control payload)])
  end.

Definition handleMirrorPunch (n : Node) (src : UDPAddr) (raw : bytes) : handler_result :=
  if zlen raw =? 0 then (n, []) else
  match json_unmarshal raw with
  | None => (n, [])
  | Some payload =>
    if bool_decide (mi_Peer payload = []) then (n, [])
    else if negb (n_mirrorPunchHandler n) then (n, [])
    else (n, [AMirrorPunch (mi_Peer payload)])
  end.

Definition handleContentHave (now : Z) (rnd : seal_rnd) (n : Node) (src : UDPAddr) (raw : bytes)
    : handler_result :=
  match json_unmarshal raw with
  | None => (n, [])
  | Some req =>
    let n := with_completePeers n
      (complete_record now (n_completePeers n) (UDPAddr_string src) (ch_TS req) (ch_Complete req)) in
    let ours := n_contentTS n in
    if ch_TS req >? ours then (n, seal_send rnd MsgContentWant MaxTTL (@None Empty_set) src)
    else (n, [])
  end.

Definition handleContentWant (rnd : seal_rnd) (n : Node) (src : UDPAddr) : handler_result :=
  if zlen (n_contentRaw n) =? 0 then (n, [])
  else (n, seal_send rnd MsgContent MaxTTL (Some (mkContent (n_contentTS n) (n_contentRaw n))) src).

Definition handleContentData (n : Node) (src : UDPAddr) (raw : bytes) : handler_result :=
  match json_unmarshal raw with
  | None => (n, [])
  | Some msg =>
    if ct_TS msg <=? n_contentTS n then (n, [])
    else (n, if n_onContent n then [AContent (ct_Raw msg)] else [])
  end.

Definition handlePacket (now : Z) (rnd : seal_rnd) (n : Node) (pkt : bytes) (src : UDPAddr) : handler_result :=
  match Open pkt with
  | Ok (msgType, ttl, raw) =>
    let n := clearSuspectByAddr n src in
    match msgType with
    | x01 => handlePing rnd n src ttl
    | x02 => (n, [])
    | x03 => handleFindNode now rnd n src ttl raw
    | x04 => handleNodes now n src raw
    | x05 => handleAnnounce now rnd n src raw
    | x06 => (n, [])
    | x07 => handleGetRelays now rnd n src ttl
    | x08 => handleRelayList now n raw
    | x09 => handleManifestHave rnd n src raw
    | x0a => handleManifestWant rnd n src
    | x0b => handleManifestData n raw
    | x0c => handleHolePunch n src raw
    | x10 => handleMirrorPunch n src raw
    | x0d => handleContentHave now rnd n src raw
    | x0e => handleContentWant rnd n src
    | x0f => handleContentData n src raw
    | _ => (n, [])
    end
  | _ => (n, [])
  end.

(** ** Active operations *)

Definition pingAddr (rnd : seal_rnd) (n : Node) (addr : bytes) : handler_result :=
  match resolve_udp addr with
  | None => (n, [])
  | Some raddr =>
    match Seal rnd MsgPing 0 (@None Empty_set) with
    | Ok pkt =>
      let closest := rt_Closest (n_rt n) (n_id n) (K * IDBits) in
      match list_find (fun c => c_Addr c = addr) closest with
      | None => (n, [ASend pkt raddr])
      | Some (_, c) =>
          (with_pings n (<[addr := c_ID c]> (n_pendingPings n)) ((addr, c_ID c) :: n_timers n),
           [ASend pkt raddr])
      end
    | _ => (n, [])
    end
  end.

(** One of the running goroutines ends. *)
Definition timer_done (ts : list (bytes * ID)) (t : bytes * ID) : list (bytes * ID) :=
  match list_find (eq t) ts with Some (i, _) => delete i ts | None => ts end.

(** The goroutine of [pingAddr] after [pingTimeout]. *)
Definition pingExpired (n : Node) (t : bytes * ID) : Node :=
  let '(addr, id) := t in
  let ts := timer_done (n_timers n) t in
  match n_pendingPings n !! addr with
  | Some _ =>
      with_rt (with_pings n (delete addr (n_pendingPings n)) ts) (rt_MarkMissed (n_rt n) id)
  | None => with_pings n (n_pendingPings n) ts
  end.

Definition findNode (rnd : nat -> seal_rnd) (n : Node) (target : ID) : list action :=
  let closest := rt_Closest (n_rt n) target bootstrapAlpha in
  seal_send_each rnd MsgFindNode (Some (mkFindNode (self_contact n) (id_String target))) closest.

Definition findNodeDirect (rnd : seal_rnd) (n : Node) (addr : bytes) (target : ID) : list action :=
  match resolve_udp addr with
  | None => []
  | Some raddr =>
      seal_send rnd MsgFindNode 0 (Some (mkFindNode (self_contact n) (id_String target))) raddr
  end.

Definition announce (now : Z) (rnd : nat -> seal_rnd) (n : Node) : handler_result :=
  let n := match n_entryRefresher n with
           | Some f => match f now with Some fresh => with_ownEntry n (Some fresh) | None => n end
           | None => n
           end in
  match n_ownEntry n with
  | None => (n, [])
  | Some entry =>
    match ParseID (re_NodeID entry) with
    | None => (n, [])
    | Some id =>
        (n, seal_send_each rnd MsgAnnounce (Some (mkAnnounce entry)) (rt_Closest (n_rt n) id K))
    end
  end.

Definition getRelays (rnd : nat -> seal_rnd) (n : Node) : list action :=
  seal_send_each rnd MsgGetRelays (@None Empty_set) (rt_Closest (n_rt n) (n_id n) K).

Definition gossipManifestHave (rnd : seal_rnd) (n : Node) : list action :=
  let ts := n_manifestTS n in
  if ts =? 0 then [] else
  let peers := rt_Closest (n_rt n) (n_id n) K in
  if zlen peers =? 0 then [] else
  match Seal rnd MsgManifestHave MaxTTL (Some (mkManifestHave ts)) with
  | Ok pkt => send_each pkt peers
  | _ => []
  end.

Definition gossipContentHave (rnd : seal_rnd) (n : Node) : list action :=
  let ts := n_contentTS n in
  let complete := n_contentComplete n in
  if ts =? 0 then [] else
  let peers := rt_Closest (n_rt n) (n_id n) K in
  if zlen peers =? 0 then [] else
  match Seal rnd MsgContentHave MaxTTL (Some (mkContentHave ts complete)) with
  | Ok pkt => send_each pkt peers
  | _ => []
  end.

Definition SendHolePunch (rnd : seal_rnd) (relayAddr ownAddr controlURL : bytes) : list action :=
  match resolve_udp relayAddr with
  | None => []
  | Some raddr => seal_send rnd MsgHolePunch MaxTTL (Some (mkHolePunch ownAddr controlURL)) raddr
  end.

Definition SendMirrorPunch (rnd : seal_rnd) (peerAddr ownAddr : bytes) : list action :=
  match resolve_udp peerAddr with
  | None => []
  | Some raddr => seal_send rnd MsgMirrorPunch MaxTTL (Some (mkMirrorPunch ownAddr)) raddr
  end.

(** ** Maintenance *)

Fixpoint ping_all (rnd : nat -> seal_rnd) (n : Node) (cs : list Contact) : handler_result :=
  match cs with
  | [] => (n, [])
  | c :: cs =>
      let '(n1, a1) := pingAddr (rnd O) n (c_Addr c) in
      let '(n2, a2) := ping_all (fun i => rnd (S i)) n1 cs in
      (n2, a1 ++ a2)
  end.

Definition reprobeSuspects (rnd : nat -> seal_rnd) (n : Node) : handler_result :=
  ping_all rnd n (rt_SuspectContacts (n_rt n)).

Definition oldest_contact (c0 : Contact) (cs : list Contact) : Contact :=
  fold_left (fun oldest c => if c_LastSeen c <? c_LastSeen oldest then c else oldest) cs c0.

Definition pingStale (rnd : seal_rnd) (n : Node) : handler_result :=
  match rt_All (n_rt n) with
  | [] => (n, [])
  | c0 :: cs => pingAddr rnd n (c_Addr (oldest_contact c0 cs))
  end.

(** The four calls of the announce tick. *)
Definition announceTick (now : Z) (rnd : nat -> nat -> seal_rnd) (n : Node) : handler_result :=
  let '(n, a1) := announce now (rnd 0%nat) n in
  (n, a1 ++ getRelays (rnd 1%nat) n ++ gossipManifestHave (rnd 2%nat 0%nat) n ++
      gossipContentHave (rnd 3%nat 0%nat) n).

(** ** Persistence *)

(** The bytes [savePeers] writes, when it gets that far. *)
Definition savePeers (encryptFn : bytes -> option bytes) (n : Node) : option bytes :=
  if bool_decide (n_peersPath n = []) then None else
  plain ← json_marshal (mkPeersFile (ContactToJSON <$> rt_All (n_rt n)));
  encryptFn plain.

Definition load_contact (now : Z) (rt : RoutingTable) (j : ContactJSON) : RoutingTable :=
  match ContactFromJSON now j with Some c => rt_Add rt c | None => rt end.

(** [file] is what [os.ReadFile] returned. *)
Definition loadPeers (now : Z) (decryptFn : bytes -> option bytes) (file : option bytes) (n : Node) : Node :=
  if bool_decide (n_peersPath n = []) then n else
  match file with
  | None => n
  | Some enc =>
    let plain := match decryptFn enc with Some p => p | None => enc end in
    match json_unmarshal plain with
    | None => n
    | Some pf => with_rt n (fold_left (load_contact now) (pf_Contacts pf) (n_rt n))
    end
  end.

Definition SaveRelays (now : Z) (n : Node) : option bytes :=
  let entries := relay_all (unix now) (n_relays n) in
  if zlen entries =? 0 then None else json_marshal entries.

Definition LoadRelays (now : Z) (file : option bytes) (n : Node) : Node :=
  match file with
  | None => n
  | Some data =>
    match json_unmarshal data with
    | None => n
    | Some entries =>
        with_relays n (fold_left (fun s e => (relay_store (unix now) s e).2) entries (n_relays n))
    end
  end.

Definition Bootstrap (now : Z) (rnd : nat -> nat -> seal_rnd) (decryptFn : bytes -> option bytes)
    (file : option bytes) (n : Node) (seeds : list bytes) : handler_result :=
  let n := loadPeers now decryptFn file n in
  (n, mjoin (imap (fun i a => findNodeDirect (rnd 0%nat i) n a (n_id n)) seeds) ++
      findNode (rnd 1%nat) n (n_id n)).

Definition SetOwnEntry (now : Z) (rnd : nat -> seal_rnd) (n : Node) (e : option RelayEntry) : handler_result :=
  announce now rnd (with_ownEntry n e).

(** ** Everything that can happen to a node *)

Inductive event :=
| EvPacket (now : Z) (rnd : seal_rnd) (pkt : bytes) (src : UDPAddr)
| EvPingExpired (t : bytes * ID)
| EvAnnounceTick (now : Z) (rnd : nat -> nat -> seal_rnd)
| EvPingStale (rnd : seal_rnd)
| EvReprobe (rnd : nat -> seal_rnd)
| EvBootstrap (now : Z) (rnd : nat -> nat -> seal_rnd) (dec : bytes -> option bytes)
    (file : option bytes) (seeds : list bytes)
| EvLoadRelays (now : Z) (file : option bytes)
| EvSetOwnEntry (now : Z) (rnd : nat -> seal_rnd) (e : option RelayEntry)
| EvSetRefresher (f : option (Z -> option RelayEntry))
| EvSetOwnAddr (a : bytes)
| EvSetManifestHandler (b : bool)
| EvSetContentHandler (b : bool)
| EvSetHolePunchHandler (b : bool)
| EvSetMirrorPunchHandler (b : bool)
| EvSetManifest (raw : bytes) (ts : Z)
| EvSetContent (raw : bytes) (ts : Z)
| EvSetContentComplete (ts : Z) (complete : bool).

Definition node_step (n : Node) (ev : event) : handler_result :=
  match ev with
  | EvPacket now rnd pkt src => handlePacket now rnd n pkt src
  | EvPingExpired t => (if decide (t ∈ n_timers n) then pingExpired n t else n, [])
  | EvAnnounceTick now rnd => announceTick now rnd n
  | EvPingStale rnd => pingStale rnd n
  | EvReprobe rnd => reprobeSuspects rnd n
  | EvBootstrap now rnd dec file seeds => Bootstrap now rnd dec file n seeds
  | EvLoadRelays now file => (LoadRelays now file n, [])
  | EvSetOwnEntry now rnd e => SetOwnEntry now rnd n e
  | EvSetRefresher f => (SetEntryRefresher n f, [])
  | EvSetOwnAddr a => (SetOwnAddr n a, [])
  | EvSetManifestHandler b => (SetManifestHandler n b, [])
  | EvSetContentHandler b => (SetContentHandler n b, [])
  | EvSetHolePunchHandler b => (SetHolePunchHandler n b, [])
  | EvSetMirrorPunchHandler b => (SetMirrorPunchHandler n b, [])
  | EvSetManifest raw ts => (SetManifest n raw ts, [])
  | EvSetContent raw ts => (SetContent n raw ts, [])
  | EvSetContentComplete ts c => (SetContentComplete n ts c, [])
  end.

Definition node_run (n : Node) (evs : list event) : Node :=
  fold_left (fun n ev => (node_step n ev).1) evs n.

End node.

(** ** The node invariant *)

Section invariant.
Context `{AEAD} `{Signatures} `{Net} `{SliceSort} `{DhtJSON}.

(** The routing table is well formed and centred on the node; the relay store
    holds verified entries; the "who has it" index is keyed by address. *)
Record node_ok (n : Node) : Prop := {
  nok_self : rt_self (n_rt n) = n_id n;
  nok_rt : table_wf (n_rt n);
  nok_relays : relay_store_ok (n_relays n);
  nok_complete : complete_ok (n_completePeers n)
}.

(** How one event may change the versions. *)
Record node_grows (n n' : Node) : Prop := {
  ng_id : n_id n' = n_id n;
  ng_manifest : n_manifestTS n <= n_manifestTS n';
  ng_content : n_contentTS n <= n_contentTS n';
  ng_complete : n_contentTS n < n_contentTS n' -> n_contentComplete n' = false
}.

Definition step_good (n n' : Node) : Prop := (node_ok n -> node_ok n') /\ node_grows n n'.

Lemma step_good_refl n : step_good n n.
Proof. split; [done|]. split; try done; lia. Qed.

Lemma rt_self_add rt c : rt_self (rt_Add rt c) = rt_self rt.
Proof. unfold rt_Add. by destruct (decide _). Qed.

(** A change of the table by well-formed operations. *)
Lemma step_good_rt n rt :
  (table_wf (n_rt n) -> table_wf rt) -> rt_self rt = rt_self (n_rt n) ->
  step_good n (with_rt n rt).
Proof.
  intros Hwf Hs. split.
  - intros [Q1 Q2 Q3 Q4]. split; simpl; [congruence|auto..].
  - split; simpl; try done; lia.
Qed.

Lemma step_good_relays n s :
  (relay_store_ok (n_relays n) -> relay_store_ok s) -> step_good n (with_relays n s).
Proof. intros Hs. split; [intros [Q1 Q2 Q3 Q4]; split; auto|]. split; simpl; try done; lia. Qed.

Lemma step_good_pings n p ts : step_good n (with_pings n p ts).
Proof. split; [intros [Q1 Q2 Q3 Q4]; split; auto|]. split; simpl; try done; lia. Qed.

Lemma step_good_trans n1 n2 n3 : step_good n1 n2 -> step_good n2 n3 ->
  n_contentTS n2 = n_contentTS n3 -> n_contentComplete n2 = n_contentComplete n3 -> step_good n1 n3.
Proof.
  intros [A [B1 B2 B3 B4]] [C [D1 D2 D3 D4]] E F. split; [auto|]. split; try lia; try congruence.
  rewrite <- E, <- F. done.
Qed.

Lemma rt_add_keeps rt c : contact_wf c ->
  (table_wf rt -> table_wf (rt_Add rt c)) /\ rt_self (rt_Add rt c) = rt_self rt.
Proof.
  intros Hc. split; [|apply rt_self_add]. intros Hwf.
  by apply (apply_op_wf rt (OpAdd c)).
Qed.

Lemma load_contact_keeps now rt j :
  (table_wf rt -> table_wf (load_contact now rt j)) /\ rt_self (load_contact now rt j) = rt_self rt.
Proof.
  unfold load_contact. destruct (ContactFromJSON now j) as [c|] eqn:E; [|done].
  by apply rt_add_keeps, (contact_from_json_wf now j).
Qed.

Lemma add_valid_keeps now rt j :
  (table_wf rt -> table_wf (add_valid now rt j)) /\ rt_self (add_valid now rt j) = rt_self rt.
Proof. unfold add_valid. destruct (isValidContactAddr _); [apply load_contact_keeps|done]. Qed.

Lemma fold_keeps {X} (f : RoutingTable -> X -> RoutingTable) l rt :
  (forall rt x, (table_wf rt -> table_wf (f rt x)) /\ rt_self (f rt x) = rt_self rt) ->
  (table_wf rt -> table_wf (fold_left f l rt)) /\ rt_self (fold_left f l rt) = rt_self rt.
Proof.
  intros Hf. revert rt. induction l as [|x l IH]; intros rt; simpl; [done|].
  destruct (IH (f rt x)) as [A B], (Hf rt x) as [C D]. split; [auto|congruence].
Qed.

Lemma fold_relay_ok t l s :
  relay_store_ok s -> relay_store_ok (fold_left (fun s e => (relay_store t s e).2) l s).
Proof.
  revert s. induction l as [|e l IH]; intros s Hs; simpl; [done|].
  by apply IH, relay_store_preserves.
Qed.

Lemma clear_good n src : step_good n (clearSuspectByAddr n src).
Proof.
  unfold clearSuspectByAddr. destruct (_ !! _) as [id|]; [|apply step_good_refl].
  eapply step_good_trans; [apply step_good_pings|apply step_good_rt|done..].
  - intros Hwf. by apply (apply_op_wf _ (OpResetMissed id)).
  - done.
Qed.

Lemma clear_fixed n src :
  n_contentTS (clearSuspectByAddr n src) = n_contentTS n /\
  n_contentComplete (clearSuspectByAddr n src) = n_contentComplete n.
Proof. unfold clearSuspectByAddr. by destruct (_ !! _). Qed.

(** Handlers of packets, from the state after [clearSuspectByAddr]. *)
Definition handler_good (n : Node) (r : Node * list action) : Prop :=
  step_good n r.1 /\ n_contentTS r.1 = n_contentTS n /\ n_contentComplete r.1 = n_contentComplete n.

Lemma handler_good_same n a : handler_good n (n, a).
Proof. split; [apply step_good_refl|done]. Qed.

Lemma find_node_good now rnd n src ttl raw : handler_good n (handleFindNode now rnd n src ttl raw).
Proof.
  unfold handleFindNode, learnContact. destruct (json_unmarshal raw) as [req|]; [|apply handler_good_same].
  destruct (ParseID _) as [t|]; [|apply handler_good_same].
  destruct (ContactFromJSON now (fn_From req)) as [c|] eqn:E; [|apply handler_good_same].
  split; [|done]. by apply step_good_rt; apply rt_add_keeps, (contact_from_json_wf now (fn_From req)).
Qed.

Lemma nodes_good now n src raw : handler_good n (handleNodes now n src raw).
Proof.
  unfold handleNodes, learnContact. destruct (json_unmarshal raw) as [resp|]; [|apply handler_good_same].
  split; [|done].
  set (rt := if negb _ then _ else _).
  assert ((table_wf (n_rt n) -> table_wf rt) /\ rt_self rt = rt_self (n_rt n)) as [A B].
  { unfold rt. destruct (negb _); [apply add_valid_keeps|done]. }
  destruct (fold_keeps (add_valid now) (np_Nodes resp) rt (add_valid_keeps now)) as [C D].
  apply step_good_rt; [auto|congruence].
Qed.

Lemma announce_good now rnd n src raw : handler_good n (handleAnnounce now rnd n src raw).
Proof.
  unfold handleAnnounce, learnContact. destruct (json_unmarshal raw) as [req|]; [|apply handler_good_same].
  destruct (relay_store _ _ _) as [r s] eqn:E.
  assert (step_good n (with_relays n s)).
  { apply step_good_relays. intros Hs.
    replace s with (relay_store (unix now) (n_relays n) (ap_Entry req)).2 by (by rewrite E).
    by apply relay_store_preserves. }
  by destruct r.
Qed.

Lemma content_have_good now rnd n src raw : handler_good n (handleContentHave now rnd n src raw).
Proof.
  unfold handleContentHave. destruct (json_unmarshal raw) as [req|]; [|apply handler_good_same].
  assert (step_good n (with_completePeers n (complete_record now (n_completePeers n)
     (UDPAddr_string src) (ch_TS req) (ch_Complete req)))).
  { split; [|split; simpl; try done; lia]. intros [Q1 Q2 Q3 Q4]. split; try done.
    by apply complete_record_ok. }
  by destruct (_ >? _).
Qed.

Lemma relay_list_good now n raw : handler_good n (handleRelayList now n raw).
Proof.
  unfold handleRelayList. destruct (json_unmarshal raw) as [resp|]; [|apply handler_good_same].
  split; [|done]. apply step_good_relays, fold_relay_ok.
Qed.

(** The handlers that leave the state alone. *)
Lemma static_good n rnd src raw :
  (handleManifestHave rnd n src raw).1 = n /\ (handleManifestWant rnd n src).1 = n /\
  (handleManifestData n raw).1 = n /\ (handleHolePunch n src raw).1 = n /\
  (handleMirrorPunch n src raw).1 = n /\ (handleContentWant rnd n src).1 = n /\
  (handleContentData n src raw).1 = n.
Proof.
  unfold handleManifestHave, handleManifestWant, handleManifestData, handleHolePunch,
    handleMirrorPunch, handleContentWant, handleContentData.
  repeat split; by repeat (case_goal; try done).
Qed.

Lemma handler_good_static n r : r.1 = n -> handler_good n r.
Proof. destruct r. simpl. intros ->. apply handler_good_same. Qed.

Lemma packet_good now rnd n pkt src : handler_good n (handlePacket now rnd n pkt src).
Proof.
  unfold handlePacket. destruct (Open pkt) as [[[t ttl] raw]| |]; [|apply handler_good_same..].
  destruct (clear_fixed n src) as [E1 E2]. pose proof (clear_good n src) as Hc.
  set (m := clearSuspectByAddr n src) in *.
  assert (forall r, handler_good m r -> handler_good n r) as Hgo.
  { intros r (A & B & C). split; [|split; congruence]. by eapply step_good_trans. }
  apply Hgo. destruct (static_good m rnd src raw) as (S1 & S2 & S3 & S4 & S5 & S6 & S7).
  destruct t; try apply handler_good_same;
    first [by apply handler_good_static | apply find_node_good | apply nodes_good | apply announce_good
          | apply relay_list_good | apply content_have_good].
Qed.

Lemma ping_good rnd n addr : step_good n (pingAddr rnd n addr).1.
Proof.
  unfold pingAddr. repeat (case_goal; simpl; try apply step_good_refl). apply step_good_pings.
Qed.

Lemma ping_fixed rnd n addr :
  n_contentTS (pingAddr rnd n addr).1 = n_contentTS n /\
  n_contentComplete (pingAddr rnd n addr).1 = n_contentComplete n.
Proof. unfold pingAddr. by repeat (case_goal; simpl; try done). Qed.

Lemma ping_all_good rnd n cs : handler_good n (ping_all rnd n cs).
Proof.
  revert rnd n. induction cs as [|c cs IH]; intros rnd n; simpl; [apply handler_good_same|].
  pose proof (ping_good (rnd O) n (c_Addr c)) as G. destruct (ping_fixed (rnd O) n (c_Addr c)) as [F1 F2].
  destruct (pingAddr _ _ _) as [n1 a1]. simpl in *.
  destruct (IH (fun i => rnd (S i)) n1) as (A & B & C). destruct (ping_all _ _ _) as [n2 a2]. simpl in *.
  split; [|simpl; split; congruence]. by eapply step_good_trans.
Qed.

Lemma announce_step_good now rnd n : handler_good n (announce now rnd n).
Proof.
  unfold announce. set (m := match n_entryRefresher n with Some _ => _ | None => _ end).
  assert (handler_good n (m, [])) as Hm.
  { unfold m. destruct (n_entryRefresher n) as [f|]; [|apply handler_good_same].
    destruct (f now); [|apply handler_good_same]. split; [|done].
    split; [intros [Q1 Q2 Q3 Q4]; by split|]. split; simpl; try done; lia. }
  destruct (n_ownEntry m); [|done]. by destruct (ParseID _).
Qed.

Lemma load_peers_good now dec file n : handler_good n (loadPeers now dec file n, []).
Proof.
  unfold loadPeers. repeat (case_goal; try apply handler_good_same).
  all: split; [|done]; by apply step_good_rt; apply fold_keeps, load_contact_keeps.
Qed.

Lemma with_ownEntry_good n e : step_good n (with_ownEntry n e).
Proof. split; [intros [Q1 Q2 Q3 Q4]; by split|]. split; simpl; try done; lia. Qed.

Lemma expired_good n t : handler_good n (if decide (t ∈ n_timers n) then pingExpired n t else n, []).
Proof.
  destruct (decide _); [|apply handler_good_same]. destruct t as [addr id]. unfold pingExpired.
  destruct (_ !! _); [|split; [apply step_good_pings|done]]. split; [|done]. simpl.
  eapply step_good_trans; [apply step_good_pings|apply step_good_rt|done..]; [|done].
  intros Hwf. by apply (apply_op_wf _ (OpMarkMissed id)).
Qed.

(** Every event but the two setters of the content manifest keeps its version
    and completeness. *)
Definition sets_content (ev : event) : bool :=
  match ev with EvSetContent _ _ | EvSetContentComplete _ _ => true | _ => false end.

Lemma step_handler_good n ev : sets_content ev = false -> handler_good n (node_step n ev).
Proof.
  assert (forall f, (forall m, node_ok m -> node_ok (f m)) -> (forall m, node_grows m (f m)) ->
    (forall m, n_contentTS (f m) = n_contentTS m /\ n_contentComplete (f m) = n_contentComplete m) ->
    handler_good n (f n, [])) as Hset.
  { intros f A B C. split; [split; [apply A|apply B]|apply C]. }
  destruct ev; intros Hev; try done; simpl.
  - apply packet_good.
  - apply expired_good.
  - unfold announceTick. pose proof (announce_step_good now (rnd 0%nat) n) as A.
    by destruct (announce _ _ _).
  - unfold pingStale. destruct (rt_All _) as [|c cs]; [apply handler_good_same|].
    split; [apply ping_good|apply ping_fixed].
  - apply ping_all_good.
  - apply load_peers_good.
  - unfold LoadRelays. repeat (case_goal; try apply handler_good_same).
    split; [|done]. apply step_good_relays, fold_relay_ok.
  - destruct (announce_step_good now rnd (with_ownEntry n e)) as (A & B & C).
    split; [|done]. eapply step_good_trans; [apply with_ownEntry_good|apply A|symmetry; exact B|symmetry; exact C].
  - apply (Hset (fun m => SetEntryRefresher m f)); intros m; [intros []; by split|split; simpl; try done; lia|done].
  - apply (Hset (fun m => SetOwnAddr m a)); intros m; [intros []; by split|split; simpl; try done; lia|done].
  - apply (Hset (fun m => SetManifestHandler m b)); intros m; [intros []; by split|split; simpl; try done; lia|done].
  - apply (Hset (fun m => SetContentHandler m b)); intros m; [intros []; by split|split; simpl; try done; lia|done].
  - apply (Hset (fun m => SetHolePunchHandler m b)); intros m; [intros []; by split|split; simpl; try done; lia|done].
  - apply (Hset (fun m => SetMirrorPunchHandler m b)); intros m; [intros []; by split|split; simpl; try done; lia|done].
  - unfold SetManifest. destruct (_ >? _) eqn:E; [|apply handler_good_same].
    rewrite Z.gtb_ltb in E. bool_to_prop.
    split; [|done]. split; [intros []; by split|]. split; simpl; try done; lia.
Qed.

Lemma step_is_good n ev : step_good n (node_step n ev).1.
Proof.
  destruct (sets_content ev) eqn:E; [|by apply step_handler_good].
  destruct ev; try done; simpl.
  - unfold SetContent. destruct (_ >? _) eqn:G; [|apply step_good_refl].
    rewrite Z.gtb_ltb in G. bool_to_prop.
    split; [intros []; by split|]. split; simpl; try done; lia.
  - unfold SetContentComplete. destruct (_ =? _) eqn:G; [|apply step_good_refl].
    split; [intros []; by split|]. split; simpl; try done; lia.
Qed.

Lemma node_run_ok n evs : node_ok n -> node_ok (node_run n evs).
Proof.
  revert n. induction evs as [|ev evs IH]; intros n Hn; simpl; [done|]. by apply IH, step_is_good.
Qed.

Lemma node_run_mono n evs :
  n_manifestTS n <= n_manifestTS (node_run n evs) /\ n_contentTS n <= n_contentTS (node_run n evs).
Proof.
  revert n. induction evs as [|ev evs IH]; intros n; simpl; [lia|].
  destruct (step_is_good n ev) as [_ [_ A B _]], (IH (node_step n ev).1). lia.
Qed.

Lemma new_node_ok id la pp : node_ok (NewNode id la pp).
Proof.
  split; simpl; [done|apply new_table_wf|apply relay_store_ok_empty|].
  intros k e. by rewrite lookup_empty.
Qed.

(** C1: in every state a node can reach, whatever datagrams, timeouts, ticks and
    API calls happened in whatever order, the routing table is well formed and
    centred on the node's own identifier, the relay store holds only entries
    whose signature verifies under their key, and the manifest and content
    versions never go back. *)
Theorem node_invariant (id : ID) (localAddr peersPath : bytes) (evs more : list event) :
  let n := node_run (NewNode id localAddr peersPath) evs in
  let n' := node_run n more in
  n_id n = id /\ table_wf (n_rt n) /\ rt_self (n_rt n) = id /\ relay_store_ok (n_relays n) /\
  n_manifestTS n <= n_manifestTS n' /\ n_contentTS n <= n_contentTS n'.
Proof.
  intros n n'.
  assert (n_id n = id) as Hid.
  { unfold n. change id with (n_id (NewNode id localAddr peersPath)) at 2.
    generalize (NewNode id localAddr peersPath) as m. clear n n'. induction evs as [|ev evs IH]; intros m; [done|].
    simpl. rewrite IH. apply step_is_good. }
  destruct (node_run_ok _ evs (new_node_ok id localAddr peersPath)) as [A B C D].
  destruct (node_run_mono n more). fold n in A, B, C. rewrite Hid in A. done.
Qed.

(** A call that set the claim for version [ts] while it was the current one, and none after
    it that withdrew it. *)
Definition earned (n : Node) (evs : list event) (ts : Z) : Prop :=
  exists pre post, evs = pre ++ EvSetContentComplete ts true :: post /\ n_contentTS (node_run n pre) = ts /\
    EvSetContentComplete ts false ∉ post.

Lemma earned_snoc n evs ev ts :
  earned n (evs ++ [ev]) ts <->
  ev = EvSetContentComplete ts true /\ n_contentTS (node_run n evs) = ts \/ earned n evs ts /\ ev <> EvSetContentComplete ts false.
Proof.
  split.
  - intros (pre & post & E & Hts & Hno). destruct post as [|x post _] using rev_ind.
    + apply app_inj_tail in E as [-> ->]. by left.
    + right. rewrite (app_comm_cons post), app_assoc in E. apply app_inj_tail in E as [-> ->].
      apply not_elem_of_app in Hno as [Hno Hx]. split; [by exists pre, post|]. intros ->. apply Hx. left.
  - intros [[-> Hts]|[(pre & post & -> & Hts & Hno) Hev]]; [exists evs, []; split; [done|]; split; [done|apply not_elem_of_nil]|].
    exists pre, (post ++ [ev]). split; [by rewrite <- app_assoc|]. split; [done|]. intros [Hin|<-%list_elem_of_singleton]%elem_of_app; done.
Qed.

Lemma earned_current n evs ts : earned n evs ts -> ts <= n_contentTS (node_run n evs).
Proof.
  intros (pre & post & -> & <- & _). unfold node_run at 2. rewrite fold_left_app.
  apply (node_run_mono (node_run n pre) (_ :: post)).
Qed.

(** C31: a node claims to have the whole content of its current manifest version exactly
    when it was told so for that version: some call [SetContentComplete(ts, true)]
    happened when [ts] was already the current version, and no call
    [SetContentComplete(ts, false)] came after it.  No gossip, no older sync and no call
    for another version sets or clears the claim, and a newer version starts without it. *)
Theorem content_complete_is_earned (n : Node) (evs : list event) (Hnone : n_contentComplete n = false) :
  n_contentComplete (node_run n evs) = true <-> earned n evs (n_contentTS (node_run n evs)).
Proof.
  induction evs as [|ev evs IH] using rev_ind.
  { simpl. rewrite Hnone. split; [done|]. by intros ([|? ?] & post & E & _). }
  rewrite earned_snoc. assert (node_run n (evs ++ [ev]) = (node_step (node_run n evs) ev).1) as -> by (unfold node_run; by rewrite fold_left_app).
  set (m := node_run n evs) in *.
  assert (n_contentComplete (node_step m ev).1 = n_contentComplete m -> n_contentTS (node_step m ev).1 = n_contentTS m ->
    (forall b, ev <> EvSetContentComplete (n_contentTS m) b) ->
    n_contentComplete (node_step m ev).1 = true <->
    ev = EvSetContentComplete (n_contentTS (node_step m ev).1) true /\ n_contentTS m = n_contentTS (node_step m ev).1 \/
    earned n evs (n_contentTS (node_step m ev).1) /\ ev <> EvSetContentComplete (n_contentTS (node_step m ev).1) false) as Hkeep.
  { intros -> -> Hev. rewrite IH. split; [by right|]. by intros [[-> _]|[? _]]; [destruct (Hev true)|]. }
  destruct (sets_content ev) eqn:Es.
  - destruct ev; try done; simpl in *.
    + unfold SetContent in *. destruct (_ >? _) eqn:E; [|by apply Hkeep]. rewrite Z.gtb_ltb in E. bool_to_prop. simpl. split; [done|].
      intros [[? _]|[Hm%earned_current _]]; [done|]. fold m in Hm. lia.
    + unfold SetContentComplete in *. destruct (_ =? _) eqn:E; bool_to_prop; [|apply Hkeep; [done|done|by intros b [= -> _]]].
      simpl in *. subst. split; [intros ->; by left|]. intros [[[= ->] _]|[_ Hev]]; [done|]. by destruct complete.
  - destruct (step_handler_good m ev Es) as (_ & E1 & E2). apply Hkeep; [congruence|congruence|]. by intros b ->.
Qed.
End invariant.
