(* ===== verification/DhtGossip.v ===== *)
(** * DhtGossip: what exchanges between DHT nodes achieve

    Theorems about the handlers of [DhtNode]: the pull protocol that spreads
    manifests, the ping life cycle, queries, and the persisted peers file.  The
    statements are about the datagrams themselves: what one node seals, the other
    opens. *)
From S2P Require Import Prelude Encoding Env DhtId DhtTable DhtRelay DhtWire DhtNode.

(** A generator that delivers all three reads. *)
Definition rnd_ok (r : seal_rnd) : Prop :=
  is_Some (rnd_pad r) /\ is_Some (rnd_fill r) /\ is_Some (rnd_nonce r).

Section gossip.
Context `{AEADLaws} `{Signatures} `{Net} `{SliceSort} `{DhtJSON}.

Lemma seal_ok {P} `{JSON P} r t ttl (p : option P) body :
  rnd_ok r -> 0 <= ttl < 256 ->
  match p with None => Some [] | Some p => json_marshal p end = Some body ->
  exists pkt, Seal r t ttl p = Ok pkt /\ Open pkt = Ok (t, if ttl =? 0 then MaxTTL else ttl, body).
Proof.
  intros ([b Hb] & [f Hf] & [k Hk]) Ht Hp.
  assert (exists pkt, Seal r t ttl p = Ok pkt) as [pkt E].
  { unfold Seal. rewrite dht_key_ok. cbv zeta. rewrite Hp, Hb, Hf, Hk. destruct (_ >? _); eauto. }
  exists pkt. split; [done|].
  destruct (open_of_seal r t ttl p pkt Ht E) as (body' & Hb' & Ho). congruence.
Qed.

(** A message the codec encodes is sent and opens to its encoding. *)
Lemma seal_send_ok {P} `{JSON P} r t (p : option P) body dst :
  rnd_ok r -> match p with None => Some [] | Some p => json_marshal p end = Some body ->
  exists pkt, seal_send r t MaxTTL p dst = [ASend pkt dst] /\ Open pkt = Ok (t, MaxTTL, body).
Proof.
  intros Hr Hp. destruct (seal_ok r t MaxTTL p body Hr ltac:(unfold MaxTTL; lia) Hp) as (pkt & E & Ho).
  exists pkt. unfold seal_send. by rewrite E.
Qed.

Lemma clear_manifest n src :
  let m := clearSuspectByAddr n src in
  n_manifestTS m = n_manifestTS n /\ n_manifestRaw m = n_manifestRaw n /\ n_onManifest m = n_onManifest n /\
  n_contentTS m = n_contentTS n /\ n_contentRaw m = n_contentRaw n /\ n_onContent m = n_onContent n /\
  n_completePeers m = n_completePeers n.
Proof. unfold clearSuspectByAddr. by destruct (_ !! _). Qed.

Section manifest.
Context (manifest_json_ok : ManifestPayload -> Prop).
Context `{!JSONLaws ManifestHavePayload (fun _ => True)} `{!JSONLaws ManifestPayload manifest_json_ok}.

(** The pull protocol delivers: when a node advertises a manifest newer than
    its peer's, the peer asks for it, the node answers with its manifest, and the
    peer hands exactly those bytes to its manifest handler.  Each message is one
    datagram, sent to the address the previous one came from. *)
Theorem manifest_pull (a b : Node) (addrA addrB : UDPAddr) (t2 t3 t4 : Z) (r1 r2 r3 r4 : seal_rnd)
    (Hr1 : rnd_ok r1) (Hr2 : rnd_ok r2) (Hr3 : rnd_ok r3)
    (Hnewer : n_manifestTS b < n_manifestTS a) (Hraw : n_manifestRaw a <> [])
    (Hcb : n_onManifest b = true)
    (Hjson : manifest_json_ok (mkManifest (n_manifestTS a) (n_manifestRaw a))) :
  exists have want data a1 b1 b2,
    Seal r1 MsgManifestHave MaxTTL (Some (mkManifestHave (n_manifestTS a))) = Ok have /\
    handlePacket t2 r2 b have addrA = (b1, [ASend want addrA]) /\
    handlePacket t3 r3 a want addrB = (a1, [ASend data addrB]) /\
    handlePacket t4 r4 b1 data addrA = (b2, [AManifest (n_manifestRaw a)]).
Proof.
  destruct (json_marshal_total (mkManifestHave (n_manifestTS a)) I) as [hb Ehb].
  destruct (json_marshal_total _ Hjson) as [db Edb].
  destruct (seal_ok r1 MsgManifestHave MaxTTL (Some (mkManifestHave (n_manifestTS a))) hb Hr1
    ltac:(unfold MaxTTL; lia) Ehb) as (have & Eh & Oh).
  destruct (seal_send_ok r2 MsgManifestWant (@None Empty_set) [] addrA Hr2 eq_refl) as (want & Ew & Ow).
  destruct (seal_send_ok r3 MsgManifest (Some (mkManifest (n_manifestTS a) (n_manifestRaw a))) db addrB Hr3 Edb) as (data & Ed & Od).
  set (b1 := clearSuspectByAddr b addrA). set (a1 := clearSuspectByAddr a addrB).
  destruct (clear_manifest b addrA) as (Tb & _ & Cb & _). fold b1 in Tb, Cb.
  destruct (clear_manifest a addrB) as (Ta & Ra & _). fold a1 in Ta, Ra.
  exists have, want, data, a1, b1, (clearSuspectByAddr b1 addrA).
  destruct (clear_manifest b1 addrA) as (Tb1 & _ & Cb1 & _).
  split; [done|]. split; [|split].
  - unfold handlePacket. rewrite Oh. fold b1. unfold handleManifestHave. simpl.
    rewrite (json_roundtrip (ok := fun _ => True) _ _ I Ehb), Ew. simpl.
    by rewrite Z.gtb_ltb, (proj2 (Z.ltb_lt _ _)) by lia.
  - unfold handlePacket. rewrite Ow. fold a1. unfold handleManifestWant. simpl.
    rewrite Ra, Ta, Ed. destruct (n_manifestRaw a); [done|]. by rewrite (proj2 (Z.eqb_neq _ _)) by
      (autorewrite with wire; pose proof (zlen_nonneg l); lia).
  - unfold handlePacket. rewrite Od. unfold handleManifestData. simpl.
    rewrite (json_roundtrip _ _ Hjson Edb). simpl. rewrite Tb1, Tb.
    by rewrite (proj2 (Z.leb_gt _ _)), Cb1, Cb, Hcb by lia.
Qed.

(** An advertisement that is not newer is not answered and a manifest that
    is not newer is dropped: neither sends, calls back or changes the stored
    manifest, so the exchange stops once both sides have the same version. *)
Theorem manifest_stale_ignored (n : Node) (src : UDPAddr) (now : Z) (rnd : seal_rnd) (pkt : bytes)
    (ttl : Z) (t : byte) (raw : bytes) (ts : Z) (m : bytes)
    (Ho : Open pkt = Ok (t, ttl, raw))
    (Hcase : (t = MsgManifestHave /\ json_unmarshal raw = Some (mkManifestHave ts)) \/
             (t = MsgManifest /\ json_unmarshal raw = Some (mkManifest ts m)))
    (Hold : ts <= n_manifestTS n) :
  (handlePacket now rnd n pkt src).2 = [] /\
  n_manifestTS (handlePacket now rnd n pkt src).1 = n_manifestTS n /\
  n_manifestRaw (handlePacket now rnd n pkt src).1 = n_manifestRaw n.
Proof.
  unfold handlePacket. rewrite Ho. destruct (clear_manifest n src) as (T & R & _).
  destruct Hcase as [[-> Hj]|[-> Hj]]; simpl.
  - unfold handleManifestHave. rewrite Hj. simpl. rewrite T, Z.gtb_ltb, (proj2 (Z.ltb_ge _ _)) by lia. done.
  - unfold handleManifestData. rewrite Hj. simpl. rewrite T, (proj2 (Z.leb_le _ _)) by lia. done.
Qed.
End manifest.

Section content.
Context (content_json_ok : ContentPayload -> Prop).
Context `{!JSONLaws ContentHavePayload (fun _ => True)} `{!JSONLaws ContentPayload content_json_ok}.

(** The content channel delivers in the same way, and the advertisement that
    started the exchange makes its sender a download candidate for that version
    exactly when it claimed to be complete. *)
Theorem content_pull (a b : Node) (addrA addrB : UDPAddr) (t2 t3 t4 now : Z) (r1 r2 r3 r4 : seal_rnd)
    (Hb : complete_ok (n_completePeers b))
    (Hr1 : rnd_ok r1) (Hr2 : rnd_ok r2) (Hr3 : rnd_ok r3)
    (Hnewer : n_contentTS b < n_contentTS a) (Hraw : n_contentRaw a <> [])
    (Hcb : n_onContent b = true) (Hnow : now < t2 + RelayTTL)
    (Hjson : content_json_ok (mkContent (n_contentTS a) (n_contentRaw a))) :
  exists have want data a1 b1 b2,
    Seal r1 MsgContentHave MaxTTL (Some (mkContentHave (n_contentTS a) (n_contentComplete a))) = Ok have /\
    handlePacket t2 r2 b have addrA = (b1, [ASend want addrA]) /\
    handlePacket t3 r3 a want addrB = (a1, [ASend data addrB]) /\
    handlePacket t4 r4 b1 data addrA = (b2, [AContent (n_contentRaw a)]) /\
    (UDPAddr_string addrA ∈ CompletePeers now b1 (n_contentTS a) <-> n_contentComplete a = true).
Proof.
  destruct (json_marshal_total (mkContentHave (n_contentTS a) (n_contentComplete a)) I) as [hb Ehb].
  destruct (json_marshal_total _ Hjson) as [db Edb].
  destruct (seal_ok r1 MsgContentHave MaxTTL (Some (mkContentHave (n_contentTS a) (n_contentComplete a))) hb Hr1
    ltac:(unfold MaxTTL; lia) Ehb) as (have & Eh & Oh).
  destruct (seal_send_ok r2 MsgContentWant (@None Empty_set) [] addrA Hr2 eq_refl) as (want & Ew & Ow).
  destruct (seal_send_ok r3 MsgContent (Some (mkContent (n_contentTS a) (n_contentRaw a))) db addrB Hr3 Edb) as (data & Ed & Od).
  set (c1 := clearSuspectByAddr b addrA).
  set (b1 := with_completePeers c1 (complete_record t2 (n_completePeers c1) (UDPAddr_string addrA)
    (n_contentTS a) (n_contentComplete a))).
  destruct (clear_manifest b addrA) as (_ & _ & _ & Tb & _ & Cb & Pb). fold c1 in Tb, Cb, Pb.
  destruct (clear_manifest a addrB) as (_ & _ & _ & Ta & Ra & _).
  destruct (clear_manifest b1 addrA) as (_ & _ & _ & Tb1 & _ & Cb1 & _). simpl in Tb1, Cb1.
  exists have, want, data, (clearSuspectByAddr a addrB), b1, (clearSuspectByAddr b1 addrA).
  split; [done|]. split; [|split; [|split]].
  - unfold handlePacket. rewrite Oh. fold c1. unfold handleContentHave. simpl.
    rewrite (json_roundtrip (ok := fun _ => True) _ _ I Ehb), Ew. simpl. rewrite Tb.
    by rewrite Z.gtb_ltb, (proj2 (Z.ltb_lt _ _)) by lia.
  - unfold handlePacket. rewrite Ow. unfold handleContentWant. simpl.
    rewrite Ra, Ta, Ed. destruct (n_contentRaw a); [done|]. by rewrite (proj2 (Z.eqb_neq _ _)) by
      (autorewrite with wire; pose proof (zlen_nonneg l); lia).
  - unfold handlePacket. rewrite Od. unfold handleContentData. simpl.
    rewrite (json_roundtrip _ _ Hjson Edb). simpl. rewrite Tb1, Tb.
    by rewrite (proj2 (Z.leb_gt _ _)), Cb1, Cb, Hcb by lia.
  - unfold CompletePeers, b1. simpl. rewrite elem_of_peersFor by (by apply complete_record_ok; rewrite Pb).
    unfold complete_record. rewrite lookup_insert_eq. split.
    + by intros (e & [= <-] & Hc & _).
    + intros Hc. eexists. split; [done|]. simpl. split; [done|]. split; [done|lia].
Qed.
End content.

(** ** Pings *)

Lemma elem_of_closest_all rt target c :
  table_wf rt -> c ∈ rt_Closest rt target (K * IDBits) <-> c ∈ rt_All rt /\ c_Suspect c = false.
Proof.
  intros Hwf. rewrite <- elem_of_live.
  destruct (closest_split rt target (K * IDBits) ltac:(by vm_compute)) as (rest & Hp & _ & Hlen).
  assert (zlen (live_contacts rt) <= K * IDBits) as Hle.
  { pose proof (rt_size_bound rt (table_wf_shape rt Hwf)). rewrite rt_size_all in *. unfold live_contacts, zlen in *.
    pose proof (List.filter_length_le (fun c => negb (c_Suspect c)) (rt_All rt)). lia. }
  assert (rest = []) as ->.
  { apply Permutation_length in Hp. rewrite length_app in Hp. unfold zlen in *.
    destruct rest; [done|]. simpl in *. lia. }
  rewrite app_nil_r in Hp. by rewrite Hp.
Qed.

(** Only a live contact is ever registered as pending. *)
Lemma ping_live rnd n addr :
  table_wf (n_rt n) ->
  (pingAddr rnd n addr).1 = n \/
  exists c, c ∈ rt_All (n_rt n) /\ c_Suspect c = false /\ c_Addr c = addr /\
    (pingAddr rnd n addr).1 =
      with_pings n (<[addr := c_ID c]> (n_pendingPings n)) ((addr, c_ID c) :: n_timers n).
Proof.
  intros Hwf. unfold pingAddr. destruct (resolve_udp addr); [|by left].
  destruct (Seal _ _ _ _); [|by left..].
  destruct (list_find _ _) as [[i c]|] eqn:E; [right|by left].
  apply list_find_Some in E as (Hi & Ha & _). apply list_elem_of_lookup_2, elem_of_closest_all in Hi; [|done].
  exists c. by destruct Hi.
Qed.

Lemma ping_all_noop rnd n cs :
  table_wf (n_rt n) ->
  (forall c l, c ∈ cs -> l ∈ rt_All (n_rt n) -> c_Addr l = c_Addr c -> c_Suspect l = true) ->
  (ping_all rnd n cs).1 = n.
Proof.
  intros Hwf. revert rnd. induction cs as [|c cs IH]; intros rnd Hcs; simpl; [done|].
  destruct (ping_live (rnd O) n (c_Addr c) Hwf) as [E|(l & Hl & Hs & Ha & _)].
  - destruct (pingAddr _ _ _) as [n1 a1]. simpl in E. subst n1.
    pose proof (IH (fun i => rnd (S i))) as IH'. destruct (ping_all _ _ _) as [n2 a2]. simpl in *.
    apply IH'. intros; eapply Hcs; [by right|done..].
  - rewrite (Hcs c l) in Hs; [done|by left|done..].
Qed.

(** The periodic re-probe of suspect contacts has no effect on the node: as
    long as no live contact shares a suspect's address, [pingAddr] does not find
    the suspect (its search skips suspects), so the ping is neither tracked nor
    counted, and the suspect's own answer changes nothing.  A suspect contact can
    therefore neither recover nor be removed by being pinged. *)
Theorem suspects_never_reprobed (n : Node) (rnd : nat -> seal_rnd)
    (Hok : node_ok n)
    (Hdis : forall s l, s ∈ rt_All (n_rt n) -> l ∈ rt_All (n_rt n) ->
       c_Suspect s = true -> c_Addr l = c_Addr s -> c_Suspect l = true)
    (Hpend : forall s, s ∈ rt_All (n_rt n) -> c_Suspect s = true ->
       n_pendingPings n !! c_Addr s = None) :
  (reprobeSuspects rnd n).1 = n /\
  (forall s src pkt ttl raw now r, s ∈ rt_All (n_rt n) -> c_Suspect s = true ->
     UDPAddr_string src = c_Addr s -> Open pkt = Ok (MsgPong, ttl, raw) ->
     handlePacket now r n pkt src = (n, [])).
Proof.
  split.
  - apply ping_all_noop; [apply Hok|]. intros c l Hc Hl Ha.
    apply list_elem_of_In, List.filter_In in Hc as [Hc%list_elem_of_In Hs]. by apply (Hdis c l).
  - intros s src pkt ttl raw now r Hs Hsu Ha Ho. unfold handlePacket. rewrite Ho. simpl.
    unfold clearSuspectByAddr. by rewrite Ha, (Hpend s Hs Hsu).
Qed.

(** The life cycle of a tracked ping: pinging a live contact with an address
    of its own records it as pending; if its answer arrives first, the contact's
    missed count is cleared and the later timeout changes the table no more; if
    the timeout comes first, the contact's missed count goes up by one (or it is
    dropped at the limit), and a late answer does not undo it. *)
Theorem ping_lifecycle (n : Node) (c : Contact) (src : UDPAddr) (rnd r : seal_rnd)
    (pong : bytes) (ttl now : Z) (raw : bytes)
    (Hok : node_ok n) (Hc : c ∈ rt_All (n_rt n)) (Hlive : c_Suspect c = false)
    (Huniq : forall l, l ∈ rt_All (n_rt n) -> c_Addr l = c_Addr c -> l = c)
    (Hres : is_Some (resolve_udp (c_Addr c))) (Hrnd : rnd_ok rnd)
    (Hsrc : UDPAddr_string src = c_Addr c) (Hpong : Open pong = Ok (MsgPong, ttl, raw)) :
  let n1 := (pingAddr rnd n (c_Addr c)).1 in
  let timer := (c_Addr c, c_ID c) in
  let answered := (handlePacket now r n1 pong src).1 in
  let expired := pingExpired n1 timer in
  timer ∈ n_timers n1 /\ n_rt n1 = n_rt n /\
  rt_lookup (n_rt answered) (c_ID c) = Some (Bucket.clear c) /\
  n_rt (pingExpired answered timer) = n_rt answered /\
  rt_lookup (n_rt expired) (c_ID c) =
    (if c_MissedPings c + 1 >=? maxMissedPings then None else Some (Bucket.mark c)) /\
  n_rt (handlePacket now r expired pong src).1 = n_rt expired.
Proof.
  intros n1 timer answered expired. destruct Hok as [_ Hwf _ _].
  assert (n1 = with_pings n (<[c_Addr c := c_ID c]> (n_pendingPings n)) (timer :: n_timers n)) as E1.
  { unfold n1, pingAddr. destruct Hres as [ra ->].
    destruct (seal_ok rnd MsgPing 0 (@None Empty_set) [] Hrnd ltac:(lia) eq_refl) as (pkt & -> & _).
    destruct (list_find _ _) as [[i l]|] eqn:E.
    - apply list_find_Some in E as (Hi & Ha & _).
      apply list_elem_of_lookup_2, elem_of_closest_all in Hi as [Hi _]; [|done].
      by rewrite (Huniq l Hi Ha).
    - apply list_find_None in E. rewrite Forall_forall in E. destruct (E c); [|done].
      by apply elem_of_closest_all. }
  apply rt_all_lookup in Hc; [|done].
  assert (forall m, n_pendingPings m !! c_Addr c = None -> (handlePacket now r m pong src).1 = m) as Hlate.
  { intros m Hm. unfold handlePacket. rewrite Hpong. simpl. unfold clearSuspectByAddr. by rewrite Hsrc, Hm. }
  split; [rewrite E1; by left|]. split; [by rewrite E1|].
  unfold answered, expired. unfold handlePacket at 1 2 3. rewrite Hpong. simpl.
  unfold clearSuspectByAddr. rewrite Hsrc, E1. simpl. rewrite lookup_insert_eq. simpl.
  rewrite rt_reset_lookup, rt_mark_lookup, !decide_True, Hc by done. simpl.
  split; [done|]. rewrite !lookup_delete_eq. split; [done|]. split; [done|].
  rewrite Hlate; [done|]. simpl. apply lookup_delete_eq.
Qed.

(** The TTL of a received datagram has no influence on how it is handled;
    in particular a message that arrives with TTL 0 is answered like any other. *)
Theorem ttl_is_ignored (n : Node) (now : Z) (rnd : seal_rnd) (src : UDPAddr) (pkt pkt' : bytes)
    (t : byte) (ttl ttl' : Z) (raw : bytes)
    (Ho : Open pkt = Ok (t, ttl, raw)) (Ho' : Open pkt' = Ok (t, ttl', raw)) :
  handlePacket now rnd n pkt src = handlePacket now rnd n pkt' src.
Proof. unfold handlePacket. rewrite Ho, Ho'. by destruct t. Qed.

(** A [FindNode] request is answered by one datagram to its sender that
    carries the encoding of the node's own contact and at most [K] live contacts nearest the
    target; the requester enters the routing table under the address it claims,
    which, unlike for the contacts of a [Nodes] answer, is not checked. *)
Theorem find_node_reply (n : Node) (now : Z) (rnd : seal_rnd) (src : UDPAddr) (pkt : bytes) (ttl : Z)
    (raw : bytes) (req : FindNodePayload) (target : ID) (c : Contact)
    (Hmarshal : forall p : NodesPayload, is_Some (json_marshal p))
    (Hok : node_ok n) (Hrnd : rnd_ok rnd)
    (Ho : Open pkt = Ok (MsgFindNode, ttl, raw)) (Hreq : json_unmarshal raw = Some req)
    (Ht : ParseID (fn_Target req) = Some target)
    (Hfrom : ContactFromJSON now (fn_From req) = Some c) (Hself : c_ID c <> n_id n) :
  exists n' reply body,
    handlePacket now rnd n pkt src = (n', [ASend reply src]) /\
    Open reply = Ok (MsgNodes, MaxTTL, body) /\
    json_marshal (mkNodes (self_contact n) (ContactToJSON <$> rt_Closest (n_rt n') target K)) = Some body /\
    zlen (rt_Closest (n_rt n') target K) <= K /\
    rt_lookup (n_rt n') (c_ID c) = Some (mkContact (c_ID c) (cj_Addr (fn_From req)) now 0 false).
Proof.
  assert (c = mkContact (c_ID c) (cj_Addr (fn_From req)) now 0 false) as Hc.
  { unfold ContactFromJSON in Hfrom. destruct (ParseID (cj_ID (fn_From req))); [|done]. simpl in Hfrom. by injection Hfrom as <-. }
  destruct (clear_good n src) as [Hcok [Hid _ _ _]]. specialize (Hcok Hok).
  set (m := clearSuspectByAddr n src) in *.
  assert (self_contact m = self_contact n) as Hsc.
  { unfold m, clearSuspectByAddr. by destruct (_ !! _). }
  set (rt := rt_Add (n_rt m) c).
  destruct (Hmarshal (mkNodes (self_contact n) (ContactToJSON <$> rt_Closest rt target K)))
    as [body Eb].
  destruct (seal_send_ok rnd MsgNodes (Some (mkNodes (self_contact n) (ContactToJSON <$> rt_Closest rt target K)))
    body src Hrnd Eb) as (reply & Er & Or).
  exists (with_rt m rt), reply, body. split.
  - unfold handlePacket. rewrite Ho. fold m. simpl. unfold handleFindNode, learnContact.
    rewrite Hreq, Ht, Hfrom. fold rt. cbv zeta. simpl. unfold self_contact in *. simpl in *.
    unfold selfAddr in *. simpl in *. by rewrite Hsc, Er.
  - split; [done|]. split; [done|]. split.
    + destruct (closest_split rt target K ltac:(by vm_compute)) as (rest & _ & _ & Hl).
      simpl. lia.
    + simpl. rewrite <- Hc. unfold rt. rewrite rt_add_lookup, decide_True; [done|done|apply Hcok|].
      rewrite (nok_self m Hcok), Hid. done.
Qed.
End gossip.

(** ** The peers file *)

(** The bucket a contact belongs to, around [self]. *)
Definition slot (self : ID) (c : Contact) : nat := Z.to_nat (BucketIndex (XOR self (c_ID c))).
Definition in_slot (self : ID) (i : nat) (c : Contact) : bool := Nat.eqb (slot self c) i.

Lemma filter_slots self (B : list (list Contact)) k i :
  (forall j b, B !! j = Some b -> Forall (fun c => slot self c = (k + j)%nat) b) ->
  List.filter (in_slot self i) (mjoin B) =
    (if Nat.leb k i then default [] (B !! (i - k)%nat) else []).
Proof.
  revert k. induction B as [|b B IH]; intros k HB; simpl; [by destruct (Nat.leb _ _)|].
  rewrite List.filter_app, (IH (S k)).
  2:{ intros j b' Hj. eapply Forall_impl; [apply (HB (S j) b' Hj)|]. simpl. intros c ->. lia. }
  pose proof (HB 0%nat b eq_refl) as Hb. rewrite Nat.add_0_r in Hb.
  destruct (decide (i = k)) as [->|Hne].
  - rewrite Nat.leb_refl, Nat.sub_diag, (proj2 (Nat.leb_gt _ _)) by lia. simpl. rewrite app_nil_r.
    induction Hb as [|c b Hc Hb IHb]; [done|]. simpl. unfold in_slot at 1. rewrite Hc, Nat.eqb_refl.
    f_equal. apply IHb. intros j b' Hj. destruct j; [|by apply (HB (S j))].
    injection Hj as <-. by rewrite Nat.add_0_r.
  - replace (List.filter (in_slot self i) b) with (@nil Contact).
    + destruct (Nat.leb k i) eqn:E.
      * apply Nat.leb_le in E. rewrite (proj2 (Nat.leb_le _ _)) by lia. simpl.
        by replace (i - k)%nat with (S (i - S k)) by lia.
      * apply Nat.leb_gt in E. by rewrite (proj2 (Nat.leb_gt _ _)) by lia.
    + induction Hb as [|c b Hc Hb IHb]; [done|]. simpl. unfold in_slot at 1. rewrite Hc.
      rewrite (proj2 (Nat.eqb_neq _ _)) by done. apply IHb. intros j b' Hj. destruct j; [|by apply (HB (S j))].
      injection Hj as <-. by rewrite Nat.add_0_r.
Qed.

Lemma slot_lt self c : (slot self c < Z.to_nat IDBits)%nat.
Proof. apply (bucket_of_lt (mkRT self []) (c_ID c)). Qed.

(** Distinct contacts that fit their buckets are all kept, in order. *)
Lemma add_all_slots self cs :
  NoDup (c_ID <$> cs) -> Forall (fun c => c_ID c <> self) cs ->
  (forall i, zlen (List.filter (in_slot self i) cs) <= K) ->
  let rt := fold_left rt_Add cs (NewRoutingTable self) in
  rt_self rt = self /\ length (rt_buckets rt) = Z.to_nat IDBits /\
  forall i, (i < Z.to_nat IDBits)%nat ->
    rt_buckets rt !! i = Some (List.filter (in_slot self i) cs).
Proof.
  induction cs as [|c cs IH] using rev_ind; intros Hnd Hns Hk rt.
  - split; [done|]. split; [apply length_replicate|]. intros i Hi. by apply lookup_replicate.
  - rewrite fmap_app in Hnd. apply NoDup_app in Hnd as (Hnd & Hd & _).
    apply Forall_app in Hns as [Hns [Hc _]%Forall_cons].
    assert (forall i, zlen (List.filter (in_slot self i) cs) <= K) as Hk'.
    { intros i. specialize (Hk i). rewrite List.filter_app, zlen_app in Hk.
      pose proof (zlen_nonneg (List.filter (in_slot self i) [c])). lia. }
    destruct (IH Hnd Hns Hk') as (Hself & Hlen & Hb). unfold rt. rewrite fold_left_app.
    set (rt0 := fold_left rt_Add cs (NewRoutingTable self)) in *. simpl. unfold rt_Add.
    rewrite Hself, decide_False by done. split; [done|].
    split; [unfold on_bucket; cbn [rt_buckets]; by rewrite length_alter|]. intros i Hi.
    unfold on_bucket, bucket_of. simpl. rewrite Hself. fold (slot self c).
    rewrite List.filter_app. simpl. unfold in_slot at 2.
    destruct (decide (slot self c = i)) as [<-|Hne].
    + rewrite list_lookup_alter_eq, (Hb _ Hi). simpl. f_equal. rewrite Nat.eqb_refl.
      unfold Bucket.add, Bucket.find.
      rewrite (proj2 (list_find_none _ _)).
      * simpl. rewrite Z.geb_leb, (proj2 (Z.leb_gt _ _)); [done|].
        specialize (Hk (slot self c)). rewrite List.filter_app, zlen_app in Hk. simpl in Hk.
        unfold in_slot at 2 in Hk. rewrite Nat.eqb_refl in Hk. unfold zlen in *. simpl in Hk. lia.
      * intros (x & Hx & Hin)%list_elem_of_fmap.
        apply list_elem_of_In, List.filter_In in Hin as [Hin%list_elem_of_In _].
        apply (Hd (c_ID c)); [|by left]. rewrite Hx. by apply list_elem_of_fmap_2.
    + rewrite list_lookup_alter_ne by done. rewrite (proj2 (Nat.eqb_neq _ _)) by done.
      rewrite app_nil_r. by apply Hb.
Qed.

(** A contact as it comes back from a file: freshly seen and live. *)
Definition refreshed (now : Z) (c : Contact) : Contact := mkContact (c_ID c) (c_Addr c) now 0 false.

Lemma mjoin_fmap {A B} (f : A -> B) (l : list (list A)) : f <$> mjoin l = mjoin (fmap f <$> l).
Proof. induction l as [|x l IH]; [done|]. simpl. by rewrite fmap_app, IH. Qed.

Lemma all_ids_nodup rt : table_wf rt -> NoDup (c_ID <$> rt_All rt).
Proof.
  intros Hwf. apply NoDup_fmap_2_strong.
  - intros x y Hx Hy E. apply rt_all_lookup in Hx, Hy; [|done..]. rewrite E in Hx. congruence.
  - unfold rt_All. destruct Hwf as [_ Hb]. revert Hb. generalize (rt_buckets rt) as B.
    assert (forall B k, (forall i b, B !! i = Some b -> bucket_wf (rt_self rt) (k + i) b) -> NoDup (mjoin B))
      as Hgen; [|intros B HB; by apply (Hgen B 0%nat)].
    induction B as [|b B IH]; intros k Hb; simpl; [constructor|]. apply NoDup_app. split; [|split].
    + eapply NoDup_fmap_1, bwf_nodup, (Hb 0%nat b eq_refl).
    + intros c Hc (b' & Hc' & [j Hj]%list_elem_of_lookup)%list_elem_of_join.
      pose proof (bwf_place _ _ _ (Hb 0%nat b eq_refl)) as P0.
      pose proof (bwf_place _ _ _ (Hb (S j) b' Hj)) as P1.
      rewrite Forall_forall in P0, P1. destruct (P0 c Hc) as [_ Q0], (P1 c Hc') as [_ Q1]. lia.
    + apply (IH (S k)). intros i b' Hi. replace (S k + i)%nat with (k + S i)%nat by lia. by apply (Hb (S i)).
Qed.

Definition refresh_buckets (now : Z) (B : list (list Contact)) : list (list Contact) :=
  (fun b : list Contact => refreshed now <$> b) <$> B.
Definition refresh_all (now : Z) (cs : list Contact) : list Contact := refreshed now <$> cs.

(** Re-adding all contacts of a well-formed table to an empty one rebuilds it. *)
Lemma rebuild_table now rt :
  table_wf rt ->
  fold_left rt_Add (refresh_all now (rt_All rt)) (NewRoutingTable (rt_self rt)) =
  mkRT (rt_self rt) (refresh_buckets now (rt_buckets rt)).
Proof.
  intros Hwf. set (self := rt_self rt). set (B := refresh_buckets now (rt_buckets rt)).
  assert (forall i, List.filter (in_slot self i) (refresh_all now (rt_All rt)) = default [] (B !! i)) as Hf.
  { intros i. unfold rt_All, refresh_all. rewrite mjoin_fmap.
    rewrite (filter_slots self _ 0 i); [by rewrite Nat.sub_0_r|].
    intros j b Hj. rewrite list_lookup_fmap in Hj.
    destruct (rt_buckets rt !! j) as [b0|] eqn:E; [|done]. injection Hj as <-.
    apply Forall_fmap. eapply Forall_impl; [apply (bwf_place _ _ _ (twf_buckets rt Hwf j b0 E))|].
    intros c [_ Hc]. done. }
  destruct (add_all_slots self (refresh_all now (rt_All rt))) as (Hs & Hl & Hb).
  - unfold refresh_all. rewrite <- list_fmap_compose. apply (all_ids_nodup rt Hwf).
  - apply Forall_fmap, Forall_forall. intros c Hc. simpl.
    unfold rt_All in Hc. apply list_elem_of_join in Hc as (b & Hc & [i Hi]%list_elem_of_lookup).
    pose proof (bwf_place _ _ _ (twf_buckets rt Hwf i b Hi)) as P. rewrite Forall_forall in P. by apply P.
  - intros i. rewrite Hf. unfold B, refresh_buckets. rewrite list_lookup_fmap.
    destruct (rt_buckets rt !! i) as [b|] eqn:E; simpl; [|by vm_compute].
    unfold zlen. rewrite length_fmap. apply (bwf_size _ _ _ (twf_buckets rt Hwf i b E)).
  - destruct (fold_left _ _ _) as [s bs]. cbn [rt_self rt_buckets] in *. subst s. f_equal.
    apply list_eq_same_length with (Z.to_nat IDBits); [unfold B, refresh_buckets; rewrite length_fmap; apply Hwf|done|].
    intros i x y Hi Hx Hy. rewrite Hb, Hf, Hy in Hx by done. simpl in Hx. congruence.
Qed.

Section peers_file.
Context `{DhtJSON} (peers_ok : peersFile -> Prop) `{!JSONLaws peersFile peers_ok}.

Lemma fold_load now cs rt :
  fold_left (load_contact now) (ContactToJSON <$> cs) rt = fold_left rt_Add (refresh_all now cs) rt.
Proof.
  revert rt. induction cs as [|c cs IH]; intros rt; simpl; [done|].
  unfold load_contact at 2. by rewrite contact_json_roundtrip, IH.
Qed.

(** What [savePeers] writes, [loadPeers] of a fresh node with the same
    identifier restores: the same contacts in the same buckets and order, all
    live and freshly seen, provided the decryption undoes the encryption. *)
Theorem peers_file_roundtrip (n : Node) (encryptFn decryptFn : bytes -> option bytes)
    (file localAddr path : bytes) (now : Z)
    (Hok : table_wf (n_rt n)) (Hself : rt_self (n_rt n) = n_id n) (Hpath : path <> [])
    (Hcrypt : forall p e, encryptFn p = Some e -> decryptFn e = Some p)
    (Hjson : peers_ok (mkPeersFile (ContactToJSON <$> rt_All (n_rt n))))
    (Hsave : savePeers encryptFn n = Some file) :
  n_rt (loadPeers now decryptFn (Some file) (NewNode (n_id n) localAddr path)) =
  mkRT (n_id n) (refresh_buckets now (rt_buckets (n_rt n))).
Proof.
  unfold savePeers in Hsave. case_bool_decide; [done|].
  destruct (json_marshal _) as [plain|] eqn:Ep; [|done]. simpl in Hsave.
  unfold loadPeers. simpl. rewrite bool_decide_eq_false_2 by done.
  rewrite (Hcrypt plain file Hsave), (json_roundtrip _ _ Hjson Ep).
  cbn [n_rt with_rt pf_Contacts NewNode]. rewrite fold_load, <- Hself. by apply rebuild_table.
Qed.
End peers_file.

(** ** Witnesses, over the toy cipher, codec and network *)

#[local] Existing Instances Toy.aead Toy.aead_laws Toy.signatures Toy.net insertion_slice_sort.

#[local] Instance ContactJSON_eq : EqDecision ContactJSON. Proof. solve_decision. Defined.
#[local] Instance ContactJSON_cnt : Countable ContactJSON.
Proof. apply (inj_countable' (fun c => (cj_ID c, cj_Addr c)) (fun p => mkContactJSON p.1 p.2)). by intros []. Defined.
#[local] Instance RelayEntry_eq : EqDecision RelayEntry. Proof. solve_decision. Defined.
#[local] Instance RelayEntry_cnt : Countable RelayEntry.
Proof.
  apply (inj_countable' (fun e => (re_NodeID e, re_Addr e, re_CountryCode e, re_TS e, re_Sig e))
    (fun '(a, b, c, d, f) => mkRelayEntry a b c d f)). by intros [].
Defined.

(** A codec for a type that has an injection into a countable one. *)
Definition toy_json {T X} `{Countable X} (f : T -> X) (g : X -> T) : JSON T := {|
  json_marshal := fun v => Some (Toy.pos_bits (encode (f v)));
  json_unmarshal := fun b => p ← Toy.bits_pos b; g <$> decode p
|}.

Lemma toy_json_laws {T X} `{Countable X} (f : T -> X) (g : X -> T) ok :
  (forall v, g (f v) = v) -> @JSONLaws T (toy_json f g) ok.
Proof.
  intros Hg. split.
  - intros v _. by eexists.
  - intros v b _ [= <-]. simpl. rewrite Toy.bits_pos_bits. simpl. rewrite decode_encode. simpl. by rewrite Hg.
Qed.

#[local] Instance toy_dht_json : DhtJSON := {
  json_find_node := toy_json (fun p => (fn_From p, fn_Target p)) (fun x => mkFindNode x.1 x.2);
  json_nodes := toy_json (fun p => (np_From p, np_Nodes p)) (fun x => mkNodes x.1 x.2);
  json_announce := toy_json ap_Entry mkAnnounce;
  json_relay_list := toy_json rl_Entries mkRelayList;
  json_manifest_have := toy_json mh_TS mkManifestHave;
  json_manifest := toy_json (fun p => (mp_TS p, mp_Raw p)) (fun x => mkManifest x.1 x.2);
  json_hole_punch := toy_json (fun p => (hp_Peer p, hp_Control p)) (fun x => mkHolePunch x.1 x.2);
  json_content_have := toy_json (fun p => (ch_TS p, ch_Complete p)) (fun x => mkContentHave x.1 x.2);
  json_content := toy_json (fun p => (ct_TS p, ct_Raw p)) (fun x => mkContent x.1 x.2);
  json_mirror_punch := toy_json mi_Peer mkMirrorPunch;
  json_peers_file := toy_json pf_Contacts mkPeersFile;
  json_relay_file := toy_json (fun l => l) (fun l => l)
}.

#[local] Instance toy_mh_laws : JSONLaws ManifestHavePayload (fun _ => True).
Proof. apply toy_json_laws. by intros []. Qed.
#[local] Instance toy_mp_laws : JSONLaws ManifestPayload (fun _ => True).
Proof. apply toy_json_laws. by intros []. Qed.
#[local] Instance toy_ch_laws : JSONLaws ContentHavePayload (fun _ => True).
Proof. apply toy_json_laws. by intros []. Qed.
#[local] Instance toy_ct_laws : JSONLaws ContentPayload (fun _ => True).
Proof. apply toy_json_laws. by intros []. Qed.
#[local] Instance toy_pf_laws : JSONLaws peersFile (fun _ => True).
Proof. apply toy_json_laws. by intros []. Qed.

Definition toy_addr (s : bytes) : UDPAddr := s.
Definition toy_node (b : byte) : Node := NewNode (id_of_byte b) (str "10.0.0.1:443") (str "peers.json").
Definition toy_contact (b : byte) (addr : bytes) : Contact := mkContact (id_of_byte b) addr 7 0 false.

Lemma toy_rnd_ok : rnd_ok toy_rnd.
Proof. repeat split; eexists; reflexivity. Qed.

Lemma toy_node_ok b : node_ok (toy_node b).
Proof. apply new_node_ok. Qed.

Lemma content_complete_is_earned_witness :
  let told := [EvSetContent (str "{}") 5; EvSetContentComplete 5 true] in
  earned (toy_node x01) told 5 /\ ~ earned (toy_node x01) (told ++ [EvSetContentComplete 5 false]) 5.
Proof.
  intros told. split.
  - by apply (content_complete_is_earned (toy_node x01) told eq_refl).
  - intros He. by apply (content_complete_is_earned (toy_node x01) (told ++ [EvSetContentComplete 5 false]) eq_refl) in He.
Defined.

Lemma manifest_pull_witness :
  let a := SetManifest (toy_node x01) (str "{}") 5 in
  let b := SetManifestHandler (toy_node x02) true in
  exists have want data a1 b1 b2,
    Seal toy_rnd MsgManifestHave MaxTTL (Some (mkManifestHave 5)) = Ok have /\
    handlePacket 0 toy_rnd b have (toy_addr (str "A")) = (b1, [ASend want (toy_addr (str "A"))]) /\
    handlePacket 0 toy_rnd a want (toy_addr (str "B")) = (a1, [ASend data (toy_addr (str "B"))]) /\
    handlePacket 0 toy_rnd b1 data (toy_addr (str "A")) = (b2, [AManifest (str "{}")]).
Proof.
  intros a b. apply (manifest_pull (fun _ => True) a b (toy_addr (str "A")) (toy_addr (str "B")) 0 0 0
    toy_rnd toy_rnd toy_rnd toy_rnd); try apply toy_rnd_ok; done.
Defined.

Lemma manifest_stale_ignored_witness :
  exists pkt, Seal toy_rnd MsgManifestHave MaxTTL (Some (mkManifestHave 3)) = Ok pkt /\
    (handlePacket 0 toy_rnd (SetManifest (toy_node x01) (str "{}") 5) pkt (toy_addr (str "A"))).2 = [].
Proof.
  destruct (Seal toy_rnd MsgManifestHave MaxTTL (Some (mkManifestHave 3))) as [pkt| |] eqn:E; [|done..].
  exists pkt. split; [done|].
  eapply (manifest_stale_ignored (SetManifest (toy_node x01) (str "{}") 5) (toy_addr (str "A")) 0 toy_rnd pkt
    8 MsgManifestHave _ 3 []).
  - injection E as <-. vm_compute. reflexivity.
  - left. split; reflexivity.
  - by vm_compute.
Defined.

Lemma content_pull_witness :
  let a := SetContentComplete (SetContent (toy_node x01) (str "{}") 5) 5 true in
  let b := SetContentHandler (toy_node x02) true in
  exists have want data a1 b1 b2,
    Seal toy_rnd MsgContentHave MaxTTL (Some (mkContentHave 5 true)) = Ok have /\
    handlePacket 0 toy_rnd b have (toy_addr (str "A")) = (b1, [ASend want (toy_addr (str "A"))]) /\
    handlePacket 0 toy_rnd a want (toy_addr (str "B")) = (a1, [ASend data (toy_addr (str "B"))]) /\
    handlePacket 0 toy_rnd b1 data (toy_addr (str "A")) = (b2, [AContent (str "{}")]) /\
    (str "A" ∈ CompletePeers 1 b1 5 <-> true = true).
Proof.
  intros a b. apply (content_pull (fun _ => True) a b (toy_addr (str "A")) (toy_addr (str "B")) 0 0 0 1
    toy_rnd toy_rnd toy_rnd toy_rnd); try apply toy_rnd_ok; done.
Defined.

(** A table with one contact. *)
Definition toy_one (c : Contact) : Node := with_rt (toy_node x01) (rt_Add (n_rt (toy_node x01)) c).

Lemma toy_one_ok c : contact_wf c -> node_ok (toy_one c).
Proof. intros Hc. apply step_good_rt; [by apply rt_add_keeps..|apply toy_node_ok]. Qed.

Definition toy_live : Contact := toy_contact x05 (str "9.9.9.9:1").
Definition toy_suspect : Contact := mkContact (id_of_byte x05) (str "9.9.9.9:1") 7 1 true.
Definition toy_pong : bytes := [x01] ++ replicate 11 x00 ++ [MsgPong; x08; x00] ++ Toy.tag.

Lemma toy_one_all c l : rt_All (n_rt (toy_one c)) = [c] -> l ∈ rt_All (n_rt (toy_one c)) -> l = c.
Proof. intros ->. by rewrite list_elem_of_singleton. Qed.

Lemma suspects_never_reprobed_witness : (reprobeSuspects (fun _ => toy_rnd) (toy_one toy_suspect)).1 = toy_one toy_suspect.
Proof.
  apply (suspects_never_reprobed (toy_one toy_suspect) (fun _ => toy_rnd)).
  - apply toy_one_ok. by vm_compute.
  - intros s l _ Hl _ _. by rewrite (toy_one_all toy_suspect l eq_refl Hl).
  - intros s _ _. apply lookup_empty.
Defined.

Lemma ping_lifecycle_witness :
  let n1 := (pingAddr toy_rnd (toy_one toy_live) (str "9.9.9.9:1")).1 in
  rt_lookup (n_rt (pingExpired n1 (str "9.9.9.9:1", id_of_byte x05))) (id_of_byte x05) =
  Some (Bucket.mark toy_live).
Proof.
  destruct (ping_lifecycle (toy_one toy_live) toy_live (toy_addr (str "9.9.9.9:1")) toy_rnd toy_rnd
    toy_pong 8 0 []) as (_ & _ & _ & _ & He & _).
  - apply toy_one_ok. by vm_compute.
  - by apply list_elem_of_singleton.
  - done.
  - intros l Hl _. by apply (toy_one_all toy_live).
  - by eexists.
  - apply toy_rnd_ok.
  - done.
  - by vm_compute.
  - exact He.
Defined.

Definition toy_pong0 : bytes := [x01] ++ replicate 11 x00 ++ [MsgPong; x00; x00] ++ Toy.tag.

Lemma ttl_is_ignored_witness :
  handlePacket 0 toy_rnd (toy_one toy_live) toy_pong (toy_addr (str "A")) =
  handlePacket 0 toy_rnd (toy_one toy_live) toy_pong0 (toy_addr (str "A")).
Proof.
  apply (ttl_is_ignored _ 0 toy_rnd _ toy_pong toy_pong0 MsgPong 8 0 []); by vm_compute.
Defined.

Definition toy_request : FindNodePayload :=
  mkFindNode (mkContactJSON (id_String (id_of_byte x05)) (str "[::]:443")) (id_String (id_of_byte x09)).

Lemma find_node_reply_witness :
  exists pkt n', Seal toy_rnd MsgFindNode 0 (Some toy_request) = Ok pkt /\
    (handlePacket 3 toy_rnd (toy_node x01) pkt (toy_addr (str "A"))).1 = n' /\
    c_Addr <$> rt_lookup (n_rt n') (id_of_byte x05) = Some (str "[::]:443").
Proof.
  destruct (Seal toy_rnd MsgFindNode 0 (Some toy_request)) as [pkt| |] eqn:E; [|done..].
  destruct (open_of_seal toy_rnd MsgFindNode 0 (Some toy_request) pkt ltac:(lia) E) as (raw & Hr & Ho).
  assert (json_unmarshal raw = Some toy_request) as Hj by (injection Hr as <-; by vm_compute).
  destruct (find_node_reply (toy_node x01) 3 toy_rnd (toy_addr (str "A")) pkt MaxTTL raw toy_request
    (id_of_byte x09) (mkContact (id_of_byte x05) (str "[::]:443") 3 0 false))
    as (n' & reply & body & Hh & _ & _ & _ & Hl).
  - intros p. by eexists.
  - apply toy_node_ok.
  - apply toy_rnd_ok.
  - exact Ho.
  - exact Hj.
  - apply parse_id_String.
  - unfold ContactFromJSON, toy_request. cbn [fn_From cj_ID cj_Addr]. by rewrite parse_id_String.
  - by_decide.
  - exists pkt, n'. split; [done|]. split; [by rewrite Hh|]. simpl in Hl. by rewrite Hl.
Defined.

Lemma peers_file_roundtrip_witness :
  exists file, savePeers Some (toy_one toy_suspect) = Some file /\
    c_MissedPings <$> rt_All (n_rt (loadPeers 9 Some (Some file) (toy_node x01))) = [0].
Proof.
  destruct (savePeers Some (toy_one toy_suspect)) as [file|] eqn:E; [|done].
  exists file. split; [done|].
  pose proof (peers_file_roundtrip (fun _ => True) (toy_one toy_suspect) Some Some file
    (str "10.0.0.1:443") (str "peers.json") 9) as Hr.
  unfold toy_node. change (id_of_byte x01) with (n_id (toy_one toy_suspect)).
  rewrite Hr; [done|apply toy_one_ok; by vm_compute|done|done| |done|done].
  by intros p e [= ->].
Defined.
