(* ===== verification/TunnelWire.v ===== *)
(** * TunnelWire: the frames of the HTTP tunnel (tunnel.go)

    Encryption of frames, the upload and stream-open plaintexts, the padded
    upload response, the decrypting reader of a streaming response and the
    datagram batches of the UDP relay endpoint.  The reader's source is the list
    of bytes the response body has still to deliver. *)
From S2P Require Import Prelude Encoding Env.

Definition minPadding : Z := 512.
Definition frameTypeUpload : byte := x00.
Definition frameTypeStreamOpen : byte := x01.

Section frames.
Context `{AEAD}.

Definition sessionKey (token : bytes) : bytes := blake2b_256 token.

(** [rnd] is what the generator delivers for the nonce. *)
Definition sealFrame (rnd : option bytes) (key plaintext : bytes) : res bytes :=
  match chacha_new key with
  | Ok _ =>
    match rnd with
    | None => Err "rand"
    | Some r => let nonce := rand_fill nonce_size r in Ok (nonce ++ aead_seal key nonce plaintext)
    end
  | _ => Err "chacha20poly1305: bad key length"
  end.

Definition openFrame (key data : bytes) : res bytes :=
  match chacha_new key with
  | Ok _ =>
    if zlen data <? nonce_size then Err "frame too short" else
    nonce ← slice data 0 nonce_size;
    ct ← slice_from data nonce_size;
    match aead_open key nonce ct with
    | None => Err "chacha20poly1305: message authentication failed"
    | Some p => Ok p
    end
  | _ => Err "chacha20poly1305: bad key length"
  end.

(** The 16 bytes the identifier occupies: the decoded prefix, zero padded (what
    a longer one would spill is overwritten by the fields that follow). *)
Definition conn_id_field (connIDHex : bytes) : bytes :=
  match Hex.decode connIDHex with
  | Some b => copy (make_bytes 16) b
  | None => make_bytes 16
  end.

Definition buildUploadPlain (connIDHex : bytes) (seq : Z) (target payload : bytes) : bytes :=
  [frameTypeUpload] ++ conn_id_field connIDHex ++ put_u32 seq ++ put_u16 (zlen target) ++ target ++ payload.

Definition buildStreamOpenPlain (connIDHex : bytes) : bytes :=
  [frameTypeStreamOpen] ++ conn_id_field connIDHex.

Definition parseUploadFrame (plain : bytes) : res (bytes * Z * bytes * bytes) :=
  if zlen plain <? 1 + 16 + 4 + 2 then Err "frame too short" else
  t ← index plain 0;
  if negb (byte_eqb t frameTypeUpload) then Err "unexpected type" else
  idb ← slice plain 1 17;
  seq ← be_at 4 plain 17;
  tgtLen ← be_at 2 plain 21;
  if tgtLen >? zlen plain - 23 then Err "target length overflow" else
  target ← slice plain 23 (23 + tgtLen);
  payload ← slice_from plain (23 + tgtLen);
  Ok (Hex.encode idb, seq, target, payload).

Definition parseResponse (key body : bytes) : res bytes :=
  if zlen body =? 0 then Ok [] else
  match openFrame key body with
  | Ok plain =>
    if zlen plain <? 4 then Err "response frame too short" else
    dlen ← be_at 4 plain 0;
    if dlen =? 0 then Ok []
    else if dlen >? zlen plain - 4 then Err "response dlen > available"
    else slice plain 4 (4 + dlen)
  | Err _ => Err "response decrypt"
  | Panic => Panic
  end.

(** [rpad] is what the generator delivers for the padding (its error is ignored). *)
Definition buildUploadResponse (rnd : option bytes) (rpad key data : bytes) : res bytes :=
  let dlen := zlen data in
  let padLen := if dlen >? minPadding then dlen else minPadding in
  let pad := if dlen <? padLen then rand_fill (padLen - dlen) rpad else [] in
  sealFrame rnd key (put_u32 dlen ++ data ++ pad).

(** ** The decrypting reader *)

Record framedDecryptReader := mkReader { r_src : bytes; r_key : bytes; r_buf : bytes }.

Definition newFramedDecryptReader (src key : bytes) : framedDecryptReader := mkReader src key [].

(** [io.ReadFull(src, buf)] with a buffer of [n] bytes. *)
Definition read_full (src : bytes) (n : Z) : res bytes * bytes :=
  if zlen src <? n
  then (Err (if (zlen src =? 0) && (0 <? n) then "EOF" else "unexpected EOF"), [])
  else (Ok (take (Z.to_nat n) src), drop (Z.to_nat n) src).

(** One [Read] into a buffer of [size] bytes. *)
Definition reader_Read (r : framedDecryptReader) (size : Z) : res bytes * framedDecryptReader :=
  if zlen (r_buf r) >? 0 then
    let n := Z.to_nat size in
    (Ok (take n (r_buf r)), mkReader (r_src r) (r_key r) (drop n (r_buf r)))
  else
    match read_full (r_src r) 4 with
    | (Ok lenBuf, src) =>
      let frameLen := be_get lenBuf in
      if frameLen >? 2 ^ 20 then (Err "stream frame too large", mkReader src (r_key r) (r_buf r)) else
      match read_full src frameLen with
      | (Ok frame, src) =>
        match openFrame (r_key r) frame with
        | Ok plain =>
          let n := Z.to_nat size in
          (Ok (take n plain), mkReader src (r_key r) (drop n plain))
        | Err _ => (Err "stream decrypt", mkReader src (r_key r) (r_buf r))
        | Panic => (Panic, mkReader src (r_key r) (r_buf r))
        end
      | (Err e, src) => (Err e, mkReader src (r_key r) (r_buf r))
      | (Panic, src) => (Panic, mkReader src (r_key r) (r_buf r))
      end
    | (Err e, src) => (Err e, mkReader src (r_key r) (r_buf r))
    | (Panic, src) => (Panic, mkReader src (r_key r) (r_buf r))
    end.

(** A caller that reads [size] bytes at a time until an error. *)
Fixpoint read_loop (fuel : nat) (size : Z) (r : framedDecryptReader) (acc : bytes) : option (bytes * res bytes) :=
  match fuel with
  | O => None
  | S fuel =>
    match reader_Read r size with
    | (Ok d, r') => read_loop fuel size r' (acc ++ d)
    | (e, _) => Some (acc, e)
    end
  end.

(** ** Datagram batches *)

Fixpoint decode_frames (fuel : nat) (i n o : Z) (data : bytes) (frames : list bytes) : res (list bytes) :=
  if i >=? n then Ok frames else
  match fuel with
  | O => Panic
  | S fuel =>
    if o + 4 >? zlen data then Err "batch truncated" else
    flen ← be_at 4 data o;
    let o := o + 4 in
    if o + flen >? zlen data then Err "batch frame truncated" else
    f ← slice data o (o + flen);
    decode_frames fuel (i + 1) n (o + flen) data (frames ++ [f])
  end.

(** Every round consumes four bytes, so the length of the data bounds the
    rounds. *)
Definition decodeDatagramBatch (data : bytes) : res (list bytes) :=
  if zlen data =? 0 then Ok []
  else if zlen data <? 4 then Err "batch too short" else
  n ← be_at 4 data 0;
  decode_frames (length data) 0 n 4 data [].

Definition encode_batch (frames : list bytes) : bytes :=
  put_u32 (zlen frames) ++ mjoin ((fun f => put_u32 (zlen f) ++ f) <$> frames).

End frames.

(** [hostOf]: the authority of a server URL. *)
Definition trim_prefix (p s : bytes) : bytes :=
  if bool_decide (take (length p) s = p) then drop (length p) s else s.

Definition hostOf (serverURL : bytes) : bytes :=
  let s := trim_prefix (str "https://") serverURL in
  let s := trim_prefix (str "http://") s in
  match find_byte x2f s with Some i => take i s | None => s end.

(** ** Lemmas *)

Lemma zlen_conn_id c : zlen (conn_id_field c) = 16.
Proof.
  unfold conn_id_field, zlen, make_bytes. destruct (Hex.decode c); [rewrite length_copy|];
    by rewrite length_replicate.
Qed.

#[export] Hint Rewrite zlen_conn_id : wire.

Section frame_lemmas.
Context `{AEADLaws}.

Lemma chacha_new_ok key : zlen key = key_size -> chacha_new key = Ok tt.
Proof. intros Hk. unfold chacha_new. by rewrite Hk. Qed.

Lemma open_sealed_frame key nonce p :
  zlen key = key_size -> zlen nonce = nonce_size -> openFrame key (nonce ++ aead_seal key nonce p) = Ok p.
Proof.
  intros Hk Hn. unfold openFrame. rewrite chacha_new_ok by done.
  pose proof (zlen_nonneg (aead_seal key nonce p)).
  rewrite (proj2 (Z.ltb_ge _ _)) by (rewrite zlen_app; lia).
  pose proof (slice_app [] nonce (aead_seal key nonce p) 0 nonce_size) as Hs.
  simpl in Hs. rewrite Hs by (rewrite ?Hn; done). cbn [mbind res_bind].
  rewrite slice_from_app by done. cbn [mbind res_bind]. by rewrite aead_open_seal.
Qed.

Lemma seal_frame_shape rnd key p frame :
  sealFrame rnd key p = Ok frame ->
  exists nonce, zlen key = key_size /\ zlen nonce = nonce_size /\ frame = nonce ++ aead_seal key nonce p.
Proof.
  unfold sealFrame, chacha_new. destruct (_ =? _) eqn:E; [|done]. bool_to_prop.
  destruct rnd as [r|]; [|done]. intros [= <-]. eexists. split; [done|]. split; [|done].
  by apply zlen_rand_fill.
Qed.

Lemma open_of_seal_frame rnd key p frame : sealFrame rnd key p = Ok frame -> openFrame key frame = Ok p.
Proof. intros (nonce & Hk & Hn & ->)%seal_frame_shape. by apply open_sealed_frame. Qed.

Lemma seal_frame_length rnd key p frame :
  sealFrame rnd key p = Ok frame -> zlen frame = 28 + zlen p.
Proof.
  intros (nonce & Hk & Hn & ->)%seal_frame_shape. rewrite zlen_app, aead_seal_length, Hn by done.
  unfold nonce_size, aead_overhead. lia.
Qed.

Lemma open_frame_total key data : openFrame key data <> Panic.
Proof.
  unfold openFrame. destruct (chacha_new key); try done.
  destruct (_ <? _) eqn:E; [done|]. bool_to_prop.
  unfold slice_from. fold (zlen data). rewrite !slice_ok by (unfold nonce_size in *; lia).
  cbn [mbind res_bind]. by destruct (aead_open _ _ _).
Qed.

(** What one side seals under the session key the other opens to the same
    plaintext; a frame is 28 bytes longer than its content, and no input makes
    opening panic. *)
Theorem frame_roundtrip (token p : bytes) (rnd : bytes) :
  (exists frame, sealFrame (Some rnd) (sessionKey token) p = Ok frame /\
     openFrame (sessionKey token) frame = Ok p /\ zlen frame = 28 + zlen p) /\
  (forall data, no_panic (openFrame (sessionKey token) data)).
Proof.
  split; [|intros data; apply open_frame_total].
  assert (exists frame, sealFrame (Some rnd) (sessionKey token) p = Ok frame) as [f E].
  { unfold sealFrame. rewrite chacha_new_ok by apply blake2b_length. eauto. }
  exists f. split; [done|]. split; [by eapply open_of_seal_frame|by eapply seal_frame_length].
Qed.

(** ** Upload frames *)

Lemma parse_built id seq target payload :
  zlen id = 16 -> 0 <= seq < 2 ^ 32 -> zlen target < 2 ^ 16 ->
  parseUploadFrame ([frameTypeUpload] ++ id ++ put_u32 seq ++ put_u16 (zlen target) ++ target ++ payload) =
  Ok (Hex.encode id, seq, target, payload).
Proof.
  intros Hi Hs Ht. pose proof (zlen_nonneg target). pose proof (zlen_nonneg payload).
  set (plain := [frameTypeUpload] ++ id ++ put_u32 seq ++ put_u16 (zlen target) ++ target ++ payload).
  assert (zlen plain = 23 + zlen target + zlen payload) as Hl.
  { unfold plain, put_u32, put_u16. autorewrite with wire. rewrite Hi. lia. }
  unfold parseUploadFrame. rewrite (proj2 (Z.ltb_ge _ _)) by lia.
  change (index plain 0) with (Ok frameTypeUpload). cbn [mbind res_bind].
  change (negb (byte_eqb frameTypeUpload frameTypeUpload)) with false. cbv iota.
  assert (slice plain 1 17 = Ok id) as ->.
  { eapply (slice_at plain [frameTypeUpload] id); [wire_split|wire_lia..]. }
  assert (be_at 4 plain 17 = Ok (be_get (put_u32 seq))) as ->.
  { eapply (be_at_at 4 plain ([frameTypeUpload] ++ id)); [wire_split|wire_lia..]. }
  assert (be_at 2 plain 21 = Ok (be_get (put_u16 (zlen target)))) as ->.
  { eapply (be_at_at 2 plain ([frameTypeUpload] ++ id ++ put_u32 seq)); [wire_split|wire_lia..]. }
  cbn [mbind res_bind]. rewrite be_get_u32, be_get_u16 by lia.
  rewrite Z.gtb_ltb, (proj2 (Z.ltb_ge _ _)) by lia.
  set (h := [frameTypeUpload] ++ id ++ put_u32 seq ++ put_u16 (zlen target)).
  assert (zlen h = 23) by (unfold h; wire_lia).
  rewrite (slice_at plain h target payload), (slice_from_at plain (h ++ target) payload); try wire_lia; try done;
    unfold plain, h; wire_split.
Qed.

Lemma parse_upload_total plain : parseUploadFrame plain <> Panic.
Proof.
  unfold parseUploadFrame. destruct (_ <? _) eqn:E; [done|]. bool_to_prop.
  destruct (index_ok plain 0) as (t & -> & _); [lia|]. cbn [mbind res_bind].
  destruct (negb _); [done|]. rewrite slice_ok by lia. cbn [mbind res_bind].
  destruct (be_at_ok 4 plain 17) as (s & -> & _); [lia..|]. cbn [mbind res_bind].
  destruct (be_at_ok 2 plain 21) as (l & -> & Hl); [lia..|]. cbn [mbind res_bind].
  rewrite Z.gtb_ltb. destruct (_ <? _) eqn:F; [done|]. bool_to_prop.
  rewrite slice_ok by lia. cbn [mbind res_bind]. unfold slice_from. fold (zlen plain).
  rewrite slice_ok by lia. done.
Qed.

End frame_lemmas.

(** An upload frame parses back to what it was built from: the connection
    identifier (16 bytes in hex), the sequence number, the target and the
    payload; and no plaintext makes the parser panic. *)
Theorem upload_frame_roundtrip (id : bytes) (seq : Z) (target payload : bytes)
    (Hid : length id = 16%nat) (Hseq : 0 <= seq < 2 ^ 32) (Htgt : zlen target < 2 ^ 16) :
  parseUploadFrame (buildUploadPlain (Hex.encode id) seq target payload) =
    Ok (Hex.encode id, seq, target, payload) /\
  forall plain, no_panic (parseUploadFrame plain).
Proof.
  split; [|intros plain; apply parse_upload_total].
  unfold buildUploadPlain, conn_id_field. rewrite Hex.hex_decode_encode, copy_exact by (rewrite Hid; done).
  apply parse_built; [unfold zlen; lia|done..].
Qed.

Lemma upload_frame_roundtrip_witness :
  parseUploadFrame (buildUploadPlain (Hex.encode (replicate 16 xab)) 7 (str "a.b:443") (str "hi")) =
  Ok (Hex.encode (replicate 16 xab), 7, str "a.b:443", str "hi").
Proof.
  apply (upload_frame_roundtrip (replicate 16 xab) 7 (str "a.b:443") (str "hi")); [done|lia|by vm_compute].
Defined.

(** ** Responses, streams and batches *)

Section stream_lemmas.
Context `{AEADLaws}.

Lemma parse_response_total key body : parseResponse key body <> Panic.
Proof.
  unfold parseResponse. destruct (_ =? _); [done|].
  pose proof (open_frame_total key body). destruct (openFrame key body) as [plain| |]; [|done..].
  destruct (_ <? _) eqn:E; [done|]. bool_to_prop.
  destruct (be_at_ok 4 plain 0) as (d & -> & Hd); [lia..|]. cbn [mbind res_bind].
  destruct (d =? 0); [done|]. rewrite Z.gtb_ltb. destruct (_ <? _) eqn:F; [done|]. bool_to_prop.
  by rewrite slice_ok by lia.
Qed.

Lemma parse_built_response rnd rpad key data body :
  zlen data < 2 ^ 32 -> buildUploadResponse rnd rpad key data = Ok body -> parseResponse key body = Ok data.
Proof.
  intros Hlen Hb. unfold buildUploadResponse in Hb. set (pad := if _ <? _ then _ else _) in Hb.
  pose proof (open_of_seal_frame _ _ _ _ Hb) as Ho. pose proof (seal_frame_length _ _ _ _ Hb) as Hl.
  pose proof (zlen_nonneg data). pose proof (zlen_nonneg pad).
  unfold parseResponse. rewrite (proj2 (Z.eqb_neq _ _)) by wire_lia. rewrite Ho.
  rewrite (proj2 (Z.ltb_ge _ _)) by wire_lia.
  rewrite (be_at_at 4 _ [] (put_u32 (zlen data)) (data ++ pad)) by (done || wire_lia).
  cbn [mbind res_bind]. rewrite be_get_u32 by lia. destruct (_ =? 0) eqn:E; bool_to_prop.
  - by destruct data.
  - rewrite Z.gtb_ltb, (proj2 (Z.ltb_ge _ _)) by wire_lia.
    apply (slice_at _ (put_u32 (zlen data)) data pad); [done|wire_lia..].
Qed.

(** An upload response is parsed back to exactly the data it acknowledges,
    whatever the padding; all responses with at most [minPadding] bytes of data
    have the same length on the wire; and no response body makes the parser
    panic. *)
Theorem upload_response_roundtrip (rnd : option bytes) (rpad key data body : bytes)
    (Hlen : zlen data < 2 ^ 32) (Hb : buildUploadResponse rnd rpad key data = Ok body) :
  parseResponse key body = Ok data /\
  (zlen data <= minPadding -> zlen body = 28 + 4 + minPadding) /\
  forall other, no_panic (parseResponse key other).
Proof.
  split; [|split; [|intros other; apply parse_response_total]].
  - by eapply parse_built_response.
  - intros Hs. unfold buildUploadResponse in Hb. rewrite Z.gtb_ltb in Hb.
    rewrite (proj2 (Z.ltb_ge minPadding (zlen data))) in Hb by done.
    pose proof (seal_frame_length _ _ _ _ Hb) as ->. pose proof (zlen_nonneg data).
    destruct (zlen data <? minPadding) eqn:E; bool_to_prop.
    + rewrite !zlen_app, zlen_put_u32, zlen_rand_fill by lia. lia.
    + wire_lia.
Qed.

(** What the server writes for one encrypted frame. *)
Definition stream_frame (frame : bytes) : bytes := put_u32 (zlen frame) ++ frame.

Definition sealed_as (key p frame : bytes) : Prop := exists rnd, sealFrame rnd key p = Ok frame.

Lemma read_full_app p q n : n = zlen p -> read_full (p ++ q) n = (Ok p, q).
Proof.
  intros ->. unfold read_full. pose proof (zlen_nonneg q). rewrite zlen_app, (proj2 (Z.ltb_ge _ _)) by lia.
  unfold zlen. by rewrite Nat2Z.id, take_app_length, drop_app_length.
Qed.

(** The next frame of a stream is decrypted and buffered. *)
Lemma reader_next key p frame rest size :
  sealed_as key p frame -> zlen p <= 2 ^ 20 - 28 ->
  reader_Read (mkReader (stream_frame frame ++ rest) key []) size =
  (Ok (take (Z.to_nat size) p), mkReader rest key (drop (Z.to_nat size) p)).
Proof.
  intros [rnd Hs] Hl. pose proof (seal_frame_length _ _ _ _ Hs) as Hf. pose proof (zlen_nonneg p).
  unfold reader_Read. change (zlen (r_buf _) >? 0) with false. cbv iota. unfold stream_frame. cbn [r_src r_key].
  rewrite <- app_assoc, (read_full_app (put_u32 (zlen frame))) by (by rewrite zlen_put_u32).
  rewrite be_get_u32, Z.gtb_ltb, (proj2 (Z.ltb_ge _ _)), read_full_app by (done || lia).
  by rewrite (open_of_seal_frame _ _ _ _ Hs).
Qed.

Lemma reader_buffered key b src size :
  b <> [] ->
  reader_Read (mkReader src key b) size = (Ok (take (Z.to_nat size) b), mkReader src key (drop (Z.to_nat size) b)).
Proof. intros Hb. unfold reader_Read. by destruct b. Qed.

(** Reads still needed: one per buffered byte at most, one per frame, and the
    one that sees the end. *)
Lemma read_loop_delivers key size ps frames :
  0 < size -> Forall2 (sealed_as key) ps frames -> Forall (fun p => zlen p <= 2 ^ 20 - 28) ps ->
  forall fuel b acc, (length b + length ps + length (mjoin ps) < fuel)%nat ->
  read_loop fuel size (mkReader (mjoin (stream_frame <$> frames)) key b) acc =
  Some (acc ++ b ++ mjoin ps, Err "EOF").
Proof.
  intros Hsize Hss Hps fuel. revert ps frames Hss Hps.
  induction fuel as [|fuel IH]; intros ps frames Hss Hps b acc Hfuel; [lia|].
  destruct b as [|x b].
  - destruct Hss as [|p frame ps frames Hpf Hss]; [by rewrite app_nil_r|].
    apply Forall_cons in Hps as [Hp Hps]. cbn [fmap list_fmap mjoin list_join read_loop]. rewrite (reader_next key p frame) by done.
    rewrite (IH ps frames); [|done..|].
    + f_equal. f_equal. rewrite <- !app_assoc. by rewrite (app_assoc (take _ p)), take_drop.
    + simpl in Hfuel. rewrite length_app in Hfuel. rewrite length_drop. lia.
  - cbn [read_loop]. rewrite reader_buffered by done. rewrite (IH ps frames); [|done..|].
    + f_equal. f_equal. rewrite <- !app_assoc. by rewrite (app_assoc (take _ (x :: b))), take_drop.
    + rewrite length_drop. simpl in *. lia.
Qed.

(** Reading a stream to its end delivers exactly the plaintexts of its
    frames in order, whatever read size the caller uses and however frames and
    reads straddle, and then reports end of file; one read per frame and per
    byte, and a last one, are enough. *)
Theorem stream_reader_delivers (key : bytes) (ps frames : list bytes) (size : Z) (fuel : nat)
    (Hsize : 0 < size) (Hss : Forall2 (sealed_as key) ps frames)
    (Hps : Forall (fun p => zlen p <= 2 ^ 20 - 28) ps)
    (Hfuel : (length ps + length (mjoin ps) < fuel)%nat) :
  read_loop fuel size (newFramedDecryptReader (mjoin (stream_frame <$> frames)) key) [] =
  Some (mjoin ps, Err "EOF").
Proof. by apply (read_loop_delivers key size ps frames Hsize Hss Hps fuel [] []). Qed.
End stream_lemmas.

(** ** Batches *)

Lemma decode_frames_total fuel i n o data fs :
  0 <= o <= zlen data -> zlen data - o <= 4 * Z.of_nat fuel -> decode_frames (S fuel) i n o data fs <> Panic.
Proof.
  revert i o fs. induction fuel as [|fuel IH]; intros i o fs Ho Hf; simpl decode_frames.
  - destruct (i >=? n); [done|]. rewrite Z.gtb_ltb, (proj2 (Z.ltb_lt _ _)) by lia. done.
  - destruct (i >=? n); [done|]. rewrite Z.gtb_ltb. destruct (_ <? _) eqn:E; [done|]. bool_to_prop.
    destruct (be_at_ok 4 data o) as (l & -> & Hl); [lia..|]. cbn [mbind res_bind].
    rewrite Z.gtb_ltb. destruct (_ <? _) eqn:F; [done|]. bool_to_prop.
    rewrite slice_ok by lia. cbn [mbind res_bind]. apply (IH (i + 1)); lia.
Qed.

Lemma decode_frames_ok fuel i fs pre done_ data :
  Forall (fun f => zlen f < 2 ^ 32) fs ->
  data = pre ++ mjoin ((fun f => put_u32 (zlen f) ++ f) <$> fs) -> (length fs <= fuel)%nat ->
  decode_frames fuel i (i + zlen fs) (zlen pre) data done_ = Ok (done_ ++ fs).
Proof.
  revert i fs pre done_. induction fuel as [|fuel IH]; intros i fs pre done_ Hall Hdata Hfuel.
  - destruct fs; [|simpl in Hfuel; lia]. simpl. rewrite zlen_nil, Z.geb_leb, (proj2 (Z.leb_le _ _)) by lia.
    by rewrite app_nil_r.
  - destruct fs as [|f fs]; simpl decode_frames; rewrite Z.geb_leb.
    + rewrite zlen_nil, (proj2 (Z.leb_le _ _)) by lia. by rewrite app_nil_r.
    + apply Forall_cons in Hall as [Hf Hall]. pose proof (zlen_nonneg fs). pose proof (zlen_nonneg f).
      rewrite zlen_cons, (proj2 (Z.leb_gt _ _)) by lia.
      set (rest := mjoin ((fun f => put_u32 (zlen f) ++ f) <$> fs)) in *.
      assert (data = pre ++ put_u32 (zlen f) ++ f ++ rest) as Hd.
      { rewrite Hdata, fmap_cons. rewrite mjoin_cons. by rewrite <- app_assoc. }
      pose proof (zlen_nonneg rest). rewrite Z.gtb_ltb, (proj2 (Z.ltb_ge _ _)) by (rewrite Hd; wire_lia).
      rewrite (be_at_at 4 data pre (put_u32 (zlen f)) (f ++ rest)) by (done || wire_lia).
      cbn [mbind res_bind]. rewrite be_get_u32 by lia.
      rewrite Z.gtb_ltb, (proj2 (Z.ltb_ge _ _)) by (rewrite Hd; wire_lia).
      rewrite (slice_at data (pre ++ put_u32 (zlen f)) f rest) by (try wire_lia; rewrite Hd; wire_split).
      cbn [mbind res_bind]. replace (i + (1 + zlen fs)) with (i + 1 + zlen fs) by lia.
      replace (zlen pre + 4 + zlen f) with (zlen (pre ++ put_u32 (zlen f) ++ f)) by wire_lia.
      rewrite (IH (i + 1) fs); [by rewrite <- app_assoc|done| |simpl in Hfuel; lia].
      rewrite Hd. unfold rest. by rewrite <- !app_assoc.
Qed.

Lemma decode_encoded frames :
  zlen frames < 2 ^ 32 -> Forall (fun f => zlen f < 2 ^ 32) frames -> decodeDatagramBatch (encode_batch frames) = Ok frames.
Proof.
  intros Hn Hf. unfold decodeDatagramBatch, encode_batch.
  set (body := mjoin _). pose proof (zlen_nonneg body). pose proof (zlen_nonneg frames).
  rewrite (proj2 (Z.eqb_neq _ _)), (proj2 (Z.ltb_ge _ _)) by wire_lia.
  rewrite (be_at_at 4 _ [] (put_u32 (zlen frames)) body) by (done || wire_lia).
  cbn [mbind res_bind]. rewrite be_get_u32 by lia.
  apply (decode_frames_ok _ 0 frames (put_u32 (zlen frames)) []); [done|done|].
  assert (forall fs : list bytes, (length fs <= length (mjoin ((fun f => put_u32 (zlen f) ++ f) <$> fs)))%nat) as Hlen.
  { induction fs as [|f fs IH]; [done|]. rewrite fmap_cons. rewrite mjoin_cons. cbn [length].
    assert (length (put_u32 (zlen f)) = 4%nat) by apply length_be_put. rewrite !length_app. lia. }
  rewrite length_app. specialize (Hlen frames). fold body in Hlen. lia.
Qed.

(** A batch of datagrams decodes to the datagrams it was built from, and no
    input makes the decoder panic or loop: each round consumes at least four
    bytes. *)
Theorem datagram_batch_roundtrip (frames : list bytes)
    (Hn : zlen frames < 2 ^ 32) (Hf : Forall (fun f => zlen f < 2 ^ 32) frames) :
  decodeDatagramBatch (encode_batch frames) = Ok frames /\
  forall data, no_panic (decodeDatagramBatch data).
Proof.
  split; [by apply decode_encoded|].
  intros data. unfold no_panic, decodeDatagramBatch. destruct (_ =? 0); [done|].
    destruct (_ <? 4) eqn:E; [done|]. bool_to_prop.
    destruct (be_at_ok 4 data 0) as (n & -> & _); [lia..|]. cbn [mbind res_bind].
    unfold zlen in E. destruct (length data) as [|m] eqn:L; [lia|].
    apply decode_frames_total; unfold zlen; lia.
Qed.

Lemma datagram_batch_roundtrip_witness :
  decodeDatagramBatch (encode_batch [str "ab"; []; str "c"]) = Ok [str "ab"; []; str "c"].
Proof.
  apply (datagram_batch_roundtrip [str "ab"; []; str "c"]); [by vm_compute|].
  repeat constructor.
Defined.

(** ** Witnesses over the toy cipher *)

#[local] Existing Instances Toy.aead Toy.aead_laws.

Lemma frame_roundtrip_witness :
  exists frame, sealFrame (Some []) (sessionKey (str "tok")) (str "hi") = Ok frame /\
    openFrame (sessionKey (str "tok")) frame = Ok (str "hi").
Proof.
  destruct (frame_roundtrip (str "tok") (str "hi") []) as [(f & E & O & _) _]. by exists f.
Defined.

Lemma upload_response_roundtrip_witness :
  exists body, buildUploadResponse (Some []) [] (sessionKey (str "tok")) (str "hi") = Ok body /\
    parseResponse (sessionKey (str "tok")) body = Ok (str "hi").
Proof.
  destruct (buildUploadResponse (Some []) [] (sessionKey (str "tok")) (str "hi")) as [body| |] eqn:E; [|done..].
  exists body. split; [done|].
  apply (upload_response_roundtrip (Some []) [] (sessionKey (str "tok")) (str "hi") body); [by vm_compute|done].
Defined.

Lemma stream_reader_delivers_witness :
  exists f1 f2, read_loop 9 2 (newFramedDecryptReader (mjoin (stream_frame <$> [f1; f2])) (sessionKey [])) [] =
    Some (str "abcd", Err "EOF").
Proof.
  destruct (sealFrame (Some []) (sessionKey []) (str "abc")) as [f1| |] eqn:E1; [|done..].
  destruct (sealFrame (Some []) (sessionKey []) (str "d")) as [f2| |] eqn:E2; [|done..].
  exists f1, f2.
  apply (stream_reader_delivers (sessionKey []) [str "abc"; str "d"] [f1; f2] 2 9).
  - lia.
  - constructor; [by eexists|]. constructor; [by eexists|]. constructor.
  - by_decide.
  - simpl. lia.
Defined.
