(* ===== verification/UdpRelay.v ===== *)
(** * UdpRelay: request/response over a punched UDP socket (udp_relay.go, udp_control.go)

    The frame codec, the connection with its table of pending requests, and the
    life of a [RoundTrip] call as steps, interleaved with the read loop, the
    keepalive loop and [Close].  A response channel has capacity one: a pending
    entry is [None] while empty and [Some r] once filled. *)
From S2P Require Import Prelude Encoding Env.

Definition udpRelayMagic : Z := 0x534E4355.
Definition udpRelayTypeRequest : byte := x01.
Definition udpRelayTypeResponse : byte := x02.
Definition udpRelayTypeKeepalive : byte := x03.
Definition udpRelayTypePong : byte := x04.
Definition udpRelayRetries : Z := 3.
Definition udpRelayTimeout : Z := 700000000.             (* 700ms *)
Definition udpRelayMaxFrame : Z := 65536.
Definition udpRelayFailThresh : Z := 5.
Definition udpRelayKeepaliveMiss : Z := 3.

(** ** Frame codec *)

Definition udpEncodeRequest (reqID : Z) (path token body : bytes) : bytes :=
  put_u32 udpRelayMagic ++ put_u32 reqID ++ [udpRelayTypeRequest] ++
  put_u16 (zlen path) ++ path ++ put_u16 (zlen token) ++ token ++ put_u32 (zlen body) ++ body.

(** [Ok None] is the code's [ok == false]. *)
Definition udpDecodeRequest (data : bytes) : res (option (bytes * bytes * bytes)) :=
  if zlen data <? 9 + 2 + 2 + 4 then Ok None else
  let o := 9 in
  pLen ← be_at 2 data o;
  let o := o + 2 in
  if o + pLen + 2 >? zlen data then Ok None else
  path ← slice data o (o + pLen);
  let o := o + pLen in
  tLen ← be_at 2 data o;
  let o := o + 2 in
  if o + tLen + 4 >? zlen data then Ok None else
  token ← slice data o (o + tLen);
  let o := o + tLen in
  bLen ← be_at 4 data o;
  let o := o + 4 in
  if o + bLen >? zlen data then Ok None else
  body ← slice data o (o + bLen);
  Ok (Some (path, token, body)).

Definition udpEncodeKeepalive (reqID : Z) (typ : byte) : bytes :=
  put_u32 udpRelayMagic ++ put_u32 reqID ++ [typ].

Definition udpEncodeResponse (reqID status : Z) (body : bytes) : bytes :=
  put_u32 udpRelayMagic ++ put_u32 reqID ++ [udpRelayTypeResponse] ++
  put_u16 status ++ put_u32 (zlen body) ++ body.

Record udpPendingResp := mkResp { pr_status : Z; pr_body : bytes }.

Definition udpDecodeResponse (data : bytes) : res (option udpPendingResp) :=
  if zlen data <? 4 + 4 + 1 + 2 + 4 then Ok None else
  let o := 9 in
  status ← be_at 2 data o;
  let o := o + 2 in
  bLen ← be_at 4 data o;
  let o := o + 4 in
  if o + bLen >? zlen data then Ok None else
  body ← slice data o (o + bLen);
  Ok (Some (mkResp status body)).

(** ** The connection *)

Record UDPRelayConn := mkConn {
  uc_controlURL : bytes;
  uc_pending : gmap Z (option udpPendingResp);
  uc_failCount : Z;
  uc_failed : bool;
  uc_missedPongs : Z;
  uc_successCount : Z;
  uc_keepalive : bool;                   (* the keepalive loop is running *)
  uc_closed : bool
}.

Definition NewUDPRelayConn (controlURL : bytes) : UDPRelayConn :=
  mkConn controlURL ∅ 0 false 0 0 true false.

Definition with_pending (c : UDPRelayConn) (p : gmap Z (option udpPendingResp)) : UDPRelayConn :=
  mkConn (uc_controlURL c) p (uc_failCount c) (uc_failed c) (uc_missedPongs c) (uc_successCount c)
    (uc_keepalive c) (uc_closed c).
Definition with_fail (c : UDPRelayConn) (n : Z) (f : bool) : UDPRelayConn :=
  mkConn (uc_controlURL c) (uc_pending c) n f (uc_missedPongs c) (uc_successCount c)
    (uc_keepalive c) (uc_closed c).
Definition with_pongs (c : UDPRelayConn) (n : Z) (running : bool) : UDPRelayConn :=
  mkConn (uc_controlURL c) (uc_pending c) (uc_failCount c) (uc_failed c) n (uc_successCount c)
    running (uc_closed c).
Definition with_success (c : UDPRelayConn) : UDPRelayConn :=
  mkConn (uc_controlURL c) (uc_pending c) 0 (uc_failed c) (uc_missedPongs c) (uc_successCount c + 1)
    (uc_keepalive c) (uc_closed c).

Definition markFailed (c : UDPRelayConn) : UDPRelayConn := with_fail c (uc_failCount c) true.

Definition Failed (c : UDPRelayConn) : bool := uc_failed c.

Definition recordFailure (c : UDPRelayConn) : UDPRelayConn :=
  let n := uc_failCount c + 1 in
  let c := with_fail c n (uc_failed c) in
  if n >=? udpRelayFailThresh then markFailed c else c.

(** What the connection does; [RGot]: it has read a datagram. *)
Inductive relay_act :=
| RWrite (frame : bytes)
| RServe (reqID : Z) (path token body : bytes)
| RGot (dgram : bytes).

(** What was read of a datagram through the body of [readLoop]. *)
Definition relay_recv (c : UDPRelayConn) (data : bytes) : res (UDPRelayConn * list relay_act) :=
  if zlen data <? 9 then Ok (c, []) else
  magic ← be_at 4 data 0;
  if negb (magic =? udpRelayMagic) then Ok (c, []) else
  reqID ← be_at 4 data 4;
  typ ← index data 8;
  if byte_eqb typ udpRelayTypeResponse then
    r ← udpDecodeResponse data;
    match r with
    | None => Ok (c, [])
    | Some resp =>
      match uc_pending c !! reqID with
      | Some None => Ok (with_pending c (<[reqID := Some resp]> (uc_pending c)), [])
      | _ => Ok (c, [])                   (* nobody waits, or the channel is full *)
      end
    end
  else if byte_eqb typ udpRelayTypeRequest then
    if bool_decide (uc_controlURL c = []) then Ok (c, []) else
    r ← udpDecodeRequest data;
    match r with
    | None => Ok (c, [])
    | Some (path, token, body) => Ok (c, [RServe reqID path token body])
    end
  else if byte_eqb typ udpRelayTypeKeepalive then
    Ok (c, [RWrite (udpEncodeKeepalive reqID udpRelayTypePong)])
  else if byte_eqb typ udpRelayTypePong then
    Ok (with_pongs c 0 (uc_keepalive c), [])
  else Ok (c, []).

(** One datagram: what does not fit the buffer is cut off. *)
Definition read_buf (dgram : bytes) : bytes := take (Z.to_nat udpRelayMaxFrame) dgram.
Definition relay_read (c : UDPRelayConn) (dgram : bytes) : res (UDPRelayConn * list relay_act) := relay_recv c (read_buf dgram).
Strategy expand [relay_read].
#[global] Arguments read_buf : simpl never.

(** A UDP datagram carries at most 65507 bytes (over IPv4): writing more fails. *)
Definition datagram_fits (frame : bytes) : bool := zlen frame <=? 65507.

(** [forwarded] is what [forwardToControl] returned. *)
Definition serveRequest (reqID : Z) (forwarded : option (Z * bytes)) : bytes :=
  let '(status, body) := match forwarded with Some r => r | None => (503, []) end in
  udpEncodeResponse reqID status body.

(** One tick of the keepalive loop; [wrote] tells whether the write succeeded. *)
Definition keepalive_tick (c : UDPRelayConn) (reqID : Z) (wrote : bool) : UDPRelayConn * list relay_act :=
  let ping := udpEncodeKeepalive reqID udpRelayTypeKeepalive in
  if negb wrote then
    let c := recordFailure c in (with_pongs c (uc_missedPongs c) false, [])
  else
    let n := uc_missedPongs c + 1 in
    if n >=? udpRelayKeepaliveMiss
    then (markFailed (with_pongs c n false), [RWrite ping])
    else (with_pongs c n true, [RWrite ping]).

Definition relay_Close (c : UDPRelayConn) : UDPRelayConn :=
  mkConn (uc_controlURL c) (uc_pending c) (uc_failCount c) (uc_failed c) (uc_missedPongs c)
    (uc_successCount c) (uc_keepalive c) true.

(** ** RoundTrip *)

Inductive call_state :=
| Sending (attempt : Z)                   (* about to write the frame *)
| Waiting (attempt : Z)                   (* in the select *)
| Returned (r : res udpPendingResp).

Record call := mkCall { cl_id : Z; cl_frame : bytes; cl_state : call_state }.

(** Registering the call under an unused identifier. *)
Definition rt_start (c : UDPRelayConn) (reqID : Z) (path token body : bytes) : UDPRelayConn * call :=
  (with_pending c (<[reqID := None]> (uc_pending c)),
   mkCall reqID (udpEncodeRequest reqID path token body) (Sending 0)).

(** Leaving the call: the deferred function unregisters it. *)
Definition rt_return (c : UDPRelayConn) (cl : call) (r : res udpPendingResp) : UDPRelayConn * call :=
  (with_pending c (delete (cl_id cl) (uc_pending c)), mkCall (cl_id cl) (cl_frame cl) (Returned r)).

Inductive wait_outcome := OResponse | OTimeout | OClosed.

(** The head of the retry loop: write the frame and enter the select, or leave
    after the last attempt. *)
Definition rt_send (c : UDPRelayConn) (cl : call) (attempt : Z) (wrote : bool)
    : UDPRelayConn * call * list relay_act :=
  if negb (attempt <? udpRelayRetries) then
    (rt_return (recordFailure c) cl (Err "udp-relay: retries exhausted"), [])
  else if wrote then (c, mkCall (cl_id cl) (cl_frame cl) (Waiting attempt), [RWrite (cl_frame cl)])
  else (rt_return (recordFailure c) cl (Err "udp-relay write"), []).

(** The select; [None] when its case is not ready. *)
Definition rt_wait (c : UDPRelayConn) (cl : call) (attempt : Z) (o : wait_outcome)
    : option (UDPRelayConn * call) :=
  match o with
  | OResponse =>
    match uc_pending c !! cl_id cl with
    | Some (Some resp) => Some (rt_return (with_success c) cl (Ok resp))
    | _ => None
    end
  | OTimeout => Some (c, mkCall (cl_id cl) (cl_frame cl) (Sending (attempt + 1)))
  | OClosed => if uc_closed c then Some (rt_return c cl (Err "udp-relay: closed")) else None
  end.

(** [udpRelayTimeout << uint(attempt)]. *)
Definition rt_timeout (attempt : Z) : Z := Z.shiftl udpRelayTimeout attempt.

(** ** The whole connection: all its calls, interleaved *)

Record relay_sys := mkSys { sys_conn : UDPRelayConn; sys_calls : gmap Z call }.

Inductive relay_step : relay_sys -> list relay_act -> relay_sys -> Prop :=
| StepRecv c cs data c' acts :
    relay_read c data = Ok (c', acts) -> relay_step (mkSys c cs) (RGot data :: acts) (mkSys c' cs)
| StepStart c cs id path token body :
    uc_pending c !! id = None -> cs !! id = None ->
    relay_step (mkSys c cs) []
      (mkSys (rt_start c id path token body).1 (<[id := (rt_start c id path token body).2]> cs))
| StepSend c cs id cl attempt wrote c' cl' acts :
    cs !! id = Some cl -> cl_state cl = Sending attempt -> rt_send c cl attempt wrote = (c', cl', acts) ->
    relay_step (mkSys c cs) acts (mkSys c' (<[id := cl']> cs))
| StepWait c cs id cl attempt o c' cl' :
    cs !! id = Some cl -> cl_state cl = Waiting attempt -> rt_wait c cl attempt o = Some (c', cl') ->
    relay_step (mkSys c cs) [] (mkSys c' (<[id := cl']> cs))
| StepReap c cs id cl r :
    cs !! id = Some cl -> cl_state cl = Returned r -> relay_step (mkSys c cs) [] (mkSys c (delete id cs))
| StepKeepalive c cs id wrote :
    uc_keepalive c = true -> uc_closed c = false ->
    relay_step (mkSys c cs) (keepalive_tick c id wrote).2 (mkSys (keepalive_tick c id wrote).1 cs)
| StepClose c cs : relay_step (mkSys c cs) [] (mkSys (relay_Close c) cs).

Inductive relay_reach (url : bytes) : relay_sys -> list relay_act -> Prop :=
| ReachInit : relay_reach url (mkSys (NewUDPRelayConn url) ∅) []
| ReachStep s acts s' new : relay_reach url s acts -> relay_step s new s' -> relay_reach url s' (acts ++ new).

(** ** Lemmas on the codec *)

Lemma decode_request_total data : udpDecodeRequest data <> Panic.
Proof.
  unfold udpDecodeRequest. destruct (_ <? _) eqn:E; [done|]. bool_to_prop. cbv zeta.
  destruct (be_at_ok 2 data 9) as (p & -> & Hp); [lia..|]. cbn [mbind res_bind].
  rewrite Z.gtb_ltb. destruct (_ <? _) eqn:F; [done|]. bool_to_prop.
  rewrite slice_ok by lia. cbn [mbind res_bind].
  destruct (be_at_ok 2 data (9 + 2 + p)) as (t & -> & Ht); [lia..|]. cbn [mbind res_bind].
  rewrite Z.gtb_ltb. destruct (_ <? _) eqn:G; [done|]. bool_to_prop.
  rewrite slice_ok by lia. cbn [mbind res_bind].
  destruct (be_at_ok 4 data (9 + 2 + p + 2 + t)) as (b & -> & Hb); [lia..|]. cbn [mbind res_bind].
  rewrite Z.gtb_ltb. destruct (_ <? _) eqn:I; [done|]. bool_to_prop.
  by rewrite slice_ok by lia.
Qed.

Lemma decode_response_total data : udpDecodeResponse data <> Panic.
Proof.
  unfold udpDecodeResponse. destruct (_ <? _) eqn:E; [done|]. bool_to_prop. cbv zeta.
  destruct (be_at_ok 2 data 9) as (p & -> & Hp); [lia..|]. cbn [mbind res_bind].
  destruct (be_at_ok 4 data (9 + 2)) as (b & -> & Hb); [lia..|]. cbn [mbind res_bind].
  rewrite Z.gtb_ltb. destruct (_ <? _) eqn:I; [done|]. bool_to_prop.
  by rewrite slice_ok by lia.
Qed.

Lemma relay_recv_total c data : relay_recv c data <> Panic.
Proof.
  unfold relay_recv. destruct (_ <? _) eqn:E; [done|]. bool_to_prop.
  destruct (be_at_ok 4 data 0) as (m & -> & _); [lia..|]. cbn [mbind res_bind].
  destruct (negb _); [done|].
  destruct (be_at_ok 4 data 4) as (i & -> & _); [lia..|]. cbn [mbind res_bind].
  destruct (index_ok data 8) as (t & -> & _); [lia|]. cbn [mbind res_bind].
  pose proof (decode_request_total data). pose proof (decode_response_total data).
  destruct (byte_eqb t udpRelayTypeResponse).
  { destruct (udpDecodeResponse data) as [[r|]| |]; [|done..]. cbn [mbind res_bind].
    by destruct (uc_pending c !! i) as [[]|]. }
  destruct (byte_eqb t udpRelayTypeRequest).
  { destruct (bool_decide _); [done|]. by destruct (udpDecodeRequest data) as [[[[]]|]| |]. }
  destruct (byte_eqb t udpRelayTypeKeepalive); [done|]. by destruct (byte_eqb t udpRelayTypePong).
Qed.

(** The three fixed fields of a frame. *)
Definition header (reqID : Z) (typ : byte) : bytes := put_u32 udpRelayMagic ++ put_u32 reqID ++ [typ].

Lemma zlen_header id t : zlen (header id t) = 9.
Proof. unfold header. wire_lia. Qed.

Lemma recv_header c id t rest :
  0 <= id < 2 ^ 32 ->
  relay_recv c (header id t ++ rest) =
  (let data := header id t ++ rest in
   if byte_eqb t udpRelayTypeResponse then
    r ← udpDecodeResponse data;
    match r with
    | None => Ok (c, [])
    | Some resp =>
      match uc_pending c !! id with
      | Some None => Ok (with_pending c (<[id := Some resp]> (uc_pending c)), [])
      | _ => Ok (c, [])
      end
    end
   else if byte_eqb t udpRelayTypeRequest then
    if bool_decide (uc_controlURL c = []) then Ok (c, []) else
    r ← udpDecodeRequest data;
    match r with
    | None => Ok (c, [])
    | Some (path, token, body) => Ok (c, [RServe id path token body])
    end
   else if byte_eqb t udpRelayTypeKeepalive then
    Ok (c, [RWrite (udpEncodeKeepalive id udpRelayTypePong)])
   else if byte_eqb t udpRelayTypePong then Ok (with_pongs c 0 (uc_keepalive c), [])
   else Ok (c, [])).
Proof.
  intros Hid. set (data := header id t ++ rest). pose proof (zlen_nonneg rest).
  assert (zlen data = 9 + zlen rest) as Hl by (unfold data; rewrite zlen_app, zlen_header; done).
  unfold relay_recv. rewrite (proj2 (Z.ltb_ge _ _)) by lia.
  rewrite (be_at_at 4 data [] (put_u32 udpRelayMagic) (put_u32 id ++ [t] ++ rest) 0) by
    (try wire_lia; unfold data, header; wire_split).
  cbn [mbind res_bind]. rewrite be_get_u32 by (unfold udpRelayMagic; lia). rewrite Z.eqb_refl. cbn [negb].
  rewrite (be_at_at 4 data (put_u32 udpRelayMagic) (put_u32 id) ([t] ++ rest) 4) by
    (try wire_lia; unfold data, header; wire_split).
  cbn [mbind res_bind]. rewrite be_get_u32 by done.
  rewrite (index_at data (put_u32 udpRelayMagic ++ put_u32 id) t rest) by
    (try wire_lia; unfold data, header; wire_split).
  done.
Qed.

(** What a datagram can carry is read whole. *)
Lemma read_fits c frame : datagram_fits frame = true -> relay_read c frame = relay_recv c frame.
Proof. unfold datagram_fits, relay_read, read_buf, udpRelayMaxFrame, zlen. intros H. rewrite take_ge by lia. done. Qed.

Lemma decode_request_ok id path token body :
  zlen path < 2 ^ 16 -> zlen token < 2 ^ 16 -> zlen body < 2 ^ 32 ->
  udpDecodeRequest (udpEncodeRequest id path token body) = Ok (Some (path, token, body)).
Proof.
  intros Hp Ht Hb. pose proof (zlen_nonneg path). pose proof (zlen_nonneg token). pose proof (zlen_nonneg body).
  set (data := udpEncodeRequest id path token body).
  set (h := header id udpRelayTypeRequest). pose proof (zlen_header id udpRelayTypeRequest) as Hh. fold h in Hh.
  assert (data = h ++ put_u16 (zlen path) ++ path ++ put_u16 (zlen token) ++ token ++ put_u32 (zlen body) ++ body)
    as Hd by (unfold data, udpEncodeRequest, h, header; wire_split).
  assert (zlen data = 17 + zlen path + zlen token + zlen body) as Hl by (rewrite Hd; wire_lia).
  unfold udpDecodeRequest. rewrite (proj2 (Z.ltb_ge _ _)) by lia. cbv zeta.
  rewrite (be_at_at 2 data h (put_u16 (zlen path)) _ _ Hd) by wire_lia.
  cbn [mbind res_bind]. rewrite be_get_u16, Z.gtb_ltb, (proj2 (Z.ltb_ge _ _)) by lia.
  rewrite (slice_at data (h ++ put_u16 (zlen path)) path
    (put_u16 (zlen token) ++ token ++ put_u32 (zlen body) ++ body)) by (try wire_lia; rewrite Hd; wire_split).
  cbn [mbind res_bind].
  rewrite (be_at_at 2 data (h ++ put_u16 (zlen path) ++ path) (put_u16 (zlen token))
    (token ++ put_u32 (zlen body) ++ body)) by (try wire_lia; rewrite Hd; wire_split).
  cbn [mbind res_bind]. rewrite be_get_u16, Z.gtb_ltb, (proj2 (Z.ltb_ge _ _)) by lia.
  rewrite (slice_at data (h ++ put_u16 (zlen path) ++ path ++ put_u16 (zlen token)) token
    (put_u32 (zlen body) ++ body)) by (try wire_lia; rewrite Hd; wire_split).
  cbn [mbind res_bind].
  rewrite (be_at_at 4 data (h ++ put_u16 (zlen path) ++ path ++ put_u16 (zlen token) ++ token)
    (put_u32 (zlen body)) body) by (try wire_lia; rewrite Hd; wire_split).
  cbn [mbind res_bind]. rewrite be_get_u32, Z.gtb_ltb, (proj2 (Z.ltb_ge _ _)) by lia.
  rewrite (slice_at data (h ++ put_u16 (zlen path) ++ path ++ put_u16 (zlen token) ++ token ++ put_u32 (zlen body))
    body []) by (try wire_lia; rewrite Hd; rewrite app_nil_r; wire_split).
  done.
Qed.

Lemma decode_response_ok id status body :
  0 <= status < 2 ^ 16 -> zlen body < 2 ^ 32 ->
  udpDecodeResponse (udpEncodeResponse id status body) = Ok (Some (mkResp status body)).
Proof.
  intros Hs Hb. pose proof (zlen_nonneg body).
  set (data := udpEncodeResponse id status body).
  set (h := header id udpRelayTypeResponse). pose proof (zlen_header id udpRelayTypeResponse) as Hh. fold h in Hh.
  assert (data = h ++ put_u16 status ++ put_u32 (zlen body) ++ body)
    as Hd by (unfold data, udpEncodeResponse, h, header; wire_split).
  assert (zlen data = 15 + zlen body) as Hl by (rewrite Hd; wire_lia).
  unfold udpDecodeResponse. rewrite (proj2 (Z.ltb_ge _ _)) by lia. cbv zeta.
  rewrite (be_at_at 2 data h (put_u16 status) _ _ Hd) by wire_lia. cbn [mbind res_bind].
  rewrite (be_at_at 4 data (h ++ put_u16 status) (put_u32 (zlen body)) body) by
    (try wire_lia; rewrite Hd; wire_split).
  cbn [mbind res_bind]. rewrite be_get_u32, Z.gtb_ltb, (proj2 (Z.ltb_ge _ _)) by lia.
  rewrite (slice_at data (h ++ put_u16 status ++ put_u32 (zlen body)) body []) by
    (try wire_lia; rewrite Hd; rewrite app_nil_r; wire_split).
  cbn [mbind res_bind]. by rewrite be_get_u16.
Qed.

(** ** Exchanges *)

Lemma recv_request c id path token body :
  0 <= id < 2 ^ 32 -> zlen path < 2 ^ 16 -> zlen token < 2 ^ 16 -> zlen body < 2 ^ 32 ->
  uc_controlURL c <> [] ->
  relay_recv c (udpEncodeRequest id path token body) = Ok (c, [RServe id path token body]).
Proof.
  intros Hid Hp Ht Hb Hu. pose proof (decode_request_ok id path token body Hp Ht Hb) as Hd.
  assert (udpEncodeRequest id path token body = header id udpRelayTypeRequest ++
    put_u16 (zlen path) ++ path ++ put_u16 (zlen token) ++ token ++ put_u32 (zlen body) ++ body) as E
    by (unfold udpEncodeRequest, header; wire_split).
  rewrite E in *. rewrite recv_header by done. cbv zeta.
  change (byte_eqb udpRelayTypeRequest udpRelayTypeResponse) with false.
  change (byte_eqb udpRelayTypeRequest udpRelayTypeRequest) with true. cbv iota.
  rewrite bool_decide_eq_false_2 by done. by rewrite Hd.
Qed.

Lemma recv_response c id status body :
  0 <= id < 2 ^ 32 -> 0 <= status < 2 ^ 16 -> zlen body < 2 ^ 32 ->
  relay_recv c (udpEncodeResponse id status body) =
  Ok (match uc_pending c !! id with
      | Some None => with_pending c (<[id := Some (mkResp status body)]> (uc_pending c))
      | _ => c end, []).
Proof.
  intros Hid Hs Hb. pose proof (decode_response_ok id status body Hs Hb) as Hd.
  assert (udpEncodeResponse id status body = header id udpRelayTypeResponse ++
    put_u16 status ++ put_u32 (zlen body) ++ body) as E
    by (unfold udpEncodeResponse, header; wire_split).
  rewrite E in *. rewrite recv_header by done. cbv zeta.
  change (byte_eqb udpRelayTypeResponse udpRelayTypeResponse) with true. cbv iota.
  rewrite Hd. cbn [mbind res_bind]. by destruct (uc_pending c !! id) as [[]|].
Qed.

(** A request sent by one peer is served by the other with the same path,
    token and body, and the answer it encodes comes back to the very call that
    asked: the call returns the forwarded status and body (503 with no body when
    forwarding failed) and is no longer pending. *)
Theorem relay_roundtrip_delivers (client server : UDPRelayConn) (id : Z) (path token body : bytes)
    (forwarded : option (Z * bytes)) (attempt : Z)
    (Hid : 0 <= id < 2 ^ 32) (Hp : zlen path < 2 ^ 16) (Ht : zlen token < 2 ^ 16) (Hb : zlen body < 2 ^ 32)
    (Hserver : uc_controlURL server <> [])
    (Hfwd : match forwarded with Some (st, b) => 0 <= st < 2 ^ 16 /\ zlen b < 2 ^ 32 | None => True end) :
  let '(c1, cl) := rt_start client id path token body in
  let resp := match forwarded with Some (st, b) => mkResp st b | None => mkResp 503 [] end in
  relay_recv server (cl_frame cl) = Ok (server, [RServe id path token body]) /\
  exists c2 c3, relay_recv c1 (serveRequest id forwarded) = Ok (c2, []) /\
    rt_wait c2 (mkCall id (cl_frame cl) (Waiting attempt)) attempt OResponse =
      Some (c3, mkCall id (cl_frame cl) (Returned (Ok resp))) /\
    uc_pending c3 !! id = None /\ uc_failCount c3 = 0.
Proof.
  unfold rt_start. cbv zeta. split; [by apply recv_request|].
  set (c1 := with_pending client _).
  set (resp := match forwarded with Some (st, b) => mkResp st b | None => mkResp 503 [] end).
  assert (relay_recv c1 (serveRequest id forwarded) =
    Ok (with_pending c1 (<[id := Some resp]> (uc_pending c1)), [])) as E.
  { unfold serveRequest, resp. destruct forwarded as [[st b]|].
    - destruct Hfwd. rewrite recv_response by done. simpl. by rewrite lookup_insert_eq.
    - rewrite recv_response by (try lia; by vm_compute). simpl. by rewrite lookup_insert_eq. }
  eexists _, _. split; [exact E|]. cbn [rt_wait cl_id uc_pending with_pending].
  rewrite lookup_insert_eq. split; [done|]. simpl. split; [apply lookup_delete_eq|done].
Qed.

Lemma relay_roundtrip_delivers_witness :
  exists c2 c3, relay_recv (rt_start (NewUDPRelayConn []) 7 (str "/p") (str "t") (str "b")).1
      (serveRequest 7 (Some (200, str "ok"))) = Ok (c2, []) /\
    rt_wait c2 (mkCall 7 (udpEncodeRequest 7 (str "/p") (str "t") (str "b")) (Waiting 0)) 0 OResponse =
      Some (c3, mkCall 7 (udpEncodeRequest 7 (str "/p") (str "t") (str "b")) (Returned (Ok (mkResp 200 (str "ok"))))).
Proof.
  destruct (relay_roundtrip_delivers (NewUDPRelayConn []) (NewUDPRelayConn (str "https://c")) 7 (str "/p") (str "t")
    (str "b") (Some (200, str "ok")) 0) as (_ & c2 & c3 & E1 & E2 & _); try (by vm_compute).
  by exists c2, c3.
Defined.

(** ** Invariant of the interleaved system *)

Definition live (cl : call) : Prop := match cl_state cl with Returned _ => False | _ => True end.

Definition call_ok (cl : call) : Prop :=
  match cl_state cl with
  | Sending a => 0 <= a <= udpRelayRetries
  | Waiting a => 0 <= a < udpRelayRetries
  | Returned r => r <> Panic
  end.

Record sys_ok (s : relay_sys) : Prop := {
  sok_pending : forall id, is_Some (uc_pending (sys_conn s) !! id) <->
    exists cl, sys_calls s !! id = Some cl /\ live cl;
  sok_calls : forall id cl, sys_calls s !! id = Some cl -> cl_id cl = id /\ call_ok cl;
  sok_fail : 0 <= uc_failCount (sys_conn s) /\
    (udpRelayFailThresh <= uc_failCount (sys_conn s) -> uc_failed (sys_conn s) = true);
  sok_pongs : 0 <= uc_missedPongs (sys_conn s) /\
    (udpRelayKeepaliveMiss <= uc_missedPongs (sys_conn s) -> uc_failed (sys_conn s) = true)
}.

(** A frame that answers the request [id] with [resp]. *)
Definition response_frame (id : Z) (resp : udpPendingResp) (data : bytes) : Prop :=
  be_at 4 data 0 = Ok 0x534E4355 /\ be_at 4 data 4 = Ok id /\ index data 8 = Ok x02 /\ udpDecodeResponse data = Ok (Some resp).

(** The responses in the table and those calls have returned, against the datagrams read. *)
Definition answered (acts : list relay_act) (id : Z) (resp : udpPendingResp) : Prop :=
  exists d, RGot d ∈ acts /\ response_frame id resp (read_buf d).

Record sys_answers (s : relay_sys) (acts : list relay_act) : Prop := {
  san_pending : forall id resp, uc_pending (sys_conn s) !! id = Some (Some resp) -> answered acts id resp;
  san_calls : forall id cl resp, sys_calls s !! id = Some cl -> cl_state cl = Returned (Ok resp) -> answered acts id resp
}.

Lemma recv_effect c data c' acts :
  relay_recv c data = Ok (c', acts) ->
  (c' = c \/ c' = with_pongs c 0 (uc_keepalive c) \/
   exists id resp, uc_pending c !! id = Some None /\ response_frame id resp data /\
     c' = with_pending c (<[id := Some resp]> (uc_pending c))).
Proof.
  unfold relay_recv. destruct (_ <? _); [intros [= <- _]; by left|].
  destruct (be_at 4 data 0) as [magic| |] eqn:Em; cbn [mbind res_bind]; [|done..].
  destruct (negb (magic =? udpRelayMagic)) eqn:Eq; [intros [= <- _]; by left|].
  destruct (be_at 4 data 4) as [id| |] eqn:Ei; cbn [mbind res_bind]; [|done..].
  destruct (index data 8) as [t| |] eqn:Et; cbn [mbind res_bind]; [|done..].
  destruct (byte_eqb t udpRelayTypeResponse) eqn:Er.
  { destruct (udpDecodeResponse data) as [[r|]| |] eqn:Ed; cbn [mbind res_bind]; try done;
      [|intros [= <- _]; by left].
    destruct (uc_pending c !! id) as [[x|]|] eqn:E; intros [= <- _]; [by left| |by left].
    right; right. exists id, r. split; [done|]. split; [|done]. apply negb_false_iff, Z.eqb_eq in Eq as ->.
    unfold byte_eqb in Er. apply bool_decide_eq_true in Er as ->. done. }
  destruct (byte_eqb t udpRelayTypeRequest).
  { destruct (bool_decide _); [intros [= <- _]; by left|].
    destruct (udpDecodeRequest data) as [[[[? ?] ?]|]| |]; cbn [mbind res_bind]; try done;
      intros [= <- _]; by left. }
  destruct (byte_eqb t udpRelayTypeKeepalive); [intros [= <- _]; by left|].
  destruct (byte_eqb t udpRelayTypePong); intros [= <- _]; [by right; left|by left].
Qed.

(** What stays the same when only the failure counters move. *)
Lemma record_failure_shape c :
  let c' := recordFailure c in
  uc_pending c' = uc_pending c /\ uc_missedPongs c' = uc_missedPongs c /\
  uc_failCount c' = uc_failCount c + 1 /\
  (uc_failed c' = true <-> uc_failed c = true \/ udpRelayFailThresh <= uc_failCount c + 1).
Proof.
  unfold recordFailure, markFailed. simpl. rewrite Z.geb_leb.
  destruct (_ <=? _) eqn:E; simpl; bool_to_prop; repeat split; auto; intros [|]; auto; lia.
Qed.

Lemma sys_ok_init url : sys_ok (mkSys (NewUDPRelayConn url) ∅).
Proof.
  split; simpl; try (unfold udpRelayFailThresh, udpRelayKeepaliveMiss; lia).
  - intros id. rewrite lookup_empty. split; [by intros []|].
    intros (cl & Hcl & _). by rewrite lookup_empty in Hcl.
  - intros id cl. by rewrite lookup_empty.
Qed.

(** Replacing a live call by another live one leaves the table of calls in
    agreement with the pending requests. *)
Lemma calls_live_update (pend : gmap Z (option udpPendingResp)) (cs : gmap Z call) id cl cl' :
  (forall i, is_Some (pend !! i) <-> exists c, cs !! i = Some c /\ live c) ->
  cs !! id = Some cl -> live cl -> live cl' ->
  forall i, is_Some (pend !! i) <-> exists c, <[id := cl']> cs !! i = Some c /\ live c.
Proof.
  intros Hp Hcl Hl Hl' i. rewrite Hp, lookup_insert. case_decide as E; [subst i|done].
  split; intros _; eauto.
Qed.

Lemma calls_return_update (pend : gmap Z (option udpPendingResp)) (cs : gmap Z call) id cl' :
  (forall i, is_Some (pend !! i) <-> exists c, cs !! i = Some c /\ live c) -> ~ live cl' ->
  forall i, is_Some (delete id pend !! i) <-> exists c, <[id := cl']> cs !! i = Some c /\ live c.
Proof.
  intros Hp Hl' i. rewrite lookup_insert. case_decide as E; [subst i|].
  - rewrite lookup_delete_eq. split; [by intros []|]. by intros (x & [= <-] & Hx).
  - rewrite lookup_delete_ne by done. apply Hp.
Qed.

Lemma calls_ok_update (cs : gmap Z call) id cl' :
  (forall i c, cs !! i = Some c -> cl_id c = i /\ call_ok c) -> cl_id cl' = id -> call_ok cl' ->
  forall i c, <[id := cl']> cs !! i = Some c -> cl_id c = i /\ call_ok c.
Proof.
  intros Hc Hi Hok i c. rewrite lookup_insert. case_decide as E; [subst i; by intros [= <-]|apply Hc].
Qed.

Lemma step_send_ok c cs id cl attempt wrote c' cl' acts :
  sys_ok (mkSys c cs) -> cs !! id = Some cl -> cl_state cl = Sending attempt ->
  rt_send c cl attempt wrote = (c', cl', acts) -> sys_ok (mkSys c' (<[id := cl']> cs)).
Proof.
  intros [Hp Hc Hf Hm] Hcl Hst. simpl in *. destruct (Hc id cl Hcl) as [Hid Hok].
  assert (live cl) as Hl by (unfold live; by rewrite Hst).
  unfold call_ok in Hok. rewrite Hst in Hok.
  destruct (record_failure_shape c) as (R1 & R2 & R3 & R4).
  assert (forall m, sys_ok (mkSys (with_pending (recordFailure c) (delete id (uc_pending c)))
    (<[id := mkCall id (cl_frame cl) (Returned (Err m))]> cs))) as Hret.
  { intros m. split; simpl.
    - apply calls_return_update; [done|]. unfold live; simpl; tauto.
    - by apply calls_ok_update.
    - rewrite R3, R4. split; [lia|auto].
    - rewrite R2, R4. split; [lia|]. intros. left. by apply Hm. }
  unfold rt_send, rt_return. rewrite Hid, R1. destruct (negb _) eqn:E.
  - intros [= <- <- <-]. apply Hret.
  - bool_to_prop. destruct wrote; intros [= <- <- <-]; [|apply Hret]. split; simpl; [|apply calls_ok_update..|done|done].
    + by apply (calls_live_update _ _ _ cl).
    + done.
    + done.
    + unfold call_ok. simpl. lia.
Qed.

Lemma step_wait_ok c cs id cl attempt o c' cl' :
  sys_ok (mkSys c cs) -> cs !! id = Some cl -> cl_state cl = Waiting attempt ->
  rt_wait c cl attempt o = Some (c', cl') -> sys_ok (mkSys c' (<[id := cl']> cs)).
Proof.
  intros [Hp Hc Hf Hm] Hcl Hst. simpl in *. destruct (Hc id cl Hcl) as [Hid Hok].
  assert (live cl) as Hl by (unfold live; by rewrite Hst).
  unfold call_ok in Hok. rewrite Hst in Hok.
  unfold rt_wait, rt_return. rewrite Hid. destruct o.
  - destruct (uc_pending c !! id) as [[resp|]|]; [|done..]. intros [= <- <-]. split; simpl.
    + apply calls_return_update; [done|]. unfold live; simpl; tauto.
    + by apply calls_ok_update.
    + unfold udpRelayFailThresh. split; [lia|lia].
    + done.
  - intros [= <- <-]. split; simpl; [by apply (calls_live_update _ _ _ cl)|apply calls_ok_update; try done|done|done].
    unfold call_ok, udpRelayRetries in *. simpl. lia.
  - destruct (uc_closed c); [|done]. intros [= <- <-]. split; simpl; [|by apply calls_ok_update|done|done].
    apply calls_return_update; [done|]. unfold live; simpl; tauto.
Qed.

Lemma keepalive_ok c cs id wrote :
  sys_ok (mkSys c cs) -> sys_ok (mkSys (keepalive_tick c id wrote).1 cs).
Proof.
  intros [Hp Hc Hf Hm]. simpl in *. unfold keepalive_tick.
  destruct (record_failure_shape c) as (R1 & R2 & R3 & R4).
  destruct wrote; simpl.
  - rewrite Z.geb_leb. destruct (_ <=? _) eqn:E; bool_to_prop; split; simpl; try done; try tauto; lia.
  - split; simpl; [by rewrite R1|done| |].
    + rewrite R3, R4. split; [lia|auto].
    + rewrite R2, R4. split; [lia|]. intros. left. by apply Hm.
Qed.

Lemma relay_step_ok s acts s' : sys_ok s -> relay_step s acts s' -> sys_ok s'.
Proof.
  intros Hs Hstep. destruct Hstep as [c cs data c' acts Hr|c cs id path token body Hn Hn'
    |c cs id cl attempt wrote c' cl' acts Hcl Hst Hr|c cs id cl attempt o c' cl' Hcl Hst Hr
    |c cs id cl r Hcl Hst|c cs id wrote Hk Hcl|c cs].
  - destruct Hs as [Hp Hc Hf Hm]. cbn [sys_conn sys_calls] in *. unfold relay_read in Hr.
    destruct (recv_effect _ _ _ _ Hr) as [->|[->|(id & resp & Hid & _ & ->)]]; clear Hr; split; simpl; try done.
    + intros i. rewrite <- Hp, lookup_insert. case_decide; [subst i|done].
      rewrite Hid. split; eauto.
  - destruct Hs as [Hp Hc Hf Hm]. simpl in *. split; simpl; try done.
    + intros i. rewrite !lookup_insert. case_decide; [|apply Hp]. split; eauto. intros _.
      eexists. split; [done|]. by unfold live.
    + apply calls_ok_update; [done..|]. unfold call_ok, udpRelayRetries. simpl. lia.
  - by eapply step_send_ok.
  - by eapply step_wait_ok.
  - destruct Hs as [Hp Hc Hf Hm]. simpl in *. split; simpl; try done.
    + intros i. rewrite Hp, lookup_delete. case_decide; [subst i|done]. split.
      * intros (x & Hx & Hl). rewrite Hcl in Hx. injection Hx as <-. unfold live in Hl. by rewrite Hst in Hl.
      * by intros (x & Hx & _).
    + intros i x. rewrite lookup_delete. case_decide; [done|apply Hc].
  - by apply keepalive_ok.
  - destruct Hs as [Hp Hc Hf Hm]. by split.
Qed.

Lemma answered_mono acts new id resp : answered acts id resp -> answered (acts ++ new) id resp.
Proof. intros (d & Hd & Hf). exists d. split; [|done]. apply elem_of_app. by left. Qed.

(** Steps that change the table of responses only by removing entries, and add no answer. *)
Lemma answers_kept c cs c' cs' acts new :
  sys_answers (mkSys c cs) acts ->
  (forall id resp, uc_pending c' !! id = Some (Some resp) -> uc_pending c !! id = Some (Some resp)) ->
  (forall id cl resp, cs' !! id = Some cl -> cl_state cl = Returned (Ok resp) -> answered acts id resp) ->
  sys_answers (mkSys c' cs') (acts ++ new).
Proof.
  intros [Hp Hc] Hp' Hc'. split; cbn in *.
  - intros id resp Hr. apply answered_mono, Hp, Hp', Hr.
  - intros id cl resp Hcl Hst. by eapply answered_mono, Hc'.
Qed.

Lemma relay_step_answers s acts new s' :
  sys_ok s -> sys_answers s acts -> relay_step s new s' -> sys_answers s' (acts ++ new).
Proof.
  intros Hok Hs Hstep. pose proof Hs as [Hp Hc]. destruct Hstep as [c cs data c' new Hr|c cs id path token body Hn Hn'
    |c cs id cl attempt wrote c' cl' new Hcl Hst Hr|c cs id cl attempt o c' cl' Hcl Hst Hr
    |c cs id cl r Hcl Hst|c cs id wrote Hk Hcl|c cs]; cbn [sys_conn sys_calls] in *.
  - unfold relay_read in Hr. destruct (recv_effect _ _ _ _ Hr) as [->|[->|(id & resp & Hid & Hfr & ->)]];
      [by eapply answers_kept|by eapply answers_kept|]. split; cbn.
    + intros i x. rewrite lookup_insert. case_decide as E; [|intros Hx; by apply answered_mono, Hp].
      intros [= <-]. subst i. exists data. split; [|done]. apply elem_of_app. right. left.
    + intros i cl x Hcl Hst. by eapply answered_mono, Hc.
  - eapply answers_kept; [exact Hs| |]; cbn.
    + intros i x. rewrite lookup_insert. by case_decide.
    + intros i cl x. rewrite lookup_insert. case_decide; [by intros [= <-]|by apply Hc].
  - assert (uc_pending (recordFailure c) = uc_pending c) as Hrf by (by destruct (record_failure_shape c)).
    revert Hr. unfold rt_send, rt_return. destruct (negb _); [|destruct wrote]; intros [= <- <- <-];
      (eapply answers_kept; [exact Hs| |]; cbn; rewrite ?Hrf; intros i x; [rewrite ?lookup_delete_Some; tauto|];
       rewrite lookup_insert; case_decide; [intros ? [= <-] ?|by apply Hc]; done).
  - destruct (sok_calls _ Hok id cl Hcl) as [Hid _]. revert Hr. unfold rt_wait, rt_return. destruct o.
    + destruct (uc_pending c !! cl_id cl) as [[resp|]|] eqn:E; [|done..]. intros [= <- <-].
      eapply answers_kept; [exact Hs| |]; cbn; [intros i x; rewrite lookup_delete_Some; tauto|].
      intros i cl0 x. rewrite lookup_insert. case_decide as Ei; [|by apply Hc]. intros [= <-] [= <-]. subst i.
      apply Hp. by rewrite <- Hid.
    + intros [= <- <-]. eapply answers_kept; [exact Hs|done|]. intros i cl0 x. rewrite lookup_insert. case_decide; [by intros [= <-]|by apply Hc].
    + destruct (uc_closed c); [|done]. intros [= <- <-]. eapply answers_kept; [exact Hs| |]; cbn; [intros i x; rewrite lookup_delete_Some; tauto|].
      intros i cl0 x. rewrite lookup_insert. case_decide; [by intros [= <-]|by apply Hc].
  - eapply answers_kept; [exact Hs|done|]. intros i cl0 x. rewrite lookup_delete_Some. intros [_ ?]. by eapply Hc.
  - eapply answers_kept; [exact Hs| |exact Hc]. unfold keepalive_tick. destruct (record_failure_shape c) as (R1 & _).
    destruct wrote; cbn [negb]; [destruct (_ >=? _); done|]. cbn. by rewrite R1.
  - by eapply answers_kept.
Qed.



(** ** Failure detection *)

Lemma step_failed_stays s acts s' :
  relay_step s acts s' -> uc_failed (sys_conn s) = true -> uc_failed (sys_conn s') = true.
Proof.
  intros Hstep Hf. destruct Hstep as [c cs data c' acts Hr|c cs id path token body Hn Hn'
    |c cs id cl attempt wrote c' cl' acts Hcl Hst Hr|c cs id cl attempt o c' cl' Hcl Hst Hr
    |c cs id cl r Hcl Hst|c cs id wrote Hk Hcl|c cs]; simpl in *; try done.
  - by destruct (recv_effect _ _ _ _ Hr) as [->|[->|(id & resp & Hid & Hfr & ->)]].
  - destruct (record_failure_shape c) as (_ & _ & _ & R4). unfold rt_send, rt_return in Hr.
    destruct (negb _); [|destruct wrote]; injection Hr as <- <- <-; simpl; auto; apply R4; auto.
  - unfold rt_wait, rt_return in Hr. destruct o.
    + destruct (uc_pending c !! cl_id cl) as [[]|]; [|done..]. by injection Hr as <- <-.
    + by injection Hr as <- <-.
    + destruct (uc_closed c); [|done]. by injection Hr as <- <-.
  - destruct (record_failure_shape c) as (_ & _ & _ & R4). unfold keepalive_tick.
    destruct wrote; simpl; [destruct (_ >=? _); done|apply R4; auto].
Qed.

(** The failure detector is exact and final: from a healthy connection,
    failed round trips mark it failed at the fifth in a row and not before, and
    unanswered keepalive ticks at the third and not before; after that no event
    clears the mark. *)
Theorem failure_detection (c : UDPRelayConn) (ids : Z -> Z)
    (Hfresh : uc_failCount c = 0 /\ uc_missedPongs c = 0 /\ uc_failed c = false) :
  (forall k : nat, uc_failed (Nat.iter k recordFailure c) = (5 <=? Z.of_nat k)) /\
  (forall k : nat, let tick := fun c => (keepalive_tick c (ids (uc_missedPongs c)) true).1 in
     uc_failed (Nat.iter k tick c) = (3 <=? Z.of_nat k)) /\
  (forall s acts s', relay_step s acts s' -> uc_failed (sys_conn s) = true -> uc_failed (sys_conn s') = true).
Proof.
  destruct Hfresh as (F1 & F2 & F3). split; [|split; [|apply step_failed_stays]].
  - assert (forall k, uc_failCount (Nat.iter k recordFailure c) = Z.of_nat k) as Hn.
    { induction k as [|k IH]; [simpl; by rewrite F1|]. rewrite Nat.iter_succ.
      destruct (record_failure_shape (Nat.iter k recordFailure c)) as (_ & _ & -> & _). lia. }
    induction k as [|k IH]; [simpl; by rewrite F3|]. rewrite Nat.iter_succ.
    destruct (record_failure_shape (Nat.iter k recordFailure c)) as (_ & _ & _ & R).
    rewrite IH, (Hn k), Z.leb_le in R. unfold udpRelayFailThresh in R.
    destruct (uc_failed (recordFailure _)).
    + symmetry. apply Z.leb_le. destruct R as [R _]. specialize (R eq_refl). lia.
    + symmetry. apply Z.leb_gt. apply Z.nle_gt. intros Hk. destruct R as [_ R]. discriminate R. lia.
  - intros k tick.
    assert (forall k, uc_missedPongs (Nat.iter k tick c) = Z.of_nat k) as Hn.
    { clear k. intros k. induction k as [|j IH]; [exact F2|]. rewrite Nat.iter_succ. unfold tick at 1, keepalive_tick.
      simpl negb. cbv iota. rewrite IH. destruct (_ >=? _); simpl; lia. }
    induction k as [|k IH]; [simpl; by rewrite F3|]. rewrite Nat.iter_succ.
    unfold tick at 1, keepalive_tick. simpl negb. cbv iota. rewrite (Hn k), Z.geb_leb.
    unfold udpRelayKeepaliveMiss. replace (Z.of_nat (S k)) with (Z.of_nat k + 1) by lia.
    destruct (3 <=? Z.of_nat k + 1) eqn:E; simpl; [done|]. rewrite IH. bool_to_prop. apply Z.leb_gt. lia.
Qed.

Lemma failure_detection_witness :
  uc_failed (Nat.iter 5 recordFailure (NewUDPRelayConn [])) = true /\
  uc_failed (Nat.iter 4 recordFailure (NewUDPRelayConn [])) = false.
Proof.
  destruct (failure_detection (NewUDPRelayConn []) (fun z => z)) as (H & _); [done|].
  split; [apply (H 5%nat)|apply (H 4%nat)].
Defined.

(** ** Termination of RoundTrip *)

(** Own steps a call can still make. *)
Definition call_rank (cl : call) : Z :=
  match cl_state cl with
  | Sending a => 2 * (udpRelayRetries - a) + 1
  | Waiting a => 2 * (udpRelayRetries - a)
  | Returned _ => 0
  end.

(** [RoundTrip] always returns: a started call has at most seven own steps
    left, every step of it consumes one or more, a call that has not returned
    always has a step it can make, and the three waits add up to 4.9 seconds. *)
Theorem roundtrip_terminates (c : UDPRelayConn) (cl : call) (Hok : call_ok cl) (Hlive : live cl) :
  0 < call_rank cl <= 7 /\
  (forall attempt wrote c' cl' acts, cl_state cl = Sending attempt ->
     rt_send c cl attempt wrote = (c', cl', acts) -> call_rank cl' < call_rank cl) /\
  (forall attempt o c' cl', cl_state cl = Waiting attempt ->
     rt_wait c cl attempt o = Some (c', cl') -> call_rank cl' < call_rank cl) /\
  (forall attempt, cl_state cl = Waiting attempt -> is_Some (rt_wait c cl attempt OTimeout)) /\
  rt_timeout 0 + rt_timeout 1 + rt_timeout 2 = 4900000000.
Proof.
  unfold call_rank, live, call_ok, udpRelayRetries in *.
  split; [destruct (cl_state cl); [lia..|done]|]. split; [|split; [|split; [|reflexivity]]].
  - intros attempt wrote c' cl' acts Hst. rewrite Hst in *. unfold rt_send, rt_return, udpRelayRetries.
    destruct (negb _) eqn:E; bool_to_prop; [|destruct wrote]; intros [= <- <- <-]; simpl; lia.
  - intros attempt o c' cl' Hst. rewrite Hst in *. unfold rt_wait, rt_return. destruct o.
    + destruct (_ !! _) as [[]|]; [|done..]. intros [= <- <-]. simpl. lia.
    + intros [= <- <-]. simpl. lia.
    + destruct (uc_closed c); [|done]. intros [= <- <-]. simpl. lia.
  - intros attempt Hst. simpl. eauto.
Qed.

Lemma roundtrip_terminates_witness :
  call_rank (rt_start (NewUDPRelayConn []) 7 [] [] []).2 <= 7.
Proof.
  apply (roundtrip_terminates (NewUDPRelayConn []) (rt_start (NewUDPRelayConn []) 7 [] [] []).2); by vm_compute.
Defined.
