(* ===== verification/UdpAssoc.v ===== *)
(** * UdpAssoc: SOCKS5 UDP ASSOCIATE sessions (udp_assoc.go)

    The RFC 1928 datagram header, the plaintext of relayed datagrams, and the
    session: which way each datagram goes, the fallback from direct sending to
    the tunnel, and the per-destination circuit breaker.  An IP address is its
    byte list (4 or 16 bytes, or empty for nil). *)
From S2P Require Import Prelude Encoding Env.

Definition atypIPv4 : byte := x01.
Definition atypDomain : byte := x03.
Definition atypIPv6 : byte := x04.

Definition socks5UDPFallbackSent : Z := 3.
Definition tunnelCBThreshold : Z := 5.
Definition tunnelCBCooldown : Z := 5000000000.           (* 5s *)
Definition tunnelWorkerQDepth : Z := 64.

(** [net.IP.To4] and [net.IP.To16]. *)
Definition To4 (ip : bytes) : option bytes :=
  if zlen ip =? 4 then Some ip
  else if (zlen ip =? 16) && bool_decide (take 12 ip = v4_in_v6_prefix) then Some (drop 12 ip)
  else None.

Definition To16 (ip : bytes) : bytes :=
  if zlen ip =? 4 then v4_in_v6_prefix ++ ip
  else if zlen ip =? 16 then ip else [].

Record Addr := mkAddr { a_IP : bytes; a_Port : Z }.
#[global] Instance Addr_eq : EqDecision Addr. Proof. solve_decision. Defined.
#[global] Instance Addr_countable : Countable Addr.
Proof. apply (inj_countable' (fun a => (a_IP a, a_Port a)) (fun p => mkAddr p.1 p.2)). by intros []. Defined.

(** The form of an address that its text determines: an IPv4 address and its
    mapped IPv6 form print alike. *)
Definition canonical_ip (ip : bytes) : bytes := match To4 ip with Some v4 => v4 | None => ip end.
Definition addr_key (a : Addr) : Addr := mkAddr (canonical_ip (a_IP a)) (a_Port a).

(** ** RFC 1928 header *)

Section header.
(** [net.LookupHost] followed by [net.ParseIP] of its first answer; [None] when
    the lookup fails. *)
Context (lookup_host : bytes -> option bytes).

Definition parse_addr_part (atyp : byte) (pkt : bytes) : res (bytes * Z) :=
  let o := 4 in
  if byte_eqb atyp atypIPv4 then
    if o + 4 >? zlen pkt then Err "truncated IPv4" else
    ip ← slice pkt o (o + 4); Ok (ip, o + 4)
  else if byte_eqb atyp atypIPv6 then
    if o + 16 >? zlen pkt then Err "truncated IPv6" else
    ip ← slice pkt o (o + 16); Ok (ip, o + 16)
  else if byte_eqb atyp atypDomain then
    if o + 1 >? zlen pkt then Err "truncated domain length" else
    d ← index pkt o;
    let dlen := b2z d in
    let o := o + 1 in
    if o + dlen >? zlen pkt then Err "truncated domain" else
    host ← slice pkt o (o + dlen);
    match lookup_host host with
    | None => Err "resolve"
    | Some ip => Ok (ip, o + dlen)
    end
  else Err "unknown atyp".

Definition parseSOCKS5UDPHeader (pkt : bytes) : res (Addr * bytes * byte) :=
  if zlen pkt <? 4 then Err "udp header too short" else
  frag ← index pkt 2;
  atyp ← index pkt 3;
  r ← parse_addr_part atyp pkt;
  let '(ip, o) := r in
  if o + 2 >? zlen pkt then Err "truncated port" else
  port ← be_at 2 pkt o;
  payload ← slice_from pkt (o + 2);
  Ok (mkAddr ip port, payload, frag).
End header.

Definition buildSOCKS5UDPHeader (src : Addr) (payload : bytes) : bytes :=
  match To4 (a_IP src) with
  | Some ip4 => [x00; x00; x00; atypIPv4] ++ ip4 ++ put_u16 (a_Port src) ++ payload
  | None => [x00; x00; x00; atypIPv6] ++ copy (make_bytes 16) (To16 (a_IP src)) ++ put_u16 (a_Port src) ++ payload
  end.

Definition buildUDPRelayPlain (connIDHex : bytes) (dst : Addr) (body : bytes) : res bytes :=
  match Hex.decode connIDHex with
  | None => Err "invalid connID"
  | Some raw =>
    if negb (zlen raw =? 16) then Err "invalid connID" else
    let '(family, ipBytes) := match To4 (a_IP dst) with
                              | Some ip4 => (x04, ip4)
                              | None => (x06, To16 (a_IP dst)) end in
    Ok (raw ++ [family] ++ ipBytes ++ put_u16 (a_Port dst) ++ put_u32 (zlen body) ++ body)
  end.

Definition hostOnly (addr : bytes) : bytes :=
  match split_host_port addr with Some (h, _) => h | None => addr end.

(** ** Sessions *)

Record dstStats := mkStats {
  st_sentCount : Z;
  st_recvCount : Z;
  st_firstSentAt : Z;
  st_useTunnel : bool;
  st_tunnelErrStreak : Z;
  st_tunnelBlockedUntil : Z
}.

Definition newStats : dstStats := mkStats 0 0 0 false 0 0.

Record assoc := mkAssoc {
  as_tunnelOnly : bool;
  as_altDNSRouting : bool;
  as_blockQUIC : bool;
  as_client : option Addr;
  as_stats : gmap Addr dstStats;
  as_workers : gmap Addr (list bytes);     (* the send queue of each worker *)
  as_drains : gset Addr
}.

Definition newAssoc (tunnelOnly altDNS blockQUIC : bool) : assoc :=
  mkAssoc tunnelOnly altDNS blockQUIC None ∅ ∅ ∅.

Definition with_client (s : assoc) (c : option Addr) : assoc :=
  mkAssoc (as_tunnelOnly s) (as_altDNSRouting s) (as_blockQUIC s) c (as_stats s) (as_workers s) (as_drains s).
Definition with_stats (s : assoc) (k : Addr) (st : dstStats) : assoc :=
  mkAssoc (as_tunnelOnly s) (as_altDNSRouting s) (as_blockQUIC s) (as_client s)
    (<[k := st]> (as_stats s)) (as_workers s) (as_drains s).
Definition with_queue (s : assoc) (k : Addr) (q : list bytes) : assoc :=
  mkAssoc (as_tunnelOnly s) (as_altDNSRouting s) (as_blockQUIC s) (as_client s)
    (as_stats s) (<[k := q]> (as_workers s)) (as_drains s).
Definition with_drain (s : assoc) (k : Addr) : assoc :=
  mkAssoc (as_tunnelOnly s) (as_altDNSRouting s) (as_blockQUIC s) (as_client s)
    (as_stats s) (as_workers s) ({[k]} ∪ as_drains s).

Inductive assoc_act :=
| ADirect (payload : bytes) (dst : Addr)          (* out of the physical interface *)
| AToClient (datagram : bytes) (client : Addr)
| AFallbackTimer (key : Addr)
| ALearnDNS (data : bytes)
| AStartDrain (dst : Addr)
| ABlocked (dst : Addr).                          (* the send queue is full *)

Section session.
(** [isLANAddress(dst) || bypass.ShouldBypass(dst)], and the name lookup. *)
Context (is_bypass : Addr -> bool) (lookup_host : bytes -> option bytes).

Definition goSendViaTunnel (now : Z) (s : assoc) (dst : Addr) (payload : bytes) : assoc * list assoc_act :=
  let key := addr_key dst in
  let blocked := match as_stats s !! key with
                 | Some st => now <? st_tunnelBlockedUntil st | None => false end in
  if blocked then (s, []) else
  let q := match as_workers s !! key with Some q => q | None => [] end in
  if zlen q <? tunnelWorkerQDepth then (with_queue s key (q ++ [payload]), [])
  else (s, [ABlocked dst]).

Definition forwardOutbound (now : Z) (s : assoc) (dst : Addr) (payload : bytes) : assoc * list assoc_act :=
  match To4 (a_IP dst) with
  | None => (s, [])
  | Some _ =>
    if a_Port dst =? 53 then
      if as_altDNSRouting s && negb (as_tunnelOnly s) then (s, [ADirect payload dst])
      else goSendViaTunnel now s dst payload
    else
      let key := addr_key dst in
      let st := match as_stats s !! key with Some st => st | None => newStats end in
      let useTunnel := st_useTunnel st in
      let st := if negb useTunnel then
          mkStats (st_sentCount st + 1) (st_recvCount st)
            (if st_sentCount st =? 0 then now else st_firstSentAt st)
            (st_useTunnel st) (st_tunnelErrStreak st) (st_tunnelBlockedUntil st)
        else st in
      let cnt := st_sentCount st in
      let s := with_stats s key st in
      if useTunnel || as_tunnelOnly s || negb (is_bypass key) then goSendViaTunnel now s dst payload
      else (s, [ADirect payload dst] ++ (if cnt =? socks5UDPFallbackSent then [AFallbackTimer key] else []))
  end.

(** The goroutine of a fallback timer, after its sleep. *)
Definition checkFallback (s : assoc) (key : Addr) : assoc :=
  match as_stats s !! key with
  | None => s
  | Some st =>
    if st_useTunnel st || (st_recvCount st >? 0) then s
    else with_stats s key (mkStats (st_sentCount st) (st_recvCount st) (st_firstSentAt st) true
           (st_tunnelErrStreak st) (st_tunnelBlockedUntil st))
  end.

Definition recordRecv (s : assoc) (src : Addr) : assoc :=
  let key := addr_key src in
  match as_stats s !! key with
  | None => s
  | Some st => with_stats s key (mkStats (st_sentCount st) (st_recvCount st + 1) (st_firstSentAt st)
      (st_useTunnel st) (st_tunnelErrStreak st) (st_tunnelBlockedUntil st))
  end.

(** One datagram through [relayLoop]. *)
Definition relay_datagram (now : Z) (s : assoc) (src : Addr) (data : bytes) : assoc * list assoc_act :=
  match parseSOCKS5UDPHeader lookup_host data with
  | Ok (dst, payload, x00) =>
    if as_blockQUIC s && (a_Port dst =? 443) then (s, [])
    else forwardOutbound now (with_client s (Some src)) dst payload
  | _ =>
    let s := recordRecv s src in
    let dns := if a_Port src =? 53 then [ALearnDNS data] else [] in
    match as_client s with
    | None => (s, dns)
    | Some c => (s, dns ++ [AToClient (buildSOCKS5UDPHeader src data) c])
    end
  end.

Definition deliverFrames (s : assoc) (src : Addr) (frames : list bytes) : list assoc_act :=
  match as_client s with
  | None => []
  | Some c => mjoin ((fun f => (if a_Port src =? 53 then [ALearnDNS f] else []) ++
                               [AToClient (buildSOCKS5UDPHeader src f) c]) <$> frames)
  end.

(** [posted] is what [PostUDPFrame] returned ([None]: no dialer, or an error). *)
Definition sendViaTunnel (s : assoc) (dst : Addr) (posted : option (list bytes)) : bool * assoc * list assoc_act :=
  match posted with
  | None => (false, s, [])
  | Some frames =>
    let deliver := deliverFrames s dst frames in
    if decide (addr_key dst ∈ as_drains s) then (true, s, deliver)
    else (true, with_drain s (addr_key dst), deliver ++ [AStartDrain dst])
  end.

(** One payload through the worker of [dst]: send it, then account for it. *)
Definition runTunnelWorker (now : Z) (s : assoc) (dst : Addr) (posted : option (list bytes))
    : assoc * list assoc_act :=
  let key := addr_key dst in
  match as_workers s !! key with
  | Some (payload :: q) =>
    let '(ok, s, acts) := sendViaTunnel (with_queue s key q) dst posted in
    match as_stats s !! key with
    | None => (s, acts)
    | Some st =>
      if ok then (with_stats s key (mkStats (st_sentCount st) (st_recvCount st) (st_firstSentAt st)
                    (st_useTunnel st) 0 (st_tunnelBlockedUntil st)), acts)
      else
        let n := st_tunnelErrStreak st + 1 in
        if n >=? tunnelCBThreshold
        then (with_stats s key (mkStats (st_sentCount st) (st_recvCount st) (st_firstSentAt st)
                (st_useTunnel st) 0 (now + tunnelCBCooldown)), acts)
        else (with_stats s key (mkStats (st_sentCount st) (st_recvCount st) (st_firstSentAt st)
                (st_useTunnel st) n (st_tunnelBlockedUntil st)), acts)
    end
  | _ => (s, [])
  end.

Inductive assoc_event :=
| EvDatagram (now : Z) (src : Addr) (data : bytes)
| EvFallback (key : Addr)
| EvWorker (now : Z) (dst : Addr) (posted : option (list bytes))
| EvDrained (dst : Addr) (frames : list bytes).             (* what one poll of [drainLoop] brought *)

Definition assoc_step (s : assoc) (ev : assoc_event) : assoc * list assoc_act :=
  match ev with
  | EvDatagram now src data => relay_datagram now s src data
  | EvFallback key => (checkFallback s key, [])
  | EvWorker now dst posted => runTunnelWorker now s dst posted
  | EvDrained dst frames => (s, deliverFrames s dst frames)
  end.

Definition assoc_run (s : assoc) (evs : list assoc_event) : assoc :=
  fold_left (fun s ev => (assoc_step s ev).1) evs s.
End session.

(** ** Header lemmas *)

Definition ip_ok (ip : bytes) : Prop := zlen ip = 4 \/ zlen ip = 16.

Lemma to4_length ip v4 : To4 ip = Some v4 -> zlen v4 = 4.
Proof.
  unfold To4. destruct (zlen ip =? 4) eqn:E; [intros [= <-]; bool_to_prop; done|].
  destruct (_ && _) eqn:F; [|done]. intros [= <-]. bool_to_prop.
  unfold zlen in *. rewrite length_drop. lia.
Qed.

Lemma to4_none_length ip : ip_ok ip -> To4 ip = None -> zlen ip = 16 /\ copy (make_bytes 16) (To16 ip) = ip.
Proof.
  unfold To4, To16. intros [H|H]; rewrite H; [done|]. intros _. split; [done|].
  change (16 =? 4) with false. change (16 =? 16) with true. cbv iota.
  apply copy_exact. unfold make_bytes, zlen in *. rewrite length_replicate. lia.
Qed.

Lemma parse_head lh (f t : byte) (ip : bytes) port payload pre :
  pre = [x00; x00; f; t] -> 0 <= port < 2 ^ 16 ->
  parse_addr_part lh t (pre ++ ip ++ put_u16 port ++ payload) = Ok (ip, 4 + zlen ip) ->
  parseSOCKS5UDPHeader lh (pre ++ ip ++ put_u16 port ++ payload) = Ok (mkAddr ip port, payload, f).
Proof.
  intros Hpre Hport Hpart. set (pkt := pre ++ ip ++ put_u16 port ++ payload) in *.
  pose proof (zlen_nonneg payload). pose proof (zlen_nonneg ip).
  assert (zlen pre = 4) as Hl by (rewrite Hpre; done).
  assert (zlen pkt = 6 + zlen ip + zlen payload) as Hp by (unfold pkt; wire_lia).
  unfold parseSOCKS5UDPHeader. rewrite (proj2 (Z.ltb_ge _ _)) by lia.
  assert (index pkt 2 = Ok f) as -> by (unfold pkt; by rewrite Hpre).
  assert (index pkt 3 = Ok t) as -> by (unfold pkt; by rewrite Hpre).
  cbn [mbind res_bind]. rewrite Hpart. cbn [mbind res_bind].
  rewrite Z.gtb_ltb, (proj2 (Z.ltb_ge _ _)) by lia.
  rewrite (be_at_at 2 pkt (pre ++ ip) (put_u16 port) payload) by (try wire_lia; unfold pkt; wire_split).
  cbn [mbind res_bind].
  rewrite (slice_from_at pkt (pre ++ ip ++ put_u16 port) payload) by (try wire_lia; unfold pkt; wire_split).
  cbn [mbind res_bind]. by rewrite be_get_u16.
Qed.

Lemma parse_part_v4 lh f ip rest :
  zlen ip = 4 -> parse_addr_part lh atypIPv4 ([x00; x00; f; atypIPv4] ++ ip ++ rest) = Ok (ip, 4 + zlen ip).
Proof.
  intros Hip. unfold parse_addr_part. change (byte_eqb atypIPv4 atypIPv4) with true. cbv iota zeta.
  pose proof (zlen_nonneg rest). rewrite Z.gtb_ltb, (proj2 (Z.ltb_ge _ _)) by wire_lia.
  rewrite (slice_app [x00; x00; f; atypIPv4] ip rest) by (try done; rewrite Hip; done). cbn. by rewrite Hip.
Qed.

Lemma parse_part_v6 lh f ip rest :
  zlen ip = 16 -> parse_addr_part lh atypIPv6 ([x00; x00; f; atypIPv6] ++ ip ++ rest) = Ok (ip, 4 + zlen ip).
Proof.
  intros Hip. unfold parse_addr_part.
  change (byte_eqb atypIPv6 atypIPv4) with false. change (byte_eqb atypIPv6 atypIPv6) with true. cbv iota zeta.
  pose proof (zlen_nonneg rest). rewrite Z.gtb_ltb, (proj2 (Z.ltb_ge _ _)) by wire_lia.
  rewrite (slice_app [x00; x00; f; atypIPv6] ip rest) by (try done; rewrite Hip; done). cbn. by rewrite Hip.
Qed.

Lemma parse_part_total lh t pkt : parse_addr_part lh t pkt <> Panic /\
  forall ip o, 4 <= zlen pkt -> parse_addr_part lh t pkt = Ok (ip, o) -> 4 <= o <= zlen pkt.
Proof.
  unfold parse_addr_part. cbv zeta.
  destruct (byte_eqb t atypIPv4).
  { rewrite Z.gtb_ltb. destruct (_ <? _) eqn:E; [done|]. bool_to_prop.
    rewrite slice_ok by lia. cbn. split; [done|]. intros ip o _ [= <- <-]. lia. }
  destruct (byte_eqb t atypIPv6).
  { rewrite Z.gtb_ltb. destruct (_ <? _) eqn:E; [done|]. bool_to_prop.
    rewrite slice_ok by lia. cbn. split; [done|]. intros ip o _ [= <- <-]. lia. }
  destruct (byte_eqb t atypDomain); [|done].
  rewrite Z.gtb_ltb. destruct (_ <? _) eqn:E; [done|]. bool_to_prop.
  destruct (index_ok pkt 4) as (d & -> & _); [lia|]. cbn [mbind res_bind].
  rewrite Z.gtb_ltb. destruct (_ <? _) eqn:F; [done|]. bool_to_prop.
  pose proof (b2z_range d). rewrite slice_ok by lia. cbn [mbind res_bind].
  destruct (lh _); [|done]. split; [done|]. intros ip o _ [= <- <-]. lia.
Qed.

(** The datagram header parses back to the address and payload it was built
    from (an IPv4-mapped address comes back in its 4-byte form), unfragmented;
    and no datagram makes the parser panic. *)
Theorem socks5_udp_header_roundtrip (lookup_host : bytes -> option bytes) (src : Addr) (payload : bytes)
    (Hip : ip_ok (a_IP src)) (Hport : 0 <= a_Port src < 2 ^ 16) :
  parseSOCKS5UDPHeader lookup_host (buildSOCKS5UDPHeader src payload) = Ok (addr_key src, payload, x00) /\
  forall pkt, no_panic (parseSOCKS5UDPHeader lookup_host pkt).
Proof.
  split.
  - unfold buildSOCKS5UDPHeader, addr_key, canonical_ip. destruct (To4 (a_IP src)) as [v4|] eqn:E.
    + apply (parse_head _ x00 atypIPv4); [done|done|]. apply parse_part_v4. by eapply to4_length.
    + destruct (to4_none_length _ Hip E) as [Hl ->].
      apply (parse_head _ x00 atypIPv6); [done|done|]. by apply parse_part_v6.
  - intros pkt. unfold no_panic, parseSOCKS5UDPHeader. destruct (_ <? _) eqn:E; [done|]. bool_to_prop.
    destruct (index_ok pkt 2) as (f & -> & _); [lia|]. cbn [mbind res_bind].
    destruct (index_ok pkt 3) as (t & -> & _); [lia|]. cbn [mbind res_bind].
    destruct (parse_part_total lookup_host t pkt) as [Ht Hb].
    destruct (parse_addr_part lookup_host t pkt) as [[ip o]| |]; [|done..]. cbn [mbind res_bind].
    destruct (Hb ip o E eq_refl). rewrite Z.gtb_ltb. destruct (_ <? _) eqn:F; [done|]. bool_to_prop.
    destruct (be_at_ok 2 pkt o) as (p & -> & _); [lia..|]. cbn [mbind res_bind].
    unfold slice_from. fold (zlen pkt). by rewrite slice_ok by lia.
Qed.

Lemma socks5_udp_header_roundtrip_witness :
  parseSOCKS5UDPHeader (fun _ => None) (buildSOCKS5UDPHeader (mkAddr [x08; x08; x08; x08] 53) (str "q")) =
  Ok (mkAddr [x08; x08; x08; x08] 53, str "q", x00).
Proof.
  apply (socks5_udp_header_roundtrip (fun _ => None) (mkAddr [x08; x08; x08; x08] 53) (str "q")); [by left|simpl; lia].
Defined.

(** ** Session properties *)

Section session_lemmas.
Context (is_bypass : Addr -> bool).
Implicit Types (s : assoc) (dst : Addr).

Lemma go_send_no_direct now s dst p payload d : ADirect payload d ∉ (goSendViaTunnel now s dst p).2.
Proof.
  unfold goSendViaTunnel. repeat (case_goal; simpl; try set_solver).
Qed.

Lemma forward_direct now s dst payload p d :
  ADirect p d ∈ (forwardOutbound is_bypass now s dst payload).2 ->
  p = payload /\ d = dst /\ as_tunnelOnly s = false /\ is_Some (To4 (a_IP dst)) /\
  ((a_Port dst = 53 /\ as_altDNSRouting s = true) \/
   (a_Port dst <> 53 /\ is_bypass (addr_key dst) = true /\
    forall st, as_stats s !! addr_key dst = Some st -> st_useTunnel st = false)).
Proof.
  intros Hact. unfold forwardOutbound in Hact. destruct (To4 (a_IP dst)) as [v4|]; [|set_solver].
  destruct (a_Port dst =? 53) eqn:E53; bool_to_prop.
  - destruct (_ && _) eqn:Ea; [|by apply go_send_no_direct in Hact]. bool_to_prop.
    apply list_elem_of_singleton in Hact. injection Hact as -> ->. eauto 8.
  - cbv zeta in Hact. set (st := match as_stats s !! addr_key dst with Some st => st | None => newStats end) in Hact.
    destruct (_ || _ || _) eqn:Eo; [by apply go_send_no_direct in Hact|]. bool_to_prop. simpl in *.
    assert (ADirect p d = ADirect payload dst) as Heq by (destruct (_ =? socks5UDPFallbackSent); set_solver).
    injection Heq as -> ->. split; [done|]. split; [done|]. split; [done|]. split; [eauto|]. right.
    split; [done|]. split; [done|]. intros st' Hst'. unfold st in *. by rewrite Hst' in *.
Qed.

(** Neither function answers the client, and neither changes the settings or the client. *)
Definition same_side s s' : Prop :=
  as_tunnelOnly s' = as_tunnelOnly s /\ as_altDNSRouting s' = as_altDNSRouting s /\ as_blockQUIC s' = as_blockQUIC s /\ as_client s' = as_client s.

Lemma go_send_side now s dst p :
  same_side s (goSendViaTunnel now s dst p).1 /\ forall dg c, AToClient dg c ∉ (goSendViaTunnel now s dst p).2.
Proof. unfold goSendViaTunnel. repeat (case_goal; simpl); split; try done; set_solver. Qed.

Lemma forward_side now s dst p :
  same_side s (forwardOutbound is_bypass now s dst p).1 /\ forall dg c, AToClient dg c ∉ (forwardOutbound is_bypass now s dst p).2.
Proof.
  unfold forwardOutbound. destruct (To4 _); [|split; [done|set_solver]].
  destruct (_ =? 53); [destruct (_ && _); [split; [done|set_solver]|apply go_send_side]|]. cbv zeta.
  destruct (_ || _ || _); [|split; [done|destruct (_ =? socks5UDPFallbackSent); set_solver]].
  match goal with |- context [goSendViaTunnel _ ?s1 _ _] => destruct (go_send_side now s1 dst p) as [(A & B & C & D) E] end.
  split; [|exact E]. by split_and!.
Qed.

Lemma deliver_frames_spec s src frames act :
  act ∈ deliverFrames s src frames ->
  (exists f, act = ALearnDNS f) \/ exists f c, f ∈ frames /\ as_client s = Some c /\ act = AToClient (buildSOCKS5UDPHeader src f) c.
Proof.
  unfold deliverFrames. destruct (as_client s) as [c|]; [|by intros ?%elem_of_nil].
  intros (l & Hl & Hin)%list_elem_of_join. apply list_elem_of_fmap in Hin as (f & -> & Hf).
  apply elem_of_app in Hl as [Hl|Hl%list_elem_of_singleton]; [|right; by exists f, c].
  left. exists f. destruct (_ =? 53); [by apply list_elem_of_singleton in Hl|by apply elem_of_nil in Hl].
Qed.

(** What every event leaves true of the counters. *)
Definition stats_ok (st : dstStats) : Prop :=
  0 <= st_sentCount st /\ 0 <= st_recvCount st /\ 0 <= st_tunnelErrStreak st < tunnelCBThreshold.

Record assoc_ok s : Prop := {
  aok_stats : forall k st, as_stats s !! k = Some st -> stats_ok st;
  aok_queues : forall k q, as_workers s !! k = Some q -> zlen q <= tunnelWorkerQDepth
}.

(** The fallback decision is never taken back. *)
Definition tunnel_kept s s' : Prop :=
  forall k st, as_stats s !! k = Some st -> st_useTunnel st = true ->
    exists st', as_stats s' !! k = Some st' /\ st_useTunnel st' = true.

Lemma tunnel_kept_refl s : tunnel_kept s s.
Proof. intros k st; eauto. Qed.

Lemma with_stats_good s k st :
  assoc_ok s -> stats_ok st ->
  (forall old, as_stats s !! k = Some old -> st_useTunnel old = true -> st_useTunnel st = true) ->
  assoc_ok (with_stats s k st) /\ tunnel_kept s (with_stats s k st).
Proof.
  intros [H1 H2] Hst Hold. split.
  - split; simpl; [|done]. intros k' st'. rewrite lookup_insert. case_decide; [by intros [= <-]|apply H1].
  - intros k' st' Hk Hu. simpl. rewrite lookup_insert. case_decide; [subst|eauto]. eauto.
Qed.

Lemma with_queue_ok s k q : assoc_ok s -> zlen q <= tunnelWorkerQDepth -> assoc_ok (with_queue s k q).
Proof.
  intros [H1 H2] Hq. split; simpl; [done|]. intros k' q'. rewrite lookup_insert.
  case_decide; [by intros [= <-]|apply H2].
Qed.

Lemma go_send_good now s dst p :
  assoc_ok s -> assoc_ok (goSendViaTunnel now s dst p).1 /\ tunnel_kept s (goSendViaTunnel now s dst p).1.
Proof.
  intros Hs. unfold goSendViaTunnel.
  destruct (match as_stats s !! addr_key dst with Some _ => _ | None => _ end);
    [split; [done|apply tunnel_kept_refl]|].
  destruct (_ <? _) eqn:E; [|split; [done|apply tunnel_kept_refl]]. bool_to_prop. simpl. split.
  - apply with_queue_ok; [done|]. rewrite zlen_app. change (zlen [p]) with 1. lia.
  - intros k st; eauto.
Qed.

Lemma forward_good now s dst p :
  assoc_ok s -> assoc_ok (forwardOutbound is_bypass now s dst p).1 /\
    tunnel_kept s (forwardOutbound is_bypass now s dst p).1.
Proof.
  intros Hs. unfold forwardOutbound.
  destruct (To4 _); [|split; [done|apply tunnel_kept_refl]].
  destruct (_ =? 53). { destruct (_ && _); [split; [done|apply tunnel_kept_refl]|by apply go_send_good]. }
  cbv zeta. set (st := match as_stats s !! addr_key dst with Some st => st | None => newStats end).
  assert (stats_ok st /\ forall old, as_stats s !! addr_key dst = Some old -> old = st) as [Hst Hold].
  { unfold st. destruct (as_stats s !! addr_key dst) as [x|] eqn:E.
    - split; [by apply (aok_stats s Hs (addr_key dst))|congruence].
    - split; [|done]. unfold stats_ok, newStats, tunnelCBThreshold. simpl. lia. }
  set (st' := if negb (st_useTunnel st) then _ else _).
  assert (assoc_ok (with_stats s (addr_key dst) st') /\ tunnel_kept s (with_stats s (addr_key dst) st')) as [A B].
  { apply with_stats_good; [done| |].
    - unfold st'. destruct (negb _); [|done]. destruct Hst as (? & ? & ?). unfold stats_ok. simpl. lia.
    - intros old Ho%Hold Hu. subst old. unfold st'. by rewrite Hu. }
  destruct (_ || _ || _).
  - destruct (go_send_good now _ dst p A) as [C D]. split; [done|].
    intros k x Hk Hx. destruct (B k x Hk Hx) as (y & Hy & Hyu). eauto.
  - simpl. done.
Qed.

Context (lookup_host : bytes -> option bytes).

Lemma assoc_step_good s ev : assoc_ok s ->
  assoc_ok (assoc_step is_bypass lookup_host s ev).1 /\ tunnel_kept s (assoc_step is_bypass lookup_host s ev).1.
Proof.
  intros Hs. destruct ev as [now src data|key|now dst posted|dst frames]; simpl; [| | |split; [done|apply tunnel_kept_refl]].
  - assert (assoc_ok (recordRecv s src) /\ tunnel_kept s (recordRecv s src)) as Hin.
    { unfold recordRecv. destruct (as_stats s !! addr_key src) as [st|] eqn:E; [|split; [done|apply tunnel_kept_refl]].
      apply with_stats_good; [done| |intros old Ho; rewrite E in Ho; by injection Ho as <-].
      destruct (aok_stats s Hs _ _ E) as (? & ? & ?). unfold stats_ok. simpl. lia. }
    assert (forall d p, assoc_ok (forwardOutbound is_bypass now (with_client s (Some src)) d p).1 /\
      tunnel_kept s (forwardOutbound is_bypass now (with_client s (Some src)) d p).1) as Hout.
    { intros d p. apply (forward_good now (with_client s (Some src)) d p). destruct Hs; by split. }
    unfold relay_datagram. destruct (parseSOCKS5UDPHeader lookup_host data) as [[[d p] f]| |].
    + destruct f; try (by destruct (as_client (recordRecv s src))).
      destruct (_ && _); [split; [done|apply tunnel_kept_refl]|apply Hout].
    + by destruct (as_client (recordRecv s src)).
    + by destruct (as_client (recordRecv s src)).
  - unfold checkFallback. destruct (as_stats s !! key) as [st|] eqn:E; [|split; [done|apply tunnel_kept_refl]].
    destruct (_ || _); [split; [done|apply tunnel_kept_refl]|].
    apply with_stats_good; [done| |done]. by destruct (aok_stats s Hs _ _ E).
  - unfold runTunnelWorker. destruct (as_workers s !! addr_key dst) as [[|x q]|] eqn:Eq;
      [split; [done|apply tunnel_kept_refl]| |split; [done|apply tunnel_kept_refl]].
    set (s1 := with_queue s (addr_key dst) q).
    assert (assoc_ok s1) as H1.
    { apply with_queue_ok; [done|]. pose proof (aok_queues s Hs _ _ Eq) as Hq. rewrite zlen_cons in Hq. lia. }
    assert (forall ok s2 acts, sendViaTunnel s1 dst posted = (ok, s2, acts) ->
      assoc_ok s2 /\ as_stats s2 = as_stats s) as Hsend.
    { intros ok s2 acts. unfold sendViaTunnel. destruct posted; [|by intros [= <- <- <-]].
      destruct (decide _); intros [= <- <- <-]; [done|]. destruct H1. by split. }
    destruct (sendViaTunnel s1 dst posted) as [[ok s2] acts] eqn:Es.
    destruct (Hsend _ _ _ eq_refl) as [H2 E2]. rewrite E2.
    assert (tunnel_kept s s2) as Hk by (intros k st; rewrite E2; eauto).
    destruct (as_stats s !! addr_key dst) as [st|] eqn:E; [|done].
    pose proof (aok_stats s Hs _ _ E) as (S1 & S2 & S3).
    assert (forall n u, 0 <= n < tunnelCBThreshold -> let st' := mkStats (st_sentCount st) (st_recvCount st)
      (st_firstSentAt st) (st_useTunnel st) n u in
      assoc_ok (with_stats s2 (addr_key dst) st') /\ tunnel_kept s (with_stats s2 (addr_key dst) st')) as Hset.
    { intros n u Hn st'. destruct (with_stats_good s2 (addr_key dst) st' H2) as [A B].
      - by unfold stats_ok.
      - intros old. rewrite E2, E. by intros [= <-].
      - split; [done|]. intros k y Hy Hyu. apply B with y; [by rewrite E2|done]. }
    destruct ok; [apply Hset; unfold tunnelCBThreshold; lia|]. rewrite Z.geb_leb.
    destruct (_ <=? _) eqn:F; simpl; apply Hset; bool_to_prop; unfold tunnelCBThreshold in *; lia.
Qed.

(** A datagram that asks for something to be sent: it has an unfragmented SOCKS5 header and
    is not to port 443 where QUIC is blocked. *)
Definition asks (blockQUIC : bool) (data : bytes) (dst : Addr) (payload : bytes) : Prop :=
  parseSOCKS5UDPHeader lookup_host data = Ok (dst, payload, x00) /\ ~ (blockQUIC = true /\ a_Port dst = 443).

Definition asking (blockQUIC : bool) (data : bytes) : bool :=
  match parseSOCKS5UDPHeader lookup_host data with
  | Ok (dst, _, x00) => negb (blockQUIC && (a_Port dst =? 443))
  | _ => false
  end.

Lemma asking_asks b data : asking b data = true <-> exists dst payload, asks b data dst payload.
Proof.
  unfold asking, asks. destruct (parseSOCKS5UDPHeader lookup_host data) as [[[dst payload] []]| |];
    try (split; [done|by intros (? & ? & ? & _)]).
  split; [intros Hb; exists dst, payload; split; [done|]|intros (? & ? & [= <- <-] & Hn)].
  - intros [-> Hp]. simpl in Hb. bool_to_prop. done.
  - apply negb_true_iff, andb_false_iff. destruct b; [right; apply Z.eqb_neq; tauto|by left].
Qed.

(** Who sent the last such datagram. *)
Definition last_asker (blockQUIC : bool) (evs : list assoc_event) : option Addr :=
  fold_left (fun c ev => match ev with EvDatagram _ src data => if asking blockQUIC data then Some src else c | _ => c end) evs None.

(** The two kinds of datagram. *)
Lemma relay_datagram_cases now s src data :
  (exists dst payload, asks (as_blockQUIC s) data dst payload /\
     relay_datagram is_bypass lookup_host now s src data = forwardOutbound is_bypass now (with_client s (Some src)) dst payload) \/
  (asking (as_blockQUIC s) data = false /\ same_side s (relay_datagram is_bypass lookup_host now s src data).1 /\
   forall act, act ∈ (relay_datagram is_bypass lookup_host now s src data).2 ->
     act = ALearnDNS data \/ exists c, as_client s = Some c /\ act = AToClient (buildSOCKS5UDPHeader src data) c /\
       forall dst payload, parseSOCKS5UDPHeader lookup_host data <> Ok (dst, payload, x00)).
Proof.
  assert (same_side s (recordRecv s src)) as Hrec by (unfold recordRecv; by destruct (as_stats s !! _)).
  assert ((forall dst payload, parseSOCKS5UDPHeader lookup_host data <> Ok (dst, payload, x00)) ->
    let s1 := recordRecv s src in
    let r := (let dns := if a_Port src =? 53 then [ALearnDNS data] else [] in
      match as_client s1 with None => (s1, dns) | Some c => (s1, dns ++ [AToClient (buildSOCKS5UDPHeader src data) c]) end) in
    same_side s r.1 /\ forall act, act ∈ r.2 -> act = ALearnDNS data \/
      exists c, as_client s = Some c /\ act = AToClient (buildSOCKS5UDPHeader src data) c /\
        forall dst payload, parseSOCKS5UDPHeader lookup_host data <> Ok (dst, payload, x00)) as Hraw.
  { intros Hno s1 r. subst r s1. pose proof Hrec as (_ & _ & _ & D). rewrite D.
    destruct (as_client s) as [c|]; (split; [exact Hrec|]); intros act; cbn [snd]; destruct (_ =? 53); set_solver. }
  unfold relay_datagram, asking, asks in *. destruct (parseSOCKS5UDPHeader lookup_host data) as [[[dst payload] f]| |].
  2,3: right; split; [done|]; by apply Hraw.
  destruct f; try (right; split; [done|]; by apply Hraw).
  destruct (as_blockQUIC s && (a_Port dst =? 443)) eqn:Eb.
  - right. split; [done|]. split; [done|]. by intros act ?%elem_of_nil.
  - left. exists dst, payload. split; [split; [done|]|done]. intros [Hq Hp]. rewrite Hq, Hp in Eb. done.
Qed.

Lemma worker_side now s dst posted :
  same_side s (runTunnelWorker now s dst posted).1 /\
  forall act, act ∈ (runTunnelWorker now s dst posted).2 ->
    (forall p d, act <> ADirect p d) /\
    forall dg c, act = AToClient dg c -> as_client s = Some c /\ exists frames f, posted = Some frames /\ f ∈ frames /\ dg = buildSOCKS5UDPHeader dst f.
Proof.
  unfold runTunnelWorker. destruct (as_workers s !! addr_key dst) as [[|x q]|]; [split; [done|by intros ? ?%elem_of_nil]| |split; [done|by intros ? ?%elem_of_nil]].
  set (s1 := with_queue s (addr_key dst) q).
  assert (forall ok s2 acts, sendViaTunnel s1 dst posted = (ok, s2, acts) -> same_side s s2 /\ forall act, act ∈ acts ->
    (forall p d, act <> ADirect p d) /\
    forall dg c, act = AToClient dg c -> as_client s = Some c /\ exists frames f, posted = Some frames /\ f ∈ frames /\ dg = buildSOCKS5UDPHeader dst f) as Hs.
  { intros ok s2 acts. unfold sendViaTunnel. destruct posted as [frames|]; [|intros [= <- <- <-]; split; [done|by intros ? ?%elem_of_nil]].
    assert (forall act, act ∈ deliverFrames s1 dst frames -> (forall p d, act <> ADirect p d) /\
      forall dg c, act = AToClient dg c -> as_client s = Some c /\ exists fs f, Some frames = Some fs /\ f ∈ fs /\ dg = buildSOCKS5UDPHeader dst f) as Hd.
    { intros act [(f & ->)|(f & c & Hf & Hc & ->)]%deliver_frames_spec; [done|]. split; [done|]. intros dg c' [= <- <-].
      split; [exact Hc|]. by exists frames, f. }
    destruct (decide _); intros [= <- <- <-]; (split; [done|]); [exact Hd|].
    intros act [Hin|Hin%list_elem_of_singleton]%elem_of_app; [by apply Hd|by subst]. }
  destruct (sendViaTunnel s1 dst posted) as [[ok s2] acts]. destruct (Hs ok s2 acts eq_refl) as [Hside Hacts].
  destruct (as_stats s2 !! addr_key dst); [|by split]. destruct ok; [|destruct (_ >=? _)]; (split; [exact Hside|exact Hacts]).
Qed.

Lemma assoc_side blockQUIC s ev c : as_blockQUIC s = blockQUIC -> as_client s = c ->
  let s' := (assoc_step is_bypass lookup_host s ev).1 in
  as_tunnelOnly s' = as_tunnelOnly s /\ as_altDNSRouting s' = as_altDNSRouting s /\ as_blockQUIC s' = blockQUIC /\
  as_client s' = match ev with EvDatagram _ src data => if asking blockQUIC data then Some src else c | _ => c end.
Proof.
  intros Hq Hc. destruct ev as [now src data|key|now dst posted|dst frames]; cbn [assoc_step].
  - destruct (relay_datagram_cases now s src data) as [(dst & payload & Ha & ->)|(Ha & (A & B & C & D) & _)].
    + destruct (forward_side now (with_client s (Some src)) dst payload) as [(A & B & C & D) _]. cbn in *.
      rewrite (proj2 (asking_asks blockQUIC data)) by (exists dst, payload; by rewrite <- Hq). rewrite C. by split_and!.
    + rewrite Hq in Ha. rewrite Ha. cbn in *. rewrite C, D. by split_and!.
  - unfold checkFallback. destruct (as_stats s !! key); [destruct (_ || _)|]; cbn; by split_and!.
  - destruct (worker_side now s dst posted) as [(A & B & C & D) _]. cbn. rewrite C, D. by split_and!.
  - by split_and!.
Qed.

(** The settings of a session never change, and its client is the last that asked. *)
Lemma assoc_run_side tunnelOnly altDNS blockQUIC evs :
  let s := assoc_run is_bypass lookup_host (newAssoc tunnelOnly altDNS blockQUIC) evs in
  as_tunnelOnly s = tunnelOnly /\ as_altDNSRouting s = altDNS /\ as_blockQUIC s = blockQUIC /\ as_client s = last_asker blockQUIC evs.
Proof.
  induction evs as [|ev evs IH] using rev_ind; [done|]. destruct IH as (A & B & C & D).
  unfold assoc_run, last_asker in *. rewrite !fold_left_app. cbn [fold_left].
  destruct (assoc_side blockQUIC (fold_left (fun s ev => (assoc_step is_bypass lookup_host s ev).1) evs (newAssoc tunnelOnly altDNS blockQUIC)) ev _ C D)
    as (A' & B' & C' & D'). cbv zeta in *. rewrite A', B', C', D', A, B. done.
Qed.

(** C33: everything a session writes to its socket, over its whole life.  A datagram written
    to a destination is the payload of one that just arrived with an unfragmented SOCKS5
    header for that destination, not to port 443 where QUIC is blocked; it goes to an IPv4
    address, never from a session that only tunnels, and either to port 53 where DNS is
    routed directly, or elsewhere to a bypassed destination that has not fallen back to the
    tunnel.  Everything else written goes to the client, that is to the sender of the last
    datagram with such a header (whoever that is), and is an answer in a SOCKS5 header: the
    raw datagram that just arrived, or a frame the tunnel brought for that destination. *)
Theorem no_direct_leak (tunnelOnly altDNS blockQUIC : bool) (evs : list assoc_event) (ev : assoc_event) (act : assoc_act) :
  let s := assoc_run is_bypass lookup_host (newAssoc tunnelOnly altDNS blockQUIC) evs in
  act ∈ (assoc_step is_bypass lookup_host s ev).2 ->
  match act with
  | ADirect p d =>
    (exists now src data, ev = EvDatagram now src data /\ asks blockQUIC data d p) /\
    tunnelOnly = false /\ is_Some (To4 (a_IP d)) /\
    ((a_Port d = 53 /\ altDNS = true) \/
     (a_Port d <> 53 /\ is_bypass (addr_key d) = true /\ forall st, as_stats s !! addr_key d = Some st -> st_useTunnel st = false))
  | AToClient dg c =>
    last_asker blockQUIC evs = Some c /\
    exists src x, dg = buildSOCKS5UDPHeader src x /\
      ((exists now, ev = EvDatagram now src x /\ forall dst payload, parseSOCKS5UDPHeader lookup_host x <> Ok (dst, payload, x00)) \/
       (exists now frames, ev = EvWorker now src (Some frames) /\ x ∈ frames) \/
       (exists frames, ev = EvDrained src frames /\ x ∈ frames))
  | _ => True
  end.
Proof.
  intros s Hin. destruct (assoc_run_side tunnelOnly altDNS blockQUIC evs) as (A & B & C & D). fold s in A, B, C, D.
  destruct ev as [now src data|key|now dst posted|dst frames]; cbn [assoc_step] in Hin.
  - destruct (relay_datagram_cases now s src data) as [(dst & payload & Ha & E)|(Ha & _ & Hall)].
    + rewrite E in Hin. destruct act as [p d|dg c| | | |]; try done.
      * destruct (forward_direct _ _ _ _ _ _ Hin) as (-> & -> & H1 & H2 & H3). rewrite C in Ha. cbn in *. rewrite A in H1. rewrite B in H3.
        split; [by exists now, src, data|]. by split_and!.
      * by apply forward_side in Hin.
    + apply Hall in Hin as [->|(c & Hc & -> & Hno)]; [done|]. split; [by rewrite <- D|]. exists src, data. split; [done|]. left. by exists now.
  - by apply elem_of_nil in Hin.
  - destruct (worker_side now s dst posted) as [_ Hw]. destruct (Hw act Hin) as [Hnd Hc]. destruct act as [p d|dg c| | | |]; try done.
    { by destruct (Hnd p d). }
    destruct (Hc dg c eq_refl) as (Hcl & fs & f & -> & Hf & ->). split; [by rewrite <- D|]. exists dst, f. split; [done|]. right; left. by exists now, fs.
  - apply deliver_frames_spec in Hin as [(f & ->)|(f & c & Hf & Hc & ->)]; [done|]. split; [by rewrite <- D|].
    exists dst, f. split; [done|]. right; right. by exists frames.
Qed.

Lemma assoc_run_good s evs : assoc_ok s ->
  assoc_ok (assoc_run is_bypass lookup_host s evs) /\ tunnel_kept s (assoc_run is_bypass lookup_host s evs).
Proof.
  revert s. induction evs as [|ev evs IH]; intros s Hs; simpl; [split; [done|apply tunnel_kept_refl]|].
  destruct (assoc_step_good s ev Hs) as [A B]. destruct (IH _ A) as [C D]. split; [done|].
  intros k st Hk Hu. destruct (B k st Hk Hu) as (st' & Hk' & Hu'). eauto.
Qed.

(** Over the whole life of a session, whatever arrives and in whatever order,
    the failure streak of a destination stays below the breaker's threshold, no
    send queue grows past its depth, and a destination that has fallen back to
    the tunnel never goes back to direct sending. *)
Theorem assoc_session_invariant (tunnelOnly altDNS blockQUIC : bool) (before after : list assoc_event) :
  let s := assoc_run is_bypass lookup_host (newAssoc tunnelOnly altDNS blockQUIC) before in
  let s' := assoc_run is_bypass lookup_host s after in
  (forall k st, as_stats s !! k = Some st -> stats_ok st /\
     (st_useTunnel st = true -> exists st', as_stats s' !! k = Some st' /\ st_useTunnel st' = true)) /\
  (forall k q, as_workers s !! k = Some q -> zlen q <= tunnelWorkerQDepth).
Proof.
  intros s s'. destruct (assoc_run_good (newAssoc tunnelOnly altDNS blockQUIC) before) as [Hs _].
  { split; simpl; intros k x; by rewrite lookup_empty. }
  destruct (assoc_run_good s after Hs) as [_ Hk]. split.
  - intros k st Hst. split; [by apply (aok_stats s Hs k)|]. intros Hu. by apply (Hk k st).
  - apply Hs.
Qed.

(** The circuit breaker: when the failure that reaches the threshold is
    accounted, the destination is cut off for the cool-down: every datagram for
    it in that time is dropped without queueing, and the first one after it is
    accepted again (its queue has room). *)
Theorem circuit_breaker (now later : Z) (s : assoc) (dst : Addr) (st : dstStats) (payload x : bytes) (q : list bytes)
    (Hq : as_workers s !! addr_key dst = Some (x :: q)) (Hlen : zlen q < tunnelWorkerQDepth)
    (Hst : as_stats s !! addr_key dst = Some st) (Hstreak : st_tunnelErrStreak st + 1 = tunnelCBThreshold) :
  let s' := (runTunnelWorker now s dst None).1 in
  (later < now + tunnelCBCooldown -> goSendViaTunnel later s' dst payload = (s', [])) /\
  (now + tunnelCBCooldown <= later ->
     as_workers (goSendViaTunnel later s' dst payload).1 !! addr_key dst = Some (q ++ [payload])).
Proof.
  intros s'. assert (as_stats s' !! addr_key dst = Some (mkStats (st_sentCount st) (st_recvCount st)
    (st_firstSentAt st) (st_useTunnel st) 0 (now + tunnelCBCooldown)) /\
    as_workers s' !! addr_key dst = Some q) as [E1 E2].
  { unfold s', runTunnelWorker. rewrite Hq. simpl. rewrite Hst, Hstreak. simpl.
    rewrite !lookup_insert_eq. done. }
  unfold goSendViaTunnel. rewrite E1, E2. simpl. split.
  - intros Hl. by rewrite (proj2 (Z.ltb_lt _ _)).
  - intros Hl. rewrite (proj2 (Z.ltb_ge _ _)), (proj2 (Z.ltb_lt _ _)) by done. simpl. apply lookup_insert_eq.
Qed.

(** A datagram is taken to come from the client whenever its bytes happen to
    look like a SOCKS5 header, whoever sent it: any remote host can make the
    session regard it as the client, so that later answers are delivered to it. *)
Theorem remote_taken_for_client (now : Z) (s : assoc) (src : Addr) (dst : Addr) (payload : bytes)
    (Hip : zlen (a_IP dst) = 4) (Hport : 0 <= a_Port dst < 2 ^ 16) (Hnq : a_Port dst <> 443) :
  as_client (relay_datagram is_bypass lookup_host now s src
    ([x00; x00; x00; atypIPv4] ++ a_IP dst ++ put_u16 (a_Port dst) ++ payload)).1 = Some src.
Proof.
  unfold relay_datagram.
  rewrite (parse_head lookup_host x00 atypIPv4 (a_IP dst) (a_Port dst) payload _ eq_refl Hport
    (parse_part_v4 lookup_host x00 (a_IP dst) _ Hip)).
  simpl a_Port. rewrite (proj2 (Z.eqb_neq _ 443)), andb_false_r by done.
  assert (forall m, as_client (goSendViaTunnel now m (mkAddr (a_IP dst) (a_Port dst)) payload).1 = as_client m) as Hg.
  { intros m. unfold goSendViaTunnel. by repeat (case_goal; simpl; try done). }
  unfold forwardOutbound. simpl a_IP. simpl a_Port. destruct (To4 _); [|done].
  destruct (_ =? 53); [destruct (_ && _); [done|by rewrite Hg]|].
  cbv zeta. destruct (_ || _ || _); [by rewrite Hg|done].
Qed.
End session_lemmas.

(** ** Relayed datagrams *)

(** The documented layout, read back. *)
Definition parse_relay_plain (plain : bytes) : res (bytes * bytes * Z * bytes) :=
  raw ← slice plain 0 16;
  family ← index plain 16;
  let n := if byte_eqb family x04 then 4 else 16 in
  ip ← slice plain 17 (17 + n);
  port ← be_at 2 plain (17 + n);
  blen ← be_at 4 plain (19 + n);
  body ← slice plain (23 + n) (23 + n + blen);
  Ok (raw, ip, port, body).

(** The plaintext of a relayed datagram has the documented layout: reading it
    back gives the connection identifier, the destination (IPv4 in 4 bytes) and
    the body; an identifier that is not 16 bytes of hex is refused. *)
Theorem udp_relay_plain_layout (id : bytes) (dst : Addr) (body : bytes)
    (Hip : ip_ok (a_IP dst)) (Hport : 0 <= a_Port dst < 2 ^ 16) (Hbody : zlen body < 2 ^ 32) :
  (length id = 16%nat -> exists plain, buildUDPRelayPlain (Hex.encode id) dst body = Ok plain /\
     parse_relay_plain plain = Ok (id, canonical_ip (a_IP dst), a_Port dst, body)) /\
  (length id <> 16%nat -> is_err (buildUDPRelayPlain (Hex.encode id) dst body) = true).
Proof.
  unfold buildUDPRelayPlain. rewrite Hex.hex_decode_encode. split; intros Hid.
  2:{ rewrite (proj2 (Z.eqb_neq _ _)) by (unfold zlen; lia). done. }
  assert (zlen id = 16) as Hz by (unfold zlen; lia). rewrite Hz. simpl negb. cbv iota.
  set (fam := match To4 (a_IP dst) with Some _ => x04 | None => x06 end). set (ip := canonical_ip (a_IP dst)).
  assert (zlen ip = (if byte_eqb fam x04 then 4 else 16)) as Hl.
  { unfold ip, canonical_ip, fam. destruct (To4 (a_IP dst)) eqn:E; [by eapply to4_length|].
    by apply to4_none_length. }
  exists (id ++ [fam] ++ ip ++ put_u16 (a_Port dst) ++ put_u32 (zlen body) ++ body). split.
  { unfold fam, ip, canonical_ip, To16. destruct (To4 (a_IP dst)) eqn:E; [done|].
    destruct (to4_none_length _ Hip E) as [-> _]. done. }
  set (plain := id ++ _). pose proof (zlen_nonneg body).
  unfold parse_relay_plain.
  rewrite (slice_at plain [] id ([fam] ++ ip ++ put_u16 (a_Port dst) ++ put_u32 (zlen body) ++ body)) by
    (try done; wire_lia).
  rewrite (index_at plain id fam (ip ++ put_u16 (a_Port dst) ++ put_u32 (zlen body) ++ body)) by (done || wire_lia).
  cbn [mbind res_bind]. cbv zeta. rewrite <- Hl. pose proof (zlen_nonneg ip).
  rewrite (slice_at plain (id ++ [fam]) ip (put_u16 (a_Port dst) ++ put_u32 (zlen body) ++ body)) by
    (try wire_lia; unfold plain; wire_split).
  rewrite (be_at_at 2 plain (id ++ [fam] ++ ip) (put_u16 (a_Port dst)) (put_u32 (zlen body) ++ body)) by
    (try wire_lia; unfold plain; wire_split).
  rewrite (be_at_at 4 plain (id ++ [fam] ++ ip ++ put_u16 (a_Port dst)) (put_u32 (zlen body)) body) by
    (try wire_lia; unfold plain; wire_split).
  cbn [mbind res_bind]. rewrite be_get_u16, be_get_u32 by lia.
  rewrite (slice_at plain (id ++ [fam] ++ ip ++ put_u16 (a_Port dst) ++ put_u32 (zlen body)) body []) by
    (try wire_lia; unfold plain; rewrite app_nil_r; wire_split).
  done.
Qed.

Lemma udp_relay_plain_layout_witness :
  exists plain, buildUDPRelayPlain (Hex.encode (replicate 16 x07)) (mkAddr [x01; x02; x03; x04] 80) (str "hey") = Ok plain /\
    parse_relay_plain plain = Ok (replicate 16 x07, [x01; x02; x03; x04], 80, str "hey").
Proof.
  apply (udp_relay_plain_layout (replicate 16 x07) (mkAddr [x01; x02; x03; x04] 80) (str "hey"));
    [by left|simpl; lia|by vm_compute|done].
Defined.

(** ** Witnesses *)

Definition toy_dst : Addr := mkAddr [x0a; x00; x00; x01] 9999.

Definition toy_client : Addr := mkAddr [x7f; x00; x00; x01] 5000.
Definition toy_ask : bytes := [x00; x00; x00; atypIPv4] ++ a_IP toy_dst ++ put_u16 9999 ++ str "x".

Lemma no_direct_leak_witness :
  let s0 := newAssoc false false false in
  let s1 := assoc_run (fun _ => true) (fun _ => None) s0 [EvDatagram 0 toy_client toy_ask] in
  ADirect (str "x") toy_dst ∈ (assoc_step (fun _ => true) (fun _ => None) s0 (EvDatagram 0 toy_client toy_ask)).2 /\
  is_Some (To4 (a_IP toy_dst)) /\
  AToClient (buildSOCKS5UDPHeader toy_dst []) toy_client ∈ (assoc_step (fun _ => true) (fun _ => None) s1 (EvDatagram 1 toy_dst [])).2 /\
  last_asker (fun _ => None) false [EvDatagram 0 toy_client toy_ask] = Some toy_client.
Proof.
  intros s0 s1.
  assert (ADirect (str "x") toy_dst ∈ (assoc_step (fun _ => true) (fun _ => None) s0 (EvDatagram 0 toy_client toy_ask)).2) as H
    by (vm_compute; apply list_elem_of_singleton; done).
  assert (AToClient (buildSOCKS5UDPHeader toy_dst []) toy_client ∈ (assoc_step (fun _ => true) (fun _ => None) s1 (EvDatagram 1 toy_dst [])).2) as H1
    by (vm_compute; apply list_elem_of_singleton; done).
  split; [exact H|]. split; [apply (no_direct_leak (fun _ => true) (fun _ => None) false false false [] _ _ H)|]. split; [exact H1|].
  apply (no_direct_leak (fun _ => true) (fun _ => None) false false false [EvDatagram 0 toy_client toy_ask] _ _ H1).
Defined.

Lemma circuit_breaker_witness :
  let s := mkAssoc false false false None {[toy_dst := mkStats 1 0 0 false 4 0]} {[toy_dst := [str "x"]]} ∅ in
  let s' := (runTunnelWorker 10 s toy_dst None).1 in
  goSendViaTunnel 11 s' toy_dst (str "y") = (s', []).
Proof.
  intros s s'.
  apply (circuit_breaker 10 11 s toy_dst (mkStats 1 0 0 false 4 0) (str "y") (str "x") []);
    try (by vm_compute); unfold tunnelCBCooldown; lia.
Defined.

Lemma remote_taken_for_client_witness :
  as_client (relay_datagram (fun _ => true) (fun _ => None) 0 (newAssoc false false false) (mkAddr [x06; x06; x06; x06] 6)
    ([x00; x00; x00; atypIPv4] ++ a_IP toy_dst ++ put_u16 9999 ++ [])).1 = Some (mkAddr [x06; x06; x06; x06] 6).
Proof.
  apply (remote_taken_for_client (fun _ => true) (fun _ => None) 0 (newAssoc false false false)
    (mkAddr [x06; x06; x06; x06] 6) toy_dst []); simpl; try lia; done.
Defined.
