(* ===== verification/MirrorTransport.v ===== *)
(** * MirrorTransport: chunk exchange, hole punching, NAT reflection

    mirror_transport.go: the chunk request/response protocol over a punched
    socket.  holepunch.go: the acceptance of probes.  nat.go: the reflection
    request and its answer.  A channel in the pending table is [None] while empty
    and [Some r] once filled. *)
From S2P Require Import Prelude Encoding Env DhtId DhtTable DhtRelay DhtWire TunnelWire.

Definition mirrorMagic : Z := 0x534E434D.
Definition mirrorTypeChunkReq : byte := x01.
Definition mirrorTypeChunkResp : byte := x02.
Definition mirrorTypeChunkMiss : byte := x03.
Definition mirrorRetries : nat := 3.
Definition mirrorTimeout : Z := 700000000.               (* 700ms *)
Definition mirrorIdleTimeout : Z := 300 * second.        (* 5min *)

(** ** Frame codec *)

Definition mirrorEncodeRequest (reqID : Z) (hash : bytes) : bytes :=
  put_u32 mirrorMagic ++ put_u32 reqID ++ [mirrorTypeChunkReq] ++ hash.

(** [Ok None] is the code's [ok == false]. *)
Definition mirrorDecodeRequest (data : bytes) : res (option bytes) :=
  if zlen data <? 4 + 4 + 1 + 32 then Ok None else
  h ← slice data 9 (9 + 32); Ok (Some (copy (make_bytes 32) h)).

Definition mirrorEncodeFound (reqID : Z) (data : bytes) : bytes :=
  put_u32 mirrorMagic ++ put_u32 reqID ++ [mirrorTypeChunkResp] ++ put_u32 (zlen data) ++ data.

Definition mirrorDecodeFound (data : bytes) : res (option bytes) :=
  if zlen data <? 4 + 4 + 1 + 4 then Ok None else
  let o := 9 in
  n ← be_at 4 data o;
  let o := o + 4 in
  if (n <? 0) || (o + n >? zlen data) then Ok None else
  d ← slice data o (o + n); Ok (Some d).

Definition mirrorEncodeMiss (reqID : Z) : bytes :=
  put_u32 mirrorMagic ++ put_u32 reqID ++ [mirrorTypeChunkMiss].

(** ** The connection *)

Record mirrorPendingResp := mkMirrorResp { mr_found : bool; mr_data : bytes }.

Record MirrorConn := mkMirror {
  mc_pending : gmap Z (option mirrorPendingResp);
  mc_successCount : Z;
  mc_lastActivity : Z;
  mc_closed : bool
}.

Definition NewMirrorConn (now : Z) : MirrorConn := mkMirror ∅ 0 now false.

Definition touch (now : Z) (c : MirrorConn) : MirrorConn :=
  mkMirror (mc_pending c) (mc_successCount c) now (mc_closed c).

Definition idleFor (now : Z) (c : MirrorConn) : Z := now - mc_lastActivity c.

Definition mirror_Close (c : MirrorConn) : MirrorConn :=
  mkMirror (mc_pending c) (mc_successCount c) (mc_lastActivity c) true.

Definition deliver (c : MirrorConn) (reqID : Z) (resp : mirrorPendingResp) : MirrorConn :=
  match mc_pending c !! reqID with
  | Some None =>
      mkMirror (<[reqID := Some resp]> (mc_pending c)) (mc_successCount c) (mc_lastActivity c) (mc_closed c)
  | _ => c
  end.

(** The read that failed (a timeout): the idle check. *)
Definition mirror_read_error (now : Z) (c : MirrorConn) : MirrorConn :=
  if idleFor now c >? mirrorIdleTimeout then mirror_Close c else c.

Inductive mirror_act := MServe (reqID : Z) (hash : bytes).

(** One datagram through the body of [readLoop]. *)
Definition mirror_recv (now : Z) (c : MirrorConn) (data : bytes) : res (MirrorConn * list mirror_act) :=
  let c := touch now c in
  if zlen data <? 9 then Ok (c, []) else
  magic ← be_at 4 data 0;
  if negb (magic =? mirrorMagic) then Ok (c, []) else
  reqID ← be_at 4 data 4;
  typ ← index data 8;
  if byte_eqb typ mirrorTypeChunkReq then
    r ← mirrorDecodeRequest data;
    match r with None => Ok (c, []) | Some hash => Ok (c, [MServe reqID hash]) end
  else if byte_eqb typ mirrorTypeChunkResp then
    r ← mirrorDecodeFound data;
    match r with None => Ok (c, []) | Some body => Ok (deliver c reqID (mkMirrorResp true body), []) end
  else if byte_eqb typ mirrorTypeChunkMiss then Ok (deliver c reqID (mkMirrorResp false []), [])
  else Ok (c, []).

(** [getChunk] is [None] for a fetch-only connection; it is asked by hex hash. *)
Definition serveChunkRequest (getChunk : option (bytes -> option bytes)) (reqID : Z) (hash : bytes) : bytes :=
  let hexHash := Hex.encode hash in
  match getChunk with
  | None => mirrorEncodeMiss reqID
  | Some f => match f hexHash with
              | None => mirrorEncodeMiss reqID
              | Some data => mirrorEncodeFound reqID data
              end
  end.

(** ** RequestChunk *)

(** How one round of the retry loop ends. *)
Inductive round_outcome := RWriteError | RResponse (r : mirrorPendingResp) | RTimedOut | RClosed.

(** The retry loop: the result, the frames written and whether it counted as a
    success. *)
Fixpoint request_rounds (n : nat) (frame : bytes) (outs : list round_outcome)
    : res (option bytes) * list bytes * bool :=
  match n with
  | O => (Err "mirror-transport: retries exhausted", [], false)
  | S n =>
    match outs with
    | [] => (Err "mirror-transport: retries exhausted", [], false)
    | RWriteError :: _ => (Err "mirror-transport write", [], false)
    | RResponse r :: _ =>
        if mr_found r then (Ok (Some (mr_data r)), [frame], true) else (Ok None, [frame], false)
    | RClosed :: _ => (Err "mirror-transport: closed", [frame], false)
    | RTimedOut :: outs =>
        let '(r, ws, s) := request_rounds n frame outs in (r, frame :: ws, s)
    end
  end.

Definition RequestChunk (c : MirrorConn) (reqID : Z) (hash : bytes) (outs : list round_outcome)
    : res (option bytes) * list bytes * MirrorConn :=
  match Hex.decode hash with
  | None => (Err "mirror-transport: bad hash", [], c)
  | Some hashBytes =>
    if negb (zlen hashBytes =? 32) then (Err "mirror-transport: bad hash", [], c) else
    let hashArr := copy (make_bytes 32) hashBytes in
    let frame := mirrorEncodeRequest reqID hashArr in
    let '(r, ws, ok) := request_rounds mirrorRetries frame outs in
    (r, ws, mkMirror (delete reqID (mc_pending c))
              (if ok : bool then mc_successCount c + 1 else mc_successCount c) (mc_lastActivity c) (mc_closed c))
  end.

(** ** Lemmas *)

Lemma mirror_decode_total data : mirrorDecodeRequest data <> Panic /\ mirrorDecodeFound data <> Panic.
Proof.
  unfold mirrorDecodeRequest, mirrorDecodeFound. split.
  - destruct (_ <? _) eqn:E; [done|]. bool_to_prop. by rewrite slice_ok by lia.
  - destruct (_ <? _) eqn:E; [done|]. bool_to_prop. cbv zeta.
    destruct (be_at_ok 4 data 9) as (n & -> & Hn); [lia..|]. cbn [mbind res_bind].
    rewrite Z.gtb_ltb. destruct (_ || _) eqn:F; [done|]. bool_to_prop. by rewrite slice_ok by lia.
Qed.

Definition mirror_header (reqID : Z) (typ : byte) : bytes := put_u32 mirrorMagic ++ put_u32 reqID ++ [typ].

Lemma mirror_recv_header id t rest :
  0 <= id < 2 ^ 32 ->
  let data := mirror_header id t ++ rest in
  be_at 4 data 0 = Ok mirrorMagic /\ be_at 4 data 4 = Ok id /\ index data 8 = Ok t /\
  zlen data = 9 + zlen rest.
Proof.
  intros Hid data. pose proof (zlen_nonneg rest). split; [|split; [|split]].
  - rewrite (be_at_at 4 data [] (put_u32 mirrorMagic) (put_u32 id ++ [t] ++ rest) 0) by
      (try wire_lia; unfold data, mirror_header; wire_split).
    rewrite be_get_u32; [done|unfold mirrorMagic; lia].
  - rewrite (be_at_at 4 data (put_u32 mirrorMagic) (put_u32 id) ([t] ++ rest) 4) by
      (try wire_lia; unfold data, mirror_header; wire_split).
    by rewrite be_get_u32.
  - apply (index_at data (put_u32 mirrorMagic ++ put_u32 id) t rest); [|wire_lia].
    unfold data, mirror_header. wire_split.
  - unfold data, mirror_header. wire_lia.
Qed.

Lemma mirror_recv_total now c data : mirror_recv now c data <> Panic.
Proof.
  unfold mirror_recv. cbv zeta. destruct (_ <? _) eqn:E; [done|]. bool_to_prop.
  destruct (be_at_ok 4 data 0) as (m & -> & _); [lia..|]. cbn [mbind res_bind]. destruct (negb _); [done|].
  destruct (be_at_ok 4 data 4) as (i & -> & _); [lia..|]. cbn [mbind res_bind].
  destruct (index_ok data 8) as (t & -> & _); [lia|]. cbn [mbind res_bind].
  destruct (mirror_decode_total data) as [H1 H2].
  destruct (byte_eqb t mirrorTypeChunkReq); [by destruct (mirrorDecodeRequest data) as [[]| |]|].
  destruct (byte_eqb t mirrorTypeChunkResp); [by destruct (mirrorDecodeFound data) as [[]| |]|].
  by destruct (byte_eqb t mirrorTypeChunkMiss).
Qed.

Lemma recv_chunk_request now c id hash :
  0 <= id < 2 ^ 32 -> length hash = 32%nat ->
  mirror_recv now c (mirrorEncodeRequest id hash) = Ok (touch now c, [MServe id hash]).
Proof.
  intros Hid Hh. destruct (mirror_recv_header id mirrorTypeChunkReq hash Hid) as (A & B & C & D).
  assert (mirrorEncodeRequest id hash = mirror_header id mirrorTypeChunkReq ++ hash) as E
    by (unfold mirrorEncodeRequest, mirror_header; wire_split).
  rewrite E. unfold mirror_recv. cbv zeta. assert (zlen hash = 32) as Hz by (unfold zlen; lia).
  rewrite D, (proj2 (Z.ltb_ge _ _)), A by lia. cbn [mbind res_bind]. rewrite Z.eqb_refl. cbn [negb].
  rewrite B, C. cbn [mbind res_bind]. change (byte_eqb mirrorTypeChunkReq mirrorTypeChunkReq) with true. cbv iota.
  unfold mirrorDecodeRequest. rewrite D, (proj2 (Z.ltb_ge _ _)) by lia.
  rewrite (slice_at _ (mirror_header id mirrorTypeChunkReq) hash []) by
    (try (by rewrite app_nil_r); unfold mirror_header; wire_lia).
  cbn [mbind res_bind]. rewrite copy_exact; [done|]. by rewrite Hh.
Qed.

Lemma recv_chunk_found now c id data :
  0 <= id < 2 ^ 32 -> zlen data < 2 ^ 32 ->
  mirror_recv now c (mirrorEncodeFound id data) = Ok (deliver (touch now c) id (mkMirrorResp true data), []).
Proof.
  intros Hid Hd. pose proof (zlen_nonneg data).
  destruct (mirror_recv_header id mirrorTypeChunkResp (put_u32 (zlen data) ++ data) Hid) as (A & B & C & D).
  assert (mirrorEncodeFound id data = mirror_header id mirrorTypeChunkResp ++ put_u32 (zlen data) ++ data) as E
    by (unfold mirrorEncodeFound, mirror_header; wire_split).
  rewrite E. set (pkt := mirror_header id mirrorTypeChunkResp ++ put_u32 (zlen data) ++ data) in *.
  rewrite zlen_app, zlen_put_u32 in D. unfold mirror_recv. cbv zeta.
  rewrite (proj2 (Z.ltb_ge _ _)), A by lia. cbn [mbind res_bind]. rewrite Z.eqb_refl. cbn [negb].
  rewrite B, C. cbn [mbind res_bind]. change (byte_eqb mirrorTypeChunkResp mirrorTypeChunkReq) with false.
  change (byte_eqb mirrorTypeChunkResp mirrorTypeChunkResp) with true. cbv iota.
  unfold mirrorDecodeFound. rewrite (proj2 (Z.ltb_ge _ _)) by lia. cbv zeta.
  rewrite (be_at_at 4 pkt (mirror_header id mirrorTypeChunkResp) (put_u32 (zlen data)) data) by
    (try done; unfold mirror_header; wire_lia).
  cbn [mbind res_bind]. rewrite be_get_u32 by lia.
  rewrite (proj2 (Z.ltb_ge _ 0)), Z.gtb_ltb, (proj2 (Z.ltb_ge _ _)) by lia. cbn [orb].
  rewrite (slice_at pkt (mirror_header id mirrorTypeChunkResp ++ put_u32 (zlen data)) data []) by
    (try (unfold mirror_header; wire_lia); unfold pkt; rewrite app_nil_r; wire_split).
  done.
Qed.

Lemma recv_chunk_miss now c id :
  0 <= id < 2 ^ 32 ->
  mirror_recv now c (mirrorEncodeMiss id) = Ok (deliver (touch now c) id (mkMirrorResp false []), []).
Proof.
  intros Hid. destruct (mirror_recv_header id mirrorTypeChunkMiss [] Hid) as (A & B & C & D).
  assert (mirrorEncodeMiss id = mirror_header id mirrorTypeChunkMiss ++ []) as E
    by (unfold mirrorEncodeMiss, mirror_header; by rewrite app_nil_r).
  rewrite E. set (pkt := mirror_header id mirrorTypeChunkMiss ++ []) in *. unfold mirror_recv. cbv zeta.
  rewrite (proj2 (Z.ltb_ge _ _)), A by wire_lia. cbn [mbind res_bind]. rewrite Z.eqb_refl. cbn [negb].
  rewrite B, C. done.
Qed.

(** Losses before the answer only cost retransmissions. *)
Lemma rounds_after_losses n frame k r outs :
  (k < n)%nat -> (request_rounds n frame (replicate k RTimedOut ++ RResponse r :: outs)).1 =
  ((if mr_found r then Ok (Some (mr_data r)) else Ok None), replicate (S k) frame).
Proof.
  revert n. induction k as [|k IH]; intros [|n] Hk; try lia; simpl.
  - by destruct (mr_found r).
  - specialize (IH n ltac:(lia)). destruct (request_rounds n frame _) as [[x ws] s]. simpl in *.
    injection IH as -> ->. done.
Qed.

(** Fetching a chunk by its hash from a peer gives what the peer's lookup
    gives for that hash: the request reaches the peer's [getChunk] with the same
    hex hash, and the answer it encodes makes the call return the bytes on a hit
    and "not found" on a miss, after up to two lost rounds. *)
Theorem chunk_exchange (c peer : MirrorConn) (now : Z) (id : Z) (hash : bytes) (getChunk : bytes -> option bytes)
    (losses : nat) (outs : list round_outcome)
    (Hid : 0 <= id < 2 ^ 32) (Hh : length hash = 32%nat) (Hl : (losses < 3)%nat)
    (Hsize : forall d, getChunk (Hex.encode hash) = Some d -> zlen d < 2 ^ 32)
    (Hpend : mc_pending c !! id = Some None) :
  exists resp c1,
    mirror_recv now peer (mirrorEncodeRequest id hash) = Ok (touch now peer, [MServe id hash]) /\
    mirror_recv now c (serveChunkRequest (Some getChunk) id hash) = Ok (c1, []) /\
    mc_pending c1 !! id = Some (Some resp) /\
    (RequestChunk c1 id (Hex.encode hash) (replicate losses RTimedOut ++ RResponse resp :: outs)).1 =
      (Ok (getChunk (Hex.encode hash)), replicate (S losses) (mirrorEncodeRequest id hash)) /\
    mc_pending (RequestChunk c1 id (Hex.encode hash) (replicate losses RTimedOut ++ RResponse resp :: outs)).2 !! id
      = None.
Proof.
  set (resp := match getChunk (Hex.encode hash) with
               | Some d => mkMirrorResp true d | None => mkMirrorResp false [] end).
  assert (mirror_recv now c (serveChunkRequest (Some getChunk) id hash) = Ok (deliver (touch now c) id resp, [])) as E.
  { unfold serveChunkRequest, resp. destruct (getChunk (Hex.encode hash)) as [d|].
    - apply recv_chunk_found; [done|]. by apply Hsize.
    - by apply recv_chunk_miss. }
  assert (forall m, (RequestChunk m id (Hex.encode hash) (replicate losses RTimedOut ++ RResponse resp :: outs)) =
     let '(r, ws, ok) := request_rounds 3 (mirrorEncodeRequest id hash)
        (replicate losses RTimedOut ++ RResponse resp :: outs) in
     (r, ws, mkMirror (delete id (mc_pending m))
              (if ok : bool then mc_successCount m + 1 else mc_successCount m) (mc_lastActivity m) (mc_closed m))) as F.
  { intros m. unfold RequestChunk. rewrite Hex.hex_decode_encode.
    rewrite (proj2 (Z.eqb_eq _ _)) by (unfold zlen; lia). simpl negb. cbv iota.
    rewrite copy_exact; [done|by rewrite Hh]. }
  exists resp, (deliver (touch now c) id resp). split; [by apply recv_chunk_request|]. split; [done|].
  split; [|split].
  - unfold deliver. simpl. rewrite Hpend. simpl. apply lookup_insert_eq.
  - rewrite F. pose proof (rounds_after_losses 3 (mirrorEncodeRequest id hash) losses resp outs Hl) as R.
    destruct (request_rounds 3 _ _) as [[x ws] ok]. simpl in *. injection R as -> ->. f_equal.
    unfold resp. by destruct (getChunk (Hex.encode hash)).
  - rewrite F. destruct (request_rounds 3 _ _) as [[x ws] ok]. simpl. apply lookup_delete_eq.
Qed.

Lemma chunk_exchange_witness :
  let hash := replicate 32 x05 in
  let c := mkMirror {[9 := None]} 0 0 false in
  exists resp c1,
    mirror_recv 1 c (serveChunkRequest (Some (fun _ => Some (str "data"))) 9 hash) = Ok (c1, []) /\
    (RequestChunk c1 9 (Hex.encode hash) [RTimedOut; RResponse resp]).1 =
      (Ok (Some (str "data")), [mirrorEncodeRequest 9 hash; mirrorEncodeRequest 9 hash]).
Proof.
  intros hash c.
  destruct (chunk_exchange c (NewMirrorConn 0) 1 9 hash (fun _ => Some (str "data")) 1 [])
    as (resp & c1 & _ & E1 & _ & E2 & _); [lia|done|lia|intros d [= <-]; by vm_compute|by vm_compute|].
  exists resp, c1. split; [exact E1|exact E2].
Defined.

(** ** Hole punching *)

Section punch.
Context `{AEAD}.

(** [buildProbe]. *)
Definition build_probe (rnd : seal_rnd) : res bytes := Seal rnd MsgHolePunch 1 (@None Empty_set).

(** The receive loop of [punch] over the datagrams that arrive before the
    deadline: success at the first authentic probe. *)
Fixpoint punch_wait (pkts : list bytes) : bool :=
  match pkts with
  | [] => false
  | p :: pkts =>
    match Open p with
    | Ok (t, _, _) => if negb (byte_eqb t MsgHolePunch) then punch_wait pkts else true
    | _ => punch_wait pkts
    end
  end.

Lemma punch_wait_spec pkts :
  punch_wait pkts = true <-> exists p l raw, p ∈ pkts /\ Open p = Ok (MsgHolePunch, l, raw).
Proof.
  induction pkts as [|p pkts IH]; simpl.
  - split; [done|]. intros (p & l & raw & Hp & _). by apply not_elem_of_nil in Hp.
  - destruct (Open p) as [[[t l] raw]| |] eqn:E.
    + destruct (negb (byte_eqb t MsgHolePunch)) eqn:F.
      * rewrite IH. split; [intros (q & x & y & A & B); exists q, x, y; split; [by right|done]|].
        intros (q & x & y & A & B). exists q, x, y. apply elem_of_cons in A as [->|A]; [|done].
        rewrite E in B. injection B as -> -> ->. done.
      * split; [|done]. intros _. exists p, l, raw. split; [by left|]. rewrite E. bool_to_prop.
        apply bool_decide_eq_true in F. by subst.
    + rewrite IH. split; [intros (q & x & y & A & B); exists q, x, y; split; [by right|done]|].
      intros (q & x & y & A & B). exists q, x, y. apply elem_of_cons in A as [->|A]; [congruence|done].
    + rewrite IH. split; [intros (q & x & y & A & B); exists q, x, y; split; [by right|done]|].
      intros (q & x & y & A & B). exists q, x, y. apply elem_of_cons in A as [->|A]; [congruence|done].
Qed.
End punch.

(** ** NAT reflection *)

Section nat_reflection.
Context `{AEAD}.

Definition natReflectorKey : bytes := blake2b_256 (str "snc-udp-reflect-v1").

Record ExternalEndpoint := mkEndpoint { ee_IP : bytes; ee_Port : Z }.

Definition nat_request (rnd : bytes) (now_ms : Z) : bytes :=
  let nonce := rand_fill nonce_size rnd in
  nonce ++ aead_seal natReflectorKey nonce (put_u64 now_ms).

(** The datagram that came back. *)
Definition nat_response (pkt : bytes) : res ExternalEndpoint :=
  let minLen := nonce_size + 2 + 4 + 2 + aead_overhead in
  if zlen pkt <? minLen then Err "nat: response too short" else
  nonce ← slice pkt 0 nonce_size;
  ct ← slice_from pkt nonce_size;
  match aead_open natReflectorKey nonce ct with
  | None => Err "nat: decrypt response"
  | Some resp =>
    if zlen resp <? 4 then Err "nat: response payload too short" else
    family ← be_at 2 resp 0;
    let ipLen := if family =? 4 then Some 4 else if family =? 6 then Some 16 else None in
    match ipLen with
    | None => Err "nat: unknown addr family"
    | Some ipLen =>
      if zlen resp <? 2 + ipLen + 2 then Err "nat: response truncated" else
      ip ← slice resp 2 (2 + ipLen);
      port ← be_at 2 resp (2 + ipLen);
      Ok (mkEndpoint ip port)
    end
  end.

(** The reflector's answer, as the file documents it. *)
Definition reflect_answer (rnd : bytes) (ip : bytes) (port : Z) : bytes :=
  let nonce := rand_fill nonce_size rnd in
  let family := if zlen ip =? 4 then 4 else 6 in
  nonce ++ aead_seal natReflectorKey nonce (put_u16 family ++ ip ++ put_u16 port).
End nat_reflection.

Section reflection_laws.
Context `{AEADLaws}.

Lemma nat_open nonce p :
  zlen nonce = nonce_size -> 8 <= zlen p ->
  (zlen (nonce ++ aead_seal natReflectorKey nonce p) <? nonce_size + 2 + 4 + 2 + aead_overhead) = false /\
  slice (nonce ++ aead_seal natReflectorKey nonce p) 0 nonce_size = Ok nonce /\
  slice_from (nonce ++ aead_seal natReflectorKey nonce p) nonce_size = Ok (aead_seal natReflectorKey nonce p) /\
  aead_open natReflectorKey nonce (aead_seal natReflectorKey nonce p) = Some p.
Proof.
  intros Hn Hp. assert (zlen natReflectorKey = key_size) as Hk by apply blake2b_length.
  split; [apply Z.ltb_ge; rewrite zlen_app, aead_seal_length by done; unfold nonce_size, aead_overhead in *; lia|].
  split; [apply (slice_at _ [] nonce (aead_seal natReflectorKey nonce p)); [done|done|rewrite Hn; done]|].
  split; [by apply slice_from_app|by apply aead_open_seal].
Qed.

(** The endpoint a client learns from a reflector is the one the reflector
    observed, for IPv4 and IPv6; and no answer makes the parser panic. *)
Theorem nat_reflection_roundtrip (rnd ip : bytes) (port : Z)
    (Hip : zlen ip = 4 \/ zlen ip = 16) (Hport : 0 <= port < 2 ^ 16) :
  nat_response (reflect_answer rnd ip port) = Ok (mkEndpoint ip port) /\
  forall pkt, no_panic (nat_response pkt).
Proof.
  split.
  - unfold reflect_answer. cbv zeta. set (nonce := rand_fill nonce_size rnd).
    assert (zlen nonce = nonce_size) as Hn by (apply zlen_rand_fill; by vm_compute).
    set (fam := if zlen ip =? 4 then 4 else 6). set (p := put_u16 fam ++ ip ++ put_u16 port).
    assert (zlen p = 4 + zlen ip) as Hp by (unfold p; wire_lia).
    destruct (nat_open nonce p Hn ltac:(lia)) as (A & B & C & D).
    unfold nat_response. cbv zeta. rewrite A, B. cbn [mbind res_bind]. rewrite C. cbn [mbind res_bind].
    rewrite D, (proj2 (Z.ltb_ge _ _)) by lia.
    rewrite (be_at_at 2 p [] (put_u16 fam) (ip ++ put_u16 port) 0) by (done || wire_lia).
    cbn [mbind res_bind]. rewrite be_get_u16 by (unfold fam; destruct (_ =? _); lia).
    assert ((if fam =? 4 then Some 4 else if fam =? 6 then Some 16 else None) = Some (zlen ip)) as ->.
    { unfold fam. destruct Hip as [-> | ->]; done. }
    rewrite (proj2 (Z.ltb_ge _ _)) by lia.
    rewrite (slice_at p (put_u16 fam) ip (put_u16 port)) by (done || wire_lia). cbn [mbind res_bind].
    rewrite (be_at_at 2 p (put_u16 fam ++ ip) (put_u16 port) []) by
      (try wire_lia; unfold p; rewrite app_nil_r; wire_split).
    cbn [mbind res_bind]. by rewrite be_get_u16.
  - intros pkt. unfold no_panic, nat_response. cbv zeta. destruct (_ <? _) eqn:E; [done|]. bool_to_prop.
    unfold slice_from. fold (zlen pkt). rewrite !slice_ok by (unfold nonce_size, aead_overhead in *; lia).
    cbn [mbind res_bind]. destruct (aead_open _ _ _) as [resp|]; [|done].
    destruct (zlen resp <? 4) eqn:F; [done|]. bool_to_prop.
    destruct (be_at_ok 2 resp 0) as (f & -> & _); [lia..|]. cbn [mbind res_bind].
    destruct (f =? 4); [|destruct (f =? 6); [|done]].
    all: destruct (zlen resp <? _) eqn:G; [done|]; bool_to_prop; rewrite slice_ok by lia; cbn [mbind res_bind].
    all: edestruct (be_at_ok 2 resp) as (q & -> & _); [lia|lia|lia|done].
Qed.

(** Punching succeeds exactly when an authentic probe arrives: what a peer's
    probe sender builds is accepted, and datagrams that fail authentication or
    carry another message type are passed over. *)
Theorem punch_accepts_probes (before after : list bytes) (rnd : seal_rnd) (probe : bytes)
    (Hp : build_probe rnd = Ok probe) :
  punch_wait (before ++ [probe] ++ after) = true /\
  (forall pkts, (forall p t l raw, p ∈ pkts -> Open p = Ok (t, l, raw) -> t <> MsgHolePunch) ->
     punch_wait pkts = false).
Proof.
  split.
  - apply punch_wait_spec.
    destruct (open_of_seal rnd MsgHolePunch 1 (@None Empty_set) probe ltac:(lia) Hp) as (body & _ & Ho).
    eexists probe, _, body. split; [|exact Ho]. apply elem_of_app. right. by left.
  - intros pkts Hall. destruct (punch_wait pkts) eqn:E; [|done].
    apply punch_wait_spec in E as (p & l & raw & Hin & Ho). by destruct (Hall p _ l raw Hin Ho).
Qed.
End reflection_laws.

#[local] Existing Instances Toy.aead Toy.aead_laws.

Lemma nat_reflection_roundtrip_witness :
  nat_response (reflect_answer [] [x01; x02; x03; x04] 4242) = Ok (mkEndpoint [x01; x02; x03; x04] 4242).
Proof. apply (nat_reflection_roundtrip [] [x01; x02; x03; x04] 4242); [by left|lia]. Defined.

Lemma punch_accepts_probes_witness :
  exists probe, build_probe toy_rnd = Ok probe /\ punch_wait ([str "noise"] ++ [probe] ++ []) = true.
Proof.
  destruct (build_probe toy_rnd) as [probe| |] eqn:E; [|done..]. exists probe. split; [done|].
  apply (punch_accepts_probes [str "noise"] [] toy_rnd probe E).
Defined.
