(* ===== verification/Cidr.v ===== *)
(** * Cidr: sets of IP networks searched by bisection (cidr.go)

    [ParseCIDRs] sorts the networks by start; [Contains] finds the last start not
    above the address and tests that one network.  IPv4 starts and masks are
    32-bit numbers, IPv6 ones are 16-byte arrays, as in the code.  [net.ParseCIDR]
    is a parameter: what it returns for each text is an optional network. *)
From S2P Require Import Prelude Encoding Env DhtId UdpAssoc.

Record CIDRSet := mkCIDRSet {
  starts4 : list Z;
  masks4 : list Z;
  starts6 : list bytes;
  masks6 : list bytes
}.

(** [bytes.Compare(a, b) < 0]. *)
Fixpoint lex_less (a b : bytes) : bool :=
  match a, b with
  | _, [] => false
  | [], _ :: _ => true
  | x :: a, y :: b => if b2z x =? b2z y then lex_less a b else b2z x <? b2z y
  end.

Section parse.
Context `{SliceSort} (parse_cidr : bytes -> option (bytes * bytes)).

(** One entry of the input, as the loop classifies it. *)
Definition entry4 (n : bytes * bytes) : option (Z * Z) :=
  match To4 (fst n) with
  | Some ip4 => if zlen (snd n) =? 4 then Some (be_get ip4, be_get (snd n)) else None
  | None => None
  end.

Definition entry6 (n : bytes * bytes) : option (bytes * bytes) :=
  match entry4 n with
  | Some _ => None
  | None => if (zlen (fst n) =? 16) && (zlen (snd n) =? 16) then Some n else None
  end.

Definition entries4 (cidrs : list bytes) : list (Z * Z) := omap (fun c => n ← parse_cidr c; entry4 n) cidrs.
Definition entries6 (cidrs : list bytes) : list (bytes * bytes) := omap (fun c => n ← parse_cidr c; entry6 n) cidrs.

Definition ParseCIDRs (cidrs : list bytes) : CIDRSet :=
  let e4 := sort_slice (fun a b => fst a <? fst b) (entries4 cidrs) in
  let e6 := sort_slice (fun a b => lex_less (fst a) (fst b)) (entries6 cidrs) in
  mkCIDRSet (fst <$> e4) (snd <$> e4) (fst <$> e6) (snd <$> e6).
End parse.

(** The bisection both lookups run: [le mid] is the test on the middle start. *)
Fixpoint bisect (fuel : nat) (le : Z -> bool) (lo hi idx : Z) : Z :=
  match fuel with
  | O => idx
  | S fuel =>
    if lo <=? hi then
      let mid := (lo + hi) / 2 in
      if le mid then bisect fuel le (mid + 1) hi mid
      else bisect fuel le lo (mid - 1) idx
    else idx
  end.

Definition nthZ (l : list Z) (i : Z) : Z := default 0 (l !! Z.to_nat i).
Definition nthB (l : list bytes) (i : Z) : bytes := default [] (l !! Z.to_nat i).

Definition contains4 (s : CIDRSet) (ip4 : bytes) : bool :=
  if zlen (starts4 s) =? 0 then false else
  let addr := be_get ip4 in
  let idx := bisect (S (length (starts4 s))) (fun mid => nthZ (starts4 s) mid <=? addr)
               0 (zlen (starts4 s) - 1) (-1) in
  if idx <? 0 then false
  else Z.land addr (nthZ (masks4 s) idx) =? nthZ (starts4 s) idx.

Definition byte_and (a b : byte) : byte := z2b (Z.land (b2z a) (b2z b)).

(** The byte-wise mask test of [contains6]. *)
Fixpoint masked_eq (addr mask start : bytes) : bool :=
  match addr, mask, start with
  | a :: addr, m :: mask, s :: start => byte_eqb (byte_and a m) s && masked_eq addr mask start
  | _, _, _ => true
  end.

Definition contains6 (s : CIDRSet) (ip : bytes) : bool :=
  if zlen (starts6 s) =? 0 then false else
  let idx := bisect (S (length (starts6 s))) (fun mid => negb (lex_less ip (nthB (starts6 s) mid)))
               0 (zlen (starts6 s) - 1) (-1) in
  if idx <? 0 then false
  else masked_eq ip (nthB (masks6 s) idx) (nthB (starts6 s) idx).

Definition Contains (s : CIDRSet) (ip : bytes) : bool :=
  match To4 ip with
  | Some ip4 => contains4 s ip4
  | None => if zlen ip =? 16 then contains6 s ip else false
  end.

Definition cidr_Len (s : CIDRSet) : Z := zlen (starts4 s) + zlen (starts6 s).

(** ** Networks as intervals *)

(** A [w]-bit network: the mask has its high bits set and the start is masked. *)
Definition is_network (w : Z) (n : Z * Z) : Prop :=
  exists k, 0 <= k <= w /\ snd n = 2 ^ w - 2 ^ k /\ 0 <= fst n < 2 ^ w /\ Z.divide (2 ^ k) (fst n).

Definition net_covers (n : Z * Z) (a : Z) : bool := Z.land a (snd n) =? fst n.

Lemma land_mask w k a :
  0 <= k <= w -> 0 <= a < 2 ^ w -> Z.land a (2 ^ w - 2 ^ k) = a - a mod 2 ^ k.
Proof.
  intros Hk Ha.
  replace (2 ^ w - 2 ^ k) with (Z.shiftl (Z.ones (w - k)) k).
  2:{ rewrite Z.shiftl_mul_pow2, Z.ones_equiv by lia.
      replace w with (w - k + k) at 2 by lia. rewrite Z.pow_add_r by lia. lia. }
  assert (Z.land a (Z.shiftl (Z.ones (w - k)) k) = Z.shiftl (Z.land (Z.shiftr a k) (Z.ones (w - k))) k) as ->.
  { apply Z.bits_inj'. intros i Hi. rewrite Z.land_spec, !Z.shiftl_spec by lia.
    destruct (Z.lt_ge_cases i k).
    - rewrite !(Z.testbit_neg_r _ (i - k)) by lia. by rewrite andb_false_r.
    - rewrite Z.land_spec, Z.shiftr_spec by lia. by replace (i - k + k) with i by lia. }
  rewrite Z.land_ones, Z.shiftr_div_pow2, Z.shiftl_mul_pow2 by lia.
  rewrite (Z.mod_small (a / 2 ^ k)).
  - pose proof (Z.div_mod a (2 ^ k)). lia.
  - split; [apply Z.div_pos; lia|]. apply Z.div_lt_upper_bound; [lia|].
    rewrite <- Z.pow_add_r by lia. replace (k + (w - k)) with w by lia. lia.
Qed.

(** The addresses a network covers are those from its start to its size. *)
Lemma covers_interval w n a k :
  0 <= k <= w -> snd n = 2 ^ w - 2 ^ k -> Z.divide (2 ^ k) (fst n) -> 0 <= a < 2 ^ w ->
  net_covers n a = true <-> fst n <= a < fst n + 2 ^ k.
Proof.
  intros Hk Hm [q Hq] Ha. unfold net_covers. rewrite Hm, land_mask, Z.eqb_eq by done.
  pose proof (Z.mod_pos_bound a (2 ^ k) ltac:(lia)). split; [lia|]. intros Hr.
  rewrite Hq in *. assert (a mod 2 ^ k = a - q * 2 ^ k); [|lia].
  symmetry. apply (Z.mod_unique a (2 ^ k) q); lia.
Qed.

(** No address is covered twice. *)
Definition disjoint_nets (w : Z) (ns : list (Z * Z)) : Prop :=
  forall a, 0 <= a < 2 ^ w -> zlen (List.filter (fun n => net_covers n a) ns) <= 1.

Lemma disjoint_index w ns :
  disjoint_nets w ns ->
  forall i j ni nj a, ns !! i = Some ni -> ns !! j = Some nj -> 0 <= a < 2 ^ w ->
    net_covers ni a = true -> net_covers nj a = true -> i = j.
Proof.
  assert (forall i j ni nj a, (i < j)%nat -> ns !! i = Some ni -> ns !! j = Some nj ->
    net_covers ni a = true -> net_covers nj a = true -> 2 <= zlen (List.filter (fun n => net_covers n a) ns)) as Htwo.
  { intros i j ni nj a Hij Hi Hj Hci Hcj.
    rewrite <- (take_drop j ns), List.filter_app, zlen_app.
    assert (1 <= zlen (List.filter (fun n => net_covers n a) (take j ns))).
    { assert (In ni (List.filter (fun n => net_covers n a) (take j ns))) as Hin.
      { apply List.filter_In. split; [|done]. apply list_elem_of_In, list_elem_of_lookup. exists i.
        by rewrite lookup_take_lt. }
      destruct (List.filter _ (take j ns)); [done|]. rewrite zlen_cons. pose proof (zlen_nonneg l). lia. }
    assert (1 <= zlen (List.filter (fun n => net_covers n a) (drop j ns))).
    { assert (In nj (List.filter (fun n => net_covers n a) (drop j ns))) as Hin.
      { apply List.filter_In. split; [|done]. apply list_elem_of_In, list_elem_of_lookup. exists O.
        by rewrite lookup_drop, Nat.add_0_r. }
      destruct (List.filter _ (drop j ns)); [done|]. rewrite zlen_cons. pose proof (zlen_nonneg l). lia. }
    lia. }
  intros Hd i j ni nj a Hi Hj Ha Hci Hcj. specialize (Hd a Ha).
  destruct (Nat.lt_trichotomy i j) as [H|[H|H]]; [|done|].
  - pose proof (Htwo i j ni nj a H Hi Hj Hci Hcj). lia.
  - pose proof (Htwo j i nj ni a H Hj Hi Hcj Hci). lia.
Qed.

Lemma filter_perm {A} (f : A -> bool) l l' :
  Permutation l l' -> Permutation (List.filter f l) (List.filter f l').
Proof.
  induction 1 as [|x l l' _ IH|x y l|l l' l'' _ IH1 _ IH2]; simpl; [done| | |by rewrite IH1].
  - destruct (f x); by rewrite IH.
  - destruct (f x), (f y); try done. constructor.
Qed.

Lemma disjoint_perm w ns ns' : Permutation ns ns' -> disjoint_nets w ns -> disjoint_nets w ns'.
Proof.
  intros Hp Hd a Ha. specialize (Hd a Ha). unfold zlen in *.
  by rewrite <- (Permutation_length (filter_perm _ _ _ Hp)).
Qed.

Lemma existsb_perm {A} (f : A -> bool) l l' : Permutation l l' -> existsb f l = existsb f l'.
Proof.
  intros Hp. apply eq_true_iff_eq. rewrite !List.existsb_exists.
  split; intros (x & Hx & Hf); exists x; (split; [|done]).
  - by eapply Permutation_in.
  - eapply Permutation_in; [symmetry|]; done.
Qed.

(** ** The bisection *)

(** With a monotone test it finds the last index that passes, or keeps [idx]. *)
Lemma bisect_spec fuel le lo hi idx n :
  (forall i j, 0 <= i <= j -> j < n -> le j = true -> le i = true) ->
  0 <= lo -> hi < n -> idx = lo - 1 -> hi - lo < Z.of_nat fuel - 1 -> lo <= hi + 1 ->
  (forall i, 0 <= i < lo -> le i = true) -> (forall i, hi < i < n -> le i = false) ->
  let r := bisect fuel le lo hi idx in
  -1 <= r < n /\ (forall i, 0 <= i <= r -> le i = true) /\ (forall i, r < i < n -> le i = false).
Proof.
  intros Hmono. revert lo hi idx.
  induction fuel as [|fuel IH]; intros lo hi idx Hlo Hhi Hidx Hfuel Hlh Hlow Hhigh; simpl; [lia|].
  destruct (lo <=? hi) eqn:E; bool_to_prop.
  - set (mid := (lo + hi) / 2).
    assert (lo <= mid <= hi) as Hm.
    { unfold mid. split; [apply Z.div_le_lower_bound; lia|apply Z.div_le_upper_bound; lia]. }
    destruct (le mid) eqn:F.
    + apply IH; try lia; [|done]. intros i Hi. destruct (Z.lt_ge_cases i lo); [apply Hlow; lia|].
      apply (Hmono i mid); [lia..|done].
    + apply IH; try lia; [done|]. intros i Hi. destruct (Z.lt_ge_cases hi i); [apply Hhigh; lia|].
      destruct (le i) eqn:G; [|done]. rewrite (Hmono mid i) in F; [done|lia..|done].
  - subst idx. split; [lia|]. split; intros i Hi; [apply Hlow|apply Hhigh]; lia.
Qed.

Lemma nthZ_lookup l i x : 0 <= i -> l !! Z.to_nat i = Some x -> nthZ l i = x.
Proof. intros Hi Hx. unfold nthZ. by rewrite Hx. Qed.

Lemma nthZ_fst (e : list (Z * Z)) (f : Z * Z -> Z) i x :
  e !! Z.to_nat i = Some x -> nthZ (f <$> e) i = f x.
Proof. intros Hx. unfold nthZ. by rewrite list_lookup_fmap, Hx. Qed.

(** Searching sorted starts and testing the one network found decides
    membership in the union, when the networks are disjoint. *)
Lemma sorted_order (e : list (Z * Z)) i j x y :
  StronglySorted (fun x y => (fst y <? fst x) = false) e ->
  (i <= j)%nat -> e !! i = Some x -> e !! j = Some y -> fst x <= fst y.
Proof.
  intros Hsort. revert i j x y.
  induction Hsort as [|n e Hs IH Hall]; intros i j x y Hij Hx Hy; [done|].
  rewrite Forall_forall in Hall. destruct i as [|i], j as [|j]; simpl in *; try lia.
  - injection Hx as <-. injection Hy as <-. lia.
  - injection Hx as <-. apply list_elem_of_lookup_2, Hall in Hy. bool_to_prop. lia.
  - apply (IH i j x y); [lia|done..].
Qed.

Lemma search_union w (e : list (Z * Z)) (a : Z) :
  Forall (is_network w) e -> disjoint_nets w e ->
  StronglySorted (fun x y => (fst y <? fst x) = false) e -> 0 <= a < 2 ^ w -> e <> [] ->
  let idx := bisect (S (length e)) (fun mid => nthZ (fst <$> e) mid <=? a) 0 (zlen e - 1) (-1) in
  (if idx <? 0 then false else Z.land a (nthZ (snd <$> e) idx) =? nthZ (fst <$> e) idx) =
  existsb (fun n => net_covers n a) e.
Proof.
  intros Hnet Hdis Hsort Ha Hne idx.
  assert (0 < zlen e) as Hpos by (destruct e; [done|]; rewrite zlen_cons; pose proof (zlen_nonneg e); lia).
  pose proof (fun i j x y => sorted_order e i j x y Hsort) as Hord. pose proof (disjoint_index w e Hdis) as Hdj.
  assert (forall i, 0 <= i < zlen e -> exists x, e !! Z.to_nat i = Some x) as Hin.
  { intros i Hi. apply lookup_lt_is_Some. unfold zlen in Hi. lia. }
  pose proof (bisect_spec (S (length e)) (fun mid => nthZ (fst <$> e) mid <=? a) 0 (zlen e - 1) (-1) (zlen e)) as Hbs.
  fold idx in Hbs. destruct Hbs as (Hr & Hle & Hgt); try (unfold zlen in *; lia).
  { intros i j Hij Hj Hlej. apply Z.leb_le in Hlej. apply Z.leb_le.
    destruct (Hin i) as [x Hx]; [lia|]. destruct (Hin j) as [y Hy]; [lia|].
    rewrite (nthZ_fst e fst i x Hx). rewrite (nthZ_fst e fst j y Hy) in Hlej.
    pose proof (Hord (Z.to_nat i) (Z.to_nat j) x y ltac:(lia) Hx Hy). lia. }
  rewrite Forall_forall in Hnet.
  destruct (existsb _ e) eqn:Ex.
  - apply List.existsb_exists in Ex as (x & Hx%list_elem_of_In & Hc).
    destruct (Hnet x Hx) as (k & Hk & Hm & Hs & Hd). apply list_elem_of_lookup in Hx as [j Hj].
    pose proof (proj1 (covers_interval w x a k Hk Hm Hd Ha) Hc) as Hxa.
    assert (Z.of_nat j <= idx) as Hji.
    { apply Z.nlt_ge. intros Hlt. pose proof (lookup_lt_Some _ _ _ Hj).
      specialize (Hgt (Z.of_nat j)). unfold zlen in Hgt. specialize (Hgt ltac:(lia)). apply Z.leb_gt in Hgt.
      rewrite (nthZ_fst e fst (Z.of_nat j) x) in Hgt by (by rewrite Nat2Z.id). lia. }
    rewrite (proj2 (Z.ltb_ge _ _)) by lia. destruct (Hin idx) as [y Hy]; [lia|].
    rewrite (nthZ_fst e snd idx y Hy), (nthZ_fst e fst idx y Hy).
    assert (net_covers y a = true) as Hya; [|exact Hya].
    pose proof (Hle idx ltac:(lia)) as Hyle. apply Z.leb_le in Hyle. rewrite (nthZ_fst e fst idx y Hy) in Hyle.
    destruct (Hnet y (list_elem_of_lookup_2 _ _ _ Hy)) as (k' & Hk' & Hm' & Hs' & Hd').
    pose proof (Hord j (Z.to_nat idx) x y ltac:(lia) Hj Hy) as Hxy.
    assert (j = Z.to_nat idx) as ->; [|congruence].
    apply (Hdj j (Z.to_nat idx) x y (fst y) Hj Hy Hs').
    + apply (covers_interval w x (fst y) k Hk Hm Hd Hs'). lia.
    + apply (covers_interval w y (fst y) k' Hk' Hm' Hd' Hs'). lia.
  - destruct (idx <? 0) eqn:E; [done|]. bool_to_prop. destruct (Hin idx) as [y Hy]; [lia|].
    rewrite (nthZ_fst e snd idx y Hy), (nthZ_fst e fst idx y Hy).
    destruct (_ =? _) eqn:F; [|done]. rewrite <- Ex. symmetry. apply List.existsb_exists.
    exists y. split; [apply list_elem_of_In; by eapply list_elem_of_lookup_2|exact F].
Qed.

(** ** IPv6: byte arrays as numbers *)

Lemma land_bounds a b : 0 <= a -> 0 <= b -> 0 <= Z.land a b <= a.
Proof.
  intros Ha Hb. split; [apply Z.land_nonneg; by left|].
  destruct a as [|p|p]; [done| |lia]. destruct b as [|q|q]; [done| |lia].
  change (Z.land (Zpos p) (Zpos q)) with (Z.of_N (N.land (Npos p) (Npos q))).
  pose proof (N.land_le_l (Npos p) (Npos q)). lia.
Qed.

Lemma b2z_and a b : b2z (byte_and a b) = Z.land (b2z a) (b2z b).
Proof.
  unfold byte_and. rewrite b2z_z2b. apply Z.mod_small. pose proof (b2z_range a). pose proof (b2z_range b).
  pose proof (land_bounds (b2z a) (b2z b)). lia.
Qed.

Lemma land_shift_add x y u v n :
  0 <= n -> 0 <= u < 2 ^ n -> 0 <= v < 2 ^ n ->
  Z.land (x * 2 ^ n + u) (y * 2 ^ n + v) = Z.land x y * 2 ^ n + Z.land u v.
Proof.
  intros Hn Hu Hv. assert (0 <= Z.land u v < 2 ^ n).
  { pose proof (land_bounds u v). lia. }
  apply Z.bits_inj'. intros k Hk. rewrite Z.land_spec, !mul_add_testbit by lia.
  destruct (k <? n); by rewrite Z.land_spec.
Qed.

Lemma pow256_bits n : 256 ^ Z.of_nat n = 2 ^ (8 * Z.of_nat n).
Proof. by rewrite Z.pow_mul_r by lia. Qed.

(** The byte loop is the mask test on the numbers. *)
Lemma masked_eq_val addr mask start :
  length mask = length addr -> length start = length addr ->
  masked_eq addr mask start = (Z.land (be_get addr) (be_get mask) =? be_get start).
Proof.
  revert mask start. induction addr as [|a addr IH]; intros [|m mask] [|s start]; try discriminate; [done|].
  intros [= Hm] [= Hs]. cbn [masked_eq]. rewrite IH, !be_get_cons by done.
  pose proof (be_get_range addr) as Ra. pose proof (be_get_range mask) as Rm. pose proof (be_get_range start) as Rs.
  unfold zlen in *. rewrite Hm in *. rewrite Hs in *. rewrite !pow256_bits in *.
  rewrite land_shift_add by lia.
  assert (0 <= Z.land (be_get addr) (be_get mask) < 2 ^ (8 * Z.of_nat (length addr))) as Rl.
  { pose proof (land_bounds (be_get addr) (be_get mask)). lia. }
  unfold byte_eqb. apply eq_true_iff_eq. rewrite andb_true_iff, bool_decide_eq_true, !Z.eqb_eq. split.
  - intros [<- <-]. by rewrite b2z_and.
  - intros E. rewrite <- b2z_and in E. assert (b2z (byte_and a m) = b2z s) as Eb by nia.
    split; [by apply b2z_inj|nia].
Qed.

Lemma lex_less_val l1 l2 :
  length l1 = length l2 -> lex_less l1 l2 = (be_get l1 <? be_get l2).
Proof.
  intros Hl. rewrite <- bytes_less_val by done.
  revert l2 Hl. induction l1 as [|a l1 IH]; intros [|b l2]; try discriminate; [done|].
  intros [= Hl]. simpl. by rewrite IH.
Qed.

Lemma lex_less_asym a b : lex_less a b = true -> lex_less b a = false.
Proof.
  revert b. induction a as [|x a IH]; intros [|y b]; simpl; try done.
  rewrite (Z.eqb_sym (b2z y)). destruct (_ =? _) eqn:E; bool_to_prop; [apply IH|].
  rewrite Z.ltb_lt, Z.ltb_ge. lia.
Qed.

Lemma lex_less_negtrans x y z : lex_less y x = false -> lex_less z y = false -> lex_less z x = false.
Proof.
  revert y z. induction x as [|a x IH]; intros [|b y] [|c z]; simpl; try done.
  destruct (b2z b =? b2z a) eqn:E1, (b2z c =? b2z b) eqn:E2, (b2z c =? b2z a) eqn:E3; bool_to_prop;
    rewrite ?Z.ltb_ge; try lia. apply IH.
Qed.

Definition num6 (n : bytes * bytes) : Z * Z := (be_get (fst n), be_get (snd n)).

Lemma bisect_ext fuel le le' lo hi idx :
  (forall i, le i = le' i) -> bisect fuel le lo hi idx = bisect fuel le' lo hi idx.
Proof.
  intros E. revert lo hi idx. induction fuel as [|fuel IH]; intros lo hi idx; simpl; [done|].
  destruct (lo <=? hi); [|done]. rewrite E. by destruct (le' ((lo + hi) / 2)).
Qed.

Definition len16 (n : bytes * bytes) : Prop := length (fst n) = 16%nat /\ length (snd n) = 16%nat.

Lemma nthB_num (e : list (bytes * bytes)) (f : bytes * bytes -> bytes) i :
  be_get (nthB (f <$> e) i) = nthZ ((fun n => be_get (f n)) <$> e) i.
Proof. unfold nthB, nthZ. rewrite !list_lookup_fmap. by destruct (e !! _). Qed.

Lemma less_num (e : list (bytes * bytes)) ip i :
  Forall len16 e -> length ip = 16%nat ->
  negb (lex_less ip (nthB (fst <$> e) i)) = (nthZ (fst <$> (num6 <$> e)) i <=? be_get ip).
Proof.
  intros He Hip. rewrite <- list_fmap_compose.
  replace (nthZ (fst ∘ num6 <$> e) i) with (be_get (nthB (fst <$> e) i)) by apply nthB_num.
  unfold nthB. rewrite list_lookup_fmap. destruct (e !! Z.to_nat i) as [x|] eqn:E; simpl.
  - rewrite Forall_forall in He. destruct (He x (list_elem_of_lookup_2 _ _ _ E)) as [Hx _].
    rewrite lex_less_val by congruence. by rewrite Z.leb_antisym.
  - change (be_get []) with 0. pose proof (be_get_range ip). symmetry.
    replace (lex_less ip []) with false by (by destruct ip). apply Z.leb_le. lia.
Qed.

Lemma contains6_union (e : list (bytes * bytes)) s4 m4 ip :
  Forall len16 e -> length ip = 16%nat -> Forall (is_network 128) (num6 <$> e) -> disjoint_nets 128 (num6 <$> e) ->
  StronglySorted (fun x y => (fst y <? fst x) = false) (num6 <$> e) ->
  contains6 (mkCIDRSet s4 m4 (fst <$> e) (snd <$> e)) ip =
  existsb (fun n => net_covers (num6 n) (be_get ip)) e.
Proof.
  intros He Hip Hnet Hdis Hsort. unfold contains6. cbn [starts6 masks6].
  destruct (decide (e = [])) as [->|Hne]; [done|].
  rewrite (proj2 (Z.eqb_neq _ _)) by (destruct e; [done|]; rewrite fmap_cons, zlen_cons;
    pose proof (zlen_nonneg (fst <$> e)); lia).
  assert (length (fst <$> e) = length (num6 <$> e) /\ zlen (fst <$> e) = zlen (num6 <$> e)) as [El Ez].
  { unfold zlen. by rewrite !length_fmap. }
  rewrite El, Ez, (bisect_ext _ _ _ _ _ _ (fun i => less_num e ip i He Hip)).
  assert (0 <= be_get ip < 2 ^ 128) as Hr.
  { pose proof (be_get_range ip) as R. unfold zlen in R. rewrite Hip in R. exact R. }
  pose proof (search_union 128 (num6 <$> e) (be_get ip) Hnet Hdis Hsort Hr ltac:(by destruct e)) as Hs.
  cbv zeta in Hs |- *. set (idx := bisect _ _ _ _ _) in *.
  transitivity (existsb (fun n => net_covers n (be_get ip)) (num6 <$> e)).
  2:{ clear. induction e as [|x e IH]; [done|]. rewrite fmap_cons. cbn [existsb]. by rewrite IH. }
  rewrite <- Hs. destruct (idx <? 0) eqn:E; [done|]. bool_to_prop.
  assert (forall f : bytes * bytes -> bytes, length (nthB (f <$> e) idx) = 16%nat ->
    length (nthB (f <$> e) idx) = length ip) as Hlen by (intros f ->; done).
  destruct (e !! Z.to_nat idx) as [x|] eqn:Ex.
  - rewrite Forall_forall in He. destruct (He x (list_elem_of_lookup_2 _ _ _ Ex)) as [Hx1 Hx2].
    rewrite masked_eq_val by (apply Hlen; unfold nthB; by rewrite list_lookup_fmap, Ex).
    rewrite !nthB_num. by rewrite <- !list_fmap_compose.
  - unfold nthB, nthZ. rewrite !list_lookup_fmap, Ex. simpl. destruct ip; [done|]. simpl. by rewrite Z.land_0_r.
Qed.

(** ** Main results *)

(** What [net.ParseCIDR] documents: the network implied by the prefix, with its
    address and mask of the same length. *)
Definition documented (n : bytes * bytes) : Prop :=
  (length (fst n) = 4%nat /\ length (snd n) = 4%nat /\ is_network 32 (num6 n)) \/
  (length (fst n) = 16%nat /\ length (snd n) = 16%nat /\ is_network 128 (num6 n)).

Section main.
Context `{SliceSort} (parse_cidr : bytes -> option (bytes * bytes)).
Hypothesis parse_documented : forall c n, parse_cidr c = Some n -> documented n.

Lemma entries4_networks cidrs : Forall (is_network 32) (entries4 parse_cidr cidrs).
Proof.
  apply Forall_forall. intros e. unfold entries4. rewrite list_elem_of_omap. intros (c & _ & Hc).
  destruct (parse_cidr c) as [n|] eqn:E; [|done]. simpl in Hc. unfold entry4 in Hc.
  destruct (To4 (fst n)) as [v4|] eqn:E4; [|done]. destruct (zlen (snd n) =? 4) eqn:E5; [|done].
  injection Hc as <-. bool_to_prop. destruct (parse_documented c n E) as [(A & B & C)|(A & B & C)].
  - unfold To4, zlen in E4. rewrite A in E4. injection E4 as <-. exact C.
  - unfold zlen in E5. lia.
Qed.

Lemma entries6_len16 cidrs : Forall len16 (entries6 parse_cidr cidrs) /\
  Forall (is_network 128) (num6 <$> entries6 parse_cidr cidrs).
Proof.
  rewrite Forall_fmap, !Forall_forall.
  assert (forall n, n ∈ entries6 parse_cidr cidrs -> len16 n /\ is_network 128 (num6 n)) as Hall;
    [|split; intros n Hn; by apply Hall].
  intros e. unfold entries6. rewrite list_elem_of_omap. intros (c & _ & Hc).
  destruct (parse_cidr c) as [n|] eqn:E; [|done]. simpl in Hc. unfold entry6 in Hc.
  destruct (entry4 n); [done|]. destruct (_ && _) eqn:F; [|done]. injection Hc as <-. bool_to_prop.
  unfold zlen in *. destruct (parse_documented c n E) as [(A & B & C)|(A & B & C)]; [lia|by split].
Qed.

Lemma sorted_num6 (e : list (bytes * bytes)) :
  Forall len16 e -> StronglySorted (fun x y => lex_less (fst y) (fst x) = false) e ->
  StronglySorted (fun x y => (fst y <? fst x) = false) (num6 <$> e).
Proof.
  intros He Hs. induction Hs as [|x e Hs IH Hall]; [constructor|]. apply Forall_cons in He as [Hx He].
  constructor; [by apply IH|]. apply Forall_fmap. rewrite Forall_forall in *.
  intros y Hy. simpl. rewrite <- lex_less_val; [by apply Hall|].
  destruct (He y Hy), Hx. congruence.
Qed.

(** C32: for disjoint networks, a lookup by bisection answers exactly whether some
    network of the list covers the address, for IPv4 (mapped or not) and IPv6,
    whatever order the texts came in. *)
Theorem cidr_contains_correct (cidrs : list bytes) (ip : bytes)
    (Hip : ip_ok ip)
    (Hd4 : disjoint_nets 32 (entries4 parse_cidr cidrs))
    (Hd6 : disjoint_nets 128 (num6 <$> entries6 parse_cidr cidrs)) :
  Contains (ParseCIDRs parse_cidr cidrs) ip =
  match To4 ip with
  | Some ip4 => existsb (fun n => net_covers n (be_get ip4)) (entries4 parse_cidr cidrs)
  | None => existsb (fun n => net_covers (num6 n) (be_get ip)) (entries6 parse_cidr cidrs)
  end.
Proof.
  unfold Contains, ParseCIDRs. destruct (To4 ip) as [ip4|] eqn:E.
  - set (e4 := entries4 parse_cidr cidrs) in *. set (s4 := sort_slice _ e4).
    assert (Permutation e4 s4) as Hp by apply sort_slice_perm.
    assert (StronglySorted (fun x y => (fst y <? fst x) = false) s4) as Hs.
    { apply (sort_slice_sorted (fun a b : Z * Z => fst a <? fst b)); intros x y *; rewrite ?Z.ltb_lt, ?Z.ltb_ge; lia. }
    rewrite (existsb_perm _ _ _ Hp). unfold contains4. cbn [starts4 masks4].
    destruct (decide (s4 = [])) as [Hn|Hne]; [by rewrite Hn|].
    rewrite (proj2 (Z.eqb_neq _ _)) by (destruct s4; [done|]; rewrite fmap_cons, zlen_cons;
      pose proof (zlen_nonneg (fst <$> s4)); lia).
    replace (length (fst <$> s4)) with (length s4) by (by rewrite length_fmap).
    replace (zlen (fst <$> s4)) with (zlen s4) by (unfold zlen; by rewrite length_fmap).
    apply (search_union 32); [|by eapply disjoint_perm|done| |done].
    + rewrite <- Hp. apply entries4_networks.
    + pose proof (be_get_range ip4) as R. rewrite (to4_length _ _ E) in R. exact R.
  - destruct (to4_none_length ip Hip E) as [Hl _]. rewrite Hl. simpl.
    set (e6 := entries6 parse_cidr cidrs) in *. set (s6 := sort_slice _ e6).
    assert (Permutation e6 s6) as Hp by apply sort_slice_perm.
    destruct (entries6_len16 cidrs) as [Hf Hn]. fold e6 in Hf, Hn.
    rewrite (existsb_perm _ _ _ Hp). apply contains6_union.
    + by rewrite <- Hp.
    + unfold zlen in Hl. lia.
    + by rewrite <- Hp.
    + eapply disjoint_perm; [|exact Hd6]. by rewrite Hp.
    + apply sorted_num6; [by rewrite <- Hp|].
      apply (sort_slice_sorted (fun a b : bytes * bytes => lex_less (fst a) (fst b))); intros x y *;
        [apply lex_less_negtrans|apply lex_less_asym].
Qed.
End main.

(** A parser for the witnesses: the texts are 8-byte IPv4 network descriptions. *)
Definition toy_parse (c : bytes) : option (bytes * bytes) := Some (take 4 c, drop 4 c).

(** 10.0.0.0/8, 11.0.0.0/8 and 10.1.0.0/16. *)
Definition net10 : bytes := [x0a; x00; x00; x00; xff; x00; x00; x00].
Definition net11 : bytes := [x0b; x00; x00; x00; xff; x00; x00; x00].
Definition net10_1 : bytes := [x0a; x01; x00; x00; xff; xff; x00; x00].

Definition toy_parse2 (c : bytes) : option (bytes * bytes) :=
  if bool_decide (c = net10) || bool_decide (c = net11) then toy_parse c else None.

Lemma cidr_contains_correct_witness :
  Contains (@ParseCIDRs insertion_slice_sort toy_parse2 [net11; net10]) [x0a; x02; x00; x01] = true.
Proof.
  rewrite (@cidr_contains_correct insertion_slice_sort toy_parse2); [reflexivity| |by left| |].
  - intros c n. unfold toy_parse2. destruct (_ || _) eqn:E; [|done]. intros [= <-].
    left. apply orb_prop in E as [E|E]; bool_to_prop; subst c; (split; [done|]; split; [done|]);
      (exists 24; split; [lia|]; split; [done|]; split; [by vm_compute|]).
    + by exists 10.
    + by exists 11.
  - intros a Ha.
    assert (entries4 toy_parse2 [net11; net10] = [(184549376, 4278190080); (167772160, 4278190080)]) as ->
      by (vm_compute; reflexivity).
    cbn [List.filter].
    destruct (net_covers (184549376, 4278190080) a) eqn:E1; destruct (net_covers (167772160, 4278190080) a) eqn:E2;
      [|rewrite ?zlen_cons, ?zlen_nil; lia..]. exfalso.
    apply (covers_interval 32 _ a 24) in E1; [|lia|done|by exists 11|done].
    apply (covers_interval 32 _ a 24) in E2; [|lia|done|by exists 10|done]. simpl in *. lia.
  - intros a _.
    assert (num6 <$> entries6 toy_parse2 [net11; net10] = []) as -> by (vm_compute; reflexivity).
    cbn [List.filter]. rewrite zlen_nil. lia.
Defined.

(** Disjointness is needed: with 10.0.0.0/8 and 10.1.0.0/16 both in the set,
    the address 10.2.0.1 is covered by the first network and reported as not
    contained, because only the nearest start below it is tested. *)
Theorem cidr_overlap_misses :
  let s := @ParseCIDRs insertion_slice_sort toy_parse [net10; net10_1] in
  let ip := [x0a; x02; x00; x01] in
  existsb (fun n => net_covers n (be_get ip)) (entries4 toy_parse [net10; net10_1]) = true /\
  Contains s ip = false.
Proof. by vm_compute. Qed.
