(* ===== verification/DialWindow.v ===== *)
(** * DialWindow: the rolling outcome window of a TunnelDialer (tunnel.go)

    [recordDialOutcome], [FailRatio], [classifyDialErr], the retries of [Dial]
    and the traffic RTT average.  Times are nanoseconds.  The code compares
    [float64(fails)/float64(total)] with 0.50 and 0.80; division is correctly
    rounded and the window is short, so the comparisons are those of the exact
    ratio: [2 * fails >= total] and [5 * fails >= 4 * total]. *)
From S2P Require Import Prelude.

Definition dialWinSize : Z := 30 * 1000000000.
Definition dialWinMinSamples : Z := 3.
Definition dialWinMinSpan : Z := 10 * 1000000000.
Definition trafficRTTMinSamples : Z := 5.

Record dialOutcome := mkOutcome { o_at : Z; o_success : bool }.

Record winState := mkWin {
  w_window : list dialOutcome;
  w_firstFired : bool;
  w_dataFired : bool;
  w_lastDataAt : Z
}.

Definition newWin : winState := mkWin [] false false 0.

(** The loop that drops outcomes older than the window. *)
Fixpoint prune (cutoff : Z) (l : list dialOutcome) : list dialOutcome :=
  match l with
  | [] => []
  | o :: l' => if o_at o <? cutoff then prune cutoff l' else l
  end.

Definition count_fails (l : list dialOutcome) : Z :=
  fold_left (fun n o => if negb (o_success o) then n + 1 else n) l 0.

Definition over_first (fails total : Z) : bool := 2 * fails >=? total.
Definition over_data (fails total : Z) : bool := 5 * fails >=? 4 * total.

(** The new state and whether the first-fail and data-fail hooks fire. *)
Definition recordDialOutcome (now : Z) (w : winState) (success : bool) : winState * bool * bool :=
  let lastData := if success then now else w_lastDataAt w in
  let win := prune (now - dialWinSize) (w_window w) ++ [mkOutcome now success] in
  let total := zlen win in
  let fails := count_fails win in
  let winSpan := now - (match win with o :: _ => o_at o | [] => now end) in
  if (total >=? dialWinMinSamples) && (winSpan >=? dialWinMinSpan) then
    let first := over_first fails total in
    let data := over_data fails total in
    (mkWin win first data lastData, first && negb (w_firstFired w), data && negb (w_dataFired w))
  else (mkWin win (w_firstFired w) (w_dataFired w) lastData, false, false).

(** The ratio as a fraction, 0 while there is too little data. *)
Definition FailRatio (now : Z) (w : winState) : (Z * Z) * winState :=
  let win := prune (now - dialWinSize) (w_window w) in
  let w' := mkWin win (w_firstFired w) (w_dataFired w) (w_lastDataAt w) in
  let total := zlen win in
  if total <? dialWinMinSamples then ((0, 1), w')
  else if now - (match win with o :: _ => o_at o | [] => now end) <? dialWinMinSpan then ((0, 1), w')
  else ((count_fails win, total), w').

(** ** Dial attempts *)

(** The errors of [send], by what [errors.As] finds in them. *)
Inductive dial_err := DOk | DHTTP (status : Z) | DOther.

Definition classifyDialErr (now : Z) (w : winState) (e : dial_err) : winState * bool * bool :=
  match e with
  | DOk => recordDialOutcome now w true
  | DHTTP status => if negb (status =? 404) then recordDialOutcome now w true else (w, false, false)
  | DOther => recordDialOutcome now w false
  end.

(** The first probe and up to two more on transport errors; [attempts] are the
    outcomes with the times they are recorded at. *)
Fixpoint dial_retry (n : nat) (w : winState) (last : dial_err) (attempts : list (Z * dial_err))
    : dial_err * winState * nat :=
  match n with
  | O => (last, w, 0%nat)
  | S n =>
    match last with
    | DOther =>
      match attempts with
      | [] => (last, w, 0%nat)
      | (t, e) :: attempts =>
          let '(w, _, _) := classifyDialErr t w e in
          let '(r, w, k) := dial_retry n w e attempts in (r, w, S k)
      end
    | _ => (last, w, 0%nat)
    end
  end.

Definition Dial (w : winState) (attempts : list (Z * dial_err)) : dial_err * winState * nat :=
  match attempts with
  | [] => (DOther, w, 0%nat)
  | (t, e) :: attempts =>
      let '(w, _, _) := classifyDialErr t w e in
      let '(r, w, k) := dial_retry 2 w e attempts in (r, w, S k)
  end.

(** ** Traffic RTT *)

Section rtt.
(** [int64(alpha*float64(d) + (1-alpha)*float64(old))]. *)
Context (ema : Z -> Z -> Z).

Record rttState := mkRTT { rtt_nanos : Z; rtt_count : Z }.

(** The new state and the value given to the update hook, if it is called. *)
Definition recordTrafficRTT (r : rttState) (d : Z) : rttState * option Z :=
  let newVal := if rtt_nanos r =? 0 then d else ema d (rtt_nanos r) in
  let count := rtt_count r + 1 in
  (mkRTT newVal count, if count >=? trafficRTTMinSamples then Some newVal else None).

Definition TrafficRTT (r : rttState) : Z :=
  if rtt_count r <? trafficRTTMinSamples then 0 else rtt_nanos r.
End rtt.

(** ** Lemmas *)

Definition times_sorted (l : list dialOutcome) : Prop := StronglySorted (fun a b => o_at a <= o_at b) l.

Lemma prune_suffix c l : exists d, l = d ++ prune c l /\ Forall (fun o => o_at o < c) d.
Proof.
  induction l as [|o l (d & E & Hd)]; simpl; [by exists []|].
  destruct (o_at o <? c) eqn:F; [|by exists []]. bool_to_prop.
  exists (o :: d). simpl. split; [by rewrite <- E|by constructor].
Qed.

Lemma StronglySorted_suffix {A} (R : A -> A -> Prop) l1 l2 : StronglySorted R (l1 ++ l2) -> StronglySorted R l2.
Proof. induction l1 as [|a l1 IH]; simpl; [done|]. inversion_clear 1. by apply IH. Qed.

Lemma prune_sorted c l : times_sorted l -> times_sorted (prune c l) /\ Forall (fun o => c <= o_at o) (prune c l).
Proof.
  intros Hs. destruct (prune_suffix c l) as (d & E & _). split.
  - rewrite E in Hs. by eapply StronglySorted_suffix.
  - clear d E. induction Hs as [|o l Hs IH Hall]; simpl; [constructor|].
    destruct (o_at o <? c) eqn:F; [done|]. bool_to_prop. constructor; [done|].
    eapply Forall_impl; [exact Hall|]. simpl. intros x Hx. lia.
Qed.

Lemma snoc_sorted l o : times_sorted l -> Forall (fun x => o_at x <= o_at o) l -> times_sorted (l ++ [o]).
Proof.
  intros Hs. induction Hs as [|x l Hs IH Hall]; intros Hf; simpl; [repeat constructor|].
  apply Forall_cons in Hf as [Hx Hf]. constructor; [by apply IH|]. apply Forall_app. split; [done|]. by constructor.
Qed.

(** What holds between outcomes: the window is ordered and recent, and the hard
    tier is only active while the soft one is. *)
Record win_ok (now : Z) (w : winState) : Prop := {
  wok_sorted : times_sorted (w_window w);
  wok_past : Forall (fun o => o_at o <= now) (w_window w);
  wok_tiers : w_dataFired w = true -> w_firstFired w = true
}.

Lemma count_fails_app l1 l2 : count_fails (l1 ++ l2) = count_fails l1 + count_fails l2.
Proof.
  unfold count_fails. rewrite fold_left_app.
  assert (forall l a, fold_left (fun n o => if negb (o_success o) then n + 1 else n) l a =
    a + fold_left (fun n o => if negb (o_success o) then n + 1 else n) l 0) as H.
  { induction l as [|o l IH]; intros a; simpl; [lia|]. destruct (o_success o); simpl; [apply IH|].
    rewrite (IH (a + 1)), (IH (0 + 1)). lia. }
  apply H.
Qed.

Lemma count_fails_range l : 0 <= count_fails l <= zlen l.
Proof.
  induction l as [|o l IH]; [by vm_compute|]. change (o :: l) with ([o] ++ l).
  rewrite count_fails_app, zlen_app. unfold count_fails at 1 3. simpl. change (zlen [o]) with 1.
  destruct (o_success o); simpl; lia.
Qed.

Lemma over_tiers f t : 0 <= f <= t -> over_data f t = true -> over_first f t = true.
Proof. unfold over_data, over_first. rewrite !Z.geb_leb, !Z.leb_le. lia. Qed.

Lemma record_ok now w success now' :
  win_ok now w -> now <= now' -> win_ok now' (recordDialOutcome now' w success).1.1.
Proof.
  intros [Hs Hp Ht] Hle. unfold recordDialOutcome. cbv zeta.
  destruct (prune_sorted (now' - dialWinSize) (w_window w) Hs) as [Hs' _].
  destruct (prune_suffix (now' - dialWinSize) (w_window w)) as (d & E & _).
  assert (Forall (fun o => o_at o <= now') (prune (now' - dialWinSize) (w_window w))) as Hp'.
  { rewrite E in Hp. apply Forall_app in Hp as [_ Hp]. eapply Forall_impl; [exact Hp|]. simpl. lia. }
  set (win := prune _ _ ++ [_]).
  assert (times_sorted win) by (by apply snoc_sorted).
  assert (Forall (fun o => o_at o <= now') win).
  { apply Forall_app. split; [done|]. constructor; [simpl; lia|constructor]. }
  destruct (_ && _); split; simpl; try done. apply over_tiers, count_fails_range.
Qed.

(** Outcomes in the order they are recorded. *)
Definition record_all (w : winState) (l : list (Z * bool)) : winState :=
  fold_left (fun w '(t, s) => (recordDialOutcome t w s).1.1) l w.

Lemma win_ok_later now now' w : win_ok now w -> now <= now' -> win_ok now' w.
Proof.
  intros [Hs Hp Ht] Hle. split; [done| |done]. eapply Forall_impl; [exact Hp|]. simpl. lia.
Qed.

Lemma record_all_ok now w l T :
  win_ok now w -> StronglySorted (fun a b : Z * bool => fst a <= fst b) l ->
  Forall (fun a : Z * bool => now <= fst a <= T) l -> now <= T -> win_ok T (record_all w l).
Proof.
  revert now w. induction l as [|[t s] l IH]; intros now w Hw Hs Hf HT; simpl.
  - by eapply win_ok_later.
  - inversion_clear Hs as [|? ? Hs' Hall]. apply Forall_cons in Hf as [Ht Hf]. simpl in Ht.
    apply (IH t); [eapply record_ok; [done|lia]|done| |lia].
    apply Forall_forall. intros x Hx. rewrite Forall_forall in Hall, Hf.
    specialize (Hall x Hx). specialize (Hf x Hx). simpl in *. lia.
Qed.

(** With a clock that does not go back, the outcome window always holds
    exactly the recent outcomes in order, and the hard tier is active only while
    the soft tier is: a control is never banned for data failure without having
    been evicted for flapping. *)
Theorem dial_window_invariant (l : list (Z * bool)) (t : Z) (success : bool)
    (Hclock : StronglySorted (fun a b : Z * bool => fst a <= fst b) l)
    (Hrange : Forall (fun a : Z * bool => 0 <= fst a <= t) l) (Ht : 0 <= t) :
  let w := record_all newWin (l ++ [(t, success)]) in
  times_sorted (w_window w) /\
  Forall (fun o => t - dialWinSize <= o_at o <= t) (w_window w) /\
  (exists old, w_window w = old ++ [mkOutcome t success]) /\
  (w_dataFired w = true -> w_firstFired w = true).
Proof.
  intros w. assert (win_ok t (record_all newWin l)) as Hl.
  { apply (record_all_ok 0); [|done|done|done]. by split; simpl; [constructor|constructor|]. }
  assert (w = (recordDialOutcome t (record_all newWin l) success).1.1) as Ew.
  { unfold w, record_all. by rewrite fold_left_app. }
  destruct (record_ok t _ success t Hl ltac:(lia)) as [Hs Hp Hd]. rewrite <- Ew in Hs, Hp, Hd.
  assert (w_window w = prune (t - dialWinSize) (w_window (record_all newWin l)) ++ [mkOutcome t success]) as Hw.
  { rewrite Ew. unfold recordDialOutcome. by destruct (_ && _). }
  split; [done|]. split; [|split; [by eexists|done]].
  apply Forall_and. split; [|done]. rewrite Hw. apply Forall_app. split.
  - apply prune_sorted, Hl.
  - constructor; [unfold dialWinSize; simpl; lia|constructor].
Qed.

Lemma dial_window_invariant_witness :
  times_sorted (w_window (record_all newWin ([(0, false); (5, true)] ++ [(40 * 1000000000, false)]))).
Proof.
  apply (dial_window_invariant [(0, false); (5, true)] (40 * 1000000000) false); [|by_decide|lia].
  repeat constructor; simpl; lia.
Defined.

(** The eviction hooks are edge-triggered and guarded: a hook fires exactly
    when, over at least three outcomes spanning at least ten seconds, the failure
    share reaches its threshold (one half; four fifths) and was not already over
    it; a quiet or young control is never evicted. *)
Theorem eviction_hooks_exact (now : Z) (w : winState) (success : bool) :
  let '(w', first, data) := recordDialOutcome now w success in
  let win := w_window w' in
  let judged := dialWinMinSamples <= zlen win /\
    exists o rest, win = o :: rest /\ dialWinMinSpan <= now - o_at o in
  (first = true <-> judged /\ zlen win <= 2 * count_fails win /\ w_firstFired w = false) /\
  (data = true <-> judged /\ 4 * zlen win <= 5 * count_fails win /\ w_dataFired w = false) /\
  (first = true -> w_firstFired w' = true) /\ (data = true -> w_dataFired w' = true).
Proof.
  unfold recordDialOutcome. cbv zeta. set (win := prune _ _ ++ [_]).
  destruct win as [|o rest] eqn:Ewin; [by apply app_nil in Ewin as [_ ?]|]. rewrite <- Ewin.
  assert ((zlen win >=? dialWinMinSamples) && (now - o_at o >=? dialWinMinSpan) = true <->
    dialWinMinSamples <= zlen win /\ exists o rest, win = o :: rest /\ dialWinMinSpan <= now - o_at o) as Hj.
  { rewrite andb_true_iff, !Z.geb_leb, !Z.leb_le. split.
    - intros [A B]. eauto.
    - intros (A & o' & r' & E & B). rewrite Ewin in E. by injection E as <- <-. }
  unfold over_first, over_data. rewrite Ewin in *. destruct (_ && _); simpl.
  - rewrite !andb_true_iff, !negb_true_iff, !Z.geb_leb, !Z.leb_le. tauto.
  - split; [|split; [|done]]; (split; [done|]); intros (A & _); apply Hj in A; done.
Qed.

(** [FailRatio] reports the share the eviction decision was based on: read
    at the time of the last outcome it gives the failures and the size of the
    window the hooks were judged on, and 0 while they were not judged. *)
Theorem fail_ratio_agrees (now : Z) (w : winState) (success : bool) (now0 : Z)
    (Hok : win_ok now0 w) (Hnow : now0 <= now) :
  let '(w', first, data) := recordDialOutcome now w success in
  let '((f, t), w'') := FailRatio now w' in
  w'' = w' /\ 0 <= f <= t /\ 0 < t /\
  (first = true -> t <= 2 * f) /\ (data = true -> 4 * t <= 5 * f).
Proof.
  pose proof (record_ok now0 w success now Hok Hnow) as Hw'.
  unfold recordDialOutcome in *. cbv zeta in *. set (win := prune _ _ ++ [_]) in *.
  assert (prune (now - dialWinSize) win = win) as Hid.
  { assert (Forall (fun o => now - dialWinSize <= o_at o) win) as Hf.
    { apply Forall_app. split; [apply prune_sorted, Hok|]. constructor; [unfold dialWinSize; simpl; lia|constructor]. }
    destruct win as [|o r]; [done|]. apply Forall_cons in Hf as [Ho _]. simpl. by rewrite (proj2 (Z.ltb_ge _ _)). }
  pose proof (count_fails_range win). assert (0 < zlen win) as Hpos.
  { unfold win. rewrite zlen_app. change (zlen [_]) with 1. pose proof (zlen_nonneg (prune (now - dialWinSize) (w_window w))). lia. }
  unfold FailRatio, over_first, over_data.
  destruct (_ && _) eqn:E; cbn [w_window w_firstFired w_dataFired w_lastDataAt]; rewrite Hid.
  - bool_to_prop. rewrite Z.geb_leb in *. bool_to_prop.
    rewrite !(proj2 (Z.ltb_ge _ _)) by done. split; [done|]. split; [done|]. split; [done|].
    rewrite !andb_true_iff, !Z.geb_leb, !Z.leb_le. tauto.
  - destruct (_ <? dialWinMinSamples) eqn:F; [split; [done|]; split; [lia|]; split; [lia|]; done|].
    destruct (_ <? dialWinMinSpan) eqn:G; [split; [done|]; split; [lia|]; split; [lia|]; done|].
    exfalso. bool_to_prop. rewrite !Z.geb_leb in E. rewrite !(proj2 (Z.leb_le _ _)) in E by done. done.
Qed.

Lemma fail_ratio_agrees_witness :
  let w := record_all newWin [(0, false); (1, false)] in
  let '(w', first, data) := recordDialOutcome (10 * 1000000000) w false in
  let '((f, t), w'') := FailRatio (10 * 1000000000) w' in (f, t) = (3, 3) /\ 0 < t.
Proof.
  pose proof (fail_ratio_agrees (10 * 1000000000) (record_all newWin [(0, false); (1, false)]) false 1) as H.
  split; [reflexivity|].
  assert (win_ok 1 (record_all newWin [(0, false); (1, false)])) as Hw.
  { apply (record_all_ok 0); [by split; simpl; [constructor|constructor|]|repeat constructor; simpl; lia| |lia].
    by_decide. }
  destruct (H Hw ltac:(lia)) as (_ & _ & Ht & _). exact Ht.
Defined.

(** [Dial] makes at most three probes: it stops at the first success or HTTP
    answer, retries only transport errors, and every probe it makes is accounted
    for in the window (an HTTP 404 as neutral). *)
Theorem dial_retries_bounded (w : winState) (attempts : list (Z * dial_err)) :
  let '(r, w', k) := Dial w attempts in
  (k <= 3)%nat /\ (k <= length attempts)%nat /\
  w' = fold_left (fun w '(t, e) => (classifyDialErr t w e).1.1) (take k attempts) w /\
  (forall i t e, (S i < k)%nat -> attempts !! i = Some (t, e) -> e = DOther) /\
  (k = 3%nat \/ k = length attempts \/ r <> DOther) /\
  (attempts <> [] -> exists t, attempts !! pred k = Some (t, r)).
Proof.
  assert (forall n w last attempts, let '(r, w', k) := dial_retry n w last attempts in
    (k <= n)%nat /\ (k <= length attempts)%nat /\
    w' = fold_left (fun w '(t, e) => (classifyDialErr t w e).1.1) (take k attempts) w /\
    (forall i t e, (S i < k)%nat -> attempts !! i = Some (t, e) -> e = DOther) /\
    (k = n \/ k = length attempts \/ r <> DOther) /\
    (k = O -> r = last) /\ ((0 < k)%nat -> last = DOther) /\
    ((0 < k)%nat -> exists t', attempts !! pred k = Some (t', r))) as Hr.
  { induction n as [|n IH]; intros w0 last l; simpl.
    { split; [lia|]. split; [lia|]. split; [done|]. split; [intros; lia|]. split; [by left|]. split; [done|].
      split; intros; lia. }
    destruct last; [by repeat split; intros; try lia; try done; right; right|
      by repeat split; intros; try lia; try done; right; right|].
    destruct l as [|[t e] l]; [repeat split; intros; try lia; try done; by right; left|].
    destruct (classifyDialErr t w0 e) as [[w1 f1] d1] eqn:Ec.
    specialize (IH w1 e l). destruct (dial_retry n w1 e l) as [[r w2] k].
    destruct IH as (A & B & C & D & E & F & G & H'). simpl. rewrite Ec. simpl.
    split; [lia|]. split; [lia|]. split; [done|]. split; [|split; [|split; [lia|split; [done|]]]].
    - intros [|i] t' e' Hi; simpl; [|intros; eapply (D i); [lia|done]]. intros [= <- <-]. apply G. lia.
    - destruct E as [->|[->|E]]; [by left|by right; left|by right; right].
    - intros _. destruct k as [|k]; [exists t; simpl; by rewrite F|]. apply H'. lia. }
  unfold Dial. destruct attempts as [|[t e] l].
  { repeat split; intros; try (simpl in *; lia); try done; by right; left. }
  destruct (classifyDialErr t w e) as [[w1 f1] d1] eqn:Ec.
  specialize (Hr 2%nat w1 e l). destruct (dial_retry 2 w1 e l) as [[r w2] k].
  destruct Hr as (A & B & C & D & E & F & G & H'). simpl. rewrite Ec. simpl.
  split; [lia|]. split; [lia|]. split; [done|]. split; [|split].
  - intros [|i] t' e' Hi; simpl; [|intros; eapply (D i); [lia|done]]. intros [= <- <-]. apply G. lia.
  - destruct E as [->|[->|E]]; [by left|by right; left|by right; right].
  - intros _. destruct k as [|k]; [exists t; by rewrite F|]. apply H'. lia.
Qed.

(** ** The traffic RTT *)

Section rtt_bounds.
Context (ema : Z -> Z -> Z) (lo hi : Z).
(** The average of two durations lies between them. *)
Hypothesis ema_between : forall d old, lo <= d <= hi -> lo <= old <= hi -> lo <= ema d old <= hi.

(** The published RTT is 0 until five samples are in, and from then on it
    stays within the range of the samples; the hook is called with the value
    that is published. *)
Theorem traffic_rtt_bounds (samples : list Z) (d : Z)
    (Hlo : 0 < lo) (Hs : Forall (fun d => lo <= d <= hi) (samples ++ [d])) :
  let r := fold_left (fun r d => (recordTrafficRTT ema r d).1) samples (mkRTT 0 0) in
  let '(r', hook) := recordTrafficRTT ema r d in
  TrafficRTT r' = default 0 hook /\
  (zlen samples + 1 < trafficRTTMinSamples -> TrafficRTT r' = 0) /\
  (trafficRTTMinSamples <= zlen samples + 1 -> lo <= TrafficRTT r' <= hi).
Proof.
  apply Forall_app in Hs as [Hs [Hd _]%Forall_cons]. intros r.
  assert (rtt_count r = zlen samples /\ (rtt_nanos r = 0 \/ lo <= rtt_nanos r <= hi)) as [Hc Hn].
  { unfold r. clear r. induction samples as [|x l IH] using rev_ind; [simpl; auto|].
    apply Forall_app in Hs as [Hs [Hx _]%Forall_cons]. rewrite fold_left_app.
    cbn [fold_left]. set (r0 := fold_left _ l _) in *. destruct (IH Hs) as [Hc Hn].
    unfold recordTrafficRTT. cbn [fst rtt_count rtt_nanos]. rewrite Hc, zlen_app. split; [done|]. right.
    destruct (_ =? 0) eqn:E; [done|]. bool_to_prop. destruct Hn; [lia|]. by apply ema_between. }
  unfold recordTrafficRTT, TrafficRTT. cbn [rtt_count rtt_nanos]. rewrite Hc.
  set (v := if rtt_nanos r =? 0 then d else ema d (rtt_nanos r)).
  assert (lo <= v <= hi) as Hv.
  { unfold v. destruct (_ =? 0) eqn:E; [done|]. bool_to_prop. destruct Hn; [lia|]. by apply ema_between. }
  rewrite Z.geb_leb. destruct (trafficRTTMinSamples <=? zlen samples + 1) eqn:E; bool_to_prop.
  - rewrite (proj2 (Z.ltb_ge _ _)) by done. simpl. split; [done|]. split; [lia|done].
  - rewrite (proj2 (Z.ltb_lt _ _)) by done. simpl. split; [done|]. split; [done|lia].
Qed.
End rtt_bounds.

Lemma traffic_rtt_bounds_witness :
  let r := fold_left (fun r d => (recordTrafficRTT (fun a b => (a + b) / 2) r d).1) [10; 20; 10; 20] (mkRTT 0 0) in
  10 <= TrafficRTT (recordTrafficRTT (fun a b => (a + b) / 2) r 20).1 <= 20.
Proof.
  apply (traffic_rtt_bounds (fun a b => (a + b) / 2) 10 20) with (samples := [10; 20; 10; 20]) (d := 20).
  - intros d old Hd Ho. split; [apply Z.div_le_lower_bound; lia|apply Z.div_le_upper_bound; lia].
  - lia.
  - by_decide.
  - by vm_compute.
Defined.
