(* ===== verification/Auth.v ===== *)
(** * Auth: login, token refresh and the authenticated POST (tunnel.go)

    What the network and the JSON decoder deliver is an argument: an HTTP
    exchange is [None] when the transport failed and [Some (status, body)]
    otherwise.  The two login methods run in parallel; [Login] receives their
    results in arrival order. *)
From S2P Require Import Prelude Encoding Env TunnelWire.

(** The error classes [errors.Is] tells apart. *)
Inductive auth_class := Rejected | Transient | Unclassified.
#[global] Instance auth_class_eq : EqDecision auth_class. Proof. solve_decision. Defined.

Record auth_error := mkAuthError { ae_class : auth_class; ae_text : bytes }.

(** [strings.Contains]. *)
Fixpoint contains (s sub : bytes) : bool :=
  bool_decide (take (length sub) s = sub) ||
  match s with [] => false | _ :: s' => contains s' sub end.

(** [transient] is what decoding the body's "transient" field gives. *)
Definition classifyAuthError (status : Z) (raw : bytes) (transient : bool) : auth_error :=
  if (status =? 503) && transient then mkAuthError Transient raw else mkAuthError Rejected raw.

Section exchange.
(** What decoding a 200 answer gives: [None] when it is not JSON, else the
    session token found in it ([[]] when there is none). *)
Context (parse_session : bytes -> option bytes) (parse_transient : bytes -> bool).

Definition http_exchange := option (Z * bytes).

(** The common part of [doKeyAuth] and [doPasswordAuth] after the request. *)
Definition auth_response (ex : http_exchange) : bytes + auth_error :=
  match ex with
  | None => inr (mkAuthError Unclassified [])
  | Some (status, raw) =>
    if negb (status =? 200) then inr (classifyAuthError status raw (parse_transient raw))
    else match parse_session raw with
    | None => inr (mkAuthError Rejected raw)
    | Some tok => if bool_decide (tok = []) then inr (mkAuthError Rejected raw) else inl tok
    end
  end.

(** [tryAuthViaControlCache]: nothing distinguishes its errors. *)
Definition tryAuthViaControlCache (deviceID : bytes) (ex : http_exchange) : option bytes :=
  if bool_decide (deviceID = []) then None else
  match ex with
  | None => None
  | Some (status, raw) =>
    if negb (status =? 200) then None
    else match parse_session raw with
    | None => None
    | Some tok => if bool_decide (tok = []) then None else Some tok
    end
  end.

(** [sendAuthViaUDP]: [ex] is what the relay's [RoundTrip] gave; the status is
    not looked at. *)
Definition sendAuthViaUDP (ex : http_exchange) : bytes + auth_error :=
  match ex with
  | None => inr (mkAuthError Unclassified [])
  | Some (_, raw) =>
    match parse_session raw with
    | None => inr (mkAuthError Rejected raw)
    | Some tok => if bool_decide (tok = []) then inr (mkAuthError Rejected raw) else inl tok
    end
  end.
End exchange.

(** ** Login *)

Record Authenticator := mkAuth {
  a_token : bytes;
  a_keyAuth : bool;
  a_password : bytes;
  a_deviceID : bytes
}.

Definition with_token (a : Authenticator) (t : bytes) : Authenticator :=
  mkAuth t (a_keyAuth a) (a_password a) (a_deviceID a).

(** How many methods [Login] launches. *)
Definition methods (a : Authenticator) : nat :=
  ((if a_keyAuth a then 1 else 0) + (if bool_decide (a_password a = []) then 0 else 1))%nat.

(** The loop over the arriving results: the first token, or the classes seen. *)
Fixpoint collect (rs : list (bytes + auth_error)) (rej tra : bool) : bytes + (bool * bool) :=
  match rs with
  | [] => inr (rej, tra)
  | inl tok :: _ => inl tok
  | inr e :: rs =>
    match ae_class e with
    | Rejected => collect rs true tra
    | Transient => collect rs rej true
    | Unclassified => collect rs rej tra
    end
  end.

(** [arrivals] are the results of the launched methods in arrival order, [cache]
    the outcome of the control-cache fallback if it is asked. *)
Definition Login (a : Authenticator) (arrivals : list (bytes + auth_error)) (cache : option bytes)
    : Authenticator * option auth_class :=
  if Nat.eqb (methods a) 0 then (a, Some Unclassified) else
  match collect (take (methods a) arrivals) false false with
  | inl tok => (with_token a tok, None)
  | inr (rej, tra) =>
    let failed := (a, Some (if rej : bool then Rejected else if tra : bool then Transient else Unclassified)) in
    if tra && negb rej then
      match cache with Some tok => (with_token a tok, None) | None => failed end
    else failed
  end.

(** The same over the UDP relay: no transient class and no cache. *)
Definition LoginViaUDP (a : Authenticator) (arrivals : list (bytes + auth_error))
    : Authenticator * option auth_class :=
  if Nat.eqb (methods a) 0 then (a, Some Unclassified) else
  match collect (take (methods a) arrivals) false false with
  | inl tok => (with_token a tok, None)
  | inr (rej, _) => (a, Some (if rej : bool then Rejected else Unclassified))
  end.

(** ** refreshToken *)

(** The needles are matched with their surrounding double quotes. *)
Definition quoted (s : bytes) : bytes := [x22] ++ s ++ [x22].

Definition isAuthRejection (e : auth_error) : bool :=
  contains (ae_text e) (quoted (str "invalid credentials")) || contains (ae_text e) (quoted (str "key expired")).

Definition second : Z := 1000000000.
Definition authRejectWindow : Z := 180 * second.
Definition serverErrorWindow : Z := 10800 * second.

(** One pass of the loop: what [Login] gave (the stored token or an error), the
    clock after it, and the token found after the sleep (another goroutine may
    have refreshed it). *)
Record attempt := mkAttempt { at_result : bytes + auth_error; at_now : Z; at_token : bytes }.

Inductive refresh_result :=
| RDone (warned recovered : bool)          (* nil was returned *)
| RFatal                                   (* the error; the warning and fatal hooks have fired *)
| RRunning                                 (* more passes are needed *)
| RPanic.
#[global] Instance refresh_result_eq : EqDecision refresh_result. Proof. solve_decision. Defined.

(** Returns the sleeps taken and how it ended.  A success logs [token[:8]]. *)
Fixpoint refresh_loop (badToken : bytes) (serverDeadline : Z) (rejectDeadline : option Z) (backoff : Z)
    (warned : bool) (atts : list attempt) : list Z * refresh_result :=
  match atts with
  | [] => ([], RRunning)
  | att :: atts =>
    match at_result att with
    | inl tok => ([], match slice tok 0 8 with Ok _ => RDone warned warned | _ => RPanic end)
    | inr e =>
      let now := at_now att in
      let continue rd warned :=
        if bool_decide (at_token att = badToken) then
          let r := refresh_loop badToken serverDeadline rd
                     (if backoff <? 30 * second then 2 * backoff else backoff) warned atts in
          (backoff :: r.1, r.2)
        else ([backoff], RDone warned false) in
      if isAuthRejection e then
        let rd := match rejectDeadline with Some d => d | None => now + authRejectWindow end in
        if now >? rd then ([], RFatal) else continue (Some rd) true
      else if now >? serverDeadline then ([], RFatal)
      else continue rejectDeadline warned
    end
  end.

Definition refreshToken (token badToken : bytes) (start : Z) (atts : list attempt) : list Z * refresh_result :=
  if negb (bool_decide (token = badToken)) then ([], RDone false false)
  else match slice badToken 0 8 with       (* the log line prints badToken[:8] *)
  | Ok _ => refresh_loop badToken (start + serverErrorWindow) None (5 * second) false atts
  | _ => ([], RPanic)
  end.

(** The token in place when the loop ends without an error: the one [Login] stored or the
    one found after a sleep. *)
Fixpoint left_token (badToken : bytes) (atts : list attempt) : bytes :=
  match atts with
  | [] => badToken
  | att :: atts =>
    match at_result att with
    | inl tok => tok
    | inr _ => if bool_decide (at_token att = badToken) then left_token badToken atts else at_token att
    end
  end.

(** The world of one call of [refreshToken]: the token another goroutine has stored
    meanwhile, if any, the clock and the passes of the loop. *)
Record reauth_world := mkReauth { ra_stored : option bytes; ra_start : Z; ra_passes : list attempt }.

(** How a re-authentication ends for its caller; [Running]: there are not enough passes. *)
Inductive refresh_end := Refreshed (token : bytes) | GaveUp | Running | Panicked.

Definition re_auth (w : reauth_world) (badToken : bytes) : refresh_end :=
  let token := default badToken (ra_stored w) in
  match (refreshToken token badToken (ra_start w) (ra_passes w)).2 with
  | RDone _ _ => Refreshed (if bool_decide (token = badToken) then left_token badToken (ra_passes w) else token)
  | RFatal => GaveUp
  | RRunning => Running
  | RPanic => Panicked
  end.

(** ** doPost *)

Inductive post_error := PSeal | PTransport | PHTTP (status : Z) | PReauth | PParse | PPanic.

(** What a POST makes happen, in order. *)
Inductive post_event :=
| EvActivity                                          (* the activity hook *)
| EvUdpFailed                                         (* the UDP-failed hook *)
| EvSend (udp : bool) (path token body : bytes)       (* a request leaves *)
| EvRTT (d : Z).                                      (* a traffic RTT sample *)

(** The dialer's state this code reads and writes. *)
Record post_state := mkPost { ps_token : bytes; ps_udpHook : bool }.

(** The world of one call: the nonce, the UDP relay ([None] when there is none,
    else whether it has failed), the two transports (the inner [None]: reading
    the body failed), the measured time, and the world of its re-authentication. *)
Record post_env := mkPEnv {
  pe_rnd : option bytes;
  pe_relay : option bool;
  pe_udp : bytes -> bytes -> bytes -> option (Z * bytes);
  pe_http : bytes -> bytes -> bytes -> option (Z * option bytes);
  pe_elapsed : Z;
  pe_reauth : reauth_world
}.
Definition pe_refresh (env : post_env) (badToken : bytes) : refresh_end := re_auth (pe_reauth env) badToken.

Section post.
Context `{AEAD}.

Definition parse_result (key raw : bytes) : bytes + post_error :=
  match parseResponse key raw with Ok d => inl d | Err _ => inr PParse | Panic => inr PPanic end.

Definition should_retry (allowRetry retryOn404 : bool) (status : Z) : bool :=
  allowRetry && ((status =? 401) || ((status =? 404) && retryOn404)).

(** The transport taken: the relay unless there is none or it has failed.  A
    failed relay fires its hook, once. *)
Definition choose (env : post_env) (d : post_state) : post_state * list post_event * bool :=
  match pe_relay env with
  | None => (d, [EvActivity], false)
  | Some true =>
    (mkPost (ps_token d) false, if ps_udpHook d then [EvActivity; EvUdpFailed] else [EvActivity], false)
  | Some false => (d, [EvActivity], true)
  end.

Definition exchange (env : post_env) (udp : bool) (path token body : bytes) : option (Z * option bytes) :=
  if udp then match pe_udp env path token body with Some (st, raw) => Some (st, Some raw) | None => None end
  else pe_http env path token body.

(** One environment per (recursive) call; [None] when they, or the passes of a
    re-authentication, run out.  The two transports are handled alike, but only HTTP is
    timed. *)
Fixpoint doPost (envs : list post_env) (d : post_state) (path plaintext : bytes) (allowRetry retryOn404 : bool)
    : option (post_state * (bytes + post_error) * list post_event) :=
  match envs with
  | [] => None
  | env :: envs =>
    let token := ps_token d in
    let key := sessionKey token in
    match sealFrame (pe_rnd env) key plaintext with
    | Ok body =>
      let '(d, evs0, udp) := choose env d in
      let evs := evs0 ++ [EvSend udp path token body] in
      match exchange env udp path token body with
      | None => Some (d, inr PTransport, evs)
      | Some (status, raw) =>
        if should_retry allowRetry retryOn404 status then
          match pe_refresh env token with
          | GaveUp => Some (d, inr PReauth, evs)
          | Panicked => Some (d, inr PPanic, evs)
          | Running => None
          | Refreshed token2 =>
            match doPost envs (mkPost token2 (ps_udpHook d)) path plaintext false retryOn404 with
            | Some (d', r, evs') => Some (d', r, evs ++ evs')
            | None => None
            end
          end
        else if negb (status =? 200) then Some (d, inr (PHTTP status), evs)
        else match raw with
        | None => Some (d, inr PTransport, evs)
        | Some raw => Some (d, parse_result key raw, evs ++ (if udp then [] else [EvRTT (pe_elapsed env)]))
        end
      end
    | _ => Some (d, inr PSeal, [EvActivity])
    end
  end.
End post.

(** ** Properties of login *)

Definition succeeds (r : bytes + auth_error) : bool := match r with inl _ => true | inr _ => false end.
Definition of_class (c : auth_class) (r : bytes + auth_error) : bool :=
  match r with inl _ => false | inr e => bool_decide (ae_class e = c) end.

Lemma collect_spec rs rej tra :
  match collect rs rej tra with
  | inl tok => inl tok ∈ rs
  | inr (rej', tra') => existsb succeeds rs = false /\
      rej' = rej || existsb (of_class Rejected) rs /\ tra' = tra || existsb (of_class Transient) rs
  end.
Proof.
  revert rej tra. induction rs as [|[tok|e] rs IH]; intros rej tra; simpl; [by rewrite !orb_false_r|by left|].
  destruct (ae_class e) eqn:E;
    match goal with |- context [collect rs ?a ?b] => specialize (IH a b); destruct (collect rs a b) as [t|[r' t']] end;
    try (by right); destruct IH as (A & -> & ->); split; try done; by destruct rej, tra.
Qed.

(** The outcome of [Login] as a function of which classes of results arrived. *)
Lemma login_spec a cache l :
  methods a <> 0%nat -> length l = methods a ->
  let '(a', err) := Login a l cache in
  let rej := existsb (of_class Rejected) l in
  let tra := existsb (of_class Transient) l in
  let ok := existsb succeeds l in
  err = (if ok then None else if tra && negb rej && bool_decide (is_Some cache) then None
         else Some (if rej then Rejected else if tra then Transient else Unclassified)) /\
  (err = None -> inl (a_token a') ∈ l \/ cache = Some (a_token a')) /\ (err <> None -> a' = a).
Proof.
  intros Hpos Hlen. unfold Login. rewrite (proj2 (Nat.eqb_neq _ _)) by done. rewrite take_ge by lia.
  pose proof (collect_spec l false false) as Hc. destruct (collect l false false) as [tok|[r t]].
  - assert (existsb succeeds l = true) as ->.
    { apply List.existsb_exists. exists (inl tok). split; [by apply list_elem_of_In|done]. }
    split; [done|]. split; [by left|done].
  - destruct Hc as (-> & -> & ->). simpl. destruct (_ && _) eqn:E; [|done].
    destruct cache as [tok|]; simpl; [split; [done|]; split; [by right|done]|done].
Qed.

Lemma login_existsb_perm {A} (f : A -> bool) l l' : Permutation l l' -> existsb f l = existsb f l'.
Proof.
  intros Hp. apply eq_true_iff_eq. rewrite !List.existsb_exists.
  split; intros (x & Hx & Hf); exists x; (split; [|done]); (eapply Permutation_in; [|exact Hx]); [done|by symmetry].
Qed.

(** [Login] stores a token exactly when some method succeeded, or, when none
    was refused and one found the arbiter briefly away, when the control's cache
    had a login; otherwise the token is unchanged and the error is "rejected" if
    any method was refused, "transient" if none was but one was transient.  The
    outcome class does not depend on which method answered first. *)
Theorem login_outcome (a : Authenticator) (arrivals : list (bytes + auth_error)) (cache : option bytes)
    (Hn : length arrivals = methods a) (Hpos : methods a <> 0%nat) :
  let rej := existsb (of_class Rejected) arrivals in
  let tra := existsb (of_class Transient) arrivals in
  let ok := existsb succeeds arrivals in
  let '(a', err) := Login a arrivals cache in
  (err = None <-> ok = true \/ (rej = false /\ tra = true /\ is_Some cache)) /\
  (err = None -> inl (a_token a') ∈ arrivals \/ cache = Some (a_token a')) /\
  (err <> None -> a' = a /\ err = Some (if rej then Rejected else if tra then Transient else Unclassified)) /\
  (forall arrivals', Permutation arrivals arrivals' -> (Login a arrivals' cache).2 = err).
Proof.
  intros rej tra ok. pose proof (login_spec a cache arrivals Hpos Hn) as H0. destruct (Login a arrivals cache) as [a' err].
  destruct H0 as (He & Htok & Hkeep). fold rej tra ok in He. split; [|split; [done|split]].
  - rewrite He. destruct ok; [naive_solver|]. destruct rej, tra; simpl; case_bool_decide; naive_solver.
  - intros Hne. split; [by apply Hkeep|]. destruct ok; [done|]. by destruct (_ && _).
  - intros l Hp. pose proof (login_spec a cache l Hpos ltac:(rewrite <- Hp; done)) as Hl. destruct (Login a l cache) as [a2 err2].
    destruct Hl as (-> & _). simpl. rewrite He. unfold ok, rej, tra. by rewrite !(login_existsb_perm _ _ _ Hp).
Qed.

Lemma login_outcome_witness :
  let a := mkAuth [] true (str "pw") (str "dev") in
  (Login a [inr (mkAuthError Transient []); inr (mkAuthError Unclassified [])] (Some (str "t"))).2 = None.
Proof.
  intros a.
  pose proof (login_outcome a [inr (mkAuthError Transient []); inr (mkAuthError Unclassified [])] (Some (str "t"))
    eq_refl ltac:(done)) as H.
  destruct (Login a _ _) as [a' err]. apply H. right. repeat split. by eexists.
Defined.

(** Over HTTP an arbiter that is briefly away (503 with "transient": true)
    is reported as transient, so that the caller retries; the same answer over
    the UDP relay is reported as a rejection of the credentials, whatever the
    status says. *)
Theorem udp_login_drops_transient (parse_session : bytes -> option bytes) (parse_transient : bytes -> bool)
    (a : Authenticator) (raw : bytes)
    (Hm : methods a = 1%nat) (Ht : parse_transient raw = true) (Hs : parse_session raw = Some []) :
  let answer := Some (503, raw) in
  (Login a [auth_response parse_session parse_transient answer] None).2 = Some Transient /\
  (LoginViaUDP a [sendAuthViaUDP parse_session answer]).2 = Some Rejected.
Proof.
  simpl. unfold classifyAuthError, Login, LoginViaUDP. rewrite Ht, Hs, Hm. done.
Qed.

Lemma udp_login_drops_transient_witness :
  (LoginViaUDP (mkAuth [] true [] []) [sendAuthViaUDP (fun _ => Some []) (Some (503, str "away"))]).2 = Some Rejected.
Proof.
  apply (udp_login_drops_transient (fun _ => Some []) (fun _ => true) (mkAuth [] true [] []) (str "away")
    eq_refl eq_refl eq_refl).
Defined.

(** ** Properties of refreshing *)

(** The clock of successive passes: a sleep of at least the first backoff
    separates each from the one before. *)
Fixpoint spaced (prev : Z) (atts : list attempt) : Prop :=
  match atts with
  | [] => True
  | a :: atts => prev + 5 * second <= at_now a /\ spaced (at_now a) atts
  end.

(** What one pass does, in the shape the inductions below use. *)
Lemma refresh_loop_cons bad sd rd b w a atts :
  let now := at_now a in
  let b' := if b <? 30 * second then 2 * b else b in
  let r := refresh_loop bad sd rd b w (a :: atts) in
  match at_result a with
  | inl tok => r = ([], match slice tok 0 8 with Ok _ => RDone w w | _ => RPanic end)
  | inr e =>
    r = ([], RFatal) /\ (isAuthRejection e = true /\ default (now + authRejectWindow) rd < now \/
                         isAuthRejection e = false /\ sd < now) \/
    r.1 = [b] /\ (exists w', r.2 = RDone w' false) \/
    exists rd' w', let r' := refresh_loop bad sd rd' b' w' atts in r = (b :: r'.1, r'.2) /\
      (isAuthRejection e = true /\ now <= default (now + authRejectWindow) rd /\
         rd' = Some (default (now + authRejectWindow) rd) \/
       isAuthRejection e = false /\ now <= sd /\ rd' = rd)
  end.
Proof.
  simpl. destruct (at_result a) as [tok|e]; [done|]. destruct (isAuthRejection e).
  - destruct (at_now a >? _) eqn:E; bool_to_prop.
    + left. split; [done|]. left. destruct rd; simpl in *; lia.
    + right. destruct (bool_decide _); [right|left; split; [done|by eexists]].
      eexists _, _. split; [done|]. left. destruct rd; simpl in *; (split; [done|]); (split; [lia|done]).
  - destruct (at_now a >? _) eqn:E; bool_to_prop.
    + left. split; [done|]. right. lia.
    + right. destruct (bool_decide _); [right|left; split; [done|by eexists]].
      eexists _, _. split; [done|]. right. split; [done|]. split; [lia|done].
Qed.

(** Past the server deadline only rejections keep the loop going, and only
    inside the reject window. *)
Lemma refresh_reject_phase bad sd rd b w prev atts :
  sd < prev <= rd -> spaced prev atts -> rd - prev + 5 * second <= 5 * second * zlen atts ->
  (refresh_loop bad sd (Some rd) b w atts).2 <> RRunning.
Proof.
  revert prev b w. induction atts as [|a atts IH]; intros prev b w Hsd Hsp Hb.
  { change (zlen []) with 0 in Hb. unfold second in *. lia. }
  destruct Hsp as [Hn Hsp]. rewrite zlen_cons in Hb. assert (0 < second) by done.
  pose proof (refresh_loop_cons bad sd (Some rd) b w a atts) as Hc. cbv zeta in Hc.
  destruct (at_result a) as [tok|e]; [rewrite Hc; simpl; by destruct (slice _ _ _)|].
  destruct Hc as [[-> _]|[(_ & w' & ->)|(rd' & w' & -> & [(_ & Hle & ->)|(_ & Hle & _)])]]; [done..| |lia].
  simpl in *. eapply (IH (at_now a)); [lia|done|lia].
Qed.

Lemma refresh_terminates bad sd rd b w prev atts :
  prev <= sd -> (forall d, rd = Some d -> d <= sd + authRejectWindow) -> spaced prev atts ->
  (sd - prev) + authRejectWindow + 15 * second <= 5 * second * zlen atts ->
  (refresh_loop bad sd rd b w atts).2 <> RRunning.
Proof.
  revert prev rd b w. induction atts as [|a atts IH]; intros prev rd b w Hp Hrd Hsp Hb.
  { change (zlen []) with 0 in Hb. unfold authRejectWindow, second in *. lia. }
  destruct Hsp as [Hn Hsp]. rewrite zlen_cons in Hb. assert (0 < second) by done.
  assert (0 < authRejectWindow) by done.
  pose proof (refresh_loop_cons bad sd rd b w a atts) as Hc. cbv zeta in Hc.
  destruct (at_result a) as [tok|e]; [rewrite Hc; simpl; by destruct (slice _ _ _)|].
  destruct Hc as [[-> _]|[(_ & w' & ->)|(rd' & w' & -> & [(_ & Hle & ->)|(_ & Hle & ->)])]]; [done..| |].
  - destruct (Z.le_gt_cases (at_now a) sd) as [Hs|Hs].
    + eapply (IH (at_now a)); [done| |done|lia]. intros d [= <-]. destruct rd; simpl in *; [by apply Hrd|lia].
    + eapply (refresh_reject_phase _ _ _ _ _ (at_now a)); [lia|done|].
      destruct rd as [d|]; simpl in *; [specialize (Hrd d eq_refl)|]; lia.
  - eapply (IH (at_now a)); [done..|lia].
Qed.

(** An outcome and the pass that caused it. *)
Definition gave_up (start : Z) (first_rejection : option Z) (atts : list attempt) : Prop :=
  exists a e, a ∈ atts /\ at_result a = inr e /\
    (isAuthRejection e = false /\ start + serverErrorWindow < at_now a \/
     isAuthRejection e = true /\
       (exists d, first_rejection = Some d /\ d < at_now a \/
        exists a0 e0, a0 ∈ atts /\ at_result a0 = inr e0 /\ isAuthRejection e0 = true /\
          at_now a0 + authRejectWindow < at_now a)).

Lemma refresh_fatal bad start rd b w atts :
  (refresh_loop bad (start + serverErrorWindow) rd b w atts).2 = RFatal -> gave_up start rd atts.
Proof.
  revert rd b w. induction atts as [|a atts IH]; intros rd b w; [done|].
  pose proof (refresh_loop_cons bad (start + serverErrorWindow) rd b w a atts) as Hc. cbv zeta in Hc.
  destruct (at_result a) as [tok|e] eqn:Ha; [rewrite Hc; simpl; by destruct (slice _ _ _)|].
  destruct Hc as [[_ [[Hr Hd]|[Hr Hd]]]|[(_ & w' & ->)|(rd' & w' & -> & Hc)]]; [| |done|].
  - intros _. exists a, e. split; [left|]. split; [done|]. right. split; [done|].
    destruct rd as [d|]; simpl in Hd; [by exists d; left|]. unfold authRejectWindow, second in Hd. lia.
  - intros _. exists a, e. split; [left|]. split; [done|]. by left.
  - simpl. intros (a1 & e1 & Hin & He1 & Hw)%IH. exists a1, e1. split; [by right|]. split; [done|].
    destruct Hw as [Hw|[Hr1 (d & [[Hd Hlt]|(a0 & e0 & Hin0 & H0)])]]; [by left| |].
    + right. split; [done|]. destruct Hc as [(Hr & Hle & ->)|(_ & _ & ->)]; [|exists d; by left].
      destruct rd as [d0|]; simplify_eq/=; [exists d; by left|]. exists 0. right. exists a, e.
      split; [left|]. by split.
    + right. split; [done|]. exists 0. right. exists a0, e0. split; [by right|done].
Qed.

Lemma refresh_sleeps bad sd rd b w atts :
  b ∈ [5 * second; 10 * second; 20 * second; 40 * second] ->
  Forall (fun s => 5 * second <= s <= 40 * second) (refresh_loop bad sd rd b w atts).1.
Proof.
  revert rd b w. induction atts as [|a atts IH]; intros rd b w Hb; [by constructor|].
  assert (5 * second <= b <= 40 * second /\ (if b <? 30 * second then 2 * b else b) ∈
    [5 * second; 10 * second; 20 * second; 40 * second]) as [Hr Hb'].
  { rewrite !elem_of_cons in Hb. destruct Hb as [->|[->|[->|[->|[]%elem_of_nil]]]]; by_decide. }
  pose proof (refresh_loop_cons bad sd rd b w a atts) as Hc. cbv zeta in Hc.
  destruct (at_result a) as [tok|e]; [by rewrite Hc; constructor|].
  destruct Hc as [[-> _]|[(-> & _)|(rd' & w' & -> & _)]]; [by apply Forall_nil|by apply Forall_singleton|].
  constructor; [done|]. by apply IH.
Qed.

(** C14: re-authentication always ends.  When the passes follow the loop's own
    sleeps, 2200 of them never leave it running, every sleep lasts between 5 and
    40 seconds, and it gives up only after a definitive rejection more than
    three minutes after an earlier one, or after another error more than three
    hours after the start.  A token that changed meanwhile is left alone. *)
Theorem refresh_policy (token badToken : bytes) (start : Z) (atts : list attempt)
    (Hsp : spaced (start - 5 * second) atts) :
  let '(sleeps, r) := refreshToken token badToken start atts in
  (2200 <= zlen atts -> r <> RRunning) /\
  Forall (fun s => 5 * second <= s <= 40 * second) sleeps /\
  (r = RFatal -> gave_up start None atts) /\
  (token <> badToken -> r = RDone false false) /\
  (token = badToken -> zlen badToken < 8 -> r = RPanic).
Proof.
  unfold refreshToken. case_bool_decide as Ht; simpl; [|by repeat split].
  destruct (slice badToken 0 8) as [p| |] eqn:Hs.
  2,3: by repeat split.
  pose proof (refresh_terminates badToken (start + serverErrorWindow) None (5 * second) false (start - 5 * second) atts) as H1.
  pose proof (refresh_sleeps badToken (start + serverErrorWindow) None (5 * second) false atts) as H2.
  pose proof (refresh_fatal badToken start None (5 * second) false atts) as H3.
  destruct (refresh_loop _ _ _ _ _ _) as [sleeps r]. simpl in *.
  split; [|split; [|split; [done|split; [done|]]]].
  - intros Hl. apply H1; try done; unfold serverErrorWindow, authRejectWindow, second in *; lia.
  - apply H2. by_decide.
  - intros _ Hlt. unfold slice in Hs. destruct (_ && _) eqn:E in Hs; [|done].
    bool_to_prop. unfold zlen in *. lia.
Qed.

Lemma refresh_policy_witness :
  let rejection := mkAuthError Rejected (quoted (str "key expired")) in
  let atts := [mkAttempt (inr rejection) 0 (str "12345678"); mkAttempt (inr rejection) (181 * second) (str "12345678")] in
  refreshToken (str "12345678") (str "12345678") 0 atts = ([5 * second], RFatal) /\ gave_up 0 None atts.
Proof.
  intros rejection atts. assert (spaced (0 - 5 * second) atts) as Hsp by (vm_compute; naive_solver).
  pose proof (refresh_policy (str "12345678") (str "12345678") 0 atts Hsp) as Hp.
  assert (refreshToken (str "12345678") (str "12345678") 0 atts = ([5 * second], RFatal)) as E by by vm_compute.
  split; [exact E|]. rewrite E in Hp. apply Hp. reflexivity.
Defined.

(** ** Properties of posting *)

Section post_props.
Context `{AEADLaws}.

Lemma parse_result_no_panic key raw : parse_result key raw <> inr PPanic.
Proof.
  unfold parse_result. pose proof (parse_response_total key raw). by destruct (parseResponse key raw).
Qed.

Lemma session_seal rnd token p : exists frame, sealFrame (Some rnd) (sessionKey token) p = Ok frame.
Proof. unfold sealFrame. rewrite chacha_new_ok by apply blake2b_length. eauto. Qed.

Definition is_send (e : post_event) : bool := match e with EvSend _ _ _ _ => true | _ => false end.
Definition is_hook (e : post_event) : bool := match e with EvUdpFailed => true | _ => false end.
Definition count {A} (f : A -> bool) (l : list A) : nat := length (List.filter f l).

(** A request's body opens under the token its header carries. *)
Definition consistent (path plaintext : bytes) (e : post_event) : Prop :=
  match e with
  | EvSend _ p tok body => p = path /\ openFrame (sessionKey tok) body = Ok plaintext
  | _ => True
  end.

Lemma count_app {A} (f : A -> bool) l1 l2 : count f (l1 ++ l2) = (count f l1 + count f l2)%nat.
Proof. unfold count. by rewrite List.filter_app, length_app. Qed.

(** A re-authentication that meets a token of fewer than 8 bytes: the one refused, or one
    that [Login] stores. *)
Definition meets_short (w : reauth_world) (token : bytes) : Prop :=
  zlen token < 8 \/ exists a tok, a ∈ ra_passes w /\ at_result a = inl tok /\ zlen tok < 8.

Lemma slice8_panics (tok : bytes) : slice tok 0 8 = Panic -> zlen tok < 8.
Proof. intros E. apply Z.nle_gt. intros Hle. rewrite slice_ok in E by lia. done. Qed.

Lemma slice_no_err (tok : bytes) : forall e, slice tok 0 8 <> Err e.
Proof. intros e. unfold slice. by destruct (_ && _). Qed.

Lemma refresh_loop_panic bad sd rd b w atts :
  (refresh_loop bad sd rd b w atts).2 = RPanic -> exists a tok, a ∈ atts /\ at_result a = inl tok /\ zlen tok < 8.
Proof.
  revert rd b w. induction atts as [|a atts IH]; intros rd b w; [done|].
  pose proof (refresh_loop_cons bad sd rd b w a atts) as Hc. cbv zeta in Hc.
  destruct (at_result a) as [tok|e] eqn:Ha.
  - rewrite Hc. simpl. destruct (slice tok 0 8) as [x|x|] eqn:Es; [done|by apply slice_no_err in Es|].
    intros _. exists a, tok. split; [left|]. split; [done|by apply slice8_panics].
  - destruct Hc as [[-> _]|[(_ & w' & ->)|(rd' & w' & -> & _)]]; [done|done|]. cbn [snd]. intros Hp.
    destruct (IH _ _ _ Hp) as (a1 & tok & ? & ?). exists a1, tok. by split; [right|].
Qed.

Lemma re_auth_panic w token : re_auth w token = Panicked -> meets_short w token.
Proof.
  unfold re_auth, refreshToken. cbv zeta. destruct (negb _); [done|]. destruct (slice token 0 8) as [x|x|] eqn:Es.
  - destruct (refresh_loop _ _ _ _ _ _) as [sl []] eqn:El; try done. intros _. right.
    apply (refresh_loop_panic token (ra_start w + serverErrorWindow) None (5 * second) false). by rewrite El.
  - by apply slice_no_err in Es.
  - intros _. left. by apply slice8_panics.
Qed.

(** The guarantee of a call, whatever the network does; it panics only under [P]. *)
Definition post_ok (P : Prop) (d : post_state) (path plaintext : bytes) (sends : nat)
    (o : post_state * (bytes + post_error) * list post_event) : Prop :=
  let '(d', r, evs) := o in
  Forall (consistent path plaintext) evs /\ (count is_send evs <= sends)%nat /\
  (count is_hook evs + (if ps_udpHook d' then 1 else 0) <= (if ps_udpHook d then 1 else 0))%nat /\
  (r = inr PPanic -> P).

Lemma post_ok_retry (P : Prop) d d1 path plaintext n evs d' r evs' :
  post_ok P d path plaintext 1 (d1, inr PReauth, evs) -> post_ok False d1 path plaintext n (d', r, evs') ->
  post_ok P d path plaintext (S n) (d', r, evs ++ evs').
Proof.
  intros (A & B & C & _) (A' & B' & C' & D'). unfold post_ok. rewrite !count_app, Forall_app.
  split; [done|]. split; [lia|]. split; [lia|]. intros Hr. by destruct (D' Hr).
Qed.

(** What a call has done when its request has left, and after a successful answer. *)
Lemma post_ok_sent (P : Prop) env d path plaintext body r rtt :
  openFrame (sessionKey (ps_token d)) body = Ok plaintext -> (r = inr PPanic -> P) ->
  let '(d1, evs0, udp) := choose env d in
  post_ok P d path plaintext 1
    (d1, r, (evs0 ++ [EvSend udp path (ps_token d) body]) ++ (if rtt : bool then [EvRTT (pe_elapsed env)] else [])).
Proof.
  intros Ho Hr. unfold choose. destruct (pe_relay env) as [[]|], rtt; unfold post_ok; simpl;
    destruct (ps_udpHook d); cbn; (split; [by repeat constructor|]); auto with lia.
Qed.

Lemma do_post_ok envs d path plaintext allow r404 :
  ((if allow : bool then 2 else 1) <= length envs)%nat -> Forall (fun e => forall bad, pe_refresh e bad <> Running) envs ->
  exists o, doPost envs d path plaintext allow r404 = Some o /\
    post_ok (allow = true /\ exists e, head envs = Some e /\ meets_short (pe_reauth e) (ps_token d)) d path plaintext (if allow then 2 else 1) o.
Proof.
  revert d allow. induction envs as [|env envs IH]; intros d allow Hl Hends; [destruct allow; simpl in Hl; lia|].
  apply Forall_cons in Hends as [Hend Hends]. set (P := allow = true /\ _).
  cbn [doPost]. destruct (sealFrame _ _ _) as [body| |] eqn:Es.
  2,3: eexists; split; [done|]; split; [by repeat constructor|]; cbn; destruct allow, (ps_udpHook d); (split; [lia|]; split; [lia|done]).
  pose proof (open_of_seal_frame _ _ _ _ Es) as Ho.
  pose proof (fun r rtt Hr => post_ok_sent P env d path plaintext body r rtt Ho Hr) as Hs.
  destruct (choose env d) as [[d1 evs0] udp]. pose proof (fun r => Hs r false) as Hs0.
  rewrite app_nil_r in Hs0.
  assert (forall d' r evs, post_ok P d path plaintext 1 (d', r, evs) ->
    post_ok P d path plaintext (if allow then 2 else 1) (d', r, evs)) as Hw.
  { intros d' r evs (A & B & C). split; [done|]. split; [destruct allow; lia|done]. }
  destruct (exchange _ _ _ _ _) as [[st raw]|]; [|eexists; split; [done|]; apply Hw, Hs0; done].
  unfold should_retry. destruct (allow && _) eqn:Er.
  - destruct allow; [|done]. simpl in Hl. destruct (pe_refresh env _) as [tok2| | |] eqn:Ep; [| |by destruct (Hend (ps_token d))|].
    + destruct (IH (mkPost tok2 (ps_udpHook d1)) false ltac:(simpl; lia) Hends) as ([[d' r] evs'] & -> & (A & B & C & D)).
      eexists. split; [done|]. eapply (post_ok_retry P d d1); [by apply Hs0|]. split; [exact A|]. split; [exact B|]. split; [exact C|].
      intros Hr. by destruct (D Hr).
    + eexists; split; [done|]; apply Hw, Hs0; done.
    + eexists; split; [done|]; apply Hw, Hs0. intros _. split; [done|]. exists env. split; [done|]. by apply re_auth_panic.
  - destruct (st =? 200); simpl negb; cbv iota; [|eexists; split; [done|]; apply Hw, Hs0; done].
    destruct raw as [raw|]; [|eexists; split; [done|]; apply Hw, Hs0; done].
    eexists. split; [done|]. pose proof (parse_result_no_panic (sessionKey (ps_token d)) raw).
    apply Hw. destruct udp; [rewrite app_nil_r; by apply Hs0|by apply (Hs _ true)].
Qed.

(** Every token a re-authentication can meet has 8 bytes or more. *)
Definition long_tokens (w : reauth_world) : Prop :=
  (forall tok, ra_stored w = Some tok -> 8 <= zlen tok) /\
  Forall (fun a => 8 <= zlen (at_token a) /\ forall tok, at_result a = inl tok -> 8 <= zlen tok) (ra_passes w).

Lemma left_token_long bad atts :
  8 <= zlen bad -> Forall (fun a => 8 <= zlen (at_token a) /\ forall tok, at_result a = inl tok -> 8 <= zlen tok) atts ->
  8 <= zlen (left_token bad atts).
Proof.
  intros Hb. induction 1 as [|a atts [Ha Hr] _ IH]; simpl; [done|].
  destruct (at_result a); [by apply Hr|]. by destruct (bool_decide _).
Qed.

Lemma re_auth_long w bad :
  8 <= zlen bad -> long_tokens w -> re_auth w bad <> Panicked /\ forall tok, re_auth w bad = Refreshed tok -> 8 <= zlen tok.
Proof.
  intros Hb [Hs Hp]. split.
  - intros [Hm|(a & tok & Ha & Ht & Hm)]%re_auth_panic; [lia|].
    rewrite Forall_forall in Hp. destruct (Hp a Ha) as [_ Hr]. specialize (Hr tok Ht). lia.
  - intros tok. unfold re_auth. cbv zeta. destruct (refreshToken _ _ _ _).2; try done. intros [= <-].
    case_bool_decide; [by apply left_token_long|]. destruct (ra_stored w) as [t|]; simpl; [by apply Hs|done].
Qed.

(** Then no call panics, and the token stays that long. *)
Lemma do_post_long envs d path plaintext allow r404 d' r evs :
  8 <= zlen (ps_token d) -> Forall (fun e => long_tokens (pe_reauth e)) envs ->
  doPost envs d path plaintext allow r404 = Some (d', r, evs) -> 8 <= zlen (ps_token d') /\ r <> inr PPanic.
Proof.
  revert d allow d' r evs. induction envs as [|env envs IH]; intros d allow d' r evs Hd Hl; [done|].
  apply Forall_cons in Hl as [He Hl]. cbn [doPost]. destruct (sealFrame _ _ _); [|by intros [= <- <- <-]..].
  assert (ps_token (choose env d).1.1 = ps_token d) as Ht by (unfold choose; by destruct (pe_relay env) as [[]|]).
  destruct (choose env d) as [[d1 evs0] udp]. simpl in Ht.
  destruct (exchange _ _ _ _ _) as [[st raw]|]; [|intros [= <- <- <-]; by rewrite Ht].
  destruct (should_retry _ _ _).
  - destruct (re_auth_long (pe_reauth env) (ps_token d) Hd He) as [Hnp Hlong].
    destruct (pe_refresh env (ps_token d)) as [tok2| | |] eqn:Ep; [|intros [= <- <- <-]; by rewrite Ht|done|done].
    specialize (Hlong tok2 Ep). destruct (doPost envs _ _ _ _ _) as [[[d2 r2] evs2]|] eqn:E2; [|done]. intros [= <- <- <-].
    by eapply (IH (mkPost tok2 (ps_udpHook d1))).
  - destruct (negb _); [intros [= <- <- <-]; by rewrite Ht|]. destruct raw as [raw|]; intros [= <- <- <-]; rewrite Ht; (split; [done|]); [apply parse_result_no_panic|done].
Qed.

(** C9: a POST terminates within two requests (one when retrying is not allowed), given
    that its re-authentication ends (2200 passes are enough for that, [refresh_policy]).
    It panics only when it may retry and that re-authentication meets a token of fewer than
    8 bytes, the refused one or one that [Login] stores: both are logged by their first 8
    bytes; and when the refused one is that short, it does.  Every request goes to the
    given path with a body that opens to the plaintext under the very token its header
    carries, also after a re-authentication; and the UDP-failed hook fires at most once over
    the life of the dialer, never after it has been disarmed. *)
Theorem do_post_safe (e1 e2 : post_env) (d : post_state) (path plaintext : bytes) (allowRetry retryOn404 : bool)
    (Hends : forall bad, pe_refresh e1 bad <> Running /\ pe_refresh e2 bad <> Running) :
  (exists o, doPost [e1; e2] d path plaintext allowRetry retryOn404 = Some o /\
    post_ok (allowRetry = true /\ meets_short (pe_reauth e1) (ps_token d)) d path plaintext (if allowRetry then 2 else 1) o) /\
  (forall rnd, pe_rnd e1 = Some rnd -> (forall udp p t b, exists raw, exchange e1 udp p t b = Some (401, raw)) ->
     ra_stored (pe_reauth e1) = None -> zlen (ps_token d) < 8 ->
     exists d' evs, doPost [e1; e2] d path plaintext true retryOn404 = Some (d', inr PPanic, evs)).
Proof.
  split.
  - destruct (do_post_ok [e1; e2] d path plaintext allowRetry retryOn404) as ([[d' r] evs] & E & (A & B & C & D)).
    + destruct allowRetry; simpl; lia.
    + repeat constructor; apply Hends.
    + eexists. split; [exact E|]. split; [exact A|]. split; [exact B|]. split; [exact C|].
      intros Hr. destruct (D Hr) as (? & e & [= <-] & ?). done.
  - intros rnd Hrnd Hx Hst Hshort. set (rest := [e2]). cbn [doPost]. rewrite Hrnd. destruct (session_seal rnd (ps_token d) plaintext) as [body ->].
    destruct (choose e1 d) as [[d1 evs0] udp]. destruct (Hx udp path (ps_token d) body) as [raw ->].
    change (should_retry true retryOn404 401) with true. cbv iota.
    assert (pe_refresh e1 (ps_token d) = Panicked) as ->; [|by eexists _, _].
    unfold pe_refresh, re_auth, refreshToken. rewrite Hst. cbn [default from_option id]. rewrite bool_decide_eq_true_2 by done. cbn [negb].
    destruct (slice (ps_token d) 0 8) as [x|x|] eqn:Es; [|done|done]. exfalso. unfold slice in Es. destruct (_ && _) eqn:E; [|done].
    bool_to_prop. unfold zlen in *. lia.
Qed.

(** A server that knows the session of [tok] and answers a request for
    [plaintext] with [data]. *)
Definition serves (env : post_env) (tok plaintext data : bytes) : Prop :=
  is_Some (pe_rnd env) /\
  forall udp path body, openFrame (sessionKey tok) body = Ok plaintext ->
    exists rnd rpad raw, buildUploadResponse rnd rpad (sessionKey tok) data = Ok raw /\
      exchange env udp path tok body = Some (200, Some raw).

(** A server that answers [status] whatever is asked. *)
Definition refuses (env : post_env) (status : Z) : Prop :=
  is_Some (pe_rnd env) /\
  forall udp path tok body, exists raw, exchange env udp path tok body = Some (status, raw).

Lemma do_post_served env envs d path plaintext data allow r404 :
  serves env (ps_token d) plaintext data -> zlen data < 2 ^ 32 ->
  exists d' evs, doPost (env :: envs) d path plaintext allow r404 = Some (d', inl data, evs) /\ ps_token d' = ps_token d.
Proof.
  intros [[rnd Hrnd] Hs] Hd. cbn [doPost]. rewrite Hrnd. destruct (session_seal rnd (ps_token d) plaintext) as [body Eb].
  rewrite Eb. assert (ps_token (choose env d).1.1 = ps_token d) as Ht.
  { unfold choose. by destruct (pe_relay env) as [[]|]. }
  destruct (choose env d) as [[d1 evs0] udp]. simpl in Ht.
  destruct (Hs udp path body (open_of_seal_frame _ _ _ _ Eb)) as (r1 & r2 & raw & Hb & ->).
  unfold should_retry. replace (allow && _) with false by (by destruct allow).
  unfold parse_result. rewrite (parse_built_response _ _ _ _ _ Hd Hb). simpl. eauto.
Qed.

(** C10: a POST returns the data the server sealed for it: at once when the
    server knows the session, and after one re-authentication when it first
    answers 401 (or 404 where that means an unknown session), the second request
    using the new token.  Without permission to retry, or on any other status,
    the status is the result. *)
Theorem do_post_delivers (e1 e2 : post_env) (d : post_state) (path plaintext data tok2 : bytes) (status : Z)
    (retryOn404 : bool) (Hd : zlen data < 2 ^ 32)
    (Hstatus : status <> 200) (Href : refuses e1 status)
    (Hre : pe_refresh e1 (ps_token d) = Refreshed tok2) (Hs2 : serves e2 tok2 plaintext data) :
  let code := (status =? 401) || ((status =? 404) && retryOn404) in
  (serves e2 (ps_token d) plaintext data ->
     exists d' evs, doPost [e2] d path plaintext true retryOn404 = Some (d', inl data, evs)) /\
  (exists d' evs, doPost [e1; e2] d path plaintext true retryOn404 =
     Some (d', if code then inl data else inr (PHTTP status), evs) /\
     (code = true -> ps_token d' = tok2)) /\
  (exists d' evs, doPost [e1; e2] d path plaintext false retryOn404 = Some (d', inr (PHTTP status), evs)).
Proof.
  intros code. split; [|].
  { intros Hs. destruct (do_post_served e2 [] d path plaintext data true retryOn404 Hs Hd) as (d' & evs & -> & _). eauto. }
  destruct Href as [[rnd Hrnd] Hr]. destruct (session_seal rnd (ps_token d) plaintext) as [body Eb].
  assert (forall allow, exists d1 evs, doPost [e1; e2] d path plaintext allow retryOn404 =
    if should_retry allow retryOn404 status then
      match doPost [e2] (mkPost tok2 (ps_udpHook d1)) path plaintext false retryOn404 with
      | Some (d', r, evs') => Some (d', r, evs ++ evs') | None => None end
    else Some (d1, inr (PHTTP status), evs)) as Hdo.
  { intros allow. set (rest := [e2]). cbn [doPost]. rewrite Hrnd, Eb. destruct (choose e1 d) as [[d1 evs0] udp].
    destruct (Hr udp path (ps_token d) body) as [raw ->]. rewrite Hre, (proj2 (Z.eqb_neq _ _) Hstatus).
    exists d1. eexists. reflexivity. }
  split; [|destruct (Hdo false) as (d1 & evs & ->); simpl; eauto].
  destruct (Hdo true) as (d1 & evs & ->). unfold should_retry. simpl andb. fold code. destruct code; [|by eexists _, _].
  destruct (do_post_served e2 [] (mkPost tok2 (ps_udpHook d1)) path plaintext data false retryOn404 Hs2 Hd)
    as (d' & evs' & -> & Ht). by eexists _, _.
Qed.
End post_props.

#[local] Existing Instances Toy.aead Toy.aead_laws.

Definition toy_env (status : Z) (reply : bytes -> option bytes) : post_env :=
  mkPEnv (Some []) None (fun _ tok _ => match reply tok with Some r => Some (status, r) | None => None end)
    (fun _ tok _ => Some (status, reply tok)) 7 (mkReauth None 0 [mkAttempt (inl (str "new-token")) 1 []]).

Lemma toy_env_ends status reply bad : pe_refresh (toy_env status reply) bad <> Running.
Proof. unfold pe_refresh, re_auth, refreshToken. cbn. destruct (bool_decide (bad = bad)); [|done]. cbn. by destruct (slice bad 0 8). Qed.

Definition toy_answer (data tok : bytes) : option bytes :=
  match buildUploadResponse (Some []) [] (sessionKey tok) data with Ok r => Some r | _ => None end.

Lemma do_post_safe_witness :
  exists o, doPost [toy_env 401 (fun _ => Some []); toy_env 200 (toy_answer (str "data"))] (mkPost (str "old-token") true)
    (str "/x") (str "hello") true false = Some o /\ post_ok False (mkPost (str "old-token") true) (str "/x") (str "hello") 2 o.
Proof.
  destruct (do_post_safe (toy_env 401 (fun _ => Some [])) (toy_env 200 (toy_answer (str "data"))) (mkPost (str "old-token") true)
    (str "/x") (str "hello") true false (fun bad => conj (toy_env_ends _ _ bad) (toy_env_ends _ _ bad))) as [([[d' r] evs] & E & (A & B & C & D)) _].
  eexists. split; [exact E|]. split; [exact A|]. split; [exact B|]. split; [exact C|]. intros Hr.
  destruct (D Hr) as [_ [Hs|(a & tok & Ha & Ht & Hs)]]; [by vm_compute in Hs|].
  apply list_elem_of_singleton in Ha as ->. injection Ht as <-. by vm_compute in Hs.
Defined.

Lemma do_post_delivers_witness :
  exists d' evs, doPost [toy_env 401 (fun _ => Some []); toy_env 200 (toy_answer (str "data"))] (mkPost (str "old-token") true)
    (str "/x") (str "hello") true false = Some (d', inl (str "data"), evs) /\ ps_token d' = str "new-token".
Proof.
  destruct (do_post_delivers (toy_env 401 (fun _ => Some [])) (toy_env 200 (toy_answer (str "data")))
    (mkPost (str "old-token") true) (str "/x") (str "hello") (str "data") (str "new-token") 401 false) as (_ & H & _).
  - by vm_compute.
  - done.
  - split; [by eexists|]. intros [] path tok body; by eexists.
  - done.
  - split; [by eexists|]. intros udp path body _. exists (Some []), [].
    destruct (buildUploadResponse (Some []) [] (sessionKey (str "new-token")) (str "data")) as [raw| |] eqn:E; [|done..].
    exists raw. split; [done|].
    assert (toy_answer (str "data") (str "new-token") = Some raw) as Ha by (unfold toy_answer; by rewrite E).
    unfold exchange, toy_env. cbn [pe_udp pe_http]. rewrite Ha. by destruct udp.
  - destruct H as (d' & evs & E & Ht). exists d', evs. split; [exact E|]. by apply Ht.
Defined.
