(* ===== verification/Session.v ===== *)
(** * Session: the tunnel connection (session.go)

    A [TunnelConn] is shared by its writer, its reader, whoever closes it, the
    pipelined sends and the stream goroutine.  A call of [Write], [Read] or [Close]
    is not one step: it stops wherever it waits (a POST in flight, a slot, the
    channel, a sleep) and wherever it has let go of the lock on the read buffer, and
    the steps of the others come in between.  There is one writer and one reader at a
    time, as the relay of a SOCKS5 connection has.  A step that is not enabled (a full
    channel, a full pipeline, nothing to read) gives [None].  What the network does is
    part of the action: the result of a send, the outcome of opening a stream, the
    bytes a stream delivers.  Where Go's [select] may choose between a ready channel
    and [closed], the action carries the choice. *)
From S2P Require Import Prelude.

Definition second : Z := 1000000000.
Definition millisecond : Z := 1000000.
Definition streamMinLifetime : Z := second.
Definition streamMaxFlaps : Z := 5.
Definition streamMaxOpenErrors : Z := 5.
Definition maxRenewals : Z := 3.

(** Where the stream goroutine is. *)
Inductive phase :=
| LOff                          (* never started *)
| LTop                          (* head of the loop *)
| LOpening                      (* in streamFn *)
| LReading (opened : Z)         (* in the read loop *)
| LBackoff (delay : Z)          (* sleeping before the next round *)
| LDone.                        (* returned; dataChan is closed *)
#[global] Instance phase_eq : EqDecision phase. Proof. solve_decision. Defined.

Record stream_loop := mkLoop {
  l_phase : phase;
  l_openErrors : Z;
  l_flaps : Z;
  l_renewals : Z                (* kept by the renewStream closure *)
}.

(** Where a call of [Read] is. *)
Inductive reader :=
| RdIdle                        (* no call *)
| RdChecked (size : Z)          (* it has found the buffer empty *)
| RdPost (size : Z)             (* its poll is in flight *)
| RdRest (got rest : bytes)     (* it has copied [got] out and not yet kept [rest] *)
| RdBackoff (e : bytes).        (* sleeping after a failed poll *)

(** Where a call of [Write] is. *)
Inductive writer :=
| WrIdle
| WrChecked (p : bytes)         (* past the checks at its start *)
| WrPost (p : bytes).           (* its synchronous POST is in flight *)

(** Where [Close] is. *)
Inductive closer :=
| ClNo                          (* not called *)
| ClClosed                      (* the channel [closed] is closed *)
| ClPost                        (* the final POST is in flight *)
| ClDone.                       (* onClose was called *)
#[global] Instance closer_eq : EqDecision closer. Proof. solve_decision. Defined.

Record TunnelConn := mkConn {
  tc_seq : Z;
  tc_readBuf : bytes;
  tc_streaming : bool;                    (* dataChan is not nil *)
  tc_dataChan : list bytes;
  tc_depth : Z;                           (* its capacity, ChanDepth *)
  tc_pipe : option Z;                     (* capacity of pipeSem *)
  tc_inflight : list (Z * bytes);         (* sends holding a slot *)
  tc_pipeErr : option bytes;
  tc_renewable : bool;                    (* renewStream is not nil *)
  tc_loop : stream_loop;
  tc_reader : reader;
  tc_writer : writer;
  tc_closer : closer
}.

(** The channel [closed] is closed. *)
Definition tc_closed (c : TunnelConn) : bool := negb (bool_decide (tc_closer c = ClNo)).

Definition newTunnelConn (depth : Z) (streaming : bool) (pipeWidth : Z) : TunnelConn :=
  mkConn 0 [] streaming [] depth
    (if (pipeWidth >? 0) && streaming then Some pipeWidth else None) [] None false
    (mkLoop LOff 0 0 0) RdIdle WrIdle ClNo.

(** The end of [Dial]: the first response is buffered, the sequence starts at
    1, a streaming dialer installs the renewal closure, the loop is started. *)
Definition established (c : TunnelConn) (resp : bytes) : TunnelConn :=
  mkConn 1 (tc_readBuf c ++ resp) (tc_streaming c) (tc_dataChan c) (tc_depth c) (tc_pipe c) (tc_inflight c)
    (tc_pipeErr c) (tc_streaming c)
    (if tc_streaming c then mkLoop LTop 0 0 0 else tc_loop c) (tc_reader c) (tc_writer c) (tc_closer c).

Inductive io_result := IOk (data : bytes) | IClosed | IErr (e : bytes).
#[global] Instance io_result_eq : EqDecision io_result. Proof. solve_decision. Defined.

(** What a step makes happen. *)
Inductive output :=
| OSend (seq : Z) (payload : bytes)       (* a POST is launched *)
| OWrote (r : io_result)                  (* Write returns *)
| ORead (r : io_result)                   (* Read returns *)
| OPush (chunk : bytes)                   (* the stream goroutine queues a chunk *)
| OInline (resp : bytes)                  (* a POST answered with data *)
| OCross (resp : bytes)                   (* so did a Write's, while a Read was past its look at the buffer *)
| OStreamDead                             (* onStreamDead *)
| ORenewed                                (* renewStream, which records a dead stream *)
| OOnClose.                               (* the onClose callback *)

Definition set_buf (c : TunnelConn) (b : bytes) (ch : list bytes) : TunnelConn :=
  mkConn (tc_seq c) b (tc_streaming c) ch (tc_depth c) (tc_pipe c) (tc_inflight c) (tc_pipeErr c)
    (tc_renewable c) (tc_loop c) (tc_reader c) (tc_writer c) (tc_closer c).
Definition set_pipe (c : TunnelConn) (seq : Z) (fl : list (Z * bytes)) (e : option bytes) : TunnelConn :=
  mkConn seq (tc_readBuf c) (tc_streaming c) (tc_dataChan c) (tc_depth c) (tc_pipe c) fl e
    (tc_renewable c) (tc_loop c) (tc_reader c) (tc_writer c) (tc_closer c).
Definition set_loop (c : TunnelConn) (l : stream_loop) : TunnelConn :=
  mkConn (tc_seq c) (tc_readBuf c) (tc_streaming c) (tc_dataChan c) (tc_depth c) (tc_pipe c) (tc_inflight c)
    (tc_pipeErr c) (tc_renewable c) l (tc_reader c) (tc_writer c) (tc_closer c).
Definition set_reader (c : TunnelConn) (r : reader) : TunnelConn :=
  mkConn (tc_seq c) (tc_readBuf c) (tc_streaming c) (tc_dataChan c) (tc_depth c) (tc_pipe c) (tc_inflight c)
    (tc_pipeErr c) (tc_renewable c) (tc_loop c) r (tc_writer c) (tc_closer c).
Definition set_writer (c : TunnelConn) (w : writer) : TunnelConn :=
  mkConn (tc_seq c) (tc_readBuf c) (tc_streaming c) (tc_dataChan c) (tc_depth c) (tc_pipe c) (tc_inflight c)
    (tc_pipeErr c) (tc_renewable c) (tc_loop c) (tc_reader c) w (tc_closer c).
Definition set_closer (c : TunnelConn) (k : closer) : TunnelConn :=
  mkConn (tc_seq c) (tc_readBuf c) (tc_streaming c) (tc_dataChan c) (tc_depth c) (tc_pipe c) (tc_inflight c)
    (tc_pipeErr c) (tc_renewable c) (tc_loop c) (tc_reader c) (tc_writer c) k.

(** [NextSeq]. *)
Definition next_seq (c : TunnelConn) : TunnelConn := set_pipe c (tc_seq c + 1) (tc_inflight c) (tc_pipeErr c).

(** ** Write *)

(** The checks at its start. *)
Definition Write (c : TunnelConn) (p : bytes) : option (TunnelConn * list output) :=
  match tc_writer c with
  | WrIdle =>
    match tc_pipeErr c with
    | Some e => Some (c, [OWrote (IErr e)])
    | None => if tc_closed c then Some (c, [OWrote IClosed]) else Some (set_writer c (WrChecked p), [])
    end
  | _ => None
  end.

(** Pipeline mode: waiting for a slot, then launching the send. *)
Definition Write_slot (c : TunnelConn) (sees_closed : bool) : option (TunnelConn * list output) :=
  match tc_writer c, tc_pipe c with
  | WrChecked p, Some width =>
    let full := width <=? zlen (tc_inflight c) in
    let c0 := set_writer c WrIdle in
    if tc_closed c && (sees_closed || full) then Some (c0, [OWrote IClosed])
    else if full then None
    else match tc_pipeErr c with
    | Some e => Some (c0, [OWrote (IErr e)])
    | None =>
      let seq := tc_seq c in
      Some (set_pipe c0 (seq + 1) (tc_inflight c ++ [(seq, p)]) None, [OSend seq p; OWrote (IOk p)])
    end
  | _, _ => None
  end.

(** Synchronous mode: the POST leaves. *)
Definition Write_send (c : TunnelConn) : option (TunnelConn * list output) :=
  match tc_writer c, tc_pipe c with
  | WrChecked p, None => Some (set_writer (next_seq c) (WrPost p), [OSend (tc_seq c) p])
  | _, _ => None
  end.

(** Its answer: what comes with it is appended to the buffer. *)
Definition Write_reply (c : TunnelConn) (reply : bytes + bytes) : option (TunnelConn * list output) :=
  match tc_writer c with
  | WrPost p =>
    let c0 := set_writer c WrIdle in
    match reply with
    | inr e => Some (c0, [OWrote (IErr e)])
    | inl resp =>
      if bool_decide (resp = []) then Some (c0, [OWrote (IOk p)]) else
      Some (set_buf c0 (tc_readBuf c ++ resp) (tc_dataChan c),
            [match tc_reader c with RdIdle => OInline resp | _ => OCross resp end; OWrote (IOk p)])
    end
  | _ => None
  end.

(** A pipelined send returns: its slot is freed, the first error is kept. *)
Definition pipe_done (c : TunnelConn) (i : nat) (err : option bytes) : option (TunnelConn * list output) :=
  match tc_inflight c !! i with
  | None => None
  | Some _ =>
    let e := match tc_pipeErr c, err with Some e, _ => Some e | None, Some e => Some e | None, None => None end in
    Some (set_pipe c (tc_seq c) (delete i (tc_inflight c)) e, [])
  end.

(** ** Read *)

(** The look at the buffer. *)
Definition Read (c : TunnelConn) (size : Z) : option (TunnelConn * list output) :=
  match tc_reader c with
  | RdIdle =>
    if bool_decide (tc_readBuf c <> []) then
      let n := Z.to_nat size in
      Some (set_buf c (drop n (tc_readBuf c)) (tc_dataChan c), [ORead (IOk (take n (tc_readBuf c)))])
    else Some (set_reader c (RdChecked size), [])
  | _ => None
  end.

(** [copy(p, data)] into a buffer of [size] bytes; the rest is still in hand. *)
Definition hand_out (c : TunnelConn) (size : Z) (data : bytes) : TunnelConn :=
  set_reader c (RdRest (take (Z.to_nat size) data) (drop (Z.to_nat size) data)).

(** Streaming mode: the select. *)
Definition Read_chan (c : TunnelConn) (prefer_closed : bool) : option (TunnelConn * list output) :=
  match tc_reader c with
  | RdChecked size =>
    if tc_streaming c then
      match tc_dataChan c with
      | chunk :: ch =>
        if tc_closed c && prefer_closed then Some (set_reader c RdIdle, [ORead IClosed])
        else Some (hand_out (set_buf c (tc_readBuf c) ch) size chunk, [])
      | [] =>
        if tc_closed c || bool_decide (l_phase (tc_loop c) = LDone) then Some (set_reader c RdIdle, [ORead IClosed]) else None
      end
    else None
  | _ => None
  end.

(** Polling mode: the head of the loop. *)
Definition Read_poll (c : TunnelConn) : option (TunnelConn * list output) :=
  match tc_reader c with
  | RdChecked size =>
    if tc_streaming c then None
    else if tc_closed c then Some (set_reader c RdIdle, [ORead IClosed])
    else Some (set_reader (next_seq c) (RdPost size), [OSend (tc_seq c) []])
  | _ => None
  end.

(** The answer of a poll. *)
Definition Read_reply (c : TunnelConn) (reply : bytes + bytes) : option (TunnelConn * list output) :=
  match tc_reader c with
  | RdPost size =>
    match reply with
    | inr e => Some (set_reader c (RdBackoff e), [])
    | inl resp => if bool_decide (resp = []) then Some (set_reader c (RdChecked size), []) else Some (hand_out c size resp, [OInline resp])
    end
  | _ => None
  end.

(** The rest is appended to the buffer and the call returns. *)
Definition Read_done (c : TunnelConn) : option (TunnelConn * list output) :=
  match tc_reader c with
  | RdRest got rest => Some (set_reader (set_buf c (tc_readBuf c ++ rest) (tc_dataChan c)) RdIdle, [ORead (IOk got)])
  | _ => None
  end.

(** The select after a failed poll. *)
Definition Read_wake (c : TunnelConn) (sees_closed : bool) : option (TunnelConn * list output) :=
  match tc_reader c with
  | RdBackoff e => Some (set_reader c RdIdle, [ORead (if tc_closed c && sees_closed then IClosed else IErr e)])
  | _ => None
  end.

(** ** Close *)

(** The first call closes the channel; later ones do nothing. *)
Definition Close (c : TunnelConn) : TunnelConn :=
  match tc_closer c with ClNo => set_closer c ClClosed | _ => c end.

(** The final POST leaves. *)
Definition Close_send (c : TunnelConn) : option (TunnelConn * list output) :=
  match tc_closer c with ClClosed => Some (set_closer (next_seq c) ClPost, [OSend (tc_seq c) []]) | _ => None end.

(** It has returned, whatever its result. *)
Definition Close_done (c : TunnelConn) : option (TunnelConn * list output) :=
  match tc_closer c with ClPost => Some (set_closer c ClDone, [OOnClose]) | _ => None end.

(** ** The stream goroutine *)

Inductive loop_event :=
| EHead                                               (* the check at the head of the loop *)
| EOpenErr (status : option Z)                        (* streamFn failed; an HTTP status if it answered *)
| EOpened (now : Z)
| ERead (data : bytes) (err : bool) (now : Z) (sees_closed : bool)
| EWoke (sees_closed : bool).                         (* the backoff select *)

Definition giveUp (l : stream_loop) (controlFailure : bool) : stream_loop * list output :=
  (mkLoop LDone (l_openErrors l) (l_flaps l) (l_renewals l), if controlFailure then [OStreamDead] else []).

(** [tryRenew], with the closure [Dial] installs. *)
Definition tryRenew (renewable : bool) (l : stream_loop) : option (stream_loop * list output) :=
  if renewable then
    if l_renewals l >=? maxRenewals then None
    else Some (mkLoop LTop 0 0 (l_renewals l + 1), [ORenewed])
  else None.

Definition renew_or_give_up (renewable : bool) (l : stream_loop) : stream_loop * list output :=
  match tryRenew renewable l with Some r => r | None => giveUp l true end.

Definition open_failed (renewable : bool) (l : stream_loop) : stream_loop * list output :=
  let l := mkLoop (l_phase l) (l_openErrors l + 1) 0 (l_renewals l) in
  if l_openErrors l >=? streamMaxOpenErrors then renew_or_give_up renewable l
  else (mkLoop (LBackoff (l_openErrors l * (200 * millisecond))) (l_openErrors l) 0 (l_renewals l), []).

(** After the body ended at [now]. *)
Definition stream_ended (renewable : bool) (l : stream_loop) (opened now : Z) : stream_loop * list output :=
  if now - opened <? streamMinLifetime then
    let l := mkLoop (l_phase l) (l_openErrors l) (l_flaps l + 1) (l_renewals l) in
    if l_flaps l >=? streamMaxFlaps then renew_or_give_up renewable l
    else (mkLoop (LBackoff (l_flaps l * (500 * millisecond))) (l_openErrors l) (l_flaps l) (l_renewals l), [])
  else (mkLoop LTop (l_openErrors l) 0 (l_renewals l), []).

Definition with_phase (l : stream_loop) (p : phase) : stream_loop :=
  mkLoop p (l_openErrors l) (l_flaps l) (l_renewals l).

Definition loop_step (c : TunnelConn) (ev : loop_event) : option (TunnelConn * list output) :=
  let l := tc_loop c in
  let lift (r : stream_loop * list output) := Some (set_loop c r.1, r.2) in
  match l_phase l, ev with
  | LTop, EHead => lift (with_phase l (if tc_closed c then LDone else LOpening), [])
  | LOpening, EOpenErr st =>
    if bool_decide (st = Some 404) then lift (giveUp l false) else lift (open_failed (tc_renewable c) l)
  | LOpening, EOpened now => lift (mkLoop (LReading now) 0 (l_flaps l) (l_renewals l), [])
  | LReading opened, ERead data err now sees_closed =>
    let full := tc_depth c <=? zlen (tc_dataChan c) in
    if negb (bool_decide (data = [])) && tc_closed c && (sees_closed || full) then lift (with_phase l LDone, [])
    else if negb (bool_decide (data = [])) && full then None
    else
      let '(c1, o1) := if bool_decide (data = []) then (c, [])
                       else (set_buf c (tc_readBuf c) (tc_dataChan c ++ [data]), [OPush data]) in
      let '(l', o2) := if err then stream_ended (tc_renewable c) l opened now else (l, []) in
      Some (set_loop c1 l', o1 ++ o2)
  | LBackoff _, EWoke sees_closed =>
    lift (with_phase l (if tc_closed c && sees_closed then LDone else LTop), [])
  | _, _ => None
  end.

(** ** Runs *)

Inductive action :=
| AWrite (p : bytes)
| AWriteSlot (sees_closed : bool)
| AWriteSend
| AWriteReply (reply : bytes + bytes)
| APipeDone (i : nat) (err : option bytes)
| ARead (size : Z)
| AReadChan (prefer_closed : bool)
| AReadPoll
| AReadReply (reply : bytes + bytes)
| AReadDone
| AReadWake (sees_closed : bool)
| AClose
| ACloseSend
| ACloseDone
| ALoop (ev : loop_event).

Definition conn_step (c : TunnelConn) (a : action) : option (TunnelConn * list output) :=
  match a with
  | AWrite p => Write c p
  | AWriteSlot sc => Write_slot c sc
  | AWriteSend => Write_send c
  | AWriteReply reply => Write_reply c reply
  | APipeDone i err => pipe_done c i err
  | ARead size => Read c size
  | AReadChan pc => Read_chan c pc
  | AReadPoll => Read_poll c
  | AReadReply reply => Read_reply c reply
  | AReadDone => Read_done c
  | AReadWake sc => Read_wake c sc
  | AClose => Some (Close c, [])
  | ACloseSend => Close_send c
  | ACloseDone => Close_done c
  | ALoop ev => loop_step c ev
  end.

(** Reachability: what has been output so far, from the state [c0]. *)
Inductive conn_reach (c0 : TunnelConn) : TunnelConn -> list output -> Prop :=
| reach_refl : conn_reach c0 c0 []
| reach_step c tr a c' out :
    conn_reach c0 c tr -> conn_step c a = Some (c', out) -> conn_reach c0 c' (tr ++ out).

Fixpoint conn_run (c : TunnelConn) (acts : list action) : option (TunnelConn * list output) :=
  match acts with
  | [] => Some (c, [])
  | a :: acts =>
    match conn_step c a with
    | None => None
    | Some (c', out) => match conn_run c' acts with Some (c'', out') => Some (c'', out ++ out') | None => None end
    end
  end.

(** ** Reading a trace *)

Definition arrived (tr : list output) : bytes :=
  flat_map (fun o => match o with OPush d | OInline d | OCross d => d | _ => [] end) tr.
Definition delivered (tr : list output) : bytes :=
  flat_map (fun o => match o with ORead (IOk d) => d | _ => [] end) tr.
Definition sends (tr : list output) : list (Z * bytes) :=
  flat_map (fun o => match o with OSend s p => [(s, p)] | _ => [] end) tr.
Definition accepted (tr : list output) : bytes :=
  flat_map (fun o => match o with OWrote (IOk d) => d | _ => [] end) tr.
Definition crossings (tr : list output) : Z :=
  zlen (flat_map (fun o => match o with OCross _ => [tt] | _ => [] end) tr).
Definition deaths (tr : list output) : Z :=
  zlen (flat_map (fun o => match o with OStreamDead => [tt] | _ => [] end) tr).
Definition renewals (tr : list output) : Z :=
  zlen (flat_map (fun o => match o with ORenewed => [tt] | _ => [] end) tr).
Definition closes (tr : list output) : Z :=
  zlen (flat_map (fun o => match o with OOnClose => [tt] | _ => [] end) tr).

Ltac trace_app :=
  unfold arrived, delivered, sends, accepted, crossings, deaths, renewals, closes in *; rewrite ?flat_map_app, ?zlen_app in *.

(** A property of state and trace that every step keeps holds of every run. *)
Lemma reach_ind (P : TunnelConn -> list output -> Prop) c0 :
  P c0 [] ->
  (forall c tr a c' out, P c tr -> conn_step c a = Some (c', out) -> P c' (tr ++ out)) ->
  forall c tr, conn_reach c0 c tr -> P c tr.
Proof. intros H0 Hs c tr. induction 1; eauto. Qed.

Lemma conn_run_reach c acts c' out : conn_run c acts = Some (c', out) -> conn_reach c c' out.
Proof.
  assert (forall acts c1 tr, conn_reach c c1 tr -> forall c2 o, conn_run c1 acts = Some (c2, o) -> conn_reach c c2 (tr ++ o)) as G.
  { clear. induction acts as [|a acts IH]; simpl; intros c1 tr Hr c2 o; [intros [= <- <-]; by rewrite app_nil_r|].
    destruct (conn_step c1 a) as [[c3 o3]|] eqn:E; [|done].
    destruct (conn_run c3 acts) as [[c4 o4]|] eqn:E4; [|done]. intros [= <- <-].
    rewrite app_assoc. eapply IH; [|done]. by eapply reach_step. }
  intros E. apply (G acts c []); [constructor|done].
Qed.

(** The cases of a step of the callers. *)
Ltac caller_cases H :=
  revert H; cbn [conn_step];
  unfold Write, Write_slot, Write_send, Write_reply, pipe_done, Read, hand_out, Read_chan, Read_poll, Read_reply, Read_done, Read_wake,
    Close, Close_send, Close_done;
  repeat case_match; intros; simplify_eq/=.

(** ** Invariants *)

Section conn.
Context (depth width : Z) (streaming : bool) (resp0 : bytes).
Context (Hdepth : 0 <= depth) (Hwidth : streaming = true -> 0 < width).

Definition dialed : TunnelConn := established (newTunnelConn depth streaming width) resp0.

(** What never changes, and the capacities. *)
Definition shape (c : TunnelConn) : Prop :=
  tc_streaming c = streaming /\ tc_renewable c = streaming /\ tc_depth c = depth /\
  tc_pipe c = (if streaming then Some width else None) /\
  (streaming = false -> tc_dataChan c = []) /\
  (l_phase (tc_loop c) = LOff <-> streaming = false) /\
  zlen (tc_dataChan c) <= depth /\ zlen (tc_inflight c) <= (if streaming then width else 0) /\
  (streaming = true -> forall p, tc_writer c <> WrPost p) /\
  (streaming = true -> forall n, tc_reader c <> RdPost n).

(** The outputs that only concern the health of the path. *)
Definition control_only (out : list output) : Prop := out = [] \/ out = [OStreamDead] \/ out = [ORenewed].

Lemma stream_ended_control r l opened now :
  control_only (stream_ended r l opened now).2 /\ l_phase (stream_ended r l opened now).1 <> LOff.
Proof.
  unfold stream_ended, renew_or_give_up, tryRenew, giveUp, control_only.
  repeat (case_match; simpl; simplify_eq/=); auto.
Qed.

Lemma open_failed_control r l :
  control_only (open_failed r l).2 /\ l_phase (open_failed r l).1 <> LOff.
Proof.
  unfold open_failed, renew_or_give_up, tryRenew, giveUp, control_only.
  repeat (case_match; simpl; simplify_eq/=); auto.
Qed.

(** One step of the goroutine: either it queues one chunk and may then act on the
    end of the body, or it only changes its own state. *)
Lemma loop_step_cases c ev c' out : loop_step c ev = Some (c', out) ->
  l_phase (tc_loop c) <> LOff /\ exists l' ctl, l_phase l' <> LOff /\ control_only ctl /\
    ((c' = set_loop c l' /\ out = ctl) \/
     exists data, zlen (tc_dataChan c) < tc_depth c /\ data <> [] /\
       c' = set_loop (set_buf c (tc_readBuf c) (tc_dataChan c ++ [data])) l' /\ out = OPush data :: ctl).
Proof.
  unfold loop_step. destruct (l_phase (tc_loop c)) as [| | |opened|d|] eqn:Ep, ev as [|st|now|data err now sc|sc]; try done.
  - intros [= <- <-]. split; [done|]. eexists _, _. split; [|split; [by left|by left]]. by destruct (tc_closed c).
  - case_bool_decide; intros [= <- <-]; (split; [done|]); eexists _, _.
    + split; [|split; [by left|by left]]. done.
    + destruct (open_failed_control (tc_renewable c) (tc_loop c)). split; [|split; [|by left]]; done.
  - intros [= <- <-]. split; [done|]. eexists _, _. split; [|split; [by left|by left]]. done.
  - destruct (stream_ended_control (tc_renewable c) (tc_loop c) opened now) as [Hc Hp].
    destruct (_ && tc_closed c && _) eqn:E1; [intros [= <- <-]; split; [done|];
      eexists _, _; (split; [|split; [by left|by left]]); done|].
    destruct (_ && (_ <=? _)) eqn:E2; [done|]. case_bool_decide as Hd; simpl in E2;
      (destruct err; [destruct (stream_ended _ _ _ _) as [l' o]|]); simpl; intros [= <- <-]; split; try done.
    + exists l', o. split; [done|]. split; [done|]. by left.
    + exists (tc_loop c), []. split; [by rewrite Ep|]. split; [by left|]. by left.
    + exists l', o. split; [done|]. split; [done|]. right. exists data. bool_to_prop. by split.
    + exists (tc_loop c), []. split; [by rewrite Ep|]. split; [by left|]. right. exists data. bool_to_prop. by split.
  - intros [= <- <-]. split; [done|]. eexists _, _. split; [|split; [by left|by left]]. by destruct (_ && _).
Qed.

Lemma dialed_shape : shape dialed.
Proof.
  unfold shape, dialed, established, newTunnelConn. simpl. destruct streaming; simpl.
  - specialize (Hwidth eq_refl). rewrite Z.gtb_ltb, (proj2 (Z.ltb_lt _ _)) by done. simpl. change (zlen []) with 0.
    repeat split; done || lia.
  - rewrite andb_false_r. change (zlen []) with 0. repeat split; done || lia.
Qed.

Lemma zlen_delete_le {A} i (l : list A) : zlen (delete i l) <= zlen l.
Proof.
  unfold zlen. revert i. induction l as [|x l IH]; intros [|i]; cbn; [lia..|]. specialize (IH i). unfold delete in *. lia.
Qed.

Lemma shape_step c a c' out : shape c -> conn_step c a = Some (c', out) -> shape c'.
Proof.
  unfold shape. intros Hsh Hs. pose proof Hsh as (H1 & H2 & H3 & H4 & H5 & H6 & H7 & H8 & H9 & H10).
  destruct a as [p|sc| |reply|i err|size|pc| |reply| |sc| | | |ev].
  15:{ apply loop_step_cases in Hs as (Hn & l' & ctl & Hl & _ & Hc).
       assert (streaming = true) as Ht by (destruct streaming; [done|by destruct Hn; apply H6]).
       assert (l_phase l' = LOff <-> streaming = false) as Hl' by (rewrite Ht; done).
       destruct Hc as [[-> _]|(data & Hlt & _ & -> & _)]; simpl; [by split_and!|].
       rewrite zlen_app. change (zlen [_]) with 1. split_and!; try assumption; [by rewrite Ht|lia]. }
  all: caller_cases Hs; try exact Hsh; split_and!; try solve [assumption | congruence | by intros].
  all: rewrite ?zlen_app; rewrite ?zlen_cons in *; rewrite ?zlen_nil in *; bool_to_prop; try lia.
  all: first [by destruct (H9 eq_refl p) | pose proof (zlen_delete_le i (tc_inflight c)); lia].
Qed.

(** What a [Read] in progress has in hand. *)
Definition hand (c : TunnelConn) : bytes := match tc_reader c with RdRest got rest => got ++ rest | _ => [] end.

(** All that is in the connection, in the order it will be read. *)
Definition pending (c : TunnelConn) : bytes := hand c ++ tc_readBuf c ++ mjoin (tc_dataChan c).

(** Bytes are neither lost nor duplicated between arrival and [Read]. *)
Definition conserved (c : TunnelConn) (tr : list output) : Prop := resp0 ++ arrived tr ≡ₚ delivered tr ++ pending c.

(** Nor reordered, in streaming mode and where no answer of a Write comes in during a Read. *)
Definition fifo (c : TunnelConn) (tr : list output) : Prop :=
  (streaming = true \/ crossings tr = 0) ->
  (tc_reader c <> RdIdle -> tc_readBuf c = []) /\ resp0 ++ arrived tr = delivered tr ++ pending c.

(** Sends are numbered 1, 2, 3, ... in the order they are launched. *)
Definition numbered (c : TunnelConn) (tr : list output) : Prop :=
  tc_seq c = 1 + zlen (sends tr) /\
  forall i s p, sends tr !! i = Some (s, p) -> s = 1 + Z.of_nat i.

(** [Close] notifies exactly once, at its end. *)
Definition closed_once (c : TunnelConn) (tr : list output) : Prop := closes tr = if bool_decide (tc_closer c = ClDone) then 1 else 0.

Definition conn_inv (c : TunnelConn) (tr : list output) : Prop :=
  shape c /\ conserved c tr /\ fifo c tr /\ numbered c tr /\ closed_once c tr /\
  (streaming = true -> mjoin (sends tr).*2 = accepted tr).

Lemma numbered_snoc c tr out p seq' :
  numbered c tr -> sends out = [(tc_seq c, p)] -> seq' = tc_seq c + 1 ->
  seq' = 1 + zlen (sends (tr ++ out)) /\ forall i s q, sends (tr ++ out) !! i = Some (s, q) -> s = 1 + Z.of_nat i.
Proof.
  intros [Hs Hn] Ho ->. assert (sends (tr ++ out) = sends tr ++ [(tc_seq c, p)]) as ->.
  { rewrite <- Ho. apply flat_map_app. }
  split; [rewrite zlen_app; change (zlen [_]) with 1; lia|]. intros i s q Hi.
  apply lookup_snoc_Some in Hi as [[_ Hi]|[-> [= <- <-]]]; [by eapply Hn|]. rewrite Hs. done.
Qed.

Lemma numbered_same c c' tr out :
  numbered c tr -> sends out = [] -> tc_seq c' = tc_seq c -> numbered c' (tr ++ out).
Proof.
  intros Hn Ho Hq. unfold numbered. assert (sends (tr ++ out) = sends tr) as ->.
  { unfold sends in *. by rewrite flat_map_app, Ho, app_nil_r. }
  by rewrite Hq.
Qed.

Lemma control_only_quiet ctl : control_only ctl ->
  arrived ctl = [] /\ delivered ctl = [] /\ sends ctl = [] /\ accepted ctl = [] /\ closes ctl = 0 /\ crossings ctl = 0.
Proof. by intros [->|[->| ->]]. Qed.

Lemma numbered_step c tr a c' out : numbered c tr -> conn_step c a = Some (c', out) -> numbered c' (tr ++ out).
Proof.
  intros Hn Hs. destruct a as [p|sc| |reply|i err|size|pc| |reply| |sc| | | |ev].
  15:{ apply loop_step_cases in Hs as (_ & l' & ctl & _ & (_ & _ & C3 & _)%control_only_quiet & Hc).
       destruct Hc as [[-> ->]|(data & _ & _ & -> & ->)]; by apply (numbered_same c). }
  all: caller_cases Hs; first [by eapply numbered_same | by eapply (numbered_snoc c)].
Qed.

Lemma closed_step c tr a c' out : closed_once c tr -> conn_step c a = Some (c', out) -> closed_once c' (tr ++ out).
Proof.
  unfold closed_once. intros Hn Hs. assert (closes (tr ++ out) = closes tr + closes out) as -> by (by trace_app). rewrite Hn.
  destruct a as [p|sc| |reply|i err|size|pc| |reply| |sc| | | |ev].
  15:{ apply loop_step_cases in Hs as (_ & l' & ctl & _ & (_ & _ & _ & _ & C5 & _)%control_only_quiet & Hc).
       destruct Hc as [[-> ->]|(data & _ & _ & -> & ->)]; cbn [tc_closer set_loop set_buf]; [by rewrite C5, Z.add_0_r|].
       change (closes (OPush data :: ctl)) with (closes ctl). by rewrite C5, Z.add_0_r. }
  all: caller_cases Hs; try (by rewrite Z.add_0_r); repeat case_bool_decide; by try congruence.
Qed.

Lemma accepted_step c tr a c' out : shape c -> streaming = true ->
  mjoin (sends tr).*2 = accepted tr -> conn_step c a = Some (c', out) -> mjoin (sends (tr ++ out)).*2 = accepted (tr ++ out).
Proof.
  intros (_ & _ & _ & H4 & _ & _ & _ & _ & H9 & H10) Ht Ha Hs.
  assert (mjoin (sends out).*2 = accepted out) as Ho; [|trace_app; by rewrite fmap_app, join_app, Ha, Ho].
  destruct a as [p|sc| |reply|i err|size|pc| |reply| |sc| | | |ev].
  15:{ apply loop_step_cases in Hs as (_ & l' & ctl & _ & (_ & _ & C3 & C4 & _)%control_only_quiet & Hc).
       destruct Hc as [[-> ->]|(data & _ & _ & -> & ->)]; unfold sends, accepted in *; cbn [flat_map app]; by rewrite C3, C4. }
  all: revert H4 H9 H10 Hs; rewrite Ht; intros H4 H9 H10 Hs; caller_cases Hs; rewrite ?app_nil_r; try done.
  all: by destruct (H9 eq_refl p).
Qed.

(** How a step moves bytes: out of the connection first, then into it. *)
Lemma conserved_step c tr a c' out : shape c -> conserved c tr -> conn_step c a = Some (c', out) -> conserved c' (tr ++ out).
Proof.
  unfold conserved. intros Hsh Hc Hs.
  assert (arrived (tr ++ out) = arrived tr ++ arrived out /\ delivered (tr ++ out) = delivered tr ++ delivered out) as [-> ->] by (by trace_app).
  rewrite app_assoc, Hc, <- !app_assoc. f_equiv. clear Hc. destruct Hsh as (Hst & _ & _ & _ & Hoff & _).
  destruct a as [p|sc| |reply|i err|size|pc| |reply| |sc| | | |ev].
  15:{ apply loop_step_cases in Hs as (_ & l' & ctl & _ & (C1 & C2 & _)%control_only_quiet & Hc). unfold pending, hand.
       destruct Hc as [[-> ->]|(data & _ & _ & -> & ->)]; cbn [set_loop set_buf tc_reader tc_readBuf tc_dataChan].
       - by rewrite C1, C2, app_nil_r.
       - unfold arrived, delivered in *. cbn [flat_map app]. rewrite C1, C2, join_app. simpl. by rewrite !app_nil_r, <- !app_assoc. }
  all: caller_cases Hs; unfold pending, hand; rewrite ?app_nil_r; simpl; try done.
  all: repeat match goal with H : tc_reader _ = _ |- _ => rewrite H end; simpl; try done.
  all: rewrite ?take_drop, <- ?app_assoc; repeat match goal with H : tc_dataChan _ = _ |- _ => rewrite H end; simpl; rewrite <- ?app_assoc.
  all: first [by rewrite app_assoc, take_drop | rewrite !app_nil_r; apply Permutation_app_comm | apply Permutation_app_swap_app
             | repeat apply Permutation_app_head; first [apply Permutation_app_comm | apply Permutation_app_swap_app] | rewrite app_assoc; apply Permutation_app_comm].
Qed.

Lemma crossings_nonneg tr : 0 <= crossings tr.
Proof. unfold crossings, zlen. lia. Qed.

Lemma fifo_step c tr a c' out : shape c -> fifo c tr -> conn_step c a = Some (c', out) -> fifo c' (tr ++ out).
Proof.
  unfold fifo. intros Hsh Hc Hs Hx.
  assert (crossings (tr ++ out) = crossings tr + crossings out) as Ex by (by trace_app).
  pose proof (crossings_nonneg tr). pose proof (crossings_nonneg out).
  destruct Hc as [Hidle Hc]; [destruct Hx; [by left|right; lia]|]. assert (streaming = true \/ crossings out = 0) as Ho by (destruct Hx; [by left|right; lia]).
  clear Hx Ex. assert (arrived (tr ++ out) = arrived tr ++ arrived out /\ delivered (tr ++ out) = delivered tr ++ delivered out) as [-> ->] by (by trace_app).
  rewrite (app_assoc resp0), Hc, <- !app_assoc. clear Hc. destruct Hsh as (Hst & _ & _ & _ & Hoff & _ & _ & _ & Hpost & Hpoll).
  destruct a as [p|sc| |reply|i err|size|pc| |reply| |sc| | | |ev].
  15:{ apply loop_step_cases in Hs as (_ & l' & ctl & _ & (C1 & C2 & _)%control_only_quiet & Hc). unfold pending, hand.
       destruct Hc as [[-> ->]|(data & _ & _ & -> & ->)]; cbn [set_loop set_buf tc_reader tc_readBuf tc_dataChan]; (split; [done|]).
       - by rewrite C1, C2, app_nil_r.
       - unfold arrived, delivered in *. cbn [flat_map app]. rewrite C1, C2, join_app. simpl. by rewrite !app_nil_r, <- !app_assoc. }
  all: caller_cases Hs; unfold pending, hand; rewrite ?app_nil_r; simpl; try done.
  all: repeat match goal with H : tc_reader _ = _ |- _ => rewrite H end; simpl; try done.
  all: try (destruct (tc_streaming c) eqn:Et; [by destruct (Hpost eq_refl p)|]; destruct Ho as [?|Ho]; [done|]; first [done |
    rewrite (Hoff eq_refl); simpl; rewrite !app_nil_r, <- ?app_assoc; by split]).
  all: try (by rewrite Hidle).
  all: repeat match goal with H : bool_decide (_ <> _) = _ |- _ => revert H; case_bool_decide end; intros; simplify_eq.
  - split; [done|]. by rewrite (app_assoc (take _ _)), take_drop.
  - split; [intros _|done]. destruct (tc_readBuf c); naive_solver.
  - rewrite Hidle, take_drop by done. by match goal with H : tc_dataChan c = _ |- _ => rewrite H end.
  - destruct (tc_streaming c); [by destruct (Hpoll eq_refl size)|]. rewrite Hidle, take_drop, (Hoff eq_refl) by done. simpl. by rewrite !app_nil_r.
  - rewrite Hidle by done. split; [done|]. simpl. by rewrite <- !app_assoc.
Qed.

Lemma conn_inv_step c tr a c' out : conn_inv c tr -> conn_step c a = Some (c', out) -> conn_inv c' (tr ++ out).
Proof.
  intros (H1 & H2 & H3 & H4 & H5 & H6) Hs. split_and!.
  - by eapply shape_step.
  - by eapply conserved_step.
  - by eapply fifo_step.
  - by eapply numbered_step.
  - by eapply closed_step.
  - intros Ht. eapply accepted_step; eauto.
Qed.

Lemma dialed_inv : conn_inv dialed [].
Proof.
  split; [exact dialed_shape|]. unfold conserved, fifo, numbered, closed_once, pending, hand, dialed, established, newTunnelConn. simpl.
  rewrite !app_nil_r. split_and!; done.
Qed.

(** Every run from a connection that was just dialed. *)
Lemma conn_inv_reach c tr : conn_reach dialed c tr -> conn_inv c tr.
Proof. apply reach_ind; [exact dialed_inv|exact conn_inv_step]. Qed.
End conn.


Definition interleaved : list action :=
  [ALoop EHead; ARead 9; ALoop (EOpened 0); ARead 2; AWrite (str "x"); ALoop (ERead (str "abc") false 1 false);
   AWriteSlot false; AReadChan false; AClose; AWrite (str "y"); AReadDone; ACloseSend; APipeDone 0 None; ACloseDone].


(** In polling mode the order can be lost: the answer of a [Write] that comes in between a
    [Read]'s copying out the head of its own answer and its keeping the rest is put before
    that rest, and a [Read] that finds the buffer empty and polls leaves behind what such an
    answer brought meanwhile. *)
Theorem polling_reorders :
  exists acts c tr, conn_run (dialed 4 0 false []) acts = Some (c, tr) /\
    arrived tr = str "abcd" /\ delivered tr = str "acdb".
Proof.
  exists [AWrite (str "x"); AWriteSend; ARead 1; AReadPoll; AReadReply (inl (str "ab"));
     AWriteReply (inl (str "cd")); AReadDone; ARead 9].
  eexists _, _. split; [vm_compute; reflexivity|]. done.
Qed.

(** ** Giving up *)

(** The failure counters, and what the callbacks have been told. *)
Definition health (c : TunnelConn) (tr : list output) : Prop :=
  let l := tc_loop c in
  0 <= l_openErrors l <= streamMaxOpenErrors /\ 0 <= l_flaps l <= streamMaxFlaps /\
  (l_phase l <> LDone -> l_openErrors l < streamMaxOpenErrors /\ l_flaps l < streamMaxFlaps) /\
  0 <= l_renewals l <= maxRenewals /\ renewals tr = l_renewals l /\
  (deaths tr = 0 \/ deaths tr = 1 /\ l_phase l = LDone /\
     (l_openErrors l = streamMaxOpenErrors \/ l_flaps l = streamMaxFlaps) /\
     (tc_renewable c = true -> l_renewals l = maxRenewals)).

(** The counters after a failure that may exhaust the budget. *)
Lemma renew_health r l :
  0 <= l_openErrors l <= streamMaxOpenErrors -> 0 <= l_flaps l <= streamMaxFlaps -> 0 <= l_renewals l <= maxRenewals ->
  (l_openErrors l = streamMaxOpenErrors \/ l_flaps l = streamMaxFlaps) ->
  let '(l', out) := renew_or_give_up r l in
  (out = [ORenewed] /\ l' = mkLoop LTop 0 0 (l_renewals l + 1) /\ l_renewals l < maxRenewals) \/
  (out = [OStreamDead] /\ l' = mkLoop LDone (l_openErrors l) (l_flaps l) (l_renewals l) /\
     (r = true -> l_renewals l = maxRenewals)).
Proof.
  intros H1 H2 H3 H4. unfold renew_or_give_up, tryRenew. destruct r; [|by right].
  destruct (_ >=? _) eqn:E; bool_to_prop; [right|left]; split_and!; try done; lia.
Qed.

(** The loop's own part of a step, as a health-preserving change. *)
Definition loop_change (r : bool) (l l' : stream_loop) (ctl : list output) : Prop :=
  0 <= l_openErrors l' <= streamMaxOpenErrors /\ 0 <= l_flaps l' <= streamMaxFlaps /\
  (l_phase l' <> LDone -> l_openErrors l' < streamMaxOpenErrors /\ l_flaps l' < streamMaxFlaps) /\
  0 <= l_renewals l' <= maxRenewals /\ l_renewals l' = l_renewals l + renewals ctl /\
  (deaths ctl = 0 \/ deaths ctl = 1 /\ l_phase l' = LDone /\
     (l_openErrors l' = streamMaxOpenErrors \/ l_flaps l' = streamMaxFlaps) /\ (r = true -> l_renewals l' = maxRenewals)).

Lemma renew_change r l :
  0 <= l_openErrors l <= streamMaxOpenErrors -> 0 <= l_flaps l <= streamMaxFlaps -> 0 <= l_renewals l <= maxRenewals ->
  (l_openErrors l = streamMaxOpenErrors \/ l_flaps l = streamMaxFlaps) ->
  loop_change r l (renew_or_give_up r l).1 (renew_or_give_up r l).2.
Proof.
  intros H1 H2 H3 H4. pose proof (renew_health r l H1 H2 H3 H4) as Hr. destruct (renew_or_give_up r l) as [l' out].
  destruct Hr as [(-> & -> & Hlt)|(-> & -> & Hr)]; unfold loop_change, renewals, deaths, streamMaxFlaps, streamMaxOpenErrors, maxRenewals, zlen in *;
    simpl; split_and!; try done; try lia; auto.
Qed.

Lemma open_failed_change r l :
  0 <= l_openErrors l < streamMaxOpenErrors -> 0 <= l_flaps l <= streamMaxFlaps -> 0 <= l_renewals l <= maxRenewals ->
  loop_change r l (open_failed r l).1 (open_failed r l).2.
Proof.
  intros H1 H2 H3. unfold open_failed. cbn [l_openErrors l_phase l_flaps l_renewals].
  destruct (_ >=? _) eqn:E; bool_to_prop.
  - apply (renew_change r (mkLoop (l_phase l) (l_openErrors l + 1) 0 (l_renewals l)));
      cbn [l_openErrors l_flaps l_renewals]; unfold streamMaxFlaps in *; lia.
  - unfold loop_change, renewals, deaths, zlen, streamMaxFlaps in *; simpl. split_and!; lia || by left.
Qed.

Lemma stream_ended_change r l opened now :
  0 <= l_openErrors l < streamMaxOpenErrors -> 0 <= l_flaps l < streamMaxFlaps -> 0 <= l_renewals l <= maxRenewals ->
  loop_change r l (stream_ended r l opened now).1 (stream_ended r l opened now).2.
Proof.
  intros H1 H2 H3. unfold stream_ended. cbn [l_openErrors l_phase l_flaps l_renewals].
  destruct (_ <? _); [destruct (_ >=? _) eqn:E; bool_to_prop|].
  - apply (renew_change r (mkLoop (l_phase l) (l_openErrors l) (l_flaps l + 1) (l_renewals l)));
      cbn [l_openErrors l_flaps l_renewals]; lia.
  - unfold loop_change, renewals, deaths, zlen in *; simpl. split_and!; lia || by left.
  - unfold loop_change, renewals, deaths, zlen, streamMaxFlaps in *; simpl. split_and!; lia || by left.
Qed.

(** Bounds of the counters alone. *)
Definition bounded (l : stream_loop) : Prop :=
  0 <= l_openErrors l <= streamMaxOpenErrors /\ 0 <= l_flaps l <= streamMaxFlaps /\
  (l_phase l <> LDone -> l_openErrors l < streamMaxOpenErrors /\ l_flaps l < streamMaxFlaps) /\
  0 <= l_renewals l <= maxRenewals.

Lemma phase_change r l p :
  bounded l -> (l_phase l <> LDone \/ p = LDone) -> loop_change r l (with_phase l p) [].
Proof.
  intros (H1 & H2 & H3 & H4) Hp. unfold loop_change, renewals, deaths, zlen, with_phase; simpl.
  split_and!; try done; try lia. intros Hd. destruct Hp as [Hp| ->]; [by apply H3|done].
Qed.

Lemma loop_step_change c ev c' out :
  bounded (tc_loop c) -> loop_step c ev = Some (c', out) ->
  l_phase (tc_loop c) <> LDone /\ tc_renewable c' = tc_renewable c /\
  exists ctl, loop_change (tc_renewable c) (tc_loop c) (tc_loop c') ctl /\
    renewals out = renewals ctl /\ deaths out = deaths ctl.
Proof.
  intros Hb. pose proof Hb as (H1 & H2 & H3 & H4). unfold loop_step.
  destruct (l_phase (tc_loop c)) as [| | |opened|d|] eqn:Ep, ev as [|st|now|data err now sc|sc]; try done;
    specialize (H3 ltac:(done)).
  - intros [= <- <-]. split; [done|]. split; [done|]. exists []. split; [|done].
    apply phase_change; [done|]. rewrite Ep. by left.
  - case_bool_decide; intros [= <- <-]; (split; [done|]); (split; [done|]).
    + exists []. split; [|done]. apply (phase_change _ _ LDone); [done|]. by right.
    + eexists. split; [apply open_failed_change; lia|done].
  - intros [= <- <-]. split; [done|]. split; [done|]. exists []. split; [|done].
    unfold loop_change, renewals, deaths, zlen, streamMaxOpenErrors in *; simpl. split_and!; lia || by left.
  - destruct (_ && tc_closed c && _); [intros [= <- <-]; split; [done|]; split; [done|]; exists []; split; [|done];
      apply (phase_change _ _ LDone); [done|by right]|].
    destruct (_ && (_ <=? _)); [done|].
    pose proof (stream_ended_change (tc_renewable c) (tc_loop c) opened now ltac:(lia) ltac:(lia) ltac:(lia)) as Hse.
    assert (loop_change (tc_renewable c) (tc_loop c) (tc_loop c) []) as Hid.
    { replace (tc_loop c) with (with_phase (tc_loop c) (l_phase (tc_loop c))) at 2 by (by destruct (tc_loop c)).
      apply phase_change; [done|]. rewrite Ep. by left. }
    case_bool_decide; (destruct err; [destruct (stream_ended _ _ _ _) as [l' o]|]); simpl; intros [= <- <-];
      (split; [done|]); (split; [done|]); eexists; (split; [eassumption|done]).
  - intros [= <- <-]. split; [done|]. split; [done|]. exists []. split; [|done].
    apply phase_change; [done|]. rewrite Ep. by left.
Qed.

(** Steps of the other goroutines leave the loop alone and say nothing of it. *)
Lemma other_step c a c' out :
  (forall ev, a <> ALoop ev) -> conn_step c a = Some (c', out) ->
  tc_loop c' = tc_loop c /\ tc_renewable c' = tc_renewable c /\ renewals out = 0 /\ deaths out = 0.
Proof.
  intros Hne Hs. destruct a as [p|sc| |reply|i err|size|pc| |reply| |sc| | | |ev]; [..|by destruct (Hne ev)].
  all: by caller_cases Hs.
Qed.

Lemma health_step c tr a c' out : health c tr -> conn_step c a = Some (c', out) -> health c' (tr ++ out).
Proof.
  intros (H1 & H2 & H3 & H4 & H5 & H6) Hs.
  assert (renewals (tr ++ out) = renewals tr + renewals out /\ deaths (tr ++ out) = deaths tr + deaths out) as [Er Ed].
  { by trace_app. }
  unfold health. rewrite Er, Ed.
  assert (forall P : Prop, (forall ev, a = ALoop ev -> P) -> ((forall ev, a <> ALoop ev) -> P) -> P) as Hcase.
  { intros P HA HB. destruct a; try (by apply HB). by eapply HA. }
  apply Hcase.
  - intros ev ->. simpl in Hs. apply loop_step_change in Hs as (Hnd & Hren & ctl & Hc & -> & ->); [|done].
    destruct Hc as (C1 & C2 & C3 & C4 & C5 & C6). destruct H6 as [H6|[_ [H6 _]]]; [|done].
    rewrite H6, Hren. simpl. split_and!; try done; lia.
  - intros Hne. apply other_step in Hs as (-> & -> & -> & ->); [|done]. rewrite !Z.add_0_r. repeat (split; [assumption|]); assumption.
Qed.

(** What a run of the goroutine met: failed opens, opened streams, streams that
    ended too soon and streams that lived long enough. *)
Record tally := mkTally { t_openErr : Z; t_opened : Z; t_flap : Z; t_long : Z }.

Definition tally1 (c : TunnelConn) (a : action) : tally :=
  match a, l_phase (tc_loop c) with
  | ALoop (EOpenErr _), _ => mkTally 1 0 0 0
  | ALoop (EOpened _), _ => mkTally 0 1 0 0
  | ALoop (ERead _ true now _), LReading opened =>
    if now - opened <? streamMinLifetime then mkTally 0 0 1 0 else mkTally 0 0 0 1
  | _, _ => mkTally 0 0 0 0
  end.

Definition tally_add (a b : tally) : tally :=
  mkTally (t_openErr a + t_openErr b) (t_opened a + t_opened b) (t_flap a + t_flap b) (t_long a + t_long b).

Fixpoint tally_run (c : TunnelConn) (acts : list action) : tally :=
  match acts with
  | [] => mkTally 0 0 0 0
  | a :: acts =>
    match conn_step c a with
    | None => mkTally 0 0 0 0
    | Some (c', _) => tally_add (tally1 c a) (tally_run c' acts)
    end
  end.

Lemma tally1_nonneg c a : let t := tally1 c a in 0 <= t_openErr t /\ 0 <= t_opened t /\ 0 <= t_flap t /\ 0 <= t_long t.
Proof. unfold tally1. repeat case_match; simpl; lia. Qed.

Lemma tally_run_nonneg acts : forall c,
  let t := tally_run c acts in 0 <= t_openErr t /\ 0 <= t_opened t /\ 0 <= t_flap t /\ 0 <= t_long t.
Proof.
  induction acts as [|a acts IH]; intros c; simpl; [lia|]. destruct (conn_step c a) as [[c' o]|]; simpl; [|lia].
  pose proof (tally1_nonneg c a). specialize (IH c'). simpl in *. lia.
Qed.

(** Failures left before the connection is given up. *)
Definition open_budget (l : stream_loop) : Z :=
  if bool_decide (l_phase l = LDone) then 0
  else 5 * (maxRenewals - l_renewals l) + (streamMaxOpenErrors - l_openErrors l).
Definition flap_budget (l : stream_loop) : Z :=
  if bool_decide (l_phase l = LDone) then 0
  else 5 * (maxRenewals - l_renewals l) + (streamMaxFlaps - l_flaps l).

Lemma budget_nonneg l : bounded l -> 0 <= open_budget l /\ 0 <= flap_budget l.
Proof.
  unfold bounded, open_budget, flap_budget, maxRenewals, streamMaxFlaps, streamMaxOpenErrors. case_bool_decide; lia.
Qed.

Lemma renew_budget l :
  0 <= l_renewals l <= maxRenewals ->
  open_budget (renew_or_give_up true l).1 <= 5 * (maxRenewals - l_renewals l) /\
  flap_budget (renew_or_give_up true l).1 <= 5 * (maxRenewals - l_renewals l).
Proof.
  intros H4. unfold renew_or_give_up, tryRenew, giveUp, open_budget, flap_budget.
  destruct (_ >=? _) eqn:E; bool_to_prop; simpl; repeat case_bool_decide; unfold maxRenewals, streamMaxFlaps, streamMaxOpenErrors in *; lia || done.
Qed.

Ltac budget_lia :=
  unfold bounded, open_budget, flap_budget, with_phase, giveUp in *; simpl in *;
  repeat case_bool_decide; simplify_eq/=; unfold maxRenewals, streamMaxFlaps, streamMaxOpenErrors in *;
  first [congruence | lia].

Lemma open_failed_budget l :
  bounded l -> l_phase l <> LDone -> open_budget (open_failed true l).1 + 1 <= open_budget l.
Proof.
  intros Hb Hp. pose proof Hb as (H1 & H2 & H3 & H4). specialize (H3 Hp). unfold open_failed. simpl.
  destruct (_ >=? _) eqn:E; bool_to_prop; [|budget_lia].
  destruct (renew_budget (mkLoop (l_phase l) (l_openErrors l + 1) 0 (l_renewals l))) as [Hr _]; [done|].
  simpl in Hr. unfold open_budget at 2. case_bool_decide; [done|]. unfold streamMaxOpenErrors in *. lia.
Qed.

Lemma stream_ended_budget l opened now :
  bounded l -> l_phase l <> LDone ->
  open_budget (stream_ended true l opened now).1 <= open_budget l /\
  (now - opened < streamMinLifetime -> flap_budget (stream_ended true l opened now).1 + 1 <= flap_budget l).
Proof.
  intros Hb Hp. pose proof Hb as (H1 & H2 & H3 & H4). specialize (H3 Hp). unfold stream_ended. simpl.
  destruct (_ <? _) eqn:El; bool_to_prop; [|split; [budget_lia|lia]].
  destruct (_ >=? _) eqn:E; bool_to_prop; [|split; budget_lia].
  destruct (renew_budget (mkLoop (l_phase l) (l_openErrors l) (l_flaps l + 1) (l_renewals l))) as [Hr1 Hr2]; [done|].
  simpl in *. unfold open_budget at 2, flap_budget at 2. case_bool_decide; [done|].
  unfold streamMaxFlaps, streamMaxOpenErrors in *. lia.
Qed.

Lemma budget_step c a c' out :
  bounded (tc_loop c) -> tc_renewable c = true -> conn_step c a = Some (c', out) ->
  bounded (tc_loop c') /\ tc_renewable c' = true /\
  (t_opened (tally1 c a) = 0 -> t_openErr (tally1 c a) + open_budget (tc_loop c') <= open_budget (tc_loop c)) /\
  (t_openErr (tally1 c a) = 0 -> t_long (tally1 c a) = 0 ->
     t_flap (tally1 c a) + flap_budget (tc_loop c') <= flap_budget (tc_loop c)).
Proof.
  intros Hb Hr Hs.
  assert (forall P : Prop, (forall ev, a = ALoop ev -> P) -> ((forall ev, a <> ALoop ev) -> P) -> P) as Hcase.
  { intros P HA HB. destruct a; try (by apply HB). by eapply HA. }
  apply Hcase; clear Hcase.
  2:{ intros Hne. apply other_step in Hs as (-> & -> & _); [|done]. split; [done|]. split; [done|].
      unfold tally1. destruct a; simpl; try lia. by destruct (Hne ev). }
  intros ev ->. simpl in Hs. pose proof Hs as (Hnd & Hren & ctl & Hc & _)%loop_step_change; [|done].
  split; [by destruct Hc as (C1 & C2 & C3 & C4 & _)|]. split; [congruence|].
  pose proof Hb as (H1 & H2 & H3 & H4). specialize (H3 Hnd). unfold loop_step in Hs. rewrite Hr in Hs.
  destruct (l_phase (tc_loop c)) as [| | |opened|d|] eqn:Ep, ev as [|st|now|data err now sc|sc]; try done;
    unfold tally1; rewrite ?Ep; simpl.
  - injection Hs as <- <-. destruct (tc_closed c); budget_lia.
  - revert Hs. case_bool_decide; intros [= <- <-]; simpl.
    + budget_lia.
    + pose proof (open_failed_budget (tc_loop c) Hb ltac:(by rewrite Ep)). split; [lia|done].
  - injection Hs as <- <-. budget_lia.
  - revert Hs. destruct (_ && tc_closed c && _).
    { intros [= <- <-]. destruct err; [destruct (_ <? _)|]; budget_lia. }
    destruct (_ && (_ <=? _)); [done|].
    destruct (stream_ended_budget (tc_loop c) opened now Hb ltac:(by rewrite Ep)) as [Ho Hf].
    case_bool_decide; (destruct err; [destruct (stream_ended _ _ _ _) as [l' o]|]); simpl; intros [= <- <-]; simpl in *;
      try (destruct (_ <? _) eqn:E; bool_to_prop); simpl; lia.
  - injection Hs as <- <-. destruct (_ && _); budget_lia.
Qed.

Lemma budget_run acts : forall c c' out,
  bounded (tc_loop c) -> tc_renewable c = true -> conn_run c acts = Some (c', out) ->
  let t := tally_run c acts in
  (t_opened t = 0 -> t_openErr t <= open_budget (tc_loop c)) /\
  (t_openErr t = 0 -> t_long t = 0 -> t_flap t <= flap_budget (tc_loop c)).
Proof.
  induction acts as [|a acts IH]; intros c c' out Hb Hr; simpl; [pose proof (budget_nonneg _ Hb); lia|].
  destruct (conn_step c a) as [[c1 o1]|] eqn:E; [|done].
  destruct (conn_run c1 acts) as [[c2 o2]|] eqn:E2; [|done]. intros [= <- <-].
  destruct (budget_step _ _ _ _ Hb Hr E) as (Hb1 & Hr1 & Ho & Hf). specialize (IH c1 c2 o2 Hb1 Hr1 E2).
  pose proof (tally1_nonneg c a). pose proof (tally_run_nonneg acts c1). simpl in *. lia.
Qed.

(** One failed open and one stream that ends at once, over and over. *)
Definition alternating (n : nat) : list action :=
  mjoin (replicate n (ALoop <$> [EHead; EOpenErr None; EWoke false; EHead; EOpened 0; ERead [] true 0 false; EWoke false])).

Lemma conn_run_app acts1 acts2 : forall c,
  conn_run c (acts1 ++ acts2) =
  match conn_run c acts1 with
  | Some (c', o) => match conn_run c' acts2 with Some (c'', o') => Some (c'', o ++ o') | None => None end
  | None => None
  end.
Proof.
  induction acts1 as [|a acts1 IH]; intros c; simpl; [by destruct (conn_run c acts2) as [[]|]|].
  destruct (conn_step c a) as [[c1 o1]|]; [|done]. rewrite IH. destruct (conn_run c1 acts1) as [[c2 o2]|]; [|done].
  destruct (conn_run c2 acts2) as [[c3 o3]|]; [|done]. by rewrite app_assoc.
Qed.

Lemma alternating_run depth width n :
  0 < width -> exists f, conn_run (dialed depth width true []) (alternating n) =
    Some (set_loop (dialed depth width true []) (mkLoop LTop 0 f 0), []) /\ 0 <= f <= 1.
Proof.
  intros Hw. induction n as [|n IH]; [by exists 0|].
  unfold alternating. rewrite replicate_S_end, join_app, conn_run_app. fold (alternating n).
  destruct IH as (f & -> & Hf). exists 1. split; [|lia]. unfold dialed, established, newTunnelConn. cbn. done.
Qed.

(** What the stream goroutine has met, most recent first, read off the actions and the
    outputs alone. *)
Inductive outcome :=
| OpenFailed
| Opened (now : Z)
| ShortLived
| LongLived
| Renewed.

(** When the last stream was opened. *)
Fixpoint last_opened (h : list outcome) : Z :=
  match h with [] => 0 | Opened now :: _ => now | _ :: h => last_opened h end.

(** Opens that failed one after the other, and streams that ended too soon one after
    the other (each of them was opened first). *)
Fixpoint failed_in_a_row (h : list outcome) : Z :=
  match h with OpenFailed :: h => failed_in_a_row h + 1 | _ => 0 end.
Fixpoint short_in_a_row (h : list outcome) : Z :=
  match h with ShortLived :: h => short_in_a_row h + 1 | Opened _ :: h => short_in_a_row h | _ => 0 end.

(** The end of a body counts unless the connection was closed while its last chunk
    waited for the channel; a 404 is no failure of the path. *)
Definition event (h : list outcome) (a : action) (out : list output) : list outcome :=
  match a with
  | ALoop (EOpenErr st) => if bool_decide (st = Some 404) then [] else [OpenFailed]
  | ALoop (EOpened now) => [Opened now]
  | ALoop (ERead data true now _) =>
    if bool_decide (arrived out = data) then [if now - last_opened h <? streamMinLifetime then ShortLived else LongLived] else []
  | _ => []
  end.

Definition note (h : list outcome) (a : action) (out : list output) : list outcome :=
  (if renewals out =? 0 then [] else [Renewed]) ++ event h a out ++ h.

Fixpoint history (c : TunnelConn) (h : list outcome) (acts : list action) : list outcome :=
  match acts with
  | [] => h
  | a :: acts => match conn_step c a with None => h | Some (c', out) => history c' (note h a out) acts end
  end.

(** What a step tells the dialer. *)
Definition told (out : list output) : list output :=
  flat_map (fun o => match o with ORenewed | OStreamDead => [o] | _ => [] end) out.

(** The fifth failure in a row is told, as a renewal while there are renewals left. *)
Definition verdict (renewed : Z) (e h : list outcome) : list output :=
  if bool_decide (e <> []) && ((failed_in_a_row (e ++ h) =? 5) || (short_in_a_row (e ++ h) =? 5))
  then (if renewed <? 3 then [ORenewed] else [OStreamDead]) else [].

(** The counters of the goroutine are these streaks. *)
Definition watched (c : TunnelConn) (h : list outcome) : Prop :=
  l_openErrors (tc_loop c) = failed_in_a_row h /\ l_flaps (tc_loop c) = short_in_a_row h /\
  (forall opened, l_phase (tc_loop c) = LReading opened -> last_opened h = opened /\ l_openErrors (tc_loop c) = 0).

Ltac watched_cases :=
  unfold renewals, arrived, streamMaxFlaps, streamMaxOpenErrors, maxRenewals in *; simpl;
  repeat first [case_match | case_bool_decide]; simplify_eq/=; rewrite ?app_nil_r in *; bool_to_prop; try done; try lia.

Lemma watched_loop c h ev c' out :
  watched c h -> bounded (tc_loop c) -> tc_renewable c = true -> loop_step c ev = Some (c', out) ->
  watched c' (note h (ALoop ev) out) /\ told out = verdict (l_renewals (tc_loop c)) (event h (ALoop ev) out) h.
Proof.
  intros (W1 & W2 & W3) (B1 & B2 & B3 & B4) Hr Hs. revert Hs. unfold loop_step, watched, note, verdict. rewrite Hr.
  destruct (l_phase (tc_loop c)) as [| | |opened|d|] eqn:Ep, ev as [|st|now|data err now sc|sc]; try done;
    specialize (B3 ltac:(done)).
  - intros [= <- <-]. split; [|done]. split_and!; try done. simpl. by destruct (tc_closed c).
  - cbn [event]. case_bool_decide; intros [= <- <-]; [split; [by split_and!|done]|].
    unfold open_failed, renew_or_give_up, tryRenew, giveUp. simpl. rewrite W1 in *. watched_cases.
  - intros [= <- <-]. split; [split_and!; try done; simpl; naive_solver|]. unfold event. simpl. rewrite <- W2.
    by rewrite (proj2 (Z.eqb_neq _ _)) by (unfold streamMaxFlaps in *; lia).
  - destruct (W3 opened eq_refl) as [W4 W5]. cbn [event].
    destruct (bool_decide (data = [])) eqn:Ed; simpl.
    + apply bool_decide_eq_true in Ed as ->. unfold stream_ended, renew_or_give_up, tryRenew, giveUp. destruct err; simpl.
      2:{ intros [= <- <-]. split; [|done]. simpl. rewrite Ep. by split_and!. }
      rewrite W4. rewrite W5, W2 in *. repeat case_match; intros [= <- <-]; watched_cases.
    + apply bool_decide_eq_false in Ed. destruct (tc_closed c && _) eqn:Ex; simpl.
      { intros [= <- <-]. simpl. rewrite (bool_decide_eq_false_2 ([] = data)) by congruence. destruct err; (split; [by split_and!|done]). }
      destruct (_ <=? _); [done|]. unfold stream_ended, renew_or_give_up, tryRenew, giveUp. destruct err; simpl.
      2:{ intros [= <- <-]. split; [|done]. simpl. rewrite Ep. by split_and!. }
      rewrite W4. rewrite W5, W2 in *. repeat case_match; intros [= <- <-]; watched_cases.
  - intros [= <- <-]. split; [|done]. split_and!; try done. simpl. by destruct (_ && _).
Qed.

Lemma watched_step c h a c' out :
  watched c h -> bounded (tc_loop c) -> tc_renewable c = true -> conn_step c a = Some (c', out) ->
  watched c' (note h a out) /\ told out = verdict (l_renewals (tc_loop c)) (event h a out) h.
Proof.
  intros Hw Hb Hr Hs. destruct a as [p|sc| |reply|i err|size|pc| |reply| |sc| | | |ev]; [..|by apply watched_loop].
  all: by caller_cases Hs.
Qed.

Lemma watched_run acts : forall c h c' out,
  watched c h -> bounded (tc_loop c) -> tc_renewable c = true -> conn_run c acts = Some (c', out) -> watched c' (history c h acts).
Proof.
  induction acts as [|a acts IH]; intros c h c' out Hw Hb Hr; simpl; [by intros [= <- <-]|].
  destruct (conn_step c a) as [[c1 o1]|] eqn:E; [|done]. destruct (conn_run c1 acts) as [[c2 o2]|] eqn:E2; [|done]. intros [= <- <-].
  destruct (budget_step _ _ _ _ Hb Hr E) as (Hb1 & Hr1 & _). destruct (watched_step _ _ _ _ _ Hw Hb Hr E) as [Hw1 _]. by eapply IH.
Qed.


Definition bad_opens (n : nat) : list action := mjoin (replicate n (ALoop <$> [EHead; EOpenErr None; EWoke false])).


(** The two failure counters reset each other, so a path on which failed
    opens alternate with streams that die at once is retried for ever: after any
    number of such rounds the goroutine is back at the head of its loop, no
    renewal was asked for and the dialer was told nothing. *)
Theorem alternating_failures_never_counted (depth width : Z) (n : nat) (Hw : 0 < width) :
  exists c, conn_run (dialed depth width true []) (alternating n) = Some (c, []) /\
    l_phase (tc_loop c) = LTop /\ l_renewals (tc_loop c) = 0 /\
    length (alternating n) = (7 * n)%nat.
Proof.
  destruct (alternating_run depth width n Hw) as (f & E & _). eexists. split; [exact E|]. split; [done|]. split; [done|].
  clear. unfold alternating. induction n as [|n IH]; [done|]. simpl in *. lia.
Qed.

Lemma alternating_failures_never_counted_witness :
  exists c, conn_run (dialed 64 8 true []) (alternating 3) = Some (c, []) /\ l_phase (tc_loop c) = LTop.
Proof.
  destruct (alternating_failures_never_counted 64 8 3 ltac:(lia)) as (c & E & Hp & _). exists c. split; [exact E|exact Hp].
Defined.
