(* ===== verification/DialerPool.v ===== *)
(** * DialerPool: RTT-weighted selection of a dialer (dialer_pool.go)

    Dialers are shared objects: a slot holds a pointer (a number), the objects
    live in a store.  Weights are exact rationals where the code uses float64.
    [Pick] computes each weight twice, at two instants; the two tables are
    arguments, equal when nothing changed in between. *)
From Stdlib Require Import QArith Qminmax Lqa.
From S2P Require Import Prelude DialWindow.
Open Scope Z_scope.

Inductive dialerState := dialerStandby | dialerDraining.
#[global] Instance dialerState_eq : EqDecision dialerState. Proof. solve_decision. Defined.

Record dialerSlot := mkSlot { s_dialer : nat; s_state : dialerState }.
#[global] Instance dialerSlot_eq : EqDecision dialerSlot. Proof. solve_decision. Defined.

(** What the pool reads and writes of a [TunnelDialer]. *)
Record dialer := mkDialer {
  d_url : bytes;
  d_win : winState;
  d_rtt : rttState;
  d_openConns : Z;
  d_lastData : Z;
  d_hook : option nat
}.

Abbreviation dialers := (gmap nat dialer).

Record DialerPool := mkPool {
  p_slots : list dialerSlot;
  p_evictCount : Z;
  p_hook : option nat
}.

Definition live (s : dialerSlot) : bool := bool_decide (s_state s <> dialerDraining).

(** ** Weights *)

Definition defaultPickRTT : Z := 1000000000.
Definition softMinQuality : Q := 1 # 10.

(** [rtt] is [TrafficRTT()] and [f / t] is [FailRatio()]. *)
Definition pickWeight (rtt : Z) (ratio : Z * Z) : Q :=
  let rtt := if rtt <=? 0 then defaultPickRTT else rtt in
  let base := (1 # Z.to_pos rtt)%Q in
  let quality := (1 - (fst ratio # Z.to_pos (snd ratio)))%Q in
  let quality := if negb (Qle_bool softMinQuality quality) then softMinQuality else quality in
  (base * quality)%Q.

Definition dialer_weight (now : Z) (d : dialer) : Q :=
  pickWeight (TrafficRTT (d_rtt d)) (FailRatio now (d_win d)).1.

(** ** Pick *)

Fixpoint total_weight (w : nat -> Q) (slots : list dialerSlot) (acc : Q) : Q :=
  match slots with
  | [] => acc
  | s :: slots => total_weight w slots (if live s then (acc + w (s_dialer s))%Q else acc)
  end.

Fixpoint pick_loop (w : nat -> Q) (slots : list dialerSlot) (r : Q) : option nat :=
  match slots with
  | [] => None
  | s :: slots =>
    if negb (live s) then pick_loop w slots r else
    let r := (r - w (s_dialer s))%Q in
    if Qle_bool r 0 then Some (s_dialer s) else pick_loop w slots r
  end.

(** The last live slot, for a residual left by rounding. *)
Fixpoint last_live (slots : list dialerSlot) : option nat :=
  match slots with
  | [] => None
  | s :: slots => if live s then Some (s_dialer s) else last_live slots
  end.

(** [rnd] is [rand.Float64()]. *)
Definition Pick (w1 w2 : nat -> Q) (rnd : Q) (p : DialerPool) : option nat :=
  let total := total_weight w1 (p_slots p) 0 in
  if Qeq_bool total 0 then None else
  match pick_loop w2 (p_slots p) (rnd * total)%Q with
  | Some d => Some d
  | None => last_live (rev (p_slots p))
  end.

(** ** The other operations *)

Definition set_hook (h : option nat) (ds : dialers) (i : nat) : dialers :=
  alter (fun d => mkDialer (d_url d) (d_win d) (d_rtt d) (d_openConns d) (d_lastData d) h) i ds.

Definition NewDialerPool (l : list nat) : DialerPool := mkPool ((fun d => mkSlot d dialerStandby) <$> l) 0 None.

Definition SetActivityHook (h : option nat) (ds : dialers) (p : DialerPool) : dialers * DialerPool :=
  (fold_left (fun ds s => set_hook h ds (s_dialer s)) (p_slots p) ds, mkPool (p_slots p) (p_evictCount p) h).

Definition sizeUnlocked (p : DialerPool) : Z :=
  fold_left (fun n s => if live s then n + 1 else n) (p_slots p) 0.

Definition Add (td : nat) (ds : dialers) (p : DialerPool) : dialers * DialerPool :=
  (match p_hook p with Some h => set_hook (Some h) ds td | None => ds end,
   mkPool (p_slots p ++ [mkSlot td dialerStandby]) (p_evictCount p) (p_hook p)).

(** The loop of [Evict]: what is kept and whether the dialer was found. *)
Fixpoint evict_loop (td : nat) (slots : list dialerSlot) : list dialerSlot * bool :=
  match slots with
  | [] => ([], false)
  | s :: slots =>
    let '(next, found) := evict_loop td slots in
    if Nat.eqb (s_dialer s) td then (next, true) else (s :: next, found)
  end.

Definition Evict (td : nat) (p : DialerPool) : DialerPool * Z :=
  let '(next, found) := evict_loop td (p_slots p) in
  if negb found then (p, sizeUnlocked p)
  else let p' := mkPool next (p_evictCount p + 1) (p_hook p) in (p', sizeUnlocked p').

Definition Swap (l : list nat) (ds : dialers) (p : DialerPool) : dialers * DialerPool :=
  (match p_hook p with Some h => fold_left (set_hook (Some h)) l ds | None => ds end,
   mkPool ((fun d => mkSlot d dialerStandby) <$> l) (p_evictCount p) (p_hook p)).

Definition NeedsRefill (target : Z) (p : DialerPool) : bool := sizeUnlocked p <? target.

Definition Size (p : DialerPool) : Z := sizeUnlocked p.

Definition PickForUID (w1 w2 : nat -> Q) (rnd : Q) (uid : Z) (p : DialerPool) : option nat := Pick w1 w2 rnd p.

Definition dialerStateName (s : dialerState) : bytes := match s with dialerDraining => str "draining" | dialerStandby => str "standby" end.

Definition url_of (ds : dialers) (i : nat) : bytes := match ds !! i with Some d => d_url d | None => [] end.

Fixpoint find_url (url : bytes) (ds : dialers) (slots : list dialerSlot) : option nat :=
  match slots with
  | [] => None
  | s :: slots =>
    if live s && bool_decide (url_of ds (s_dialer s) = url) then Some (s_dialer s) else find_url url ds slots
  end.

Definition Has (url : bytes) (ds : dialers) (p : DialerPool) : bool := bool_decide (is_Some (find_url url ds (p_slots p))).
Definition Get (url : bytes) (ds : dialers) (p : DialerPool) : option nat := find_url url ds (p_slots p).

Definition DrainEvictions (p : DialerPool) : DialerPool * Z := (mkPool (p_slots p) 0 (p_hook p), p_evictCount p).

Definition manage (ds : dialers) (p : DialerPool) : DialerPool :=
  mkPool ((fun s =>
      match s_state s, ds !! s_dialer s with
      | dialerDraining, Some d => if d_openConns d =? 0 then mkSlot (s_dialer s) dialerStandby else s
      | _, _ => s
      end) <$> p_slots p) (p_evictCount p) (p_hook p).

Definition LastDataTime (ds : dialers) (p : DialerPool) : Z :=
  fold_left (fun latest s => match ds !! s_dialer s with
     | Some d => if d_lastData d >? latest then d_lastData d else latest | None => latest end) (p_slots p) 0.

(** ** Runs of the pool *)

Inductive pool_op :=
| OpHook (h : option nat) | OpAdd (td : nat) | OpEvict (td : nat) | OpSwap (l : list nat) | OpDrain | OpManage.

Definition pool_step (op : pool_op) (st : dialers * DialerPool) : dialers * DialerPool :=
  let '(ds, p) := st in
  match op with
  | OpHook h => SetActivityHook h ds p
  | OpAdd td => Add td ds p
  | OpEvict td => (ds, (Evict td p).1)
  | OpSwap l => Swap l ds p
  | OpDrain => (ds, (DrainEvictions p).1)
  | OpManage => (ds, manage ds p)
  end.

(** ** Properties *)

(** A dialer's weight is the inverse of its round-trip time (one second while
    it has no measurements) scaled by its reliability, and never less than a tenth
    of that inverse: a struggling dialer stays eligible. *)
Theorem pick_weight_bounds (rtt f t : Z) (Hf : 0 <= f <= t) (Ht : 0 < t) :
  let eff := if rtt <=? 0 then defaultPickRTT else rtt in
  let base := (1 # Z.to_pos eff)%Q in
  let w := pickWeight rtt (f, t) in
  (softMinQuality * base <= w <= base /\ 0 < w)%Q /\
  (10 * f <= 9 * t -> (w == base * (1 - (f # Z.to_pos t)))%Q).
Proof.
  intros eff base w.
  assert (0 < base)%Q as Hb by done.
  assert (0 <= f # Z.to_pos t)%Q as Hr by (unfold Qle; simpl; lia).
  unfold w, pickWeight. cbn [fst snd]. fold eff. fold base.
  destruct (Qle_bool softMinQuality _) eqn:E; simpl negb; cbv iota.
  - apply Qle_bool_iff in E. split; [|intros _; reflexivity].
    unfold softMinQuality in *. split; [split; nra|nra].
  - assert (~ softMinQuality <= 1 - (f # Z.to_pos t))%Q as Hn by (intros Hc%Qle_bool_iff; congruence).
    split; [unfold softMinQuality in *; split; [split; nra|nra]|].
    intros H. destruct Hn. unfold softMinQuality, Qle, Qminus, Qplus, Qopp. simpl. lia.
Qed.

Lemma pick_weight_bounds_witness : (0 < pickWeight 0%Z (3, 4)%Z)%Q.
Proof. apply (pick_weight_bounds 0 3 4); lia. Defined.

(** The weight of the live slots of a list. *)
Fixpoint cum (w : nat -> Q) (slots : list dialerSlot) : Q :=
  match slots with
  | [] => 0
  | s :: slots => ((if live s then w (s_dialer s) else 0) + cum w slots)%Q
  end.

Lemma total_weight_cum w slots : forall acc, (total_weight w slots acc == acc + cum w slots)%Q.
Proof.
  induction slots as [|s slots IH]; intros acc; simpl; [lra|]. rewrite IH. destruct (live s); lra.
Qed.

Lemma cum_nonneg w slots : (forall i, 0 < w i)%Q -> (0 <= cum w slots)%Q.
Proof. intros Hw. induction slots as [|s slots IH]; simpl; [lra|]. specialize (Hw (s_dialer s)). destruct (live s); lra. Qed.

Lemma cum_zero w slots : (forall i, 0 < w i)%Q -> (cum w slots == 0)%Q <-> Forall (fun s => live s = false) slots.
Proof.
  intros Hw. induction slots as [|s slots IH]; simpl; [split; [constructor|lra]|].
  rewrite Forall_cons, <- IH. pose proof (cum_nonneg w slots Hw). specialize (Hw (s_dialer s)).
  destruct (live s); split; [lra|by intros []|split; [done|lra]|intros [_ ?]; lra].
Qed.

Lemma pick_loop_spec w slots : forall r,
  match pick_loop w slots r with
  | Some d => exists pre s post, slots = pre ++ s :: post /\ live s = true /\ d = s_dialer s /\
      (r <= cum w pre + w d)%Q /\ (Forall (fun s => live s = false) pre \/ (cum w pre < r)%Q)
  | None => Forall (fun s => live s = false) slots \/ (cum w slots < r)%Q
  end.
Proof.
  induction slots as [|s slots IH]; intros r; simpl; [by left; constructor|].
  destruct (live s) eqn:El; simpl.
  - destruct (Qle_bool _ 0) eqn:E.
    + apply Qle_bool_iff in E. exists [], s, slots. simpl. split_and!; try done; [lra|by left; constructor].
    + assert (~ r - w (s_dialer s) <= 0)%Q as Hn by (intros Hc%Qle_bool_iff; congruence).
      specialize (IH (r - w (s_dialer s))%Q). destruct (pick_loop _ _ _) as [d|].
      * destruct IH as (pre & s1 & post & -> & Hl & -> & Hle & Hlt). exists (s :: pre), s1, post. simpl. rewrite El.
        split_and!; try done; [lra|]. right. destruct Hlt as [Hlt|]; [|lra].
        assert (cum w pre == 0)%Q; [|lra].
        clear - Hlt. induction Hlt as [|x l Hx _ IH]; simpl; [lra|]. rewrite Hx. lra.
      * right. destruct IH as [Hlt|]; [|lra]. assert (cum w slots == 0)%Q; [|lra].
        clear - Hlt. induction Hlt as [|x l Hx _ IH]; simpl; [lra|]. rewrite Hx. lra.
  - specialize (IH r). destruct (pick_loop _ _ _) as [d|].
    + destruct IH as (pre & s1 & post & -> & Hl & -> & Hle & Hlt). exists (s :: pre), s1, post. simpl. rewrite El.
      split_and!; try done; [lra|]. destruct Hlt as [Hlt|]; [left; by constructor|right; lra].
    + destruct IH as [Hlt|]; [left; by constructor|right; lra].
Qed.

Lemma last_live_spec slots :
  match last_live slots with
  | Some d => exists s, s ∈ slots /\ live s = true /\ d = s_dialer s
  | None => Forall (fun s => live s = false) slots
  end.
Proof.
  induction slots as [|s slots IH]; simpl; [constructor|]. destruct (live s) eqn:El; [exists s; by split; [left|]|].
  destruct (last_live slots); [|by constructor]. destruct IH as (x & Hx & ?). exists x. by split; [right|].
Qed.

(** [Pick] returns nil exactly when no slot is live, and otherwise a dialer of
    a live slot, even if the weights change between its two passes.  With stable
    weights, the slot chosen is the one whose stretch of the cumulated weights
    holds [rnd * total]: each live slot gets a share of the draws equal to its
    share of the weight. *)
Theorem pick_correct (w1 w2 : nat -> Q) (rnd : Q) (p : DialerPool)
    (Hw1 : forall i, (0 < w1 i)%Q) (Hw2 : forall i, (0 < w2 i)%Q) (Hr : (0 <= rnd < 1)%Q) :
  (Pick w1 w2 rnd p = None <-> Forall (fun s => live s = false) (p_slots p)) /\
  (forall d, Pick w1 w2 rnd p = Some d -> exists s, s ∈ p_slots p /\ live s = true /\ s_dialer s = d) /\
  (forall d, Pick w1 w1 rnd p = Some d -> exists pre s post, p_slots p = pre ++ s :: post /\ live s = true /\
     s_dialer s = d /\ (rnd * cum w1 (p_slots p) <= cum w1 pre + w1 d)%Q /\
     (Forall (fun s => live s = false) pre \/ (cum w1 pre < rnd * cum w1 (p_slots p))%Q)).
Proof.
  assert (Qeq_bool (total_weight w1 (p_slots p) 0) 0 = true <-> Forall (fun s => live s = false) (p_slots p)) as Ht.
  { rewrite Qeq_bool_iff, total_weight_cum, <- (cum_zero w1) by done. split; intros; lra. }
  unfold Pick. destruct (Qeq_bool _ 0) eqn:E0.
  { split; [|split; done]. split; [|done]. intros _. by apply Ht. }
  assert (~ Forall (fun s => live s = false) (p_slots p)) as Hn by (rewrite <- Ht; done). clear Ht.
  pose proof (last_live_spec (rev (p_slots p))) as Hl.
  assert (forall s, s ∈ rev (p_slots p) -> s ∈ p_slots p) as Hrev by (intros s; rewrite !list_elem_of_In; by rewrite <- in_rev).
  split; [|split].
  - split; [|done]. intros Hp. destruct Hn. destruct (pick_loop w2 _ _); [done|]. rewrite Hp in Hl.
    apply Forall_forall. intros s Hs. rewrite Forall_forall in Hl. apply Hl.
    rewrite list_elem_of_In in *. by rewrite <- in_rev.
  - intros d. pose proof (pick_loop_spec w2 (p_slots p) (rnd * total_weight w1 (p_slots p) 0)) as Hp.
    destruct (pick_loop w2 _ _) as [d'|]; [intros [= <-]|intros Hd; rewrite Hd in Hl].
    + destruct Hp as (pre & s & post & -> & Hs & -> & _). exists s. split; [set_solver|done].
    + destruct Hl as (s & Hs & Hls & ->). exists s. auto.
  - intros d. pose proof (pick_loop_spec w1 (p_slots p) (rnd * total_weight w1 (p_slots p) 0)) as Hp.
    assert (rnd * total_weight w1 (p_slots p) 0 == rnd * cum w1 (p_slots p))%Q as Et.
    { rewrite total_weight_cum. ring. }
    destruct (pick_loop w1 _ _) as [d'|]; [intros [= <-]|].
    + destruct Hp as (pre & s & post & E & Hs & -> & Hle & Hlt). exists pre, s, post. split_and!; try done; [lra|].
      destruct Hlt as [?|Hlt]; [by left|right; lra].
    + destruct Hp as [?|Hlt]; [done|]. pose proof (cum_nonneg w1 (p_slots p) Hw1). exfalso. nra.
Qed.

Lemma pick_correct_witness :
  let p := mkPool [mkSlot 1 dialerDraining; mkSlot 2 dialerStandby] 0 None in
  Pick (fun _ => 1%Q) (fun _ => 2%Q) (1 # 2) p <> None.
Proof.
  intros p. destruct (pick_correct (fun _ => 1%Q) (fun _ => 2%Q) (1 # 2) p) as (Hn & _); [done|done|done|].
  rewrite Hn. intros H. apply Forall_cons in H as [_ H]. apply Forall_cons in H as [H _]. discriminate H.
Defined.

(** ** The life of the pool *)

Lemma set_hook_lookup h ds i j :
  set_hook h ds i !! j = if Nat.eqb i j then (fun d => mkDialer (d_url d) (d_win d) (d_rtt d) (d_openConns d) (d_lastData d) h) <$> ds !! j else ds !! j.
Proof.
  unfold set_hook. rewrite lookup_alter. destruct (Nat.eqb_spec i j); case_decide; congruence || reflexivity.
Qed.

Definition hooked (h : option nat) (ds : dialers) (i : nat) : Prop := forall d, ds !! i = Some d -> d_hook d = h.

Lemma hooked_set h ds i j : hooked h ds j -> hooked h (set_hook h ds i) j.
Proof.
  intros Hh d. rewrite set_hook_lookup. destruct (Nat.eqb_spec i j); [|by apply Hh].
  destruct (ds !! j); [|done]. by intros [= <-].
Qed.

Lemma hooked_set_same h ds i : hooked h (set_hook h ds i) i.
Proof. intros d. rewrite set_hook_lookup, Nat.eqb_refl. destruct (ds !! i); [|done]. by intros [= <-]. Qed.

Lemma hooked_fold h l : forall ds j, (j ∈ l \/ hooked h ds j) -> hooked h (fold_left (set_hook h) l ds) j.
Proof.
  induction l as [|i l IH]; intros ds j Hj; simpl; [destruct Hj as [[]%elem_of_nil|]; done|]. apply IH.
  destruct Hj as [[->|Hj]%elem_of_cons|Hj]; [right; apply hooked_set_same|by left|right; by apply hooked_set].
Qed.

Lemma evict_loop_spec td slots :
  evict_loop td slots = (filter (fun s => s_dialer s <> td) slots, bool_decide (td ∈ s_dialer <$> slots)).
Proof.
  induction slots as [|s slots IH]; simpl; [done|]. rewrite IH.
  destruct (Nat.eqb_spec (s_dialer s) td) as [E|E].
  - rewrite filter_cons_False by auto. f_equal. symmetry. apply bool_decide_eq_true. rewrite E. left.
  - rewrite filter_cons_True by done. f_equal. apply bool_decide_ext. rewrite elem_of_cons. naive_solver.
Qed.

Definition pool_ok (st : dialers * DialerPool) : Prop :=
  Forall (fun s => s_state s = dialerStandby) (p_slots st.2) /\
  (forall h, p_hook st.2 = Some h -> Forall (fun s => hooked (Some h) st.1 (s_dialer s)) (p_slots st.2)) /\
  0 <= p_evictCount st.2.

Lemma pool_step_ok op st : pool_ok st -> pool_ok (pool_step op st).
Proof.
  destruct st as [ds p]. intros (Hs & Hh & Hc). simpl in *. destruct op as [h|td|td|l| |]; simpl.
  - split; [done|]. split; [|done]. simpl. intros h' ->. apply Forall_forall. intros s Hs'.
    assert (forall l ds, fold_left (fun ds s => set_hook (Some h') ds (s_dialer s)) l ds =
      fold_left (set_hook (Some h')) (s_dialer <$> l) ds) as -> by (clear; induction l; simpl; done).
    apply hooked_fold. left. by apply list_elem_of_fmap_2.
  - split; [apply Forall_app; split; [done|by constructor]|]. split; [|done]. simpl. intros h E. rewrite E.
    apply Forall_app. split; [|constructor; [apply hooked_set_same|constructor]].
    eapply Forall_impl; [by apply Hh|]. intros s. apply hooked_set.
  - unfold Evict. rewrite evict_loop_spec. case_bool_decide; simpl; [|done].
    assert (forall P : dialerSlot -> Prop, Forall P (p_slots p) -> Forall P (filter (fun s => s_dialer s <> td) (p_slots p))) as Hf.
    { intros P HP. rewrite Forall_forall in *. intros s [_ Hin]%list_elem_of_filter. by apply HP. }
    split; [by apply Hf|]. split; [|simpl; lia]. intros h E. apply Hf. by apply Hh.
  - split; [apply Forall_fmap, Forall_forall; done|]. split; [|done]. simpl. intros h E. rewrite E.
    apply Forall_fmap, Forall_forall. intros i Hi. apply hooked_fold. by left.
  - split; [done|]. by split.
  - assert ((fun s => match s_state s, ds !! s_dialer s with
      | dialerDraining, Some d => if d_openConns d =? 0 then mkSlot (s_dialer s) dialerStandby else s
      | _, _ => s end) <$> p_slots p = p_slots p) as E.
    { rewrite <- (list_fmap_id (p_slots p)) at 2. apply list_fmap_ext. intros i s Hi.
      rewrite Forall_lookup in Hs. by rewrite (Hs i s Hi). }
    unfold manage. rewrite E. by split.
Qed.

(** Whatever sequence of operations a pool goes through, every slot is a
    standby slot (nothing ever starts draining one), every pooled dialer carries
    the pool's activity hook, the size is the number of slots, and [Pick] fails
    only on an empty pool; evicting a dialer removes all its slots and nothing
    else, keeps the order and counts the eviction once if it was there. *)
Theorem pool_invariant (l : list nat) (ds0 : dialers) (ops : list pool_op) :
  let '(ds, p) := fold_left (fun st op => pool_step op st) ops (ds0, NewDialerPool l) in
  Forall (fun s => s_state s = dialerStandby) (p_slots p) /\
  (forall h s d, p_hook p = Some h -> s ∈ p_slots p -> ds !! s_dialer s = Some d -> d_hook d = Some h) /\
  sizeUnlocked p = zlen (p_slots p) /\ 0 <= p_evictCount p /\
  (forall td, let '(p', n) := Evict td p in
     p_slots p' = filter (fun s => s_dialer s <> td) (p_slots p) /\ n = zlen (p_slots p') /\
     p_evictCount p' = p_evictCount p + (if bool_decide (td ∈ s_dialer <$> p_slots p) then 1 else 0)).
Proof.
  assert (pool_ok (fold_left (fun st op => pool_step op st) ops (ds0, NewDialerPool l))) as Hok.
  { assert (pool_ok (ds0, NewDialerPool l)) as H0.
    { split; [apply Forall_fmap, Forall_forall; done|]. by split. }
    revert H0. generalize (ds0, NewDialerPool l) as st. induction ops as [|op ops IH]; intros st H0; simpl; [done|].
    by apply IH, pool_step_ok. }
  destruct (fold_left _ ops _) as [ds p]. destruct Hok as (Hs & Hh & Hc). simpl in *.
  assert (forall p, Forall (fun s => s_state s = dialerStandby) (p_slots p) -> sizeUnlocked p = zlen (p_slots p)) as Hsize.
  { clear. intros [slots e h]. unfold sizeUnlocked. simpl. intros Hs.
    assert (forall n, fold_left (fun n s => if live s then n + 1 else n) slots n = n + zlen slots) as E; [|by rewrite E].
    induction Hs as [|s slots Hs _ IH]; intros n; simpl; [change (zlen []) with 0; lia|].
    assert (live s = true) as -> by (unfold live; by rewrite Hs). rewrite IH, zlen_cons. lia. }
  split; [done|]. split; [|split; [by apply Hsize|split; [done|]]].
  - intros h s d E Hin Hd. specialize (Hh h E). rewrite Forall_forall in Hh. by apply (Hh s Hin).
  - intros td. unfold Evict. rewrite evict_loop_spec. case_bool_decide as Hin; simpl.
    + split; [done|]. split; [|done]. apply Hsize. simpl. rewrite Forall_forall in *.
      intros s [_ Hs']%list_elem_of_filter. by apply Hs.
    + split; [|split; [by apply Hsize|lia]]. clear - Hin.
      induction (p_slots p) as [|s slots IH]; [done|]. rewrite fmap_cons, not_elem_of_cons in Hin. destruct Hin as [H1 H2].
      rewrite filter_cons_True by done. f_equal. by apply IH.
Qed.
