(* ===== verification/LogRing.v ===== *)
(** * LogRing: the circular log buffer (log_upload.go)

    [ringBuffer] keeps the most recent log output for upload.  The whole history
    of writes is the specification. *)
From S2P Require Import Prelude.

Record ringBuffer := mkRing { rb_buf : bytes; rb_pos : Z; rb_full : bool }.

Definition newRingBuffer (size : Z) : ringBuffer := mkRing (make_bytes size) 0 false.

(** [copy(dst[off:], src)]. *)
Definition copy_at (dst : bytes) (off : Z) (src : bytes) : bytes :=
  take (Z.to_nat off) dst ++ copy (drop (Z.to_nat off) dst) src.

Definition ring_Write (rb : ringBuffer) (p : bytes) : ringBuffer :=
  let n := zlen p in
  let cap := zlen (rb_buf rb) in
  if n >=? cap then mkRing (copy (rb_buf rb) (drop (Z.to_nat (n - cap)) p)) 0 true else
  let e := rb_pos rb + n in
  if e <=? cap then mkRing (copy_at (rb_buf rb) (rb_pos rb) p) (e mod cap) (rb_full rb)
  else
    let first := cap - rb_pos rb in
    let buf := copy_at (rb_buf rb) (rb_pos rb) (take (Z.to_nat first) p) in
    mkRing (copy buf (drop (Z.to_nat first) p)) (e mod cap) true.

Definition Snapshot (rb : ringBuffer) : bytes :=
  let cap := zlen (rb_buf rb) in
  if negb (rb_full rb) then copy (make_bytes (rb_pos rb)) (take (Z.to_nat (rb_pos rb)) (rb_buf rb))
  else
    let out := copy (make_bytes cap) (drop (Z.to_nat (rb_pos rb)) (rb_buf rb)) in
    copy_at out (cap - rb_pos rb) (take (Z.to_nat (rb_pos rb)) (rb_buf rb)).

(** ** What the buffer holds *)

Definition lastn (n : Z) (l : bytes) : bytes := drop (Z.to_nat (zlen l - n)) l.

(** The buffer read from the oldest byte on. *)
Definition linear (rb : ringBuffer) : bytes :=
  drop (Z.to_nat (rb_pos rb)) (rb_buf rb) ++ take (Z.to_nat (rb_pos rb)) (rb_buf rb).

Lemma copy_short {A} (dst src : list A) : (length src <= length dst)%nat -> copy dst src = src ++ drop (length src) dst.
Proof. intros H. unfold copy. rewrite (take_ge src) by lia. done. Qed.

Lemma lastn_exact n l : zlen l = n -> lastn n l = l.
Proof. intros <-. unfold lastn. by rewrite Z.sub_diag. Qed.

Lemma zlen_lastn n l : 0 <= n <= zlen l -> zlen (lastn n l) = n.
Proof. unfold lastn, zlen. rewrite length_drop. lia. Qed.

Lemma lastn_lastn n m l : 0 <= n <= m -> lastn n (lastn m l) = lastn n l.
Proof. intros H. unfold lastn, zlen. rewrite drop_drop, length_drop. f_equal. lia. Qed.

Lemma lastn_app n m a b : 0 <= n <= m -> lastn n (lastn m a ++ b) = lastn n (a ++ b).
Proof.
  intros H. unfold lastn, zlen. rewrite !length_app, length_drop, !drop_app, !drop_drop, length_drop.
  f_equal; [f_equal; lia|f_equal; lia].
Qed.

Lemma lastn_app_r n a b : n <= zlen b -> lastn n (a ++ b) = lastn n b.
Proof.
  intros H. unfold lastn, zlen in *. rewrite length_app, drop_app, drop_ge by lia. simpl. f_equal. lia.
Qed.

Definition ring_ok (cap : Z) (h : bytes) (rb : ringBuffer) : Prop :=
  zlen (rb_buf rb) = cap /\ 0 <= rb_pos rb < cap /\
  linear rb = lastn cap (make_bytes cap ++ h) /\
  (rb_full rb = true -> cap <= zlen h) /\
  (rb_full rb = false -> rb_pos rb = zlen h mod cap).

(** The same contents, given in two parts around the position. *)
Lemma linear_parts a b pos full : pos = zlen a -> linear (mkRing (a ++ b) pos full) = b ++ a.
Proof. intros ->. unfold linear, zlen. simpl. by rewrite Nat2Z.id, drop_app_length, take_app_length. Qed.

Lemma linear_zero b full : linear (mkRing b 0 full) = b.
Proof. unfold linear. simpl. by rewrite drop_0, app_nil_r. Qed.

Lemma copy_at_parts a b src : (length src <= length b)%nat ->
  copy_at (a ++ b) (zlen a) src = a ++ src ++ drop (length src) b.
Proof.
  intros H. unfold copy_at, zlen. rewrite Nat2Z.id, take_app_length, drop_app_length. by rewrite copy_short.
Qed.

Lemma lastn_drop n (l : bytes) k : Z.of_nat k = zlen l - n -> lastn n l = drop k l.
Proof. intros H. unfold lastn. f_equal. lia. Qed.

(** Writing shifts the linear contents. *)
Lemma ring_write_linear rb p :
  0 <= rb_pos rb < zlen (rb_buf rb) ->
  linear (ring_Write rb p) = lastn (zlen (rb_buf rb)) (linear rb ++ p) /\
  zlen (rb_buf (ring_Write rb p)) = zlen (rb_buf rb) /\ 0 <= rb_pos (ring_Write rb p) < zlen (rb_buf rb).
Proof.
  destruct rb as [buf pos full]. simpl. intros Hp.
  assert (exists a b, buf = a ++ b /\ pos = zlen a) as (a & b & -> & ->).
  { exists (take (Z.to_nat pos) buf), (drop (Z.to_nat pos) buf). rewrite take_drop. split; [done|].
    unfold zlen in *. rewrite length_take. lia. }
  rewrite linear_parts by done. unfold ring_Write. cbn [rb_buf rb_pos rb_full]. rewrite zlen_app in Hp |- *.
  destruct (_ >=? _) eqn:E1; bool_to_prop.
  { rewrite copy_exact by (rewrite length_app, length_drop; unfold zlen in *; lia). 
    rewrite linear_zero. simpl. split; [|unfold zlen in *; rewrite length_drop; lia].
    rewrite lastn_app_r by lia. apply lastn_drop. unfold zlen in *. lia. }
  destruct (_ <=? _) eqn:E2; bool_to_prop.
  - rewrite copy_at_parts by (unfold zlen in *; lia).
    split; [|split; [cbn [rb_buf]; unfold zlen in *; rewrite !length_app, length_drop; lia|apply Z.mod_pos_bound; lia]].
    rewrite (lastn_drop _ _ (length p)) by (rewrite !zlen_app; unfold zlen; lia).
    rewrite <- app_assoc, drop_app_le by (unfold zlen in *; lia).
    destruct (Z.eq_dec (zlen p) (zlen b)) as [E|E].
    + rewrite <- E, Z_mod_same_full, drop_ge, app_nil_r by (unfold zlen in *; lia).
      by rewrite linear_zero.
    + pose proof (zlen_nonneg p). rewrite Z.mod_small by lia. rewrite app_assoc, linear_parts by (by rewrite zlen_app). done.
  - assert (exists p1 p2, p = p1 ++ p2 /\ length p1 = length b) as (p1 & p2 & -> & L).
    { exists (take (length b) p), (drop (length b) p). rewrite take_drop, length_take. unfold zlen in *. split; [done|lia]. }
    rewrite zlen_app in E1, E2. assert (zlen p1 = zlen b) as Lz by (unfold zlen; lia).
    replace (Z.to_nat (zlen a + zlen b - zlen a)) with (length p1) by (unfold zlen; lia).
    rewrite take_app_length, drop_app_length, copy_at_parts, (drop_ge b), app_nil_r by lia.
    rewrite copy_short, drop_app_le by (rewrite ?length_app; unfold zlen in *; lia).
    replace ((zlen a + zlen (p1 ++ p2)) mod (zlen a + zlen b)) with (zlen p2).
    2:{ rewrite zlen_app, Lz. replace (zlen a + (zlen b + zlen p2)) with (zlen p2 + 1 * (zlen a + zlen b)) by lia.
        pose proof (zlen_nonneg p2). rewrite Z_mod_plus_full, Z.mod_small; lia. }
    rewrite linear_parts by done. pose proof (zlen_nonneg p2). pose proof (zlen_nonneg b). cbn [rb_buf rb_pos].
    split; [|split; [|lia]].
    + rewrite (lastn_drop _ _ (length b + length p2)) by (rewrite !zlen_app; unfold zlen in *; lia).
      rewrite <- (app_assoc b a), drop_app_add, drop_app_le by (unfold zlen in *; lia). by rewrite <- !app_assoc.
    + unfold zlen in *. rewrite !length_app, length_drop. lia.
Qed.

Lemma ring_write_ok cap h rb p : ring_ok cap h rb -> ring_ok cap (h ++ p) (ring_Write rb p).
Proof.
  intros (Hc & Hp & Hl & Hf & Hn). assert (0 <= rb_pos rb < zlen (rb_buf rb)) as Hp' by lia.
  destruct (ring_write_linear rb p Hp') as (A & B & C). rewrite Hc in A, B, C. split; [done|]. split; [done|].
  split; [|]. { rewrite A, Hl, lastn_app by lia. by rewrite app_assoc. }
  unfold ring_Write. rewrite Hc, zlen_app. pose proof (zlen_nonneg h). pose proof (zlen_nonneg p).
  destruct (_ >=? _) eqn:E1; bool_to_prop; [by split; [simpl; lia|]|].
  destruct (_ <=? _) eqn:E2; bool_to_prop; simpl.
  - split; [intros Ht; specialize (Hf Ht); lia|]. intros Ht. rewrite (Hn Ht). by rewrite Zplus_mod_idemp_l.
  - split; [|done]. intros _. destruct (rb_full rb); [specialize (Hf eq_refl); lia|].
    specialize (Hn eq_refl). pose proof (Z.mod_le (zlen h) cap ltac:(lia) ltac:(lia)). lia.
Qed.

Lemma snapshot_ok cap h rb : ring_ok cap h rb ->
  Snapshot rb = lastn (if rb_full rb then cap else zlen h mod cap) h.
Proof.
  intros (Hc & Hp & Hl & Hf & Hn). destruct rb as [buf pos full]. simpl in *.
  assert (exists a b, buf = a ++ b /\ pos = zlen a) as (a & b & -> & ->).
  { exists (take (Z.to_nat pos) buf), (drop (Z.to_nat pos) buf). rewrite take_drop. split; [done|].
    unfold zlen in *. rewrite length_take. lia. }
  rewrite linear_parts in Hl by done. pose proof (zlen_nonneg h).
  unfold Snapshot. simpl. rewrite Hc. rewrite zlen_app in Hc. 
  replace (Z.to_nat (zlen a)) with (length a) by (unfold zlen; lia). rewrite take_app_length, drop_app_length.
  destruct full; simpl.
  - specialize (Hf eq_refl). rewrite lastn_app_r in Hl by done. rewrite <- Hl.
    assert (exists z, make_bytes cap = z ++ make_bytes (zlen a) /\ length z = length b) as (z & Ez & Lz).
    { exists (make_bytes (zlen b)). unfold make_bytes. rewrite <- replicate_add, length_replicate.
      split; [f_equal|]; unfold zlen in *; lia. }
    rewrite Ez. rewrite copy_short by (rewrite length_app; lia). rewrite <- Lz, drop_app_length.
    replace (cap - zlen a) with (zlen b) by lia.
    rewrite copy_at_parts by (unfold make_bytes; rewrite length_replicate; unfold zlen; lia).
    rewrite drop_ge by (unfold make_bytes; rewrite length_replicate; unfold zlen; lia). by rewrite app_nil_r.
  - rewrite <- (Hn eq_refl). rewrite copy_exact by (unfold make_bytes; rewrite length_replicate; unfold zlen; lia).
    assert (lastn (zlen a) (b ++ a) = a) as Ea.
    { rewrite (lastn_drop _ _ (length b)) by (rewrite zlen_app; unfold zlen; lia). by rewrite drop_app_length. }
    transitivity (lastn (zlen a) (b ++ a)); [by rewrite Ea|]. rewrite Hl, lastn_lastn by lia. apply lastn_app_r. rewrite (Hn eq_refl).
    apply Z.mod_le; lia.
Qed.

Lemma ring_run_ok cap writes : 0 < cap -> ring_ok cap (mjoin writes) (fold_left ring_Write writes (newRingBuffer cap)).
Proof.
  intros Hcap. assert (ring_ok cap [] (newRingBuffer cap)) as H0.
  { unfold newRingBuffer, ring_ok. simpl. rewrite linear_zero. unfold make_bytes. rewrite app_nil_r.
    assert (zlen (replicate (Z.to_nat cap) x00) = cap) as L by (unfold zlen; rewrite length_replicate; lia).
    rewrite lastn_exact by done. split_and!; try done; lia. }
  rewrite <- (app_nil_l (mjoin writes)). revert H0. generalize (newRingBuffer cap) as rb. generalize (@nil byte) as h.
  induction writes as [|p writes IH]; intros h rb H0; simpl; [by rewrite app_nil_r|].
  rewrite app_assoc. apply IH. by apply ring_write_ok.
Qed.

(** Whatever is written, in pieces of any size, [Snapshot] is a suffix of
    the whole log, in order and without stale bytes: the last [cap] bytes once
    the buffer has wrapped, and the last [length mod cap] bytes before that. *)
Theorem ring_snapshot_suffix (cap : Z) (writes : list bytes) (Hcap : 0 < cap) :
  let rb := fold_left ring_Write writes (newRingBuffer cap) in
  let h := mjoin writes in
  Snapshot rb = lastn (if rb_full rb then cap else zlen h mod cap) h /\
  (rb_full rb = true -> cap <= zlen h /\ zlen (Snapshot rb) = cap) /\
  (zlen h < cap -> Snapshot rb = h).
Proof.
  intros rb h. assert (ring_ok cap h rb) as Hok by (by apply ring_run_ok).
  pose proof (snapshot_ok _ _ _ Hok) as Hs. destruct Hok as (Hc & Hp & _ & Hf & Hn). split; [done|].
  split; [intros Ht; specialize (Hf Ht); split; [done|]; rewrite Hs, Ht; apply zlen_lastn; lia|].
  intros Hlt. rewrite Hs. pose proof (zlen_nonneg h).
  destruct (rb_full rb); [specialize (Hf eq_refl); lia|]. rewrite Z.mod_small by lia. by apply lastn_exact.
Qed.

(** Unless writes fill the buffer up to its end exactly, it wraps as it should. *)
Lemma ring_wraps cap writes : 0 < cap ->
  (forall k, zlen (mjoin (take k writes)) mod cap = 0 -> mjoin (take k writes) = []) ->
  rb_full (fold_left ring_Write writes (newRingBuffer cap)) = false -> zlen (mjoin writes) < cap.
Proof.
  intros Hcap. induction writes as [|p writes IH] using rev_ind; intros Hb; [intros _; simpl; rewrite zlen_nil; lia|].
  rewrite fold_left_app. cbn [fold_left]. set (rb := fold_left _ writes _) in *.
  assert (rb_full (ring_Write rb p) = false -> rb_full rb = false /\ zlen p < cap /\ rb_pos rb + zlen p <= cap) as Hw.
  { pose proof (ring_run_ok cap writes Hcap) as (Hc & _). fold rb in Hc. unfold ring_Write. rewrite Hc. destruct (_ >=? _) eqn:E1; [done|].
    destruct (_ <=? _) eqn:E2; [|done]. cbn [rb_full]. intros ->. lia. }
  intros (Hf & Hp & He)%Hw. assert (zlen (mjoin writes) < cap) as Hlt.
  { apply IH; [|done]. intros k Hk. destruct (Nat.le_ge_cases k (length writes)) as [Hl|Hl].
    - specialize (Hb k). rewrite take_app_le in Hb by done. by apply Hb.
    - specialize (Hb (length writes)). rewrite take_app_length in Hb. rewrite take_ge in Hk |- * by done. by apply Hb. }
  pose proof (ring_run_ok cap writes Hcap) as (_ & _ & _ & _ & Hn). fold rb in Hn. specialize (Hn Hf).
  pose proof (zlen_nonneg (mjoin writes)). rewrite Z.mod_small in Hn by lia.
  specialize (Hb (S (length writes))). rewrite take_ge in Hb by (rewrite length_app; simpl; lia).
  rewrite join_app in Hb |- *. simpl in *. rewrite app_nil_r, zlen_app in *.
  destruct (Z.eq_dec (zlen (mjoin writes) + zlen p) cap) as [E|]; [|lia].
  rewrite E, Z_mod_same_full in Hb. specialize (Hb eq_refl). apply app_eq_nil in Hb as [H1 H2]. rewrite H1, H2 in E. unfold zlen in E. simpl in E. lia.
Qed.

Lemma ring_snapshot_suffix_witness :
  Snapshot (fold_left ring_Write [str "abc"; str "defg"] (newRingBuffer 5)) = str "cdefg".
Proof.
  destruct (ring_snapshot_suffix 5 [str "abc"; str "defg"] ltac:(lia)) as (E & _). rewrite E. reflexivity.
Defined.

(** Two writes that fill the buffer exactly leave it marked "not full" at
    position 0, so the snapshot that should hold all [cap] bytes is empty. *)
Theorem ring_exact_fill_loses_log (p q : bytes) (Hp : p <> []) (Hq : q <> []) :
  let cap := zlen p + zlen q in
  let rb := fold_left ring_Write [p; q] (newRingBuffer cap) in
  Snapshot rb = [] /\ linear rb = p ++ q.
Proof.
  intros cap rb. assert (0 < zlen p /\ 0 < zlen q) as [? ?].
  { destruct p, q; rewrite ?zlen_cons; try done. pose proof (zlen_nonneg p). pose proof (zlen_nonneg q). lia. }
  assert (zlen (make_bytes cap) = cap) as L by (unfold make_bytes, zlen at 1; rewrite length_replicate; lia).
  assert (rb = mkRing (p ++ q) 0 false) as ->; [|by split; [|apply linear_zero]].
  unfold rb, newRingBuffer. cbn [fold_left].
  assert (ring_Write (mkRing (make_bytes cap) 0 false) p = mkRing (p ++ make_bytes (zlen q)) (zlen p) false) as ->.
  { unfold ring_Write. cbn [rb_buf rb_pos rb_full]. rewrite L, Z.geb_leb, (proj2 (Z.leb_gt _ _)) by lia.
    rewrite (proj2 (Z.leb_le _ _)) by lia. rewrite Z.mod_small by lia. f_equal.
    assert (make_bytes cap = make_bytes (zlen p) ++ make_bytes (zlen q)) as ->.
    { unfold make_bytes. rewrite <- replicate_add. f_equal. lia. }
    change (make_bytes (zlen p) ++ make_bytes (zlen q)) with ([] ++ make_bytes (zlen p) ++ make_bytes (zlen q)).
    assert (length (make_bytes (zlen p)) = length p) as Lp by (unfold make_bytes; rewrite length_replicate; unfold zlen; lia).
    change 0 with (zlen (@nil byte)). rewrite copy_at_parts by (rewrite length_app; lia). simpl.
    by rewrite <- Lp, drop_app_length. }
  assert (length (make_bytes (zlen q)) = length q) as Lq by (unfold make_bytes; rewrite length_replicate; unfold zlen; lia).
  assert (zlen (make_bytes (zlen q)) = zlen q) as Lqz by (unfold zlen in *; lia).
  unfold ring_Write. cbn [rb_buf rb_pos rb_full]. rewrite zlen_app, Lqz.
  rewrite Z.geb_leb, (proj2 (Z.leb_gt _ _)) by lia. rewrite Z.leb_refl.
  rewrite copy_at_parts, drop_ge, app_nil_r, Z_mod_same_full by lia. done.
Qed.

Lemma ring_exact_fill_loses_log_witness :
  Snapshot (fold_left ring_Write [str "ab"; str "c"] (newRingBuffer 3)) = [].
Proof. apply (ring_exact_fill_loses_log (str "ab") (str "c")); discriminate. Defined.

(** ** Uploading the buffer *)

Section upload.
Context (gzip : bytes -> option bytes) (gunzip : bytes -> option bytes).

Record upload_request := mkUpload { up_url : bytes; up_session : bytes; up_node : bytes; up_version : bytes; up_body : bytes }.

(** [upload]: the POST it makes, if any. *)
Definition upload (srvURL token nodeID version : bytes) (rb : ringBuffer) : option upload_request :=
  let snap := Snapshot rb in
  if zlen snap =? 0 then None else
  match gzip snap with
  | None => None
  | Some gz => Some (mkUpload (srvURL ++ str "/p/v1/log/upload") token nodeID version gz)
  end.

(** An upload carries, compressed and under the session's token, log output that
    ends with the last byte logged, in order and without gaps, and no more than the
    buffer holds; nothing is sent when there is nothing to send. *)
Theorem upload_carries_recent_log (cap : Z) (writes : list bytes) (srvURL token nodeID version : bytes) (r : upload_request)
    (Hcap : 0 < cap) (Hgz : forall p z, gzip p = Some z -> gunzip z = Some p)
    (Hu : upload srvURL token nodeID version (fold_left ring_Write writes (newRingBuffer cap)) = Some r) :
  up_session r = token /\ exists older snap, gunzip (up_body r) = Some snap /\ snap <> [] /\ zlen snap <= cap /\ mjoin writes = older ++ snap.
Proof.
  revert Hu. unfold upload. cbv zeta. set (rb := fold_left _ _ _). pose proof (ring_run_ok cap writes Hcap) as Hok. fold rb in Hok.
  pose proof (snapshot_ok _ _ _ Hok) as Hs. destruct Hok as (_ & _ & _ & Hf & _).
  destruct (zlen (Snapshot rb) =? 0) eqn:E; [done|]. destruct (gzip (Snapshot rb)) as [z|] eqn:Ez; [|done]. intros [= <-].
  split; [done|]. set (n := if rb_full rb then cap else zlen (mjoin writes) mod cap) in *.
  exists (take (Z.to_nat (zlen (mjoin writes) - n)) (mjoin writes)), (Snapshot rb). split; [by apply Hgz|].
  split; [intros En; rewrite En in E; done|]. pose proof (zlen_nonneg (mjoin writes)).
  assert (0 <= n <= cap /\ n <= zlen (mjoin writes)) as [Hn1 Hn2].
  { subst n. destruct (rb_full rb); [specialize (Hf eq_refl); lia|]. pose proof (Z.mod_pos_bound (zlen (mjoin writes)) cap ltac:(lia)).
    pose proof (Z.mod_le (zlen (mjoin writes)) cap (zlen_nonneg _) Hcap). lia. }
  split; [rewrite Hs, zlen_lastn by lia; lia|]. rewrite Hs. unfold lastn. by rewrite take_drop.
Qed.
End upload.

Lemma upload_carries_recent_log_witness :
  exists r snap, upload Some (str "u") (str "t") [] [] (fold_left ring_Write [str "abc"; str "de"] (newRingBuffer 4)) = Some r /\
    Some (up_body r) = Some snap /\ zlen snap <= 4.
Proof.
  destruct (upload Some (str "u") (str "t") [] [] (fold_left ring_Write [str "abc"; str "de"] (newRingBuffer 4))) as [r|] eqn:E;
    [|by vm_compute in E].
  destruct (upload_carries_recent_log Some Some 4 [str "abc"; str "de"] (str "u") (str "t") [] [] r ltac:(lia)
    ltac:(intros p z [= ->]; reflexivity) E) as (_ & older & snap & A & _ & B & _). by exists r, snap.
Defined.
