(* ===== verification/Watchdog.v ===== *)
(** * Watchdog: the traffic monitor and the persisted state (watchdog.go, watchdog_state.go)

    A zero [time.Time] is [None].  Times of the monitor are nanoseconds. *)
From S2P Require Import Prelude Env.

(** ** TunnelTrafficMonitor *)

Record TunnelTrafficMonitor := mkMonitor {
  m_firstSentAt : option Z;
  m_lastSentAt : option Z;
  m_lastGoodRecvAt : option Z
}.

Definition tunnelStuckTimeout : Z := 10 * 1000000000.

Definition RecordTunnelSent (now n : Z) (m : TunnelTrafficMonitor) : TunnelTrafficMonitor :=
  if n =? 0 then m else
  mkMonitor (match m_firstSentAt m with None => Some now | t => t end) (Some now) (m_lastGoodRecvAt m).

Definition RecordTunnelRecv (now n : Z) (m : TunnelTrafficMonitor) : TunnelTrafficMonitor :=
  if n =? 0 then m else mkMonitor (m_firstSentAt m) (m_lastSentAt m) (Some now).

Definition monitor_Reset : TunnelTrafficMonitor := mkMonitor None None None.

Definition IsStuck (now : Z) (m : TunnelTrafficMonitor) : bool :=
  match m_lastSentAt m with
  | None => false
  | Some sent =>
    if now - sent >? tunnelStuckTimeout then false else
    match m_lastGoodRecvAt m with
    | None => match m_firstSentAt m with
              | Some first => now - first >? tunnelStuckTimeout
              | None => true                      (* a zero time lies centuries back *)
              end
    | Some recv => now - recv >? tunnelStuckTimeout
    end
  end.

(** What the tunnel reports, with the time and the number of payload bytes. *)
Inductive traffic := TSent (now n : Z) | TRecv (now n : Z) | TReset.

Definition monitor_step (m : TunnelTrafficMonitor) (t : traffic) : TunnelTrafficMonitor :=
  match t with
  | TSent now n => RecordTunnelSent now n m
  | TRecv now n => RecordTunnelRecv now n m
  | TReset => monitor_Reset
  end.

(** ** The specification: the payload traffic since the last reset *)

Fixpoint since_reset (l : list traffic) (acc : list traffic) : list traffic :=
  match l with
  | [] => acc
  | TReset :: l => since_reset l []
  | t :: l => since_reset l (acc ++ [t])
  end.

Definition sent_times (l : list traffic) : list Z :=
  omap (fun t => match t with TSent now n => if n =? 0 then None else Some now | _ => None end) l.
Definition recv_times (l : list traffic) : list Z :=
  omap (fun t => match t with TRecv now n => if n =? 0 then None else Some now | _ => None end) l.

Definition monitor_of (l : list traffic) : TunnelTrafficMonitor :=
  mkMonitor (head (sent_times l)) (last (sent_times l)) (last (recv_times l)).

Lemma monitor_of_snoc l t : t <> TReset -> monitor_step (monitor_of l) t = monitor_of (l ++ [t]).
Proof.
  intros Ht. unfold monitor_of, sent_times, recv_times. rewrite !omap_app.
  destruct t as [now n|now n|]; [| |done]; simpl; unfold RecordTunnelSent, RecordTunnelRecv;
    destruct (n =? 0); simpl; rewrite ?app_nil_r, ?last_snoc; try done.
  f_equal. by destruct (omap _ l).
Qed.

Lemma monitor_run l : forall acc, fold_left monitor_step l (monitor_of acc) = monitor_of (since_reset l acc).
Proof.
  induction l as [|t l IH]; intros acc; simpl; [done|].
  destruct t as [now n|now n|]; [| |by apply (IH [])]; rewrite <- IH; f_equal; by apply monitor_of_snoc.
Qed.

(** The monitor reports a stuck tunnel exactly when payload was sent in the
    last ten seconds and, counting from the last reset, either payload has
    arrived but none in the last ten seconds, or none ever has and the first send
    is more than ten seconds old.  Empty frames do not count. *)
Theorem is_stuck_exact (l : list traffic) (now : Z) :
  let w := since_reset l [] in
  IsStuck now (fold_left monitor_step l monitor_Reset) = true <->
  (exists s, last (sent_times w) = Some s /\ now - s <= tunnelStuckTimeout) /\
  (match last (recv_times w) with
   | Some r => tunnelStuckTimeout < now - r
   | None => exists f, head (sent_times w) = Some f /\ tunnelStuckTimeout < now - f
   end).
Proof.
  intros w. change monitor_Reset with (monitor_of []). rewrite (monitor_run l []). fold w. unfold IsStuck, monitor_of. simpl.
  destruct (last (sent_times w)) as [s|] eqn:Es; [|split; [done|by intros [(s & ? & _) _]]].
  assert (exists f, head (sent_times w) = Some f) as [f Ef].
  { destruct (sent_times w); [done|]. by eexists. }
  rewrite Ef. destruct (now - s >? _) eqn:E1; bool_to_prop.
  - split; [done|]. intros [(s' & [= <-] & ?) _]. lia.
  - destruct (last (recv_times w)) as [r|].
    + rewrite Z.gtb_lt. split; [intros ?; split; [exists s; split; [done|lia]|done]|by intros []].
    + rewrite Z.gtb_lt. split; [intros ?; split; [exists s; split; [done|lia]|by exists f]|].
      by intros [_ (f' & [= <-] & ?)].
Qed.

(** After more than ten idle seconds the first payload sent is reported as
    stuck at once: the timeout runs from the last arrival, not from the traffic
    that waits for an answer. *)
Theorem stuck_right_after_idle (l : list traffic) (recv now n m : Z)
    (Hn : n <> 0) (Hm : m <> 0) (Hidle : tunnelStuckTimeout < now - recv) :
  IsStuck now (fold_left monitor_step (l ++ [TRecv recv m; TSent now n]) monitor_Reset) = true.
Proof.
  rewrite fold_left_app. simpl. unfold RecordTunnelSent, RecordTunnelRecv.
  rewrite !(proj2 (Z.eqb_neq _ _)) by done. unfold IsStuck. simpl. rewrite Z.sub_diag. simpl. by apply Z.gtb_lt.
Qed.

Lemma stuck_right_after_idle_witness :
  IsStuck 60000000000 (fold_left monitor_step ([] ++ [TRecv 0 5; TSent 60000000000 7]) monitor_Reset) = true.
Proof. apply (stuck_right_after_idle [] 0 60000000000 7 5); unfold tunnelStuckTimeout; lia. Defined.

(** ** WatchdogState *)

Record WatchdogState := mkWState {
  ws_Connected : bool;
  ws_OrigGW : bytes;
  ws_MainPID : Z;
  ws_LastAlive : Z;
  ws_LastWake : Z;
  ws_TunnelHealthy : bool
}.

Definition zeroState : WatchdogState := mkWState false [] 0 0 0 false.

Section state_file.
(** [json.Marshal], and what [json.Unmarshal] leaves in a zero struct, its error
    ignored. *)
Context (marshal : WatchdogState -> option bytes) (unmarshal : bytes -> WatchdogState).

(** The file, [None] when it is absent or unreadable; [writable] says whether
    creating the directory and writing succeed. *)
Definition WriteWatchdogState (writable : bool) (s : WatchdogState) (file : option bytes) : option bytes * bool :=
  match marshal s with
  | None => (file, false)
  | Some data => if writable then (Some data, true) else (file, false)
  end.

Definition ReadWatchdogState (file : option bytes) : WatchdogState :=
  match file with None => zeroState | Some data => unmarshal data end.

(** The read-modify-write of the three update functions; a missing file is
    decoded as empty input. *)
Definition update_state (f : WatchdogState -> WatchdogState) (writable : bool) (file : option bytes) : option bytes :=
  let s := unmarshal (default [] file) in
  match marshal (f s) with
  | None => file
  | Some b => if writable then Some b else file
  end.

Definition set_alive (now : Z) (s : WatchdogState) : WatchdogState :=
  mkWState (ws_Connected s) (ws_OrigGW s) (ws_MainPID s) now (ws_LastWake s) (ws_TunnelHealthy s).
Definition set_wake (now : Z) (s : WatchdogState) : WatchdogState :=
  mkWState (ws_Connected s) (ws_OrigGW s) (ws_MainPID s) (ws_LastAlive s) now (ws_TunnelHealthy s).
Definition set_healthy (h : bool) (s : WatchdogState) : WatchdogState :=
  mkWState (ws_Connected s) (ws_OrigGW s) (ws_MainPID s) (ws_LastAlive s) (ws_LastWake s) h.

Definition TouchAlive (now : Z) : bool -> option bytes -> option bytes := update_state (set_alive now).
Definition TouchLastWake (now : Z) : bool -> option bytes -> option bytes := update_state (set_wake now).
Definition SetTunnelHealthy (h : bool) : bool -> option bytes -> option bytes := update_state (set_healthy h).

Inductive state_op := SWrite (s : WatchdogState) | SAlive (now : Z) | SWake (now : Z) | SHealthy (h : bool).

Definition state_step (file : option bytes) (op : state_op) : option bytes :=
  match op with
  | SWrite s => (WriteWatchdogState true s file).1
  | SAlive now => TouchAlive now true file
  | SWake now => TouchLastWake now true file
  | SHealthy h => SetTunnelHealthy h true file
  end.

(** The same on plain values. *)
Definition state_spec (s : WatchdogState) (op : state_op) : WatchdogState :=
  match op with
  | SWrite s' => s'
  | SAlive now => set_alive now s
  | SWake now => set_wake now s
  | SHealthy h => set_healthy h s
  end.

(** With a codec that round-trips and decodes empty input to the zero state,
    the state read back after any sequence of writes and updates is the plain
    record updated field by field: an update never disturbs another field, and a
    missing file counts as the zero state. *)
Theorem watchdog_state_refines (ops : list state_op) (file : option bytes)
    (Hm : forall s, is_Some (marshal s)) (Hrt : forall s b, marshal s = Some b -> unmarshal b = s)
    (Hempty : unmarshal [] = zeroState) :
  ReadWatchdogState (fold_left state_step ops file) = fold_left state_spec ops (ReadWatchdogState file).
Proof.
  revert file. induction ops as [|op ops IH]; intros file; simpl; [done|]. rewrite IH. f_equal.
  assert (forall f, ReadWatchdogState (update_state f true file) = f (ReadWatchdogState file)) as Hu.
  { intros f. unfold update_state. destruct (Hm (f (unmarshal (default [] file)))) as [b E]. rewrite E. simpl.
    rewrite (Hrt _ _ E). f_equal. destruct file; [done|]. exact Hempty. }
  destruct op as [s|now|now|h]; simpl; try apply Hu.
  unfold WriteWatchdogState. destruct (Hm s) as [b E]. rewrite E. simpl. by apply Hrt.
Qed.
End state_file.

#[global] Instance WatchdogState_eq : EqDecision WatchdogState. Proof. solve_decision. Defined.

Definition state_tuple (s : WatchdogState) :=
  (ws_Connected s, ws_OrigGW s, ws_MainPID s, ws_LastAlive s, ws_LastWake s, ws_TunnelHealthy s).

#[global] Program Instance WatchdogState_countable : Countable WatchdogState :=
  inj_countable' state_tuple (fun '(a, b, c, d, e, f) => mkWState a b c d e f) _.
Next Obligation. by intros []. Qed.

(** A concrete codec. *)
Definition toy_marshal (s : WatchdogState) : option bytes := Some (x01 :: Toy.pos_bits (encode s)).
Definition toy_unmarshal (b : bytes) : WatchdogState :=
  match b with [] => zeroState | _ :: b => default zeroState (p ← Toy.bits_pos b; decode p) end.

Lemma watchdog_state_refines_witness :
  ReadWatchdogState toy_unmarshal
    (fold_left (state_step toy_marshal toy_unmarshal) [SAlive 7; SHealthy true; SWake 9] None) =
  mkWState false [] 0 7 9 true.
Proof.
  rewrite (watchdog_state_refines toy_marshal toy_unmarshal [SAlive 7; SHealthy true; SWake 9] None).
  - reflexivity.
  - intros s. by eexists.
  - intros s b [= <-]. unfold toy_unmarshal. rewrite Toy.bits_pos_bits. simpl. by rewrite decode_encode.
  - reflexivity.
Defined.
