(* ===== verification/Mirror.v ===== *)
(** * Mirror: the content mirror manager (mirror.go)

    Verification of the signed content manifest, acceptance of newer versions,
    the download of changed files chunk by chunk, the deletion of files that are
    no longer listed, the announcement of completeness and the serving of chunks.
    The data directory is a map from absolute paths to contents plus the state
    file.  What peers, the relay fallback and the file system answer are
    arguments; a sync runs in its own goroutine, so each of its checks whether a
    newer manifest has superseded it takes the next answer of a given list. *)
From S2P Require Import Prelude Encoding Env.

Record contentFile := mkFile {
  cf_Path : bytes;
  cf_Size : Z;
  cf_ChunkSize : Z;
  cf_ChunkHashes : list bytes
}.

Record signedContentManifest := mkManifest {
  cm_Type : bytes;
  cm_TS : Z;
  cm_Files : list contentFile;
  cm_Sig : bytes
}.

(** The struct whose JSON is signed. *)
Record contentPayload := mkPayload { cp_Type : bytes; cp_TS : Z; cp_Files : list contentFile }.

Record chunkLoc := mkLoc { cl_path : bytes; cl_offset : Z; cl_size : Z }.

Record MirrorManager := mkMirror {
  mm_pubkey : option bytes;
  mm_ts : Z;
  mm_gen : Z;
  mm_chunkIdx : gmap bytes chunkLoc
}.

Record disk := mkDisk { dk_files : gmap bytes bytes; dk_state : option bytes }.

(** What the manager does to the rest of the program. *)
Inductive mirror_action :=
| MSetContent (raw : bytes) (ts : Z)
| MSetComplete (ts : Z) (complete : bool)
| MStartSync (raw : bytes) (sm : signedContentManifest) (gen : Z).

Section mirror.
Context `{Signatures} `{JSON signedContentManifest} `{JSON contentPayload}.

(** The manager without the directory it creates; [None] is the error. *)
Definition NewMirrorManager (pubkeyHex : bytes) : option MirrorManager :=
  if bool_decide (pubkeyHex = []) then Some (mkMirror None 0 0 ∅) else
  match Hex.decode pubkeyHex with
  | None => None
  | Some b => if zlen b =? ed25519_public_key_size then Some (mkMirror (Some b) 0 0 ∅) else None
  end.

Definition LoadCached (m : MirrorManager) (d : disk) : MirrorManager :=
  match dk_state d with
  | None => m
  | Some data =>
    match json_unmarshal data with
    | None => m
    | Some sm => mkMirror (mm_pubkey m) (cm_TS sm) (mm_gen m) (mm_chunkIdx m)
    end
  end.

Definition verify (m : MirrorManager) (data : bytes) : res signedContentManifest :=
  match json_unmarshal data with
  | None => Err "parse"
  | Some sm =>
    if negb (bool_decide (cm_Type sm = str "content")) then Err "unexpected manifest type" else
    match mm_pubkey m with
    | None => Ok sm
    | Some pub =>
      let canonical := default [] (json_marshal (mkPayload (cm_Type sm) (cm_TS sm) (cm_Files sm))) in
      match B64.decode (cm_Sig sm) with
      | None => Err "signature verification failed"
      | Some sig =>
        ok ← ed25519_verify pub canonical sig;
        if ok : bool then Ok sm else Err "signature verification failed"
      end
    end
  end.

Definition OnContentManifest (m : MirrorManager) (raw : bytes) : MirrorManager * list mirror_action :=
  match verify m raw with
  | Ok sm =>
    if cm_TS sm <=? mm_ts m then (m, []) else
    let gen := mm_gen m + 1 in
    (mkMirror (mm_pubkey m) (cm_TS sm) gen (mm_chunkIdx m),
     [MSetContent raw (cm_TS sm); MSetComplete (cm_TS sm) false; MStartSync raw sm gen])
  | _ => (m, [])
  end.

(** ** Fetching *)

Definition chunkHashMatches (data hash : bytes) : bool :=
  bool_decide (Hex.encode (sha256_sum data) = to_lower hash).

(** [peer addr hash]: an error, or the data and whether the peer has the chunk. *)
Fixpoint fetch_from_peers (peer : bytes -> bytes -> option (bytes * bool)) (addrs : list bytes) (hash : bytes)
    : option bytes :=
  match addrs with
  | [] => None
  | addr :: addrs =>
    match peer addr hash with
    | None => fetch_from_peers peer addrs hash
    | Some (data, ok) =>
      if negb ok then fetch_from_peers peer addrs hash
      else if negb (chunkHashMatches data hash) then fetch_from_peers peer addrs hash
      else Some data
    end
  end.

Record sources := mkSources {
  src_candidates : bytes -> list bytes;                  (* completePeersFn, when this chunk is fetched *)
  src_peer : bytes -> bytes -> option (bytes * bool);
  src_relay : option (bytes -> option bytes)             (* relayFetch *)
}.

Definition fetchChunk (net : sources) (hash : bytes) : option bytes :=
  match fetch_from_peers (src_peer net) (src_candidates net hash) hash with
  | Some data => Some data
  | None =>
    match src_relay net with
    | None => None
    | Some relay =>
      match relay hash with
      | None => None
      | Some data => if negb (chunkHashMatches data hash) then None else Some data
      end
    end
  end.

(** ** Syncing *)

Section sync.
(** [filepath.Join(dataDir, filepath.FromSlash(path))], and which paths can be
    created and written, and removed. *)
Context (abs : bytes -> bytes) (net : sources) (writable removable : bytes -> bool).

(** One answer of [superseded]. *)
Definition superseded (sup : list bool) : bool * list bool :=
  match sup with [] => (false, []) | b :: sup => (b, sup) end.

(** The chunk loop: the bytes written so far, [None] on an error. *)
Fixpoint fetch_all (hashes : list bytes) (sup : list bool) (acc : bytes) : option bytes * list bool :=
  match hashes with
  | [] => (Some acc, sup)
  | hash :: hashes =>
    let '(stop, sup) := superseded sup in
    if stop : bool then (None, sup) else
    match fetchChunk net hash with
    | None => (None, sup)
    | Some data => fetch_all hashes sup (acc ++ data)
    end
  end.

Definition part (p : bytes) : bytes := p ++ str ".part".

Definition syncFile (f : contentFile) (sup : list bool) (d : disk) : bool * disk * list bool :=
  let p := abs (cf_Path f) in
  if negb (writable p) then (false, d, sup) else
  let cleaned := delete (part p) (dk_files d) in
  match fetch_all (cf_ChunkHashes f) sup [] with
  | (None, sup) => (false, mkDisk cleaned (dk_state d), sup)
  | (Some data, sup) => (true, mkDisk (<[p := data]> cleaned) (dk_state d), sup)
  end.

Definition sameChunks (a b : list bytes) : bool := bool_decide (a = b).

Definition file_map (files : list contentFile) : gmap bytes contentFile :=
  fold_left (fun m f => <[cf_Path f := f]> m) files ∅.

Definition loadPrevFileList (d : disk) : gmap bytes contentFile :=
  match dk_state d with
  | None => ∅
  | Some data => match json_unmarshal data with None => ∅ | Some sm => file_map (cm_Files sm) end
  end.

(** The deletion of files that are no longer listed. *)
Definition delete_unlisted (prev wanted : gmap bytes contentFile) (d : disk) : disk :=
  mkDisk (fold_left (fun fs path =>
      match wanted !! path with
      | Some _ => fs
      | None => if removable (abs path) then delete (abs path) fs else fs
      end) (fst <$> map_to_list prev) (dk_files d)) (dk_state d).

(** The file loop; [None] when superseded. *)
Fixpoint sync_files (prev : gmap bytes contentFile) (files : list contentFile) (sup : list bool) (d : disk) (ok : bool)
    : option bool * disk * list bool :=
  match files with
  | [] => (Some ok, d, sup)
  | f :: files =>
    let '(stop, sup) := superseded sup in
    if stop : bool then (None, d, sup) else
    match prev !! cf_Path f with
    | Some p =>
      if sameChunks (cf_ChunkHashes p) (cf_ChunkHashes f) then sync_files prev files sup d ok
      else let '(done, d, sup) := syncFile f sup d in sync_files prev files sup d (ok && done)
    | None => let '(done, d, sup) := syncFile f sup d in sync_files prev files sup d (ok && done)
    end
  end.

Fixpoint index_chunks (path : bytes) (size chunkSize : Z) (hashes : list bytes) (offset : Z) (idx : gmap bytes chunkLoc)
    : gmap bytes chunkLoc :=
  match hashes with
  | [] => idx
  | hash :: hashes =>
    let n := if size - offset <? chunkSize then size - offset else chunkSize in
    index_chunks path size chunkSize hashes (offset + n) (<[hash := mkLoc path offset n]> idx)
  end.

Definition buildChunkIndex (files : list contentFile) : gmap bytes chunkLoc :=
  fold_left (fun idx f => index_chunks (abs (cf_Path f)) (cf_Size f) (cf_ChunkSize f) (cf_ChunkHashes f) 0 idx) files ∅.

(** The goroutine; [persisted] tells whether the state file could be written.
    Gives the disk, the new chunk index if one is installed and the actions. *)
Definition sync (raw : bytes) (sm : signedContentManifest) (sup : list bool) (persisted : bool) (d : disk)
    : disk * option (gmap bytes chunkLoc) * list mirror_action :=
  let prev := loadPrevFileList d in
  let wanted := file_map (cm_Files sm) in
  let d := delete_unlisted prev wanted d in
  match sync_files prev (cm_Files sm) sup d true with
  | (None, d, _) => (d, None, [])
  | (Some ok, d, sup) =>
    if fst (superseded sup) then (d, None, []) else
    let d := if persisted then mkDisk (dk_files d) (Some raw) else d in
    if ok then (d, Some (buildChunkIndex (cm_Files sm)), [MSetComplete (cm_TS sm) true])
    else (d, None, [])
  end.
End sync.

(** [io.ReadFull] of [size] bytes at [offset]; a negative size panics in [make]. *)
Definition ServeChunk (idx : gmap bytes chunkLoc) (d : disk) (hash : bytes) : res (option bytes) :=
  match idx !! hash with
  | None => Ok None
  | Some loc =>
    match dk_files d !! cl_path loc with
    | None => Ok None
    | Some content =>
      if cl_offset loc <? 0 then Ok None
      else if cl_size loc <? 0 then Panic
      else match slice content (cl_offset loc) (cl_offset loc + cl_size loc) with
      | Ok data => Ok (Some data)
      | _ => Ok None
      end
    end
  end.
End mirror.

(** ** Acceptance *)

Section properties.
Context `{Signatures} `{JSON signedContentManifest} `{JSON contentPayload}.

Lemma verify_signed m raw sm pub :
  verify m raw = Ok sm -> mm_pubkey m = Some pub ->
  cm_Type sm = str "content" /\ exists sig, B64.decode (cm_Sig sm) = Some sig /\
    ed25519_verify pub (default [] (json_marshal (mkPayload (cm_Type sm) (cm_TS sm) (cm_Files sm)))) sig = Ok true.
Proof.
  unfold verify. intros Hv Hp. destruct (json_unmarshal raw) as [sm'|]; [|done].
  destruct (bool_decide _) eqn:Et; [|done]. rewrite Hp in Hv. simpl in Hv.
  destruct (B64.decode (cm_Sig sm')) as [sig|] eqn:Es; [|done].
  destruct (ed25519_verify _ _ sig) as [[]| |] eqn:Ev; try done. cbn [mbind res_bind] in Hv.
  injection Hv as <-. bool_to_prop. split; [done|]. by exists sig.
Qed.

Lemma verify_parsed m raw sm : verify m raw = Ok sm -> json_unmarshal raw = Some sm.
Proof.
  unfold verify. destruct (json_unmarshal raw) as [sm'|]; [|done]. destruct (bool_decide _); [|done].
  destruct (mm_pubkey m) as [pub|]; [|by intros [= <-]]. simpl. destruct (B64.decode (cm_Sig sm')) as [sig|]; [|done].
  destruct (ed25519_verify _ _ sig) as [[]| |]; try done. by intros [= <-].
Qed.

(** The manifests handed over, and what came of them. *)
Fixpoint offer_all (m : MirrorManager) (raws : list bytes) : MirrorManager * list mirror_action :=
  match raws with
  | [] => (m, [])
  | raw :: raws =>
    let '(m, a1) := OnContentManifest m raw in
    let '(m, a2) := offer_all m raws in (m, a1 ++ a2)
  end.

Definition gossiped (acts : list mirror_action) : list (bytes * Z) :=
  omap (fun a => match a with MSetContent raw ts => Some (raw, ts) | _ => None end) acts.

Definition started (acts : list mirror_action) : list (bytes * signedContentManifest * Z) :=
  omap (fun a => match a with MStartSync raw sm gen => Some (raw, sm, gen) | _ => None end) acts.

Lemma started_accept raw sm gen ts acts :
  started ([MSetContent raw ts; MSetComplete ts false; MStartSync raw sm gen] ++ acts) = (raw, sm, gen) :: started acts.
Proof. done. Qed.

Lemma verify_key m m' raw : mm_pubkey m = mm_pubkey m' -> verify m raw = verify m' raw.
Proof. unfold verify. by intros ->. Qed.


(** ** Syncing *)

Lemma fetch_peers_verified peer addrs hash data :
  fetch_from_peers peer addrs hash = Some data -> chunkHashMatches data hash = true.
Proof.
  induction addrs as [|a addrs IH]; simpl; [done|]. destruct (peer a hash) as [[d ok]|]; [|done].
  destruct ok; [|done]. simpl. destruct (chunkHashMatches d hash) eqn:E; [|done]. by intros [= <-].
Qed.

Lemma fetch_chunk_verified net hash data : fetchChunk net hash = Some data -> chunkHashMatches data hash = true.
Proof.
  unfold fetchChunk. destruct (fetch_from_peers _ _ _) eqn:E; [intros [= <-]; by eapply fetch_peers_verified|].
  destruct (src_relay net) as [relay|]; [|done]. destruct (relay hash) as [d|]; [|done].
  destruct (chunkHashMatches d hash) eqn:Em; [|done]. by intros [= <-].
Qed.

(** The content is a sequence of chunks with the listed hashes. *)
Definition verified (hashes : list bytes) (content : bytes) : Prop :=
  exists chunks, content = mjoin chunks /\ Forall2 (fun h c => chunkHashMatches c h = true) hashes chunks.

Section sync.
Context (abs : bytes -> bytes) (net : sources) (writable removable : bytes -> bool).

Lemma fetch_all_verified hashes : forall sup acc data sup',
  fetch_all net hashes sup acc = (Some data, sup') -> exists rest, data = acc ++ rest /\ verified hashes rest.
Proof.
  induction hashes as [|h hashes IH]; intros sup acc data sup'; simpl.
  - intros [= <- <-]. exists []. rewrite app_nil_r. split; [done|]. exists []. by split.
  - destruct (superseded sup) as [[] sup1]; [done|]. destruct (fetchChunk net h) as [c|] eqn:E; [|done].
    intros (rest & -> & chunks & -> & Hf)%IH. exists (c ++ mjoin chunks). split; [by rewrite app_assoc|].
    exists (c :: chunks). split; [done|]. constructor; [by eapply fetch_chunk_verified|done].
Qed.

Definition on_disk (d : disk) (f : contentFile) : Prop :=
  exists content, dk_files d !! abs (cf_Path f) = Some content /\ verified (cf_ChunkHashes f) content.

(** A file is replaced as a whole or not at all. *)
Lemma sync_file_spec f sup d done_ d' sup' :
  syncFile abs net writable f sup d = (done_, d', sup') -> abs (cf_Path f) <> part (abs (cf_Path f)) ->
  dk_state d' = dk_state d /\
  (forall q, q <> part (abs (cf_Path f)) -> q <> abs (cf_Path f) -> dk_files d' !! q = dk_files d !! q) /\
  (if done_ then on_disk d' f else dk_files d' !! abs (cf_Path f) = dk_files d !! abs (cf_Path f)).
Proof.
  unfold syncFile. destruct (writable _); simpl; [|intros [= <- <- <-]; done].
  destruct (fetch_all _ _ _ _) as [[data|] sup1] eqn:E; intros [= <- <- <-] Hp; simpl; (split; [done|]); split.
  - intros q Hq1 Hq2. rewrite lookup_insert_ne by done. by rewrite lookup_delete_ne.
  - apply fetch_all_verified in E as (rest & -> & Hv). exists rest. simpl. split; [|done]. by rewrite lookup_insert_eq.
  - intros q Hq1 Hq2. by rewrite lookup_delete_ne.
  - by rewrite lookup_delete_ne.
Qed.

(** Paths that do not get in each other's way: distinct listed paths are
    distinct files, none of them another's temporary file. *)
Definition separate (files : list contentFile) : Prop :=
  NoDup (cf_Path <$> files) /\
  (forall f g, f ∈ files -> g ∈ files -> abs (cf_Path f) <> part (abs (cf_Path g))) /\
  (forall f g, f ∈ files -> g ∈ files -> abs (cf_Path f) = abs (cf_Path g) -> cf_Path f = cf_Path g).

Lemma separate_cons f files : separate (f :: files) ->
  separate files /\ abs (cf_Path f) <> part (abs (cf_Path f)) /\
  (forall g, g ∈ files -> abs (cf_Path g) <> part (abs (cf_Path f)) /\ abs (cf_Path g) <> abs (cf_Path f) /\
     abs (cf_Path f) <> part (abs (cf_Path g))).
Proof.
  intros (Hn & Hp & Hi). rewrite fmap_cons in Hn. apply NoDup_cons in Hn as [Hf Hn]. split; [|split].
  - split; [done|]. split; intros; [apply Hp|apply Hi]; by try right.
  - apply Hp; left.
  - intros g Hg. split; [apply Hp; [by right|left]|]. split; [|apply Hp; [left|by right]].
    intros E. apply Hf. rewrite <- (Hi g f ltac:(by right) ltac:(left) E). by apply list_elem_of_fmap_2.
Qed.

Lemma sync_files_spec prev files : forall sup d ok r d' sup',
  sync_files abs net writable prev files sup d ok = (r, d', sup') -> separate files ->
  (forall f p, f ∈ files -> prev !! cf_Path f = Some p -> cf_ChunkHashes p = cf_ChunkHashes f -> on_disk d f) ->
  dk_state d' = dk_state d /\
  (forall q, (forall f, f ∈ files -> q <> abs (cf_Path f) /\ q <> part (abs (cf_Path f))) -> dk_files d' !! q = dk_files d !! q) /\
  (r = Some true -> ok = true /\ Forall (on_disk d') files).
Proof.
  induction files as [|f files IH]; intros sup d ok r d' sup'; simpl.
  { intros [= <- <- <-] _ _. split; [done|]. split; [done|]. by intros [= ->]. }
  destruct (superseded sup) as [[] sup1]; [by intros [= <- <- <-]|]. intros Hrun Hsep Hprev.
  destruct (separate_cons _ _ Hsep) as (Hsep' & Hff & Hfg).
  (* the head is either skipped or synced; then the rest runs from [d1] *)
  assert (exists sup2 d1 ok1, sync_files abs net writable prev files sup2 d1 ok1 = (r, d', sup') /\
    dk_state d1 = dk_state d /\
    (forall q, q <> part (abs (cf_Path f)) -> q <> abs (cf_Path f) -> dk_files d1 !! q = dk_files d !! q) /\
    (ok1 = true -> ok = true /\ on_disk d1 f)) as (sup2 & d1 & ok1 & Hrest & Hst & Hfr & Hok).
  { assert (forall done_ d1 sup2, syncFile abs net writable f sup1 d = (done_, d1, sup2) ->
      sync_files abs net writable prev files sup2 d1 (ok && done_) = (r, d', sup') ->
      exists sup2 d1 ok1, sync_files abs net writable prev files sup2 d1 ok1 = (r, d', sup') /\
        dk_state d1 = dk_state d /\
        (forall q, q <> part (abs (cf_Path f)) -> q <> abs (cf_Path f) -> dk_files d1 !! q = dk_files d !! q) /\
        (ok1 = true -> ok = true /\ on_disk d1 f)) as Hsync.
    { intros done_ d1 sup2 Es Hr. destruct (sync_file_spec _ _ _ _ _ _ Es Hff) as (A & B & C).
      exists sup2, d1, (ok && done_). split_and!; try done. intros [-> Hd]%andb_true_iff. by rewrite Hd in C. }
    destruct (prev !! cf_Path f) as [p|] eqn:Ep; [destruct (sameChunks _ _) eqn:Es|].
    - exists sup1, d, ok. split_and!; try done. intros ->. split; [done|].
      unfold sameChunks in Es. bool_to_prop. eapply Hprev; [left|done|done].
    - destruct (syncFile _ _ _ _ _ _) as [[done_ d1] sup2] eqn:Es'. by eapply Hsync.
    - destruct (syncFile _ _ _ _ _ _) as [[done_ d1] sup2] eqn:Es'. by eapply Hsync. }
  assert (forall g, g ∈ files -> on_disk d g -> on_disk d1 g) as Hkeep.
  { intros g Hg (c & Hc & Hv). exists c. split; [|done]. rewrite Hfr; [done|apply Hfg..]; done. }
  destruct (IH _ _ _ _ _ _ Hrest Hsep') as (A & B & C).
  { intros g p Hg Hp He. apply Hkeep; [done|]. eapply Hprev; [by right|done|done]. }
  split; [by rewrite A|]. split.
  - intros q Hq. rewrite B by (intros g Hg; apply Hq; by right). apply Hfr; apply Hq; left.
  - intros [Hr Hall]%C. destruct (Hok Hr) as [-> (c & Hc & Hv)]. split; [done|]. constructor; [|done].
    exists c. split; [|done]. rewrite B; [done|]. intros g Hg. destruct (Hfg g Hg) as (H1' & H2' & H3'). auto.
Qed.

Lemma file_map_path files p f : file_map files !! p = Some f -> cf_Path f = p /\ f ∈ files.
Proof.
  unfold file_map. assert (forall m : gmap bytes contentFile, fold_left (fun m f => <[cf_Path f := f]> m) files m !! p = Some f ->
    m !! p = Some f \/ cf_Path f = p /\ f ∈ files) as G.
  { induction files as [|g files IH]; intros m; simpl; [by left|].
    intros [Hl|[? ?]]%IH; [|right; split; [done|by right]].
    apply lookup_insert_Some in Hl as [[<- <-]|[_ Hl]]; [right; split; [done|left]|by left]. }
  intros [E|?]%G; done.
Qed.

Lemma file_map_in files f : f ∈ files -> is_Some (file_map files !! cf_Path f).
Proof.
  unfold file_map. assert (forall m : gmap bytes contentFile, (f ∈ files \/ is_Some (m !! cf_Path f)) ->
    is_Some (fold_left (fun m f => <[cf_Path f := f]> m) files m !! cf_Path f)) as G; [|by intros; apply G; left].
  induction files as [|g files IH]; intros m Hf; simpl; [destruct Hf as [[]%elem_of_nil|]; done|]. apply IH.
  destruct Hf as [[->|Hf]%elem_of_cons|Hf]; [right; rewrite lookup_insert_eq; by eexists|by left|right].
  rewrite lookup_insert. case_decide; [by eexists|done].
Qed.

Lemma delete_unlisted_spec prev wanted d :
  dk_state (delete_unlisted abs removable prev wanted d) = dk_state d /\
  (forall q, (forall p f, prev !! p = Some f -> wanted !! p = None -> q <> abs p) ->
     dk_files (delete_unlisted abs removable prev wanted d) !! q = dk_files d !! q) /\
  (forall p f, prev !! p = Some f -> wanted !! p = None -> removable (abs p) = true ->
     dk_files (delete_unlisted abs removable prev wanted d) !! abs p = None).
Proof.
  unfold delete_unlisted. simpl. split; [done|].
  set (step := fun fs path => _). assert (forall p f, prev !! p = Some f <-> (p, f) ∈ map_to_list prev) as Hm.
  { intros p f. by rewrite elem_of_map_to_list. }
  assert (forall l fs q, (forall p, p ∈ l -> wanted !! p = None -> q <> abs p) -> fold_left step l fs !! q = fs !! q) as Hfr.
  { induction l as [|p l IH]; intros fs q Hq; simpl; [done|]. rewrite IH by (intros p' Hp'; apply Hq; by right).
    unfold step. destruct (wanted !! p) eqn:Ew; [done|]. destruct (removable (abs p)); [|done].
    rewrite lookup_delete_ne; [done|]. intros E. by apply (Hq p ltac:(left) Ew). }
  assert (forall l fs q, fs !! q = None -> fold_left step l fs !! q = None) as Hnone.
  { induction l as [|p l IH]; intros fs q Hq; simpl; [done|]. apply IH. unfold step.
    destruct (wanted !! p); [done|]. destruct (removable (abs p)); [|done]. rewrite lookup_delete. by case_decide. }
  split.
  - intros q Hq. apply Hfr. intros p (pf & -> & Hpf)%list_elem_of_fmap Hw. destruct pf as [p f]. apply (Hq p f); [by apply Hm|done].
  - intros p f Hp Hw Hr. apply Hm in Hp.
    assert (p ∈ (map_to_list prev).*1) as Hin by (by apply (list_elem_of_fmap_2 fst _ (p, f))).
    generalize (dk_files d) as fs. induction ((map_to_list prev).*1) as [|x l IH]; intros fs; [by apply elem_of_nil in Hin|].
    simpl. apply elem_of_cons in Hin as [<-|Hin]; [|by apply IH].
    apply Hnone. unfold step. rewrite Hw, Hr. apply lookup_delete_eq.
Qed.


Lemma fetch_all_fails hashes hash : forall acc,
  hash ∈ hashes -> fetchChunk net hash = None -> fetch_all net hashes [] acc = (None, []).
Proof.
  induction hashes as [|h hashes IH]; intros acc Hin Hf; [by apply elem_of_nil in Hin|]. simpl.
  destruct (decide (h = hash)) as [->|Hn]; [by rewrite Hf|]. apply elem_of_cons in Hin as [->|Hin]; [done|].
  destruct (fetchChunk net h); [by apply IH|done].
Qed.
End sync.

(** A failed download is forgotten.  The state file is written even when a
    file could not be fetched, and the next manifest that lists the same file
    treats it as unchanged: that sync announces the version as complete, whatever
    the network offers, although the file was never downloaded. *)
Theorem mirror_forgets_failed_file (abs : bytes -> bytes) (net1 net2 : sources) (writable removable : bytes -> bool)
    (f : contentFile) (hash raw1 raw2 : bytes) (sm1 sm2 : signedContentManifest) (d : disk)
    (Hfiles1 : cm_Files sm1 = [f]) (Hfiles2 : cm_Files sm2 = [f]) (Hraw1 : json_unmarshal raw1 = Some sm1)
    (Hfresh : dk_state d = None) (Habsent : dk_files d !! abs (cf_Path f) = None)
    (Hin : hash ∈ cf_ChunkHashes f) (Hfail : fetchChunk net1 hash = None) (Hw : writable (abs (cf_Path f)) = true) :
  let '(d1, _, acts1) := sync abs net1 writable removable raw1 sm1 [] true d in
  let '(d2, _, acts2) := sync abs net2 writable removable raw2 sm2 [] true d1 in
  acts1 = [] /\ acts2 = [MSetComplete (cm_TS sm2) true] /\ dk_files d2 !! abs (cf_Path f) = None.
Proof.
  assert (loadPrevFileList d = ∅) as E0 by (unfold loadPrevFileList; by rewrite Hfresh).
  assert (file_map [f] !! cf_Path f = Some f) as Ef by apply lookup_insert_eq.
  set (fs := delete (part (abs (cf_Path f))) (dk_files d)).
  assert (sync abs net1 writable removable raw1 sm1 [] true d = (mkDisk fs (Some raw1), None, [])) as ->.
  { unfold sync. rewrite E0, Hfiles1. unfold delete_unlisted. rewrite map_to_list_empty. simpl. rewrite lookup_empty.
    unfold syncFile. rewrite Hw. cbn [negb dk_files dk_state]. by rewrite (fetch_all_fails net1 _ hash). }
  assert (loadPrevFileList (mkDisk fs (Some raw1)) = file_map [f]) as E1.
  { unfold loadPrevFileList. simpl. by rewrite Hraw1, Hfiles1. }
  unfold sync. rewrite E1, Hfiles2.
  destruct (delete_unlisted_spec abs removable (file_map [f]) (file_map [f]) (mkDisk fs (Some raw1))) as (_ & Dk & _).
  set (d2 := delete_unlisted _ _ _ _ _) in *. cbn [sync_files superseded]. rewrite Ef. unfold sameChunks.
  rewrite bool_decide_eq_true_2 by done. cbn [fst]. split; [done|]. split; [done|]. cbn [dk_files].
  rewrite Dk; [unfold fs; simpl; rewrite lookup_delete; by case_decide|]. intros p g Hg Hn. by rewrite Hg in Hn.
Qed.

(** ** Serving *)

(** Every chunk has the size the index computes for it. *)
Fixpoint fits (size chunkSize offset : Z) (chunks : list bytes) : Prop :=
  match chunks with
  | [] => True
  | c :: chunks =>
    zlen c = (if size - offset <? chunkSize then size - offset else chunkSize) /\
    fits size chunkSize (offset + zlen c) chunks
  end.

Definition served (content hash : bytes) (loc : chunkLoc) : Prop :=
  0 <= cl_offset loc /\ 0 <= cl_size loc /\ exists c,
    slice content (cl_offset loc) (cl_offset loc + cl_size loc) = Ok c /\ chunkHashMatches c hash = true.

Lemma index_chunks_spec path size cs hashes : forall chunks pre idx h loc,
  Forall2 (fun h c => chunkHashMatches c h = true) hashes chunks -> fits size cs (zlen pre) chunks ->
  index_chunks path size cs hashes (zlen pre) idx !! h = Some loc ->
  idx !! h = Some loc \/ cl_path loc = path /\ served (pre ++ mjoin chunks) h loc.
Proof.
  induction hashes as [|hash hashes IH]; intros chunks pre idx h loc Hf Hfit; simpl; [by left|].
  destruct chunks as [|c chunks]; [by inversion Hf|]. apply Forall2_cons in Hf as [Hc Hf]. destruct Hfit as [Hz Hfit].
  rewrite <- Hz, <- zlen_app in *. intros Hl%(IH chunks (pre ++ c)); [|done|done].
  rewrite mjoin_cons, app_assoc. destruct Hl as [Hl|]; [|by right].
  apply lookup_insert_Some in Hl as [[<- <-]|[_ Hl]]; [right|by left].
  split; [done|]. unfold served. simpl. pose proof (zlen_nonneg pre). pose proof (zlen_nonneg c).
  split; [lia|]. split; [lia|]. exists c. split; [|done]. rewrite <- app_assoc. by apply slice_at with (p := pre) (q := mjoin chunks).
Qed.

Lemma index_chunks_keys path size cs hashes : forall offset idx h,
  is_Some (index_chunks path size cs hashes offset idx !! h) <-> h ∈ hashes \/ is_Some (idx !! h).
Proof.
  induction hashes as [|hash hashes IH]; intros offset idx h; simpl; [rewrite elem_of_nil; naive_solver|].
  rewrite IH, elem_of_cons, lookup_insert. case_decide as E; [subst; naive_solver|naive_solver].
Qed.

Lemma build_index_keys abs files h :
  is_Some (buildChunkIndex abs files !! h) <-> exists f, f ∈ files /\ h ∈ cf_ChunkHashes f.
Proof.
  unfold buildChunkIndex. assert (forall idx, is_Some (fold_left (fun idx f => index_chunks (abs (cf_Path f)) (cf_Size f)
    (cf_ChunkSize f) (cf_ChunkHashes f) 0 idx) files idx !! h) <-> (exists f, f ∈ files /\ h ∈ cf_ChunkHashes f) \/ is_Some (idx !! h)) as G.
  { induction files as [|f files IH]; intros idx; simpl; [split; [by right|intros [(f & []%elem_of_nil & _)|]; done]|].
    rewrite IH, index_chunks_keys. setoid_rewrite elem_of_cons. naive_solver. }
  rewrite G, lookup_empty. split; [|by left]. intros [?|[? ?]]; done.
Qed.

(** What the index needs of the disk: files made of chunks of the declared sizes. *)
Definition laid_out (abs : bytes -> bytes) (d : disk) (f : contentFile) : Prop :=
  exists chunks, dk_files d !! abs (cf_Path f) = Some (mjoin chunks) /\
    Forall2 (fun h c => chunkHashMatches c h = true) (cf_ChunkHashes f) chunks /\ fits (cf_Size f) (cf_ChunkSize f) 0 chunks.

Lemma build_index_served abs files d h loc :
  Forall (laid_out abs d) files -> buildChunkIndex abs files !! h = Some loc ->
  exists content, dk_files d !! cl_path loc = Some content /\ served content h loc.
Proof.
  intros Hd. unfold buildChunkIndex.
  assert (forall idx, fold_left (fun idx f => index_chunks (abs (cf_Path f)) (cf_Size f)
    (cf_ChunkSize f) (cf_ChunkHashes f) 0 idx) files idx !! h = Some loc ->
    idx !! h = Some loc \/ exists content, dk_files d !! cl_path loc = Some content /\ served content h loc) as G.
  { induction Hd as [|f files (chunks & Hc & Hf & Hfit) _ IH]; intros idx; simpl; [by left|].
    intros [Hl|?]%IH; [|by right].
    destruct (index_chunks_spec (abs (cf_Path f)) (cf_Size f) (cf_ChunkSize f) (cf_ChunkHashes f) chunks [] idx h loc Hf Hfit Hl)
      as [?|[Hp Hs]]; [by left|right]. exists (mjoin chunks). by rewrite Hp. }
  intros [Hl|?]%G; [by rewrite lookup_empty in Hl|done].
Qed.

(** Once a version is complete, a request for any chunk hash of its index is
    answered with bytes that hash to it, provided the files on disk are made of
    chunks of the sizes the manifest declares; any other hash is refused, and no
    request panics. *)
Theorem serve_chunk_verified (abs : bytes -> bytes) (files : list contentFile) (d : disk) (hash : bytes)
    (Hdisk : Forall (laid_out abs d) files) :
  match ServeChunk (buildChunkIndex abs files) d hash with
  | Ok (Some data) => chunkHashMatches data hash = true /\ exists f, f ∈ files /\ hash ∈ cf_ChunkHashes f
  | Ok None => forall f, f ∈ files -> hash ∉ cf_ChunkHashes f
  | _ => False
  end.
Proof.
  pose proof (build_index_keys abs files hash) as Hk.
  unfold ServeChunk. destruct (buildChunkIndex abs files !! hash) as [loc|] eqn:E.
  - destruct (build_index_served abs files d hash loc Hdisk E) as (content & -> & Ho & Hs & c & Hc & Hm).
    rewrite (proj2 (Z.ltb_ge _ _)) by done. rewrite (proj2 (Z.ltb_ge _ _)) by done. rewrite Hc.
    split; [done|]. apply Hk. by eexists.
  - intros f Hf Hin. assert (is_Some (None : option chunkLoc)) as [? ?]; [|done]. apply Hk. by exists f.
Qed.
End properties.

(** ** Concrete instances *)

#[global] Instance contentFile_eq : EqDecision contentFile. Proof. solve_decision. Defined.
#[global] Instance signedContentManifest_eq : EqDecision signedContentManifest. Proof. solve_decision. Defined.
#[global] Instance contentPayload_eq : EqDecision contentPayload. Proof. solve_decision. Defined.

#[global] Program Instance contentFile_countable : Countable contentFile :=
  inj_countable' (fun f => (cf_Path f, cf_Size f, cf_ChunkSize f, cf_ChunkHashes f))
    (fun '(a, b, c, e) => mkFile a b c e) _.
Next Obligation. by intros []. Qed.
#[global] Program Instance signedContentManifest_countable : Countable signedContentManifest :=
  inj_countable' (fun m => (cm_Type m, cm_TS m, cm_Files m, cm_Sig m)) (fun '(a, b, c, e) => mkManifest a b c e) _.
Next Obligation. by intros []. Qed.
#[global] Program Instance contentPayload_countable : Countable contentPayload :=
  inj_countable' (fun m => (cp_Type m, cp_TS m, cp_Files m)) (fun '(a, b, c) => mkPayload a b c) _.
Next Obligation. by intros []. Qed.

Module Toy_mirror.
#[export] Existing Instances Toy.signatures.
#[export] Instance json_manifest : JSON signedContentManifest := Toy.json_of_countable _.
#[export] Instance json_payload : JSON contentPayload := Toy.json_of_countable _.

Definition chunk : bytes := str "hello".
Definition chunk_hash : bytes := Hex.encode (sha256_sum chunk).
Definition file : contentFile := mkFile (str "a") 5 8 [chunk_hash].
Definition manifest (ts : Z) : signedContentManifest :=
  mkManifest (str "content") ts [file]
    (B64.encode (Toy.sign (default [] (json_marshal (mkPayload (str "content") ts [file]))))).
Definition raw (ts : Z) : bytes := default [] (json_marshal (manifest ts)).
Lemma raw_parses ts : json_unmarshal (raw ts) = Some (manifest ts).
Proof. apply (@json_roundtrip _ _ (fun _ => True) (Toy.json_of_countable_laws _ _)); done. Qed.

Definition key : bytes := replicate 32 x07.
Definition manager : MirrorManager := mkMirror (Some key) 0 0 ∅.
Definition online : sources := mkSources (fun _ => []) (fun _ _ => None) (Some (fun _ => Some chunk)).
Definition offline : sources := mkSources (fun _ => []) (fun _ _ => None) None.
Definition yes (p : bytes) : bool := true.
Definition empty_disk : disk := mkDisk ∅ None.
End Toy_mirror.

Section witnesses.
Import Toy_mirror.



Lemma mirror_forgets_failed_file_witness :
  let '(d1, _, _) := sync (fun p => p) offline yes yes (raw 5) (manifest 5) [] true empty_disk in
  let '(d2, _, acts2) := sync (fun p => p) online yes yes (raw 6) (manifest 6) [] true d1 in
  acts2 = [MSetComplete 6 true] /\ dk_files d2 !! str "a" = None.
Proof.
  pose proof (mirror_forgets_failed_file (fun p => p) offline online yes yes file chunk_hash (raw 5) (raw 6)
    (manifest 5) (manifest 6) empty_disk eq_refl eq_refl (raw_parses 5) eq_refl eq_refl
    ltac:(left) eq_refl eq_refl) as H.
  destruct (sync _ offline _ _ _ _ _ _ _) as [[d1 idx1] acts1]. destruct (sync _ online _ _ _ _ _ _ _) as [[d2 idx2] acts2].
  destruct H as (_ & A & B). split; [exact A|exact B].
Defined.

Lemma serve_chunk_verified_witness :
  match ServeChunk (buildChunkIndex (fun p => p) [file]) (mkDisk {[str "a" := chunk]} None) chunk_hash with
  | Ok (Some data) => chunkHashMatches data chunk_hash = true
  | _ => True
  end.
Proof.
  pose proof (serve_chunk_verified (fun p => p) [file] (mkDisk {[str "a" := chunk]} None) chunk_hash) as H.
  destruct (ServeChunk _ _ _) as [[data|]| |]; try exact I. apply H. apply Forall_singleton.
  exists [chunk]. split; [reflexivity|]. split; [|split; [reflexivity|exact I]].
  apply Forall2_cons. split; [vm_compute; reflexivity|constructor].
Defined.
End witnesses.
