(* ===== verification/Discovery.v ===== *)
(** * Discovery: the signed list of control nodes (discovery.go)

    Verification of the arbiter's manifest, the control list and its advisory
    data, the on-disk cache and the sources a manifest can come from: the cache,
    a live fetch, DHT gossip.  A float64 field is its bit pattern.  HTTP answers,
    the platform's file encryption and the JSON codecs are arguments. *)
From S2P Require Import Prelude Encoding Env.

Record manifestNode := mkMNode {
  mn_Addr : bytes;
  mn_Fingerprint : bytes;
  mn_RTTms : Z;
  mn_Load : Z;
  mn_DataPlaneOK : option bool
}.

Record Notification := mkNotification { nt_ID : bytes; nt_Message : bytes; nt_CreatedAt : Z }.

Record signedManifest := mkSigned {
  sm_Type : bytes;
  sm_TS : Z;
  sm_Nodes : list manifestNode;
  sm_Sig : bytes;
  sm_Regions : gmap bytes bytes;
  sm_Notifications : list Notification;
  sm_NodeSNIs : gmap bytes (list bytes);
  sm_Excluded : list bytes;
  sm_NodeAltUDPPorts : gmap bytes (list Z)
}.

(** The struct whose JSON the arbiter signs. *)
Record manifestPayload := mkMPayload { mq_Type : bytes; mq_TS : Z; mq_Nodes : list manifestNode }.

(** What [manifestTS] decodes: the timestamp alone. *)
Record ts_only := mkTsOnly { to_TS : Z }.

Inductive manifest_source := MNone | MCached | MFresh.

Record Discoverer := mkDisc {
  ds_pubkey : option bytes;
  ds_hasCache : bool;                              (* cacheFile is not empty *)
  ds_serverURLs : list bytes;
  ds_controls : list bytes;
  ds_regions : gmap bytes bytes;
  ds_nodeSNIs : gmap bytes (list bytes);
  ds_nodeAltUDPPorts : gmap bytes (list Z);
  ds_notifications : list Notification;
  ds_source : manifest_source
}.

Inductive disc_action :=
| DOnChange (controls : list bytes)
| DNotify (l : list Notification)
| DPersist (data : bytes)                          (* written, encrypted, to the cache *)
| DOnFetch (data : bytes) (ts : Z).

(** What [verify] returns on success. *)
Record verified_manifest := mkVerified {
  vm_addrs : list bytes;
  vm_regions : gmap bytes bytes;
  vm_notifs : list Notification;
  vm_snis : gmap bytes (list bytes);
  vm_alt : gmap bytes (list Z)
}.

Fixpoint stringSliceEqual (a b : list bytes) : bool :=
  match a, b with
  | [], [] => true
  | x :: a, y :: b => bool_decide (x = y) && stringSliceEqual a b
  | _, _ => false
  end.

Section discovery.
Context `{Signatures} `{JSON signedManifest} `{JSON manifestPayload} `{JSON ts_only}.

Definition NewDiscoverer (serverURL pubkeyHex : bytes) (hasCache : bool) : option Discoverer :=
  let d pub := mkDisc pub hasCache [trim_right_slash serverURL] [] ∅ ∅ ∅ [] MNone in
  if bool_decide (pubkeyHex = []) then Some (d None) else
  match Hex.decode pubkeyHex with
  | None => None
  | Some b => if zlen b =? ed25519_public_key_size then Some (d (Some b)) else None
  end.

Definition eligible (m : signedManifest) : list bytes :=
  List.filter (fun a => negb (bool_decide (a = [])) && negb (bool_decide (a ∈ sm_Excluded m))) (mn_Addr <$> sm_Nodes m).

Definition canonical (m : signedManifest) : bytes :=
  default [] (json_marshal (mkMPayload (sm_Type m) (sm_TS m) (sm_Nodes m))).

Definition signature_ok (pub : bytes) (m : signedManifest) : res bool :=
  match B64.decode (sm_Sig m) with
  | None => Ok false
  | Some sig => ed25519_verify pub (canonical m) sig
  end.

Definition disc_verify (pubkey : option bytes) (data : bytes) : res verified_manifest :=
  match json_unmarshal data with
  | None => Err "parse"
  | Some m =>
    if negb (bool_decide (sm_Type m = str "manifest")) then Err "unexpected manifest type" else
    ok ← match pubkey with None => Ok true | Some pub => signature_ok pub m end;
    if negb ok then Err "signature verification failed" else
    let addrs := eligible m in
    if bool_decide (addrs = []) then Err "manifest contains no control nodes"
    else Ok (mkVerified addrs (sm_Regions m) (sm_Notifications m) (sm_NodeSNIs m) (sm_NodeAltUDPPorts m))
  end.

Definition control_url (a : bytes) : bytes := if has_prefix a (str "http") then a else str "https://" ++ a.

(** [onChange] and [onNotifications] tell whether a callback is registered. *)
Definition setControls (onChange onNotifications : bool) (d : Discoverer) (v : verified_manifest)
    : Discoverer * list disc_action :=
  let changed := negb (stringSliceEqual (ds_controls d) (vm_addrs v)) in
  let urls := control_url <$> vm_addrs v in
  (mkDisc (ds_pubkey d) (ds_hasCache d) (if bool_decide (urls = []) then ds_serverURLs d else urls)
     (vm_addrs v) (vm_regions v) (vm_snis v) (vm_alt v) (vm_notifs v) (ds_source d),
   (if changed && onChange then [DOnChange (vm_addrs v)] else []) ++
   (if negb (bool_decide (vm_notifs v = [])) && onNotifications then [DNotify (vm_notifs v)] else [])).

Definition manifestTS (data : bytes) : Z := match json_unmarshal data with Some t => to_TS t | None => 0 end.

Definition ManifestStatus (d : Discoverer) : bytes :=
  match ds_source d with MCached => str "cached" | MFresh => str "fresh" | MNone => str "none" end.

Definition with_source (d : Discoverer) (s : manifest_source) : Discoverer :=
  mkDisc (ds_pubkey d) (ds_hasCache d) (ds_serverURLs d) (ds_controls d) (ds_regions d) (ds_nodeSNIs d)
    (ds_nodeAltUDPPorts d) (ds_notifications d) s.

Section callbacks.
(** The platform's file decryption; whether callbacks are registered. *)
Context (decrypt : bytes -> option bytes) (onChange onNotifications onFetch : bool).

Definition decrypt_or_plain (enc : bytes) : bytes := match decrypt enc with Some p => p | None => enc end.

(** The state after loading, the actions, and whether it succeeded. *)
Definition LoadCached (file : option bytes) (d : Discoverer) : Discoverer * list disc_action * bool :=
  if negb (ds_hasCache d) then (d, [], false) else
  match file with
  | None => (d, [], false)
  | Some enc =>
    match disc_verify (ds_pubkey d) (decrypt_or_plain enc) with
    | Ok v => let '(d, acts) := setControls onChange onNotifications d v in (with_source d MCached, acts, true)
    | _ => (d, [], false)
    end
  end.

Definition InjectRaw (data : bytes) (d : Discoverer) : Discoverer * list disc_action * bool :=
  match disc_verify (ds_pubkey d) data with
  | Ok v =>
    let '(d, acts) := setControls onChange onNotifications d v in
    (d, acts ++ (if ds_hasCache d then [DPersist data] else []), true)
  | _ => (d, [], false)
  end.

(** [get url] is the status of the GET and the body read, cut at 4 MiB; [urls] the
    shuffled list. *)
Fixpoint fetch (get : bytes -> option (Z * bytes)) (urls : list bytes) : option bytes :=
  match urls with
  | [] => None
  | u :: urls =>
    match get (u ++ str "/p/v1/manifest") with
    | Some (status, data) =>
      if (status =? 200) && negb (bool_decide (data = [])) then Some data else fetch get urls
    | None => fetch get urls
    end
  end.

Definition fetchAndApply (get : bytes -> option (Z * bytes)) (shuffled : list bytes) (d : Discoverer)
    : Discoverer * list disc_action :=
  match fetch get shuffled with
  | None => (d, [])
  | Some data =>
    match disc_verify (ds_pubkey d) data with
    | Ok v =>
      let '(d, acts) := setControls onChange onNotifications d v in
      let d := with_source d MFresh in
      (d, acts ++ (if ds_hasCache d then [DPersist data] else []) ++
          (if onFetch then [DOnFetch data (manifestTS data)] else []))
    | _ => (d, [])
    end
  end.

(** The number of nodes, or nothing. *)
Definition ProbeManifest (get : bytes -> option (Z * bytes)) (shuffled : list bytes) (d : Discoverer) : option Z :=
  match fetch get shuffled with
  | None => None
  | Some data => match disc_verify (ds_pubkey d) data with Ok v => Some (zlen (vm_addrs v)) | _ => None end
  end.

Definition ReadManifestCacheControls (file : option bytes) (pubkeyHex : bytes) : list bytes :=
  match file with
  | None => []
  | Some enc =>
    let pub := match Hex.decode pubkeyHex with
               | Some b => if zlen b =? ed25519_public_key_size then Some b else None
               | None => None
               end in
    let pub := if bool_decide (pubkeyHex = []) then None else pub in
    match disc_verify pub (decrypt_or_plain enc) with Ok v => vm_addrs v | _ => [] end
  end.

(** ** Events *)

Inductive disc_event :=
| VInject (data : bytes)
| VLoad (file : option bytes)
| VFetch (get : bytes -> option (Z * bytes)) (shuffled : list bytes).

Definition disc_step (d : Discoverer) (ev : disc_event) : Discoverer * list disc_action :=
  match ev with
  | VInject data => (InjectRaw data d).1
  | VLoad file => (LoadCached file d).1
  | VFetch get shuffled => fetchAndApply get shuffled d
  end.

Definition disc_run (d : Discoverer) (evs : list disc_event) : Discoverer :=
  fold_left (fun d ev => (disc_step d ev).1) evs d.
End callbacks.

(** [rnd] is [rand.Intn]. *)
Definition SNIFor (rnd : Z) (d : Discoverer) (addr : bytes) : bytes :=
  match default [] (ds_nodeSNIs d !! addr) with
  | [] => []
  | l => match index l rnd with Ok s => s | _ => [] end
  end.

Definition AltUDPPorts (d : Discoverer) (addr : bytes) : list Z := default [] (ds_nodeAltUDPPorts d !! addr).
End discovery.

(** ** Properties *)

Section properties.
Context `{Signatures} `{JSON signedManifest} `{JSON manifestPayload} `{Hjts : JSON ts_only}.

(** A manifest the key vouches for. *)
Definition authentic (pub : bytes) (data : bytes) (m : signedManifest) : Prop :=
  json_unmarshal data = Some m /\ sm_Type m = str "manifest" /\ signature_ok pub m = Ok true.

Lemma stringSliceEqual_spec a b : stringSliceEqual a b = bool_decide (a = b).
Proof.
  revert b. induction a as [|x a IH]; intros [|y b]; cbn [stringSliceEqual];
    [done|by rewrite bool_decide_eq_false_2..|].
  rewrite IH, <- bool_decide_and. apply bool_decide_ext. naive_solver.
Qed.

Lemma verify_authentic pub data v :
  disc_verify (Some pub) data = Ok v ->
  exists m, authentic pub data m /\ vm_addrs v = eligible m /\ vm_addrs v <> [] /\
    vm_regions v = sm_Regions m /\ vm_snis v = sm_NodeSNIs m.
Proof.
  unfold disc_verify. destruct (json_unmarshal data) as [m|] eqn:Ej; [|done].
  destruct (bool_decide (sm_Type m = _)) eqn:Et; [|done]. simpl.
  destruct (signature_ok pub m) as [[]| |] eqn:Es; try done. cbn [mbind res_bind negb].
  destruct (bool_decide (eligible m = [])) eqn:Ee; [done|]. intros [= <-]. bool_to_prop.
  exists m. simpl. by split_and!.
Qed.

Lemma disc_verify_no_panic pubkey data : (forall pub, pubkey = Some pub -> zlen pub = ed25519_public_key_size) ->
  disc_verify pubkey data <> Panic.
Proof.
  intros Hp. unfold disc_verify. destruct (json_unmarshal data) as [m|]; [|done]. destruct (negb _); [done|].
  destruct pubkey as [pub|]; cbn [mbind res_bind].
  - unfold signature_ok. destruct (B64.decode _); [|done]. unfold ed25519_verify. rewrite (Hp pub eq_refl). simpl.
    destruct (ed25519_check _ _ _); simpl; [|done]. by destruct (bool_decide _).
  - simpl. by destruct (bool_decide _).
Qed.

Context (decrypt : bytes -> option bytes) (onChange onNotifications onFetch : bool).

(** What holds of the control list once something has been applied. *)
Definition controls_from (pub : bytes) (d : Discoverer) : Prop :=
  exists data m, authentic pub data m /\ ds_controls d = eligible m /\ ds_controls d <> [] /\
    ds_serverURLs d = control_url <$> ds_controls d /\ ds_regions d = sm_Regions m.

Lemma set_controls_from pub d v data m :
  authentic pub data m -> vm_addrs v = eligible m -> vm_addrs v <> [] -> vm_regions v = sm_Regions m ->
  controls_from pub (setControls onChange onNotifications d v).1 /\
  ds_pubkey (setControls onChange onNotifications d v).1 = ds_pubkey d.
Proof.
  intros Ha He Hn Hr. split; [|done]. exists data, m. simpl. split; [done|]. split; [done|]. split; [done|]. split; [|done].
  rewrite bool_decide_eq_false_2; [done|]. by destruct (vm_addrs v).
Qed.

Lemma disc_step_from pub d ev :
  ds_pubkey d = Some pub ->
  let d' := (disc_step decrypt onChange onNotifications onFetch d ev).1 in
  ds_pubkey d' = Some pub /\ (d' = d \/ controls_from pub d').
Proof.
  intros Hp. assert (forall data v, disc_verify (ds_pubkey d) data = Ok v ->
    let d1 := (setControls onChange onNotifications d v).1 in ds_pubkey d1 = Some pub /\ controls_from pub d1) as Hset.
  { intros data v. rewrite Hp. intros (m & Ha & He & Hn & Hr & _)%verify_authentic.
    destruct (set_controls_from pub d v data m Ha He Hn Hr) as [? _]. by split. }
  destruct ev as [data|file|get urls]; simpl.
  - unfold InjectRaw. destruct (disc_verify _ data) as [v| |] eqn:E; simpl; [|by split; [|left]..].
    destruct (Hset _ _ E) as [H1' H2']. split; [exact H1'|right; exact H2'].
  - unfold LoadCached. destruct (ds_hasCache d); simpl; [|by split; [|left]]. destruct file as [enc|]; [|by split; [|left]].
    destruct (disc_verify _ _) as [v| |] eqn:E; simpl; [|by split; [|left]..].
    destruct (Hset _ _ E) as [H1' H2']. split; [exact H1'|right; exact H2'].
  - unfold fetchAndApply. destruct (fetch get urls) as [data|]; [|by split; [|left]].
    destruct (disc_verify _ _) as [v| |] eqn:E; simpl; [|by split; [|left]..].
    destruct (Hset _ _ E) as [H1' H2']. split; [exact H1'|right; exact H2'].
Qed.

Lemma elem_of_eligible m a : a ∈ eligible m -> a <> [] /\ (a ∉ sm_Excluded m) /\ exists n, n ∈ sm_Nodes m /\ mn_Addr n = a.
Proof.
  unfold eligible. rewrite list_elem_of_In, filter_In, <- list_elem_of_In. intros [(n & -> & Hn)%list_elem_of_fmap Hb].
  bool_to_prop. split; [done|]. split; [done|]. by exists n.
Qed.

(** C28: whatever manifests arrive, from the cache, from fetches or from gossip, in
    whatever order, a discoverer with an arbiter key holds the control list of
    some manifest whose signature over type, timestamp and nodes verifies under
    that key (or no list yet); every control in it is a signed node, none is empty
    or excluded; and there is always at least one URL to fetch the next manifest
    from. *)
Theorem discovery_controls_authentic (serverURL pubkeyHex pub : bytes) (hasCache : bool) (d0 : Discoverer) (evs : list disc_event)
    (Hnew : NewDiscoverer serverURL pubkeyHex hasCache = Some d0) (Hpub : ds_pubkey d0 = Some pub) :
  let d := disc_run decrypt onChange onNotifications onFetch d0 evs in
  ds_serverURLs d <> [] /\
  (d = d0 /\ ds_controls d = [] \/ controls_from pub d) /\
  (forall a, a ∈ ds_controls d -> a <> [] /\ exists data m n, authentic pub data m /\ n ∈ sm_Nodes m /\ mn_Addr n = a /\
     a ∉ sm_Excluded m).
Proof.
  intros d. assert (ds_controls d0 = [] /\ ds_serverURLs d0 <> []) as [Hc0 Hu0].
  { unfold NewDiscoverer in Hnew. destruct (bool_decide _); [by simplify_eq/=|].
    destruct (Hex.decode pubkeyHex) as [b|]; [|done]. destruct (_ =? _); by simplify_eq/=. }
  assert (ds_pubkey d = Some pub /\ (d = d0 \/ controls_from pub d)) as [_ Hd].
  { unfold d, disc_run. clear d. induction evs as [|ev evs IH] using rev_ind; [by split; [|left]|].
    rewrite fold_left_app. simpl. set (d1 := fold_left _ evs d0) in *. destruct IH as [Hp Hd].
    destruct (disc_step_from pub d1 ev Hp) as [Hp' [Heq|Hf]]; (split; [done|]); [|by right].
    by rewrite Heq. }
  destruct Hd as [Heq|(data & m & Ha & Hc & Hn & Hu & Hr)].
  - rewrite Heq. split; [done|]. split; [by left|]. rewrite Hc0. by intros a []%elem_of_nil.
  - split; [rewrite Hu; by destruct (ds_controls d)|]. split; [right; by exists data, m|].
    intros a Hin. rewrite Hc in Hin. destruct (elem_of_eligible m a Hin) as (H1' & H2' & n & Hn' & Ea).
    split; [done|]. by exists data, m, n.
Qed.

(** Applying a manifest calls the change callback exactly when the list of
    controls differs from the one before, with the new list; a rejected manifest
    calls nothing, writes nothing and leaves the state as it was. *)
Theorem inject_effects (data : bytes) (d : Discoverer) :
  let '(d', acts, ok) := InjectRaw onChange onNotifications data d in
  (ok = true <-> exists v, disc_verify (ds_pubkey d) data = Ok v) /\
  (ok = false -> d' = d /\ acts = []) /\
  (forall l, DOnChange l ∈ acts <-> onChange = true /\ ds_controls d' <> ds_controls d /\ l = ds_controls d') /\
  (forall p, DPersist p ∈ acts <-> ok = true /\ ds_hasCache d = true /\ p = data).
Proof.
  unfold InjectRaw. destruct (disc_verify (ds_pubkey d) data) as [v| |] eqn:E; simpl.
  2,3: split; [split; [done|by intros [? ?]]|]; (split; [done|]); split; intros; rewrite elem_of_nil; (split; [done|naive_solver]).
  split; [split; [by eexists|done]|]. split; [done|]. rewrite stringSliceEqual_spec.
  destruct (bool_decide (ds_controls d = vm_addrs v)) eqn:Ec; bool_to_prop; destruct onChange, (bool_decide (vm_notifs v = [])),
    onNotifications, (ds_hasCache d); simpl; split; intros; set_solver.
Qed.

(** Fetching succeeds exactly when some known control answers 200 with a
    body, whatever the order the controls are tried in, and what it returns is
    one of those bodies. *)
Theorem fetch_finds_live_control (get : bytes -> option (Z * bytes)) (urls shuffled : list bytes)
    (Hperm : Permutation urls shuffled) :
  (is_Some (fetch get shuffled) <->
     exists u data, u ∈ urls /\ get (u ++ str "/p/v1/manifest") = Some (200, data) /\ data <> []) /\
  (forall data, fetch get shuffled = Some data ->
     data <> [] /\ exists u, u ∈ urls /\ get (u ++ str "/p/v1/manifest") = Some (200, data)).
Proof.
  assert (forall l, match fetch get l with
    | Some data => data <> [] /\ exists u, u ∈ l /\ get (u ++ str "/p/v1/manifest") = Some (200, data)
    | None => forall u data, u ∈ l -> get (u ++ str "/p/v1/manifest") = Some (200, data) -> data = []
    end) as G.
  { induction l as [|u l IH]; simpl; [by intros u data []%elem_of_nil|].
    assert (match fetch get l with
      | Some data => data <> [] /\ exists u0, u0 ∈ u :: l /\ get (u0 ++ str "/p/v1/manifest") = Some (200, data)
      | None => True end) as IHs.
    { destruct (fetch get l); [|done]. destruct IH as (? & u0 & ? & ?). split; [done|]. exists u0. by split; [right|]. }
    destruct (get (u ++ _)) as [[st data]|] eqn:E.
    - destruct ((st =? 200) && _) eqn:Eb.
      + bool_to_prop. subst. split; [done|]. exists u. by split; [left|].
      + destruct (fetch get l); [done|]. intros u' data' [->|Hin]%elem_of_cons Hg; [|by eapply IH].
        rewrite E in Hg. injection Hg as -> ->. destruct data'; [done|]. simpl in Eb. done.
    - destruct (fetch get l); [done|]. intros u' data' [->|Hin]%elem_of_cons Hg; [by rewrite E in Hg|by eapply IH]. }
  specialize (G shuffled).
  assert (forall u, u ∈ urls <-> u ∈ shuffled) as Hin by (intros u; by rewrite Hperm).
  destruct (fetch get shuffled) as [data|].
  - destruct G as (Hn & u & Hu & Hg). split.
    + split; [intros _|by eexists]. exists u, data. by rewrite Hin.
    + intros ? [= <-]. split; [done|]. exists u. by rewrite Hin.
  - split; [|done]. split; [by intros [? ?]|]. intros (u & data & Hu & Hg & Hn). destruct Hn. apply (G u data); [by apply Hin|done].
Qed.

(** The timestamp of a manifest is not compared with the one in force: after
    a newer manifest, an older one that is still validly signed takes its place,
    and the cache with it. *)
Theorem inject_accepts_older (d : Discoverer) (new old : bytes) (mnew mold : signedManifest) (vnew vold : verified_manifest)
    (Hnew : disc_verify (ds_pubkey d) new = Ok vnew) (Hold : disc_verify (ds_pubkey d) old = Ok vold)
    (Hpn : json_unmarshal new = Some mnew) (Hpo : json_unmarshal old = Some mold) (Hts : sm_TS mold < sm_TS mnew)
    (Hcache : ds_hasCache d = true) :
  let d1 := (InjectRaw onChange onNotifications new d).1.1 in
  let '(d2, acts, ok) := InjectRaw onChange onNotifications old d1 in
  ok = true /\ ds_controls d2 = vm_addrs vold /\ DPersist old ∈ acts.
Proof.
  intros d1. assert (ds_pubkey d1 = ds_pubkey d /\ ds_hasCache d1 = true) as [E1 E2].
  { unfold d1, InjectRaw. rewrite Hnew. simpl. by rewrite Hcache. }
  unfold InjectRaw. rewrite E1, Hold. simpl. rewrite E2. split; [done|]. split; [done|].
  rewrite !elem_of_app. right. left.
Qed.

(** What was applied survives a restart: a discoverer with the same key that
    loads the cache written by [persist] has the same controls, regions and URLs,
    and says that it is cached. *)
Theorem cache_roundtrip (encrypt : bytes -> bytes) (data : bytes) (d dnew : Discoverer) (v : verified_manifest)
    (Hcodec : forall b, decrypt (encrypt b) = Some b) (Hv : disc_verify (ds_pubkey d) data = Ok v)
    (Hkey : ds_pubkey dnew = ds_pubkey d) (Hcache : ds_hasCache dnew = true) :
  let '(d1, _, _) := InjectRaw onChange onNotifications data d in
  let '(d2, _, ok) := LoadCached decrypt onChange onNotifications (Some (encrypt data)) dnew in
  ok = true /\ ds_source d2 = MCached /\ ds_controls d2 = ds_controls d1 /\ ds_regions d2 = ds_regions d1 /\
  (vm_addrs v <> [] -> ds_serverURLs d2 = ds_serverURLs d1).
Proof.
  unfold InjectRaw, LoadCached. rewrite Hcache, Hv. simpl. unfold decrypt_or_plain. rewrite Hcodec, Hkey, Hv. simpl.
  split_and!; try done. intros Hn. rewrite !bool_decide_eq_false_2; [done|by destruct (vm_addrs v)..].
Qed.

(** Reading the cache with a malformed key does not fail, it skips the
    signature check: any manifest of the right type is believed. *)
Theorem malformed_key_skips_verification (enc plain pubkeyHex : bytes) (m : signedManifest)
    (Hkey : pubkeyHex <> []) (Hbad : Hex.decode pubkeyHex = None) (Hdec : decrypt enc = Some plain)
    (Hparse : json_unmarshal plain = Some m) (Htype : sm_Type m = str "manifest") :
  ReadManifestCacheControls decrypt (Some enc) pubkeyHex = eligible m /\
  forall serverURL, NewDiscoverer serverURL pubkeyHex true = None.
Proof.
  split.
  - unfold ReadManifestCacheControls, decrypt_or_plain. rewrite Hbad, Hdec, bool_decide_eq_false_2 by done.
    unfold disc_verify. rewrite Hparse, Htype. simpl. destruct (bool_decide (eligible m = [])) eqn:E; [|done].
    by bool_to_prop.
  - intros serverURL. unfold NewDiscoverer. by rewrite bool_decide_eq_false_2, Hbad.
Qed.
End properties.

(** ** Concrete instances *)

#[global] Instance manifestNode_eq : EqDecision manifestNode. Proof. solve_decision. Defined.
#[global] Instance Notification_eq : EqDecision Notification. Proof. solve_decision. Defined.
#[global] Instance signedManifest_eq : EqDecision signedManifest. Proof. solve_decision. Defined.
#[global] Instance ts_only_eq : EqDecision ts_only. Proof. solve_decision. Defined.
#[global] Instance manifestPayload_eq : EqDecision manifestPayload. Proof. solve_decision. Defined.

#[global] Program Instance manifestNode_countable : Countable manifestNode :=
  inj_countable' (fun n => (mn_Addr n, mn_Fingerprint n, mn_RTTms n, mn_Load n, mn_DataPlaneOK n))
    (fun '(a, b, c, d, e) => mkMNode a b c d e) _.
Next Obligation. by intros []. Qed.
#[global] Program Instance Notification_countable : Countable Notification :=
  inj_countable' (fun n => (nt_ID n, nt_Message n, nt_CreatedAt n)) (fun '(a, b, c) => mkNotification a b c) _.
Next Obligation. by intros []. Qed.
#[global] Program Instance signedManifest_countable : Countable signedManifest :=
  inj_countable' (fun m => (sm_Type m, sm_TS m, sm_Nodes m, sm_Sig m, sm_Regions m, sm_Notifications m, sm_NodeSNIs m,
      sm_Excluded m, sm_NodeAltUDPPorts m))
    (fun '(a, b, c, d, e, f, g, h, i) => mkSigned a b c d e f g h i) _.
Next Obligation. by intros []. Qed.
#[global] Program Instance manifestPayload_countable : Countable manifestPayload :=
  inj_countable' (fun m => (mq_Type m, mq_TS m, mq_Nodes m)) (fun '(a, b, c) => mkMPayload a b c) _.
Next Obligation. by intros []. Qed.

#[global] Program Instance ts_only_countable : Countable ts_only := inj_countable' to_TS mkTsOnly _.
Next Obligation. by intros []. Qed.

Module Toy_discovery.
#[export] Existing Instances Toy.signatures.
#[export] Instance json_signed : JSON signedManifest := Toy.json_of_countable _.
#[export] Instance json_ts : JSON ts_only := Toy.json_of_countable _.
#[export] Instance json_mpayload : JSON manifestPayload := Toy.json_of_countable _.

Definition node (a : bytes) : manifestNode := mkMNode a [] 0 0 None.
Definition manifest (ts : Z) (addrs : list bytes) : signedManifest :=
  mkSigned (str "manifest") ts (node <$> addrs)
    (B64.encode (Toy.sign (default [] (json_marshal (mkMPayload (str "manifest") ts (node <$> addrs))))))
    ∅ [] ∅ [] ∅.
Definition raw (ts : Z) (addrs : list bytes) : bytes := default [] (json_marshal (manifest ts addrs)).
Definition key : bytes := replicate 32 x07.
Definition disc : Discoverer := mkDisc (Some key) true [str "https://boot"] [] ∅ ∅ ∅ [] MNone.
Definition verified_of (ts : Z) (addrs : list bytes) : verified_manifest := mkVerified addrs ∅ [] ∅ ∅.

Lemma disc_raw_parses ts addrs : json_unmarshal (raw ts addrs) = Some (manifest ts addrs).
Proof. apply (@json_roundtrip _ _ (fun _ => True) (Toy.json_of_countable_laws _ _)); done. Qed.

Lemma manifest_signed ts addrs : signature_ok key (manifest ts addrs) = Ok true.
Proof.
  unfold signature_ok, manifest. cbn [sm_Sig]. rewrite B64.b64_decode_encode. unfold ed25519_verify.
  change (zlen key =? ed25519_public_key_size) with true. cbn [ed25519_check Toy.signatures]. f_equal.
  apply bool_decide_eq_true_2. reflexivity.
Qed.

Lemma disc_raw_verifies ts addrs : addrs <> [] -> eligible (manifest ts addrs) = addrs ->
  disc_verify (Some key) (raw ts addrs) = Ok (verified_of ts addrs).
Proof.
  intros Hn He. unfold disc_verify. rewrite disc_raw_parses, manifest_signed. cbn [mbind res_bind negb].
  rewrite bool_decide_eq_true_2 by reflexivity. cbn [negb]. by rewrite He, bool_decide_eq_false_2.
Qed.

Lemma eligible_one ts a : a <> [] -> eligible (manifest ts [a]) = [a].
Proof.
  intros Ha. unfold eligible. cbn. rewrite bool_decide_eq_false_2 by done. cbn.
  by rewrite bool_decide_eq_false_2 by apply not_elem_of_nil.
Qed.

Lemma disc_raw_verifies_one ts a : a <> [] -> disc_verify (Some key) (raw ts [a]) = Ok (verified_of ts [a]).
Proof. intros Ha. apply disc_raw_verifies; [done|by apply eligible_one]. Qed.
End Toy_discovery.

Section witnesses.
Import Toy_discovery.

Lemma discovery_controls_authentic_witness :
  exists d0, NewDiscoverer (str "https://boot/") (Hex.encode key) true = Some d0 /\
    ds_serverURLs (disc_run (fun _ => None) true true true d0 [VInject (raw 9 [str "a:443"])]) <> [].
Proof.
  destruct (NewDiscoverer (str "https://boot/") (Hex.encode key) true) as [d0|] eqn:E; [|by vm_compute in E].
  exists d0. split; [reflexivity|].
  apply (discovery_controls_authentic (fun _ => None) true true true (str "https://boot/") (Hex.encode key) key true d0
    [VInject (raw 9 [str "a:443"])] E).
  vm_compute in E. by injection E as <-.
Defined.

Lemma fetch_finds_live_control_witness :
  is_Some (fetch (fun u => if bool_decide (u = str "b/p/v1/manifest") then Some (200, str "x") else None) [str "b"; str "a"]).
Proof.
  apply (fetch_finds_live_control (fun u => if bool_decide (u = str "b/p/v1/manifest") then Some (200, str "x") else None)
    [str "a"; str "b"] [str "b"; str "a"]).
  - apply Permutation_swap.
  - exists (str "b"), (str "x"). split; [right; left|]. by split.
Defined.

Lemma inject_accepts_older_witness :
  let d1 := (InjectRaw true true (raw 9 [str "a:443"]) disc).1.1 in
  let '(d2, acts, ok) := InjectRaw true true (raw 4 [str "b:443"]) d1 in
  ok = true /\ ds_controls d2 = vm_addrs (verified_of 4 [str "b:443"]) /\ DPersist (raw 4 [str "b:443"]) ∈ acts.
Proof.
  exact (inject_accepts_older true true disc (raw 9 [str "a:443"]) (raw 4 [str "b:443"]) (manifest 9 [str "a:443"])
    (manifest 4 [str "b:443"]) (verified_of 9 [str "a:443"]) (verified_of 4 [str "b:443"])
    (disc_raw_verifies_one 9 (str "a:443") ltac:(discriminate)) (disc_raw_verifies_one 4 (str "b:443") ltac:(discriminate))
    (disc_raw_parses _ _) (disc_raw_parses _ _) (ltac:(lia) : 4 < 9) eq_refl).
Defined.

Lemma cache_roundtrip_witness :
  let '(d1, _, _) := InjectRaw true true (raw 9 [str "a:443"]) disc in
  let '(d2, _, ok) := LoadCached (fun b => Some b) true true (Some (raw 9 [str "a:443"])) disc in
  ok = true /\ ds_source d2 = MCached /\ ds_controls d2 = ds_controls d1 /\ ds_regions d2 = ds_regions d1 /\
  (vm_addrs (verified_of 9 [str "a:443"]) <> [] -> ds_serverURLs d2 = ds_serverURLs d1).
Proof.
  exact (cache_roundtrip (fun b => Some b) true true (fun b => b) (raw 9 [str "a:443"]) disc disc
    (verified_of 9 [str "a:443"]) (fun b => eq_refl) (disc_raw_verifies_one 9 (str "a:443") ltac:(discriminate)) eq_refl eq_refl).
Defined.

Lemma malformed_key_skips_verification_witness :
  ReadManifestCacheControls (fun b => Some b) (Some (raw 9 [str "evil:443"])) (str "zz") = eligible (manifest 9 [str "evil:443"]).
Proof.
  apply (malformed_key_skips_verification (fun b => Some b) (raw 9 [str "evil:443"]) (raw 9 [str "evil:443"]) (str "zz")
    (manifest 9 [str "evil:443"])); [discriminate|reflexivity|reflexivity|apply disc_raw_parses|reflexivity].
Defined.
End witnesses.
