(* ===== verification/Bypass.v ===== *)
(** * Bypass: which destinations go around the tunnel (bypass.go, dns_cache.go)

    The DNS cache that remembers which name an address was resolved from, and the
    manager that keeps the signed list of in-country networks and decides for each
    destination.  Times are nanoseconds; a timestamp is taken to be in the range of
    [time.Time].  Name resolution, the text form of an address, the DNS parser, HTTP,
    the platform's file encryption and the JSON codecs are arguments. *)
From stdpp Require Import sorting.
From S2P Require Import Prelude Encoding Env UdpAssoc Cidr.

Definition minute : Z := 60 * 1000000000.
Definition hour : Z := 60 * minute.

(** ** The DNS cache *)

Record dnsCacheEntry := mkDns { dn_fqdn : bytes; dn_expires : Z }.

Abbreviation dnsCache := (gmap bytes dnsCacheEntry).

Definition clamp_ttl (ttl : Z) : Z :=
  let ttl := if ttl <? 5 * minute then 5 * minute else ttl in
  if ttl >? 24 * hour then 24 * hour else ttl.

Definition dns_Set (now : Z) (ip fqdn : bytes) (ttl : Z) (c : dnsCache) : dnsCache :=
  <[ip := mkDns (to_lower fqdn) (now + clamp_ttl ttl)]> c.

Definition dns_Get (now : Z) (c : dnsCache) (ip : bytes) : bytes :=
  match c !! ip with
  | None => []
  | Some e => if now >? dn_expires e then [] else dn_fqdn e
  end.

(** One tick of the cleanup goroutine. *)
Definition dns_cleanup (now : Z) (c : dnsCache) : dnsCache :=
  filter (fun e => negb (now >? dn_expires (snd e)) = true) c.

(** What the parser of golang.org/x/net delivers for an answer: its header with the
    body, when the body parses ([SkipAnswer] for other types). *)
Inductive dns_body := DnsA (ip : option bytes) | DnsAAAA (ip : option bytes) | DnsOther (skipped : bool).
Record dns_answer := mkAnswer { an_name : bytes; an_ttl : Z; an_body : dns_body }.

Section learn.
(** [net.IP.String]; [parse_dns msg] is the answer section, or nothing when the
    header or the questions do not parse. *)
Context (ip_string : bytes -> bytes) (parse_dns : bytes -> option (list dns_answer)) (now : Z).

Fixpoint learn_answers (l : list dns_answer) (c : dnsCache) : dnsCache :=
  match l with
  | [] => c
  | a :: l =>
    let ttl := an_ttl a * 1000000000 in
    match an_body a with
    | DnsA (Some ip) | DnsAAAA (Some ip) => learn_answers l (dns_Set now (ip_string ip) (an_name a) ttl c)
    | DnsOther true => learn_answers l c
    | _ => c
    end
  end.

Definition ParseAndLearn (msg : bytes) (c : dnsCache) : dnsCache :=
  match parse_dns msg with None => c | Some l => learn_answers l c end.
End learn.

(** ** The manager *)

Record signedCIDRList := mkSignedCIDR { sc_Country : bytes; sc_TS : Z; sc_CIDRs : list bytes; sc_Sig : bytes }.

(** The struct whose JSON is signed, and the one [cidrCountry] decodes. *)
Record cidr_payload := mkCidrPayload { cp_Country : bytes; cp_TS : Z; cp_CIDRs : list bytes }.
Record country_only := mkCountryOnly { co_Country : bytes }.

Inductive cidr_source := CNone | CCached | CFresh.

Record BypassManager := mkBypass {
  bm_exitURLs : list bytes;
  bm_pubkey : option bytes;
  bm_hasCache : bool;                              (* cacheFile is not empty *)
  bm_cidrs : option CIDRSet;
  bm_country : bytes;
  bm_enabled : bool;
  bm_token : bytes;
  bm_myIP : bytes;
  bm_localIP : bytes;
  bm_source : cidr_source;
  bm_failedIPs : gmap bytes Z
}.

Definition with_failed (m : BypassManager) (f : gmap bytes Z) : BypassManager :=
  mkBypass (bm_exitURLs m) (bm_pubkey m) (bm_hasCache m) (bm_cidrs m) (bm_country m) (bm_enabled m) (bm_token m)
    (bm_myIP m) (bm_localIP m) (bm_source m) f.

Definition with_list (m : BypassManager) (s : CIDRSet) (cc : bytes) (src : cidr_source) : BypassManager :=
  mkBypass (bm_exitURLs m) (bm_pubkey m) (bm_hasCache m) (Some s) cc (bm_enabled m) (bm_token m)
    (bm_myIP m) (bm_localIP m) src (bm_failedIPs m).

Definition NewBypassManager (exitURLs : list bytes) (pubkeyHex : bytes) (hasCache : bool) : option BypassManager :=
  let m pub := mkBypass (trim_right_slash <$> exitURLs) pub hasCache None [] true [] [] [] CNone ∅ in
  if bool_decide (pubkeyHex = []) then Some (m None) else
  match Hex.decode pubkeyHex with
  | None => None
  | Some b => if zlen b =? ed25519_public_key_size then Some (m (Some b)) else None
  end.

Definition SetToken (token : bytes) (m : BypassManager) : BypassManager :=
  mkBypass (bm_exitURLs m) (bm_pubkey m) (bm_hasCache m) (bm_cidrs m) (bm_country m) (bm_enabled m) token
    (bm_myIP m) (bm_localIP m) (bm_source m) (bm_failedIPs m).

Definition SetMyIP (ip : bytes) (m : BypassManager) : BypassManager :=
  mkBypass (bm_exitURLs m) (bm_pubkey m) (bm_hasCache m) (bm_cidrs m) (bm_country m) (bm_enabled m) (bm_token m)
    ip (bm_localIP m) (bm_source m) (bm_failedIPs m).

Definition SetLocalIP (ip : bytes) (m : BypassManager) : BypassManager :=
  mkBypass (bm_exitURLs m) (bm_pubkey m) (bm_hasCache m) (bm_cidrs m) (bm_country m) (bm_enabled m) (bm_token m)
    (bm_myIP m) ip (bm_source m) (bm_failedIPs m).

Definition SetEnabled (v : bool) (m : BypassManager) : BypassManager :=
  mkBypass (bm_exitURLs m) (bm_pubkey m) (bm_hasCache m) (bm_cidrs m) (bm_country m) v (bm_token m)
    (bm_myIP m) (bm_localIP m) (bm_source m) (bm_failedIPs m).

Definition SetNodes (urls : list bytes) (m : BypassManager) : BypassManager :=
  mkBypass (trim_right_slash <$> urls) (bm_pubkey m) (bm_hasCache m) (bm_cidrs m) (bm_country m) (bm_enabled m)
    (bm_token m) (bm_myIP m) (bm_localIP m) (bm_source m) (bm_failedIPs m).

Definition HasLocalIP (m : BypassManager) : bool := negb (bool_decide (bm_localIP m = [])).

Definition ContainsIP (m : BypassManager) (ip : bytes) : bool :=
  match bm_cidrs m with None => false | Some c => Contains c ip end.

Definition CIDRStatus (m : BypassManager) : bytes :=
  match bm_source m with CCached => str "cached" | CFresh => str "fresh" | CNone => str "none" end.

Definition tldCountry (fqdn : bytes) : bytes :=
  let f := trim_suffix fqdn (str ".") in
  if has_suffix f (str ".ru") then str "RU"
  else if has_suffix f (str ".cn") then str "CN" else [].

(** [net.SplitHostPort], falling back to the whole text. *)
Definition host_of (addr : bytes) : bytes := match split_host_port addr with Some (h, _) => h | None => addr end.

Definition bypass_failure_ttl : Z := 30 * minute.

Section decision.
(** [net.IP.String] and [net.LookupHost]. *)
Context `{Net} (ip_string : bytes -> bytes) (lookup_host : bytes -> option (list bytes)).

Definition resolve_host (host : bytes) : option bytes :=
  match parse_ip host with
  | Some ip => Some ip
  | None => match lookup_host host with None | Some [] => None | Some (a :: _) => parse_ip a end
  end.

(** The verdict of the name the address was resolved from, if it has one. *)
Definition tld_verdict (now : Z) (dns : dnsCache) (country ipStr : bytes) : option bool :=
  if bool_decide (country = []) then None else
  let fqdn := dns_Get now dns ipStr in
  if bool_decide (fqdn = []) then None else
  let dc := tldCountry fqdn in
  if bool_decide (dc = []) then None else Some (bool_decide (dc = country)).

(** The clock is read twice: for the failure table and by the DNS cache. *)
Definition ShouldBypass (now now' : Z) (dns : dnsCache) (addr : bytes) (m : BypassManager) : BypassManager * bool :=
  if negb (bm_enabled m) then (m, false) else
  match resolve_host (host_of addr) with
  | None => (m, false)
  | Some ip =>
    let ipStr := ip_string ip in
    let decide m :=
      (m, match tld_verdict now' dns (bm_country m) ipStr with
          | Some b => b
          | None =>
            match bm_cidrs m with
            | None => false
            | Some c => if cidr_Len c =? 0 then false else Contains c ip
            end
          end) in
    match bm_failedIPs m !! ipStr with
    | Some exp => if now <? exp then (m, false) else decide (with_failed m (delete ipStr (bm_failedIPs m)))
    | None => decide m
    end
  end.

Definition RecordBypassFailure (now : Z) (addr : bytes) (m : BypassManager) : BypassManager :=
  let host := host_of addr in
  match parse_ip host with
  | None => m
  | Some _ => with_failed m (<[host := now + bypass_failure_ttl]> (bm_failedIPs m))
  end.
End decision.

(** ** The signed list *)

Section lists.
(** [net.ParseCIDR]; the platform's file decryption. *)
Context `{SliceSort} `{Signatures} `{JSON signedCIDRList} `{JSON cidr_payload} `{JSON country_only}.
Context (parse_cidr : bytes -> option (bytes * bytes)) (decrypt : bytes -> option bytes).

Definition cidr_signature_ok (pub : bytes) (p : signedCIDRList) : res bool :=
  match B64.decode (sc_Sig p) with
  | None => Ok false
  | Some sig =>
    ed25519_verify pub (default [] (json_marshal (mkCidrPayload (sc_Country p) (sc_TS p) (sc_CIDRs p)))) sig
  end.

Definition too_old (now : Z) (p : signedCIDRList) : bool := now - sc_TS p * 1000000000 >? 25 * hour.

Definition verifyCIDR (now : Z) (pubkey : option bytes) (data : bytes) : res CIDRSet :=
  match json_unmarshal data with
  | None => Err "parse"
  | Some p =>
    ok ← match pubkey with None => Ok true | Some pub => cidr_signature_ok pub p end;
    if negb ok then Err "signature verification failed" else
    if too_old now p then Err "CIDR list too old" else Ok (ParseCIDRs parse_cidr (sc_CIDRs p))
  end.

Definition cidrCountry (data : bytes) : bytes :=
  match json_unmarshal data with Some c => co_Country c | None => [] end.

(** [get url token localIP]: status and body (cut at 10 MiB), or no answer. *)
Definition fetchCIDR (get : bytes -> bytes -> bytes -> option (Z * bytes)) (exitURL token myIP localIP : bytes)
    : option bytes :=
  let u := exitURL ++ str "/api/bypass/cidr" in
  let u := if bool_decide (myIP = []) then u else u ++ str "?ip=" ++ myIP in
  match get u token localIP with
  | Some (status, data) => if status =? 200 then Some data else None
  | None => None
  end.

Inductive bypass_act := BPersist (data : bytes).       (* written, encrypted, to the cache *)

(** A panic of [verifyCIDR] ends the process. *)
Fixpoint refresh_from (get : bytes -> bytes -> bytes -> option (Z * bytes)) (now : Z) (urls : list bytes)
    (m : BypassManager) : res (BypassManager * list bypass_act * bool) :=
  match urls with
  | [] => Ok (m, [], false)
  | u :: urls =>
    match fetchCIDR get u (bm_token m) (bm_myIP m) (bm_localIP m) with
    | None => refresh_from get now urls m
    | Some data =>
      match verifyCIDR now (bm_pubkey m) data with
      | Panic => Panic
      | Err _ => refresh_from get now urls m
      | Ok s => Ok (with_list m s (cidrCountry data) CFresh, (if bm_hasCache m then [BPersist data] else []), true)
      end
    end
  end.

Definition refresh (get : bytes -> bytes -> bytes -> option (Z * bytes)) (now : Z) (m : BypassManager)
    : res (BypassManager * list bypass_act * bool) :=
  if bool_decide (bm_token m = []) then Ok (m, [], false) else refresh_from get now (bm_exitURLs m) m.

(** How long [Start] waits before the next refresh. *)
Definition next_interval (refreshed : bool) : Z := if refreshed then 30 * minute else 2 * minute.

Definition loadCached (now : Z) (file : option bytes) (m : BypassManager) : res BypassManager :=
  if negb (bm_hasCache m) then Ok m else
  match file with
  | None => Ok m
  | Some enc =>
    let plain := match decrypt enc with Some p => p | None => enc end in
    match verifyCIDR now (bm_pubkey m) plain with
    | Ok s => Ok (with_list m s (cidrCountry plain) CCached)
    | Err _ => Ok m
    | Panic => Panic
    end
  end.
End lists.

(** ** Events *)

Section events.
Context `{SliceSort} `{Signatures} `{JSON signedCIDRList} `{JSON cidr_payload} `{JSON country_only} `{Net}.
Context (parse_cidr : bytes -> option (bytes * bytes)) (decrypt : bytes -> option bytes).
Context (ip_string : bytes -> bytes) (lookup_host : bytes -> option (list bytes)).

Inductive bypass_event :=
| BSetToken (t : bytes)
| BSetMyIP (ip : bytes)
| BSetLocalIP (ip : bytes)
| BSetEnabled (v : bool)
| BSetNodes (urls : list bytes)
| BLoad (now : Z) (file : option bytes)
| BRefresh (now : Z) (get : bytes -> bytes -> bytes -> option (Z * bytes))
| BShould (now now' : Z) (dns : dnsCache) (addr : bytes)
| BFailed (now : Z) (addr : bytes).

Definition bypass_step (m : BypassManager) (ev : bypass_event) : res BypassManager :=
  match ev with
  | BSetToken t => Ok (SetToken t m)
  | BSetMyIP ip => Ok (SetMyIP ip m)
  | BSetLocalIP ip => Ok (SetLocalIP ip m)
  | BSetEnabled v => Ok (SetEnabled v m)
  | BSetNodes urls => Ok (SetNodes urls m)
  | BLoad now file => loadCached parse_cidr decrypt now file m
  | BRefresh now get => '(m, _, _) ← refresh parse_cidr get now m; Ok m
  | BShould now now' dns addr => Ok (ShouldBypass ip_string lookup_host now now' dns addr m).1
  | BFailed now addr => Ok (RecordBypassFailure now addr m)
  end.

Fixpoint bypass_run (m : BypassManager) (evs : list bypass_event) : res BypassManager :=
  match evs with
  | [] => Ok m
  | ev :: evs => m ← bypass_step m ev; bypass_run m evs
  end.
End events.

(** ** The DNS cache against its history *)

Inductive dns_event := DnsSet (now : Z) (ip fqdn : bytes) (ttl : Z) | DnsTick (now : Z).

Definition dns_event_time (ev : dns_event) : Z := match ev with DnsSet now _ _ _ => now | DnsTick now => now end.

Definition dns_step (c : dnsCache) (ev : dns_event) : dnsCache :=
  match ev with
  | DnsSet now ip fqdn ttl => dns_Set now ip fqdn ttl c
  | DnsTick now => dns_cleanup now c
  end.

(** The last name learned for the address, while its time has not run out. *)
Fixpoint last_learned (ip : bytes) (evs : list dns_event) : option (Z * bytes * Z) :=
  match evs with
  | [] => None
  | ev :: evs =>
    match last_learned ip evs with
    | Some r => Some r
    | None =>
      match ev with
      | DnsSet now ip' fqdn ttl => if bool_decide (ip' = ip) then Some (now, fqdn, ttl) else None
      | DnsTick _ => None
      end
    end
  end.

Lemma last_learned_snoc ip evs ev :
  last_learned ip (evs ++ [ev]) =
  match ev with
  | DnsSet now ip' fqdn ttl => if bool_decide (ip' = ip) then Some (now, fqdn, ttl) else last_learned ip evs
  | DnsTick _ => last_learned ip evs
  end.
Proof.
  induction evs as [|e evs IH]; simpl; [by destruct ev; [case_bool_decide|]|].
  rewrite IH. destruct ev as [now ip' fqdn ttl|now]; [|done]. by case_bool_decide.
Qed.

Lemma clamp_ttl_exact ttl : clamp_ttl ttl = Z.min (24 * 3600 * 1000000000) (Z.max (5 * 60 * 1000000000) ttl).
Proof.
  unfold clamp_ttl, hour, minute. destruct (ttl <? _) eqn:E1; bool_to_prop; destruct (_ >? _) eqn:E2; lia.
Qed.

(** C35: whatever was learned and cleaned up before, the cache answers with the name
    learned last for an address, in lower case, from then until its time to live
    (raised to 5 minutes and cut at 24 hours) is over, and with nothing otherwise:
    the cleanup is invisible. *)
Theorem dns_cache_refines (evs : list dns_event) (now : Z) (ip : bytes)
    (Hpast : Forall (fun ev => dns_event_time ev <= now) evs) :
  dns_Get now (fold_left dns_step evs ∅) ip =
    match last_learned ip evs with
    | None => []
    | Some (t, fqdn, ttl) =>
      if now >? t + Z.min (24 * 3600 * 1000000000) (Z.max (5 * 60 * 1000000000) ttl) then [] else to_lower fqdn
    end.
Proof.
  induction evs as [|ev evs IH] using rev_ind; [done|]. apply Forall_app in Hpast as [Hp [Hev _]%Forall_cons].
  specialize (IH Hp). rewrite fold_left_app, last_learned_snoc. cbn [fold_left]. set (c := fold_left _ evs ∅) in *.
  destruct ev as [t ip' fqdn ttl|t]; cbn [dns_step].
  - unfold dns_Get, dns_Set. case_bool_decide as E.
    + subst. rewrite lookup_insert_eq. cbn [dn_expires dn_fqdn]. by rewrite clamp_ttl_exact.
    + by rewrite lookup_insert_ne by done.
  - rewrite <- IH. unfold dns_Get, dns_cleanup. simpl in Hev.
    destruct (c !! ip) as [e|] eqn:Ec.
    + destruct (t >? dn_expires e) eqn:Et.
      * rewrite map_lookup_filter_None_2; [|right; intros e' He'; rewrite Ec in He'; simplify_eq/=; by rewrite Et].
        destruct (now >? dn_expires e) eqn:En; [done|lia].
      * rewrite (map_lookup_filter_Some_2 _ _ _ e); [done|done|]. simpl. by rewrite Et.
    + by rewrite map_lookup_filter_None_2 by (by left).
Qed.

Lemma has_suffix_iff s p : has_suffix s p = true <-> exists d, s = d ++ p.
Proof.
  unfold has_suffix. rewrite andb_true_iff, !bool_decide_eq_true. split.
  - intros [_ H]. exists (take (length s - length p) s). by rewrite <- H at 2; rewrite take_drop.
  - intros [d ->]. rewrite length_app. split; [lia|]. replace (length d + length p - length p)%nat with (length d) by lia. apply drop_app_length.
Qed.

Section properties.
Context `{SliceSort} `{Signatures} `{JSON signedCIDRList} `{JSON cidr_payload} `{JSON country_only} `{Net}.
Context (parse_cidr : bytes -> option (bytes * bytes)) (decrypt : bytes -> option bytes).
Context (ip_string : bytes -> bytes) (lookup_host : bytes -> option (list bytes)).

Lemma verify_cidr_ok now pub data s :
  verifyCIDR parse_cidr now (Some pub) data = Ok s ->
  exists p, json_unmarshal data = Some p /\ cidr_signature_ok pub p = Ok true /\
    now - sc_TS p * 1000000000 <= 25 * hour /\ s = ParseCIDRs parse_cidr (sc_CIDRs p).
Proof.
  unfold verifyCIDR. destruct (json_unmarshal data) as [p|]; [|done].
  destruct (cidr_signature_ok pub p) as [[]| |] eqn:Es; try done. cbn [mbind res_bind negb].
  destruct (too_old now p) eqn:Et; [done|]. intros [= <-]. exists p. unfold too_old in Et.
  split; [done|]. split; [done|]. split; [|done]. rewrite Z.gtb_ltb in Et. bool_to_prop. exact Et.
Qed.

Lemma verify_cidr_no_panic now pub data :
  zlen pub = ed25519_public_key_size -> verifyCIDR parse_cidr now (Some pub) data <> Panic.
Proof.
  intros Hl. unfold verifyCIDR. destruct (json_unmarshal data) as [p|]; [|done].
  unfold cidr_signature_ok. destruct (B64.decode _); [|done]. unfold ed25519_verify. rewrite Hl.
  change (ed25519_public_key_size =? ed25519_public_key_size) with true. cbn [mbind res_bind].
  destruct (ed25519_check _ _ _); [|done]. cbn [negb]. by destruct (too_old _ _).
Qed.

(** The list in force, and when it was accepted. *)
Definition list_from (pub : bytes) (now : Z) (m : BypassManager) : Prop :=
  exists data p, json_unmarshal data = Some p /\ cidr_signature_ok pub p = Ok true /\
    now - sc_TS p * 1000000000 <= 25 * hour /\
    bm_cidrs m = Some (ParseCIDRs parse_cidr (sc_CIDRs p)) /\ bm_country m = cidrCountry data.

Lemma refresh_from_cases get now urls m pub :
  bm_pubkey m = Some pub -> zlen pub = ed25519_public_key_size ->
  exists m' acts b, refresh_from parse_cidr get now urls m = Ok (m', acts, b) /\
    (m' = m /\ b = false /\ acts = [] \/ b = true /\ bm_pubkey m' = Some pub /\ list_from pub now m').
Proof.
  intros Hp Hl. induction urls as [|u urls IH]; cbn [refresh_from]; [eexists _, _, _; split; [done|by left]|].
  destruct (fetchCIDR _ _ _ _ _) as [data|]; [|done]. rewrite Hp.
  pose proof (verify_cidr_no_panic now pub data Hl) as Hnp.
  destruct (verifyCIDR _ now (Some pub) data) as [s|e|] eqn:Ev; [|exact IH|done].
  eexists _, _, _. split; [done|]. right. apply verify_cidr_ok in Ev as (p & Hj & Hs & Ha & ->).
  split; [done|]. split; [done|]. by exists data, p.
Qed.

Definition accepted_at (now : Z) (ev : bypass_event) : Prop :=
  match ev with BLoad t _ => t = now | BRefresh t _ => t = now | _ => False end.

Lemma bypass_step_cases m ev pub :
  bm_pubkey m = Some pub -> zlen pub = ed25519_public_key_size ->
  exists m', bypass_step parse_cidr decrypt ip_string lookup_host m ev = Ok m' /\ bm_pubkey m' = Some pub /\
    (bm_cidrs m' = bm_cidrs m /\ bm_country m' = bm_country m \/ exists now, accepted_at now ev /\ list_from pub now m').
Proof.
  intros Hp Hl. destruct ev as [| | | | |now file|now get|now now' dns addr|now addr]; cbn [bypass_step];
    try (eexists; split; [done|]; split; [done|by left]).
  - unfold loadCached. destruct (bm_hasCache m); simpl; [|eexists; split; [done|]; split; [done|by left]].
    destruct file as [enc|]; [|eexists; split; [done|]; split; [done|by left]]. rewrite Hp.
    set (plain := match decrypt enc with Some p => p | None => enc end).
    pose proof (verify_cidr_no_panic now pub plain Hl) as Hnp.
    destruct (verifyCIDR _ now (Some pub) plain) as [s|e|] eqn:Ev; [|eexists; split; [done|]; split; [done|by left]|done].
    eexists. split; [done|]. split; [done|]. right. exists now. split; [done|].
    apply verify_cidr_ok in Ev as (p & Hj & Hs & Ha & ->). by exists plain, p.
  - unfold refresh. destruct (bool_decide _); [eexists; split; [done|]; split; [done|by left]|].
    destruct (refresh_from_cases get now (bm_exitURLs m) m pub Hp Hl) as (m' & acts & b & -> & Hc).
    cbn [mbind res_bind]. exists m'. split; [done|].
    destruct Hc as [(-> & _)|(_ & Hp' & Hf)]; [by split; [|left]|]. split; [done|]. right. by exists now.
  - eexists. split; [done|]. unfold ShouldBypass. destruct (negb _); [by split; [|left]|].
    destruct (resolve_host _ _) as [ip|]; [|by split; [|left]]. destruct (bm_failedIPs m !! _) as [exp|]; [|by split; [|left]].
    by destruct (now <? exp); split; [|left| |left].
  - eexists. split; [done|]. unfold RecordBypassFailure. by destruct (parse_ip _); split; [|left| |left].
Qed.

(** C24: for a manager created with an arbiter key, whatever events follow, nothing
    panics and the networks and country in force, if any, are those of one list
    the arbiter signed, which was at most 25 hours old when it was loaded or
    fetched. *)
Theorem bypass_list_authentic (exitURLs : list bytes) (pubkeyHex pub : bytes) (hasCache : bool) (m0 : BypassManager)
    (evs : list bypass_event)
    (Hnew : NewBypassManager exitURLs pubkeyHex hasCache = Some m0) (Hpub : bm_pubkey m0 = Some pub)
    (Hjson : forall data p, json_unmarshal data = Some p -> json_unmarshal data = Some (mkCountryOnly (sc_Country p))) :
  exists m, bypass_run parse_cidr decrypt ip_string lookup_host m0 evs = Ok m /\
    (bm_cidrs m = None /\ bm_country m = [] \/
     exists data p now ev, ev ∈ evs /\ accepted_at now ev /\ json_unmarshal data = Some p /\
       cidr_signature_ok pub p = Ok true /\ now - sc_TS p * 1000000000 <= 25 * hour /\
       bm_cidrs m = Some (ParseCIDRs parse_cidr (sc_CIDRs p)) /\ bm_country m = sc_Country p).
Proof.
  assert (bm_cidrs m0 = None /\ bm_country m0 = [] /\ zlen pub = ed25519_public_key_size) as (Hc & Hcc & Hl).
  { unfold NewBypassManager in Hnew. destruct (bool_decide _); [by simplify_eq/=|].
    destruct (Hex.decode pubkeyHex) as [b|]; [|done]. destruct (_ =? _) eqn:E; simplify_eq/=. by bool_to_prop. }
  clear Hnew. assert (forall evs m1, bm_pubkey m1 = Some pub ->
    exists m, bypass_run parse_cidr decrypt ip_string lookup_host m1 evs = Ok m /\
    (bm_cidrs m = bm_cidrs m1 /\ bm_country m = bm_country m1 \/
     exists now ev, ev ∈ evs /\ accepted_at now ev /\ list_from pub now m)) as G.
  { clear evs. induction evs as [|ev evs IH]; intros m1 Hp; [exists m1; by split; [|left]|].
    destruct (bypass_step_cases m1 ev pub Hp Hl) as (m2 & E & Hp2 & Hcase). cbn [bypass_run]. rewrite E. cbn [mbind res_bind].
    destruct (IH m2 Hp2) as (m & -> & Hr). exists m. split; [done|].
    destruct Hr as [[E1 E2]|(now & ev' & Hin & Ha & Hf)]; [|right; exists now, ev'; by split; [right|]].
    unfold list_from in *. rewrite E1, E2.
    destruct Hcase as [?|(now & Ha & Hf)]; [by left|]. right. exists now, ev. by split; [left|]. }
  destruct (G evs m0 Hpub) as (m & Hm & Hr). exists m. split; [done|].
  destruct Hr as [[-> ->]|(now & ev & Hin & Ha & data & p & Hj & Hs & Hage & Hcs & Hcn)]; [by left|]. right.
  exists data, p, now, ev. split_and!; try done. rewrite Hcn. unfold cidrCountry. by rewrite (Hjson data p Hj).
Qed.

Lemma tld_verdict_iff now dns country ipStr (rest : bool) :
  match tld_verdict now dns country ipStr with Some b => b | None => rest end = true <->
  country <> [] /\ tldCountry (dns_Get now dns ipStr) = country \/
  (country = [] \/ tldCountry (dns_Get now dns ipStr) = []) /\ rest = true.
Proof.
  unfold tld_verdict. case_bool_decide as E1.
  - split; [by right; split; [left|]|]. by intros [[? _]|[_ ?]].
  - assert (dns_Get now dns ipStr = [] -> tldCountry (dns_Get now dns ipStr) = []) as E0 by (by intros ->).
    case_bool_decide as E2; [|case_bool_decide as E3].
    + rewrite E0 by done. split; [by right; split; [right|]|]. intros [[_ E]|[_ ?]]; [by destruct E1|done].
    + rewrite E3. split; [by right; split; [right|]|]. intros [[_ E]|[_ ?]]; [by destruct E1|done].
    + rewrite bool_decide_eq_true. split; [by left|]. intros [[_ ?]|[[?|?] _]]; done.
Qed.

(** One decision, in terms of the table of failures. *)
Lemma should_bypass_cases (now now' : Z) (dns : dnsCache) (addr : bytes) (m : BypassManager) :
  let '(m', b) := ShouldBypass ip_string lookup_host now now' dns addr m in
  (b = true <->
   bm_enabled m = true /\ exists ip, resolve_host lookup_host (host_of addr) = Some ip /\
   (forall exp, bm_failedIPs m !! ip_string ip = Some exp -> exp <= now) /\
   let fqdn := dns_Get now' dns (ip_string ip) in
   (bm_country m <> [] /\ tldCountry fqdn = bm_country m \/
    (bm_country m = [] \/ tldCountry fqdn = []) /\ exists c, bm_cidrs m = Some c /\ cidr_Len c <> 0 /\ Contains c ip = true)) /\
  (m' = m \/ exists k exp, bm_failedIPs m !! k = Some exp /\ exp <= now /\ m' = with_failed m (delete k (bm_failedIPs m))).
Proof.
  unfold ShouldBypass. destruct (bm_enabled m); simpl; [|split; [naive_solver|by left]].
  destruct (resolve_host _ (host_of addr)) as [ip|]; [|split; [naive_solver|by left]].
  set (fqdn := dns_Get now' dns (ip_string ip)).
  assert (forall m1, bm_country m1 = bm_country m -> bm_cidrs m1 = bm_cidrs m ->
    match tld_verdict now' dns (bm_country m1) (ip_string ip) with
    | Some b => b
    | None => match bm_cidrs m1 with None => false | Some c => if cidr_Len c =? 0 then false else Contains c ip end
    end = true <->
    (bm_country m <> [] /\ tldCountry fqdn = bm_country m \/
    (bm_country m = [] \/ tldCountry fqdn = []) /\ exists c, bm_cidrs m = Some c /\ cidr_Len c <> 0 /\ Contains c ip = true)) as Hd.
  { intros m1 -> ->. rewrite tld_verdict_iff. fold fqdn.
    destruct (bm_cidrs m) as [c|]; [|by split; (intros [?|[? ?]]; [by left|naive_solver])].
    destruct (cidr_Len c =? 0) eqn:E; bool_to_prop.
    - split; (intros [?|[? Hx]]; [by left|]); [done|]. destruct Hx as (? & [= <-] & ? & _). done.
    - split; (intros [?|[? Hx]]; [by left|right; split; [done|]]); [by exists c|]. by destruct Hx as (? & [= <-] & _ & ?). }
  destruct (bm_failedIPs m !! ip_string ip) as [exp|] eqn:Ef; [destruct (now <? exp) eqn:En|]; simpl; bool_to_prop.
  - split; [|by left]. split; [done|]. intros (_ & ip' & [= <-] & Hf & _). specialize (Hf exp Ef). lia.
  - split; [|right; by exists (ip_string ip), exp]. rewrite Hd by done. split.
    + intros. split; [done|]. exists ip. split; [done|]. split; [|done]. intros e [= <-]%(eq_trans (eq_sym Ef)). done.
    + by intros (_ & ip' & [= <-] & _ & ?).
  - split; [|by left]. rewrite Hd by done. split.
    + intros. split; [done|]. exists ip. split; [done|]. split; [|done]. intros e He. congruence.
    + by intros (_ & ip' & [= <-] & _ & ?).
Qed.

(** ** The decision against the history of failures *)

(** A domain name of a top-level domain, with or without the final dot. *)
Definition tld_is (tld fqdn : bytes) : Prop := exists d, fqdn = d ++ tld \/ fqdn = d ++ tld ++ str ".".

Lemma trimmed_suffix b tld fqdn : b <> x2e ->
  has_suffix (trim_suffix fqdn (str ".")) (tld ++ [b]) = true <-> tld_is (tld ++ [b]) fqdn.
Proof.
  intros Hb. unfold trim_suffix, tld_is. rewrite has_suffix_iff.
  destruct (has_suffix fqdn (str ".")) eqn:E.
  - apply has_suffix_iff in E as [d ->]. rewrite length_app. change (length (str ".")) with 1%nat.
    replace (length d + 1 - 1)%nat with (length d) by lia. rewrite take_app_length. split.
    + intros [d' ->]. exists d'. right. by rewrite <- app_assoc.
    + intros [d' [E|E]]; [|exists d'; rewrite app_assoc in E; by apply app_inj_2 in E as [-> _]].
      rewrite app_assoc in E. apply app_inj_2 in E as [_ [= E]]; [|done]. by destruct Hb.
  - split; [intros [d ->]; exists d; by left|]. intros [d [->|Hd]]; [by exists d|]. exfalso.
    assert (has_suffix fqdn (str ".") = true); [|congruence]. apply has_suffix_iff. exists (d ++ tld ++ [b]). by rewrite Hd, !app_assoc.
Qed.

Lemma tldCountry_iff fqdn cc : cc <> [] ->
  tldCountry fqdn = cc <-> cc = str "RU" /\ tld_is (str ".ru") fqdn \/ cc = str "CN" /\ tld_is (str ".cn") fqdn.
Proof.
  intros Hcc. pose proof (trimmed_suffix x75 (str ".r") fqdn ltac:(done)) as Hru. pose proof (trimmed_suffix x6e (str ".c") fqdn ltac:(done)) as Hcn.
  change (str ".r" ++ [x75]) with (str ".ru") in Hru. change (str ".c" ++ [x6e]) with (str ".cn") in Hcn.
  rewrite <- Hru, <- Hcn. unfold tldCountry. destruct (has_suffix _ (str ".ru")) eqn:E1.
  - assert (has_suffix (trim_suffix fqdn (str ".")) (str ".cn") = false) as ->; [|naive_solver].
    apply not_true_is_false. intros E2. apply has_suffix_iff in E1 as [d Hd]. apply has_suffix_iff in E2 as [d' Hd']. rewrite Hd in Hd'.
    apply app_inj_2 in Hd' as [_ ?]; done.
  - destruct (has_suffix _ (str ".cn")); naive_solver.
Qed.

Lemma tldCountry_none fqdn : tldCountry fqdn = [] <-> ~ tld_is (str ".ru") fqdn /\ ~ tld_is (str ".cn") fqdn.
Proof.
  pose proof (tldCountry_iff fqdn (str "RU") ltac:(done)) as Hru. pose proof (tldCountry_iff fqdn (str "CN") ltac:(done)) as Hcn.
  assert (tldCountry fqdn = [] \/ tldCountry fqdn = str "RU" \/ tldCountry fqdn = str "CN") as Hc.
  { unfold tldCountry. destruct (has_suffix _ (str ".ru")); [by right; left|]. destruct (has_suffix _ (str ".cn")); [by right; right|by left]. }
  split.
  - intros E. rewrite E in Hru, Hcn. split; intros Ht; [discriminate (proj2 Hru (or_introl (conj eq_refl Ht)))|discriminate (proj2 Hcn (or_intror (conj eq_refl Ht)))].
  - intros [Hnr Hnc]. destruct Hc as [?|[E|E]]; [done|apply Hru in E|apply Hcn in E]; naive_solver.
Qed.

(** When an event reads the clock for the table of failures. *)
Definition fail_time (ev : bypass_event) : option Z :=
  match ev with BShould now _ _ _ => Some now | BFailed now _ => Some now | _ => None end.

(** The clock does not go back. *)
Definition in_order (evs : list bypass_event) (now : Z) : Prop := StronglySorted Z.le (omap fail_time evs ++ [now]).

(** A failure recorded for the address in its canonical text. *)
Definition failed_at (evs : list bypass_event) (t : Z) (host : bytes) : Prop :=
  exists a, BFailed t a ∈ evs /\ host_of a = host /\ parse_ip host <> None.

Lemma in_order_snoc evs ev now : in_order (evs ++ [ev]) now ->
  (forall t, fail_time ev = Some t -> in_order evs t /\ t <= now) /\ (fail_time ev = None -> in_order evs now).
Proof.
  unfold in_order. rewrite omap_app. cbn. destruct (fail_time ev) as [t|]; rewrite ?app_nil_r; [|by split].
  intros Hs. split; [|done]. intros ? [= <-]. split; [by apply StronglySorted_app_1_l in Hs|].
  eapply StronglySorted_app_1_elem_of; [exact Hs| |by left]. apply elem_of_app. right. by left.
Qed.

Lemma refresh_from_failed get now urls m m' acts b : refresh_from parse_cidr get now urls m = Ok (m', acts, b) -> bm_failedIPs m' = bm_failedIPs m.
Proof.
  induction urls as [|u urls IH]; cbn [refresh_from]; [by intros [= <- _ _]|].
  destruct (fetchCIDR _ _ _ _ _) as [data|]; [|done]. destruct (verifyCIDR _ _ _ _); [by intros [= <- _ _]|done|done].
Qed.

Lemma other_step_failed m ev m' : fail_time ev = None ->
  bypass_step parse_cidr decrypt ip_string lookup_host m ev = Ok m' -> bm_failedIPs m' = bm_failedIPs m.
Proof.
  destruct ev as [t|ip|ip|v|urls|now file|now get| |]; cbn [fail_time bypass_step]; intros E; try discriminate E; try (intros [= <-]; done).
  - unfold loadCached. destruct (negb _); [by intros [= <-]|]. destruct file as [enc|]; [|by intros [= <-]].
    cbv zeta. destruct (verifyCIDR _ _ _ _); [by intros [= <-]|by intros [= <-]|done].
  - unfold refresh. destruct (bool_decide _); cbn [mbind res_bind]; [by intros [= <-]|].
    destruct (refresh_from _ _ _ _ _) as [[[m1 acts] b]| |] eqn:Er; cbn [mbind res_bind]; [|done|done].
    intros [= <-]. by eapply refresh_from_failed.
Qed.

(** The table against the history: its entries are failures, 30 minutes after they were
    recorded, and a failure that is not in it, or older than its entry, is over. *)
Definition table_ok (evs : list bypass_event) (now : Z) (f : gmap bytes Z) : Prop :=
  (forall k exp, f !! k = Some exp -> exists t, failed_at evs t k /\ exp = t + 30 * minute) /\
  (forall k t, failed_at evs t k -> (exists exp, f !! k = Some exp /\ t + 30 * minute <= exp) \/ t + 30 * minute <= now).

Lemma failed_at_snoc evs ev t k :
  failed_at (evs ++ [ev]) t k <-> failed_at evs t k \/ exists a, ev = BFailed t a /\ host_of a = k /\ parse_ip k <> None.
Proof.
  unfold failed_at. setoid_rewrite elem_of_app. setoid_rewrite list_elem_of_singleton. naive_solver.
Qed.

Lemma table_ok_same evs ev now now0 f : (forall t a, ev <> BFailed t a) -> now0 <= now -> table_ok evs now0 f -> table_ok (evs ++ [ev]) now f.
Proof.
  intros Hev Hle [HA HB]. split.
  - intros k exp Hk. destruct (HA k exp Hk) as (t & Ht & ->). exists t. split; [|done]. apply failed_at_snoc. by left.
  - intros k t [Ht|(a & -> & _)]%failed_at_snoc; [|by destruct (Hev t a)]. destruct (HB k t Ht); [by left|right; lia].
Qed.

Lemma table_ok_should evs now now0 now' dns addr m :
  now0 <= now -> table_ok evs now0 (bm_failedIPs m) ->
  table_ok (evs ++ [BShould now0 now' dns addr]) now (bm_failedIPs (ShouldBypass ip_string lookup_host now0 now' dns addr m).1).
Proof.
  intros Hle Hok. pose proof (should_bypass_cases now0 now' dns addr m) as Hc. destruct (ShouldBypass _ _ _ _ _ _ _) as [m' b].
  destruct Hc as [_ [->|(k & exp & Hk & Hexp & ->)]]; cbn [fst]; [by eapply table_ok_same|].
  cbn [bm_failedIPs with_failed]. eapply table_ok_same; [done|exact Hle|]. destruct Hok as [HA HB]. split.
  - intros k' exp' Hk'. apply lookup_delete_Some in Hk' as [_ Hk']. by apply HA.
  - intros k' t Ht. destruct (HB k' t Ht) as [(exp' & Hk' & He)|?]; [|by right].
    destruct (decide (k = k')) as [<-|Hne]; [right; simplify_eq; lia|]. left. exists exp'. by rewrite lookup_delete_ne.
Qed.

Lemma table_ok_failed evs now now0 a m : in_order evs now0 -> now0 <= now -> table_ok evs now0 (bm_failedIPs m) ->
  table_ok (evs ++ [BFailed now0 a]) now (bm_failedIPs (RecordBypassFailure now0 a m)).
Proof.
  intros Hord Hle [HA HB]. unfold RecordBypassFailure. cbv zeta. destruct (parse_ip (host_of a)) as [ip|] eqn:Ep.
  - cbn [bm_failedIPs with_failed]. split.
    + intros k exp Hk. destruct (decide (host_of a = k)) as [<-|Hne].
      * rewrite lookup_insert_eq in Hk. injection Hk as <-. exists now0. split; [|done]. apply failed_at_snoc. right.
        exists a. by rewrite Ep.
      * rewrite lookup_insert_ne in Hk by done. destruct (HA k exp Hk) as (t & Ht & ->). exists t. split; [|done]. apply failed_at_snoc. by left.
    + intros k t Ht. destruct (decide (host_of a = k)) as [<-|Hne].
      * left. exists (now0 + bypass_failure_ttl). rewrite lookup_insert_eq. split; [done|]. unfold bypass_failure_ttl.
        apply failed_at_snoc in Ht as [(a' & Hin & _)|(a' & [= <- _] & _)]; [|lia].
        assert (t <= now0); [|lia]. unfold in_order in Hord. eapply StronglySorted_app_1_elem_of; [exact Hord| |by left].
        apply list_elem_of_omap. by exists (BFailed t a').
      * rewrite lookup_insert_ne by done. apply failed_at_snoc in Ht as [Ht|(a' & [= <- <-] & ? & _)]; [|done].
        destruct (HB k t Ht); [by left|right; lia].
  - split.
    + intros k exp Hk. destruct (HA k exp Hk) as (t & Ht & ->). exists t. split; [|done]. apply failed_at_snoc. by left.
    + intros k t [Ht|(a' & [= <- <-] & <- & Hn)]%failed_at_snoc; [|by rewrite Ep in Hn]. destruct (HB k t Ht); [by left|right; lia].
Qed.

Lemma bypass_run_snoc m0 evs ev : bypass_run parse_cidr decrypt ip_string lookup_host m0 (evs ++ [ev]) =
  (m ← bypass_run parse_cidr decrypt ip_string lookup_host m0 evs; bypass_step parse_cidr decrypt ip_string lookup_host m ev).
Proof.
  revert m0. induction evs as [|e evs IH]; intros m0; cbn [bypass_run app].
  - cbn [mbind res_bind]. by destruct (bypass_step _ _ _ _ m0 ev).
  - destruct (bypass_step _ _ _ _ m0 e); cbn [mbind res_bind]; [apply IH|done|done].
Qed.

Lemma bypass_run_table evs : forall m0 m now, bm_failedIPs m0 = ∅ -> in_order evs now ->
  bypass_run parse_cidr decrypt ip_string lookup_host m0 evs = Ok m -> table_ok evs now (bm_failedIPs m).
Proof.
  induction evs as [|ev evs IH] using rev_ind; intros m0 m now Hnil Hord Hrun.
  - cbn in Hrun. injection Hrun as <-. rewrite Hnil. split; [intros k exp; by rewrite lookup_empty|]. by intros k t (a & ?%elem_of_nil & _).
  - rewrite bypass_run_snoc in Hrun. destruct (bypass_run _ _ _ _ m0 evs) as [m1| |] eqn:E; [|done|done]. cbn [mbind res_bind] in Hrun.
    apply in_order_snoc in Hord as [Hsome Hnone]. destruct (fail_time ev) as [t|] eqn:Ef.
    + destruct (Hsome t eq_refl) as [Hord Hle]. specialize (IH _ _ _ Hnil Hord E).
      destruct ev; try discriminate Ef; cbn in Ef; injection Ef as ->; cbn [bypass_step] in Hrun; injection Hrun as <-.
      * by apply table_ok_should.
      * by apply table_ok_failed.
    + rewrite (other_step_failed _ _ _ Ef Hrun). eapply table_ok_same; [by intros t a ->|reflexivity|].
      by eapply IH; [exact Hnil|apply Hnone|].
Qed.

(** C23: For a manager and any sequence of calls on it since it was created (each taken
    whole, the clock not going back), a destination goes around the tunnel exactly when
    bypassing is on, the destination is or resolves to an address, no failure was recorded
    less than 30 minutes ago for a numeric destination written as that address is printed,
    and either the name the address was resolved from ends in .ru or .cn and that is the
    manager's country, or it ends in neither (or there is no such name or no country is
    known) and the signed networks contain the address.  Asking changes only the table of
    failures, by dropping an entry whose time is over. *)
Theorem should_bypass_exact (exitURLs : list bytes) (pubkeyHex : bytes) (hasCache : bool) (m0 m : BypassManager)
    (evs : list bypass_event) (now now' : Z) (dns : dnsCache) (addr : bytes)
    (Hnew : NewBypassManager exitURLs pubkeyHex hasCache = Some m0)
    (Hrun : bypass_run parse_cidr decrypt ip_string lookup_host m0 evs = Ok m) (Hclock : in_order evs now) :
  let '(m', b) := ShouldBypass ip_string lookup_host now now' dns addr m in
  (b = true <->
   bm_enabled m = true /\ exists ip, resolve_host lookup_host (host_of addr) = Some ip /\
   (forall t, failed_at evs t (ip_string ip) -> t + 30 * 60 * 1000000000 <= now) /\
   let fqdn := dns_Get now' dns (ip_string ip) in
   (bm_country m = str "RU" /\ tld_is (str ".ru") fqdn \/ bm_country m = str "CN" /\ tld_is (str ".cn") fqdn \/
    (bm_country m = [] \/ ~ tld_is (str ".ru") fqdn /\ ~ tld_is (str ".cn") fqdn) /\
    exists c, bm_cidrs m = Some c /\ cidr_Len c <> 0 /\ Contains c ip = true)) /\
  (m' = m \/ exists k exp, bm_failedIPs m !! k = Some exp /\ exp <= now /\ m' = with_failed m (delete k (bm_failedIPs m))).
Proof.
  assert (bm_failedIPs m0 = ∅) as Hnil.
  { unfold NewBypassManager in Hnew. destruct (bool_decide _); [by injection Hnew as <-|].
    destruct (Hex.decode pubkeyHex); [|done]. destruct (_ =? _); by simplify_eq/=. }
  destruct (bypass_run_table evs m0 m now Hnil Hclock Hrun) as [HA HB].
  pose proof (should_bypass_cases now now' dns addr m) as Hc. destruct (ShouldBypass _ _ _ _ _ _ _) as [m' b].
  destruct Hc as [-> Hm]. split; [|exact Hm]. f_equiv.
  assert (forall ip, (forall exp, bm_failedIPs m !! ip_string ip = Some exp -> exp <= now) <->
    (forall t, failed_at evs t (ip_string ip) -> t + 30 * 60 * 1000000000 <= now)) as Hfail.
  { intros ip. change (30 * 60 * 1000000000) with (30 * minute). split.
    - intros Hx t Ht. destruct (HB _ _ Ht) as [(exp & Hk & Hle)|?]; [|done]. specialize (Hx exp Hk). lia.
    - intros Hx exp Hk. destruct (HA _ _ Hk) as (t & Ht & ->). by apply Hx. }
  assert (forall fqdn (P : Prop), (bm_country m <> [] /\ tldCountry fqdn = bm_country m \/ (bm_country m = [] \/ tldCountry fqdn = []) /\ P) <->
    (bm_country m = str "RU" /\ tld_is (str ".ru") fqdn \/ bm_country m = str "CN" /\ tld_is (str ".cn") fqdn \/
    (bm_country m = [] \/ ~ tld_is (str ".ru") fqdn /\ ~ tld_is (str ".cn") fqdn) /\ P)) as Htld.
  { intros fqdn P. rewrite tldCountry_none. split.
    - intros [[Hne Ht]|?]; [apply tldCountry_iff in Ht; naive_solver|by right; right].
    - intros [[Hc Ht]|[[Hc Ht]|?]]; [left|left|by right]; (split; [by rewrite Hc|]; apply tldCountry_iff; [by rewrite Hc|auto]). }
  split; (intros (ip & Hr & Hf & Hd); exists ip; split; [done|]; split; [by apply Hfail|by apply Htld]).
Qed.

Lemma recorded_not_bypassed now addr addr' host ip ip' m t t' dns :
  host_of addr = host -> parse_ip host = Some ip -> resolve_host lookup_host (host_of addr') = Some ip' ->
  ip_string ip' = host -> t < now + 30 * minute ->
  ShouldBypass ip_string lookup_host t t' dns addr' (RecordBypassFailure now addr m) = (RecordBypassFailure now addr m, false).
Proof.
  intros Hhost Hip Hip' Hs Ht. unfold RecordBypassFailure. rewrite Hhost, Hip. unfold ShouldBypass, with_failed.
  cbn [bm_enabled bm_failedIPs]. rewrite Hip'. destruct (bm_enabled m); [|done]. cbn [negb].
  rewrite Hs, lookup_insert_eq. unfold bypass_failure_ttl. by rewrite (proj2 (Z.ltb_lt _ _)) by lia.
Qed.

(** After a failed bypass to a numeric address in its canonical form, no
    destination that resolves to that address is bypassed for 30 minutes; from then
    on the decision is the one without the failure.  Other addresses are not
    affected. *)
Theorem bypass_failure_memory (now : Z) (addr addr' host ip ip' : bytes) (m : BypassManager) (t t' : Z) (dns : dnsCache)
    (Hhost : host_of addr = host) (Hip : parse_ip host = Some ip) (Hcanon : ip_string ip = host)
    (Hip' : resolve_host lookup_host (host_of addr') = Some ip') :
  let m1 := RecordBypassFailure now addr m in
  (ip_string ip' = host -> now <= t < now + 30 * minute -> ShouldBypass ip_string lookup_host t t' dns addr' m1 = (m1, false)) /\
  (ip_string ip' = host -> now + 30 * minute <= t ->
     (ShouldBypass ip_string lookup_host t t' dns addr' m1).2 =
     (ShouldBypass ip_string lookup_host t t' dns addr' (with_failed m (delete host (bm_failedIPs m)))).2) /\
  (ip_string ip' <> host ->
     (ShouldBypass ip_string lookup_host t t' dns addr' m1).2 = (ShouldBypass ip_string lookup_host t t' dns addr' m).2).
Proof.
  intros m1. split; [intros; by eapply recorded_not_bypassed; [done..|lia]|].
  unfold m1, RecordBypassFailure. rewrite Hhost, Hip. unfold ShouldBypass, with_failed. cbn [bm_enabled bm_failedIPs].
  rewrite Hip'. destruct (bm_enabled m); [|done]. cbn [negb]. split.
  - intros -> Ht. rewrite lookup_insert_eq, lookup_delete_eq. unfold bypass_failure_ttl.
    by rewrite (proj2 (Z.ltb_ge _ _)) by lia.
  - intros Hne. rewrite lookup_insert_ne by done. by destruct (bm_failedIPs m !! _) as [exp|]; [destruct (t <? exp)|].
Qed.

(** A failure is stored under the text of the destination but looked up under
    the canonical text of the address: recorded for an address in another form, it
    never has an effect. *)
Theorem bypass_failure_key_mismatch (now t t' : Z) (addr addr' ip : bytes) (m : BypassManager) (dns : dnsCache)
    (Hip : parse_ip (host_of addr) = Some ip) (Hsame : resolve_host lookup_host (host_of addr') = Some ip)
    (Hform : ip_string ip <> host_of addr) :
  (ShouldBypass ip_string lookup_host t t' dns addr' (RecordBypassFailure now addr m)).2 =
  (ShouldBypass ip_string lookup_host t t' dns addr' m).2.
Proof.
  unfold RecordBypassFailure. rewrite Hip. unfold ShouldBypass, with_failed. cbn [bm_enabled bm_failedIPs]. rewrite Hsame.
  destruct (bm_enabled m); [|done]. cbn [negb]. rewrite lookup_insert_ne by done.
  by destruct (bm_failedIPs m !! _) as [exp|]; [destruct (t <? exp)|].
Qed.

(** A refresh tries the control nodes in order and applies the first answer
    that verifies: it succeeds exactly when there is a session token and some node
    serves such a list, applies and caches that very list, and otherwise leaves the
    list in force.  After a failure the next attempt comes within 2 minutes. *)
Theorem refresh_first_valid (get : bytes -> bytes -> bytes -> option (Z * bytes)) (now : Z) (m : BypassManager) (pub : bytes)
    (Hpub : bm_pubkey m = Some pub) (Hlen : zlen pub = ed25519_public_key_size) :
  let valid u data := fetchCIDR get u (bm_token m) (bm_myIP m) (bm_localIP m) = Some data /\
                      exists s, verifyCIDR parse_cidr now (Some pub) data = Ok s in
  match refresh parse_cidr get now m with
  | Ok (m', acts, true) =>
    bm_token m <> [] /\ exists pre u suf data s, bm_exitURLs m = pre ++ u :: suf /\
      (forall v d, v ∈ pre -> ~ valid v d) /\ valid u data /\ verifyCIDR parse_cidr now (Some pub) data = Ok s /\
      m' = with_list m s (cidrCountry data) CFresh /\ (bm_hasCache m = true -> acts = [BPersist data])
  | Ok (m', acts, false) =>
    m' = m /\ acts = [] /\ (bm_token m = [] \/ forall u d, u ∈ bm_exitURLs m -> ~ valid u d) /\ next_interval false <= 2 * minute
  | _ => False
  end.
Proof.
  intros valid. unfold refresh. destruct (bool_decide _) eqn:Et; bool_to_prop; [by split_and!; [..|left|]|].
  assert (forall urls pre, bm_exitURLs m = pre ++ urls -> (forall v d, v ∈ pre -> ~ valid v d) ->
    match refresh_from parse_cidr get now urls m with
    | Ok (m', acts, true) => exists pre u suf data s, bm_exitURLs m = pre ++ u :: suf /\
      (forall v d, v ∈ pre -> ~ valid v d) /\ valid u data /\ verifyCIDR parse_cidr now (Some pub) data = Ok s /\
      m' = with_list m s (cidrCountry data) CFresh /\ (bm_hasCache m = true -> acts = [BPersist data])
    | Ok (m', acts, false) => m' = m /\ acts = [] /\ forall u d, u ∈ bm_exitURLs m -> ~ valid u d
    | _ => False
    end) as G.
  { induction urls as [|u urls IH]; intros pre Hs Hpre; cbn [refresh_from].
    - split; [done|]. split; [done|]. by rewrite Hs, app_nil_r.
    - assert ((forall d, ~ valid u d) -> forall v d, v ∈ pre ++ [u] -> ~ valid v d) as Hn.
      { intros Hu v d [Hv| ->%list_elem_of_singleton]%elem_of_app; [by apply Hpre|apply Hu]. }
      destruct (fetchCIDR get u _ _ _) as [data|] eqn:Ef.
      2:{ apply (IH (pre ++ [u])); [by rewrite <- app_assoc|]. apply Hn. intros d [E _]. congruence. }
      rewrite Hpub. pose proof (verify_cidr_no_panic now pub data Hlen).
      destruct (verifyCIDR _ now (Some pub) data) as [s|e|] eqn:Ev; [| |done].
      + exists pre, u, urls, data, s. split; [done|]. split; [done|]. split; [by split; [|exists s]|]. split; [done|].
        split; [done|]. by intros ->.
      + apply (IH (pre ++ [u])); [by rewrite <- app_assoc|]. apply Hn. intros d [E [s Es]]. congruence. }
  specialize (G (bm_exitURLs m) [] eq_refl). destruct (refresh_from _ _ _ _ _) as [[[m' acts] b] | |]; [destruct b| |].
  - split; [done|]. apply G. by intros ? ? []%elem_of_nil.
  - destruct G as (-> & -> & Hu); [by intros ? ? []%elem_of_nil|]. split_and!; [done|done|by right|done].
  - apply G. by intros ? ? []%elem_of_nil.
  - apply G. by intros ? ? []%elem_of_nil.
Qed.
End properties.

(** ** Concrete instances *)

#[global] Instance signedCIDRList_eq : EqDecision signedCIDRList. Proof. solve_decision. Defined.
#[global] Instance cidr_payload_eq : EqDecision cidr_payload. Proof. solve_decision. Defined.

#[global] Program Instance signedCIDRList_countable : Countable signedCIDRList :=
  inj_countable' (fun p => (sc_Country p, sc_TS p, sc_CIDRs p, sc_Sig p)) (fun '(a, b, c, d) => mkSignedCIDR a b c d) _.
Next Obligation. by intros []. Qed.
#[global] Program Instance cidr_payload_countable : Countable cidr_payload :=
  inj_countable' (fun p => (cp_Country p, cp_TS p, cp_CIDRs p)) (fun '(a, b, c) => mkCidrPayload a b c) _.
Next Obligation. by intros []. Qed.

Module Toy_bypass.
#[export] Existing Instances Toy.signatures insertion_slice_sort.
#[export] Instance json_list : JSON signedCIDRList := Toy.json_of_countable _.
#[export] Instance json_cidr_payload : JSON cidr_payload := Toy.json_of_countable _.
#[export] Instance json_country : JSON country_only := {|
  json_marshal := fun _ => None;
  json_unmarshal := fun data => (fun p => mkCountryOnly (sc_Country p)) <$> (json_unmarshal data : option signedCIDRList)
|}.

(** Only two texts are addresses, and they are the same one. *)
#[export] Instance text_net : Net := {
  UDPAddr := bytes;
  UDPAddr_string := fun a => a;
  resolve_udp := fun s => Some s;
  parse_ip := fun s => if bool_decide (s = str "10.2.0.1") || bool_decide (s = str "::ffff:a02:1")
    then Some (v4_in_v6_prefix ++ [x0a; x02; x00; x01]) else None
}.
Definition print_ip (ip : bytes) : bytes := str "10.2.0.1".
Definition no_lookup (h : bytes) : option (list bytes) := None.

Definition key : bytes := replicate 32 x07.
Definition signed (ts : Z) (cidrs : list bytes) : signedCIDRList :=
  mkSignedCIDR (str "RU") ts cidrs
    (B64.encode (Toy.sign (default [] (json_marshal (mkCidrPayload (str "RU") ts cidrs))))).
Definition raw (ts : Z) (cidrs : list bytes) : bytes := default [] (json_marshal (signed ts cidrs)).
Definition manager (token : bytes) : BypassManager :=
  mkBypass [str "https://a"; str "https://b"] (Some key) true None [] true token [] [] CNone ∅.

Lemma cidr_raw_parses ts cidrs : json_unmarshal (raw ts cidrs) = Some (signed ts cidrs).
Proof. apply (@json_roundtrip _ _ (fun _ => True) (Toy.json_of_countable_laws _ _)); done. Qed.

Lemma signed_ok ts cidrs : cidr_signature_ok key (signed ts cidrs) = Ok true.
Proof.
  unfold cidr_signature_ok, signed. cbn [sc_Sig]. rewrite B64.b64_decode_encode. unfold ed25519_verify.
  change (zlen key =? ed25519_public_key_size) with true. cbn [ed25519_check Toy.signatures]. f_equal.
  apply bool_decide_eq_true_2. reflexivity.
Qed.

Lemma cidr_raw_verifies ts cidrs : verifyCIDR toy_parse (ts * 1000000000) (Some key) (raw ts cidrs) = Ok (ParseCIDRs toy_parse cidrs).
Proof.
  unfold verifyCIDR. rewrite cidr_raw_parses, signed_ok. cbn [mbind res_bind negb]. unfold too_old. cbn [sc_TS signed].
  by rewrite Z.sub_diag.
Qed.

(** Only the second node answers. *)
Definition serve (ts : Z) (cidrs : list bytes) (u token localIP : bytes) : option (Z * bytes) :=
  if bool_decide (u = str "https://b/api/bypass/cidr") then Some (200, raw ts cidrs) else None.
End Toy_bypass.

Section witnesses.
Import Toy_bypass.

Lemma dns_cache_refines_witness :
  dns_Get (6 * minute) (fold_left dns_step [DnsSet 0 (str "1.1.1.1") (str "A.RU.") 0; DnsTick (5 * minute);
    DnsSet (5 * minute) (str "1.1.1.1") (str "B.ru.") 60000000000] ∅) (str "1.1.1.1") = str "b.ru.".
Proof.
  rewrite dns_cache_refines; [reflexivity|]. by_decide.
Defined.

Lemma bypass_list_authentic_witness :
  exists m0 m, NewBypassManager [str "https://a"; str "https://b"] (Hex.encode key) true = Some m0 /\
    bypass_run toy_parse (fun _ => None) print_ip no_lookup m0 [BSetToken (str "t"); BRefresh 5000000000 (serve 5 [net10])] = Ok m.
Proof.
  destruct (NewBypassManager [str "https://a"; str "https://b"] (Hex.encode key) true) as [m0|] eqn:E; [|by vm_compute in E].
  destruct (bypass_list_authentic toy_parse (fun _ => None) print_ip no_lookup _ _ key _ m0
    [BSetToken (str "t"); BRefresh 5000000000 (serve 5 [net10])] E) as (m & Hm & _).
  - vm_compute in E. by injection E as <-.
  - intros data p Hp. cbn [json_unmarshal json_country]. by rewrite Hp.
  - exists m0, m. by split.
Defined.

Lemma should_bypass_exact_witness :
  exists m, bypass_run toy_parse (fun _ => None) print_ip no_lookup (manager []) [BFailed 0 (str "10.2.0.1:443")] = Ok m /\
    (ShouldBypass print_ip no_lookup minute minute ∅ (str "10.2.0.1:80") m).2 = false.
Proof.
  eexists. split; [reflexivity|].
  pose proof (should_bypass_exact toy_parse (fun _ => None) print_ip no_lookup [str "https://a"; str "https://b"] (Hex.encode key) true
    (manager []) _ [BFailed 0 (str "10.2.0.1:443")] minute minute ∅ (str "10.2.0.1:80") ltac:(vm_compute; reflexivity) eq_refl
    ltac:(repeat constructor; vm_compute; discriminate)) as G.
  destruct (ShouldBypass _ _ _ _ _ _ _) as [m' b]. destruct G as [[Hb _] _]. destruct b; [|done].
  destruct (Hb eq_refl) as (_ & ip & _ & Hf & _). exfalso. specialize (Hf 0). assert (0 + 30 * 60 * 1000000000 <= minute) as Hx; [|by vm_compute in Hx].
  apply Hf. exists (str "10.2.0.1:443"). split; [by left|]. split; [vm_compute; reflexivity|]. vm_compute. discriminate.
Defined.

Lemma bypass_failure_memory_witness :
  let m1 := RecordBypassFailure 0 (str "10.2.0.1:443") (manager (str "t")) in
  ShouldBypass print_ip no_lookup minute minute ∅ (str "10.2.0.1:80") m1 = (m1, false).
Proof.
  apply (bypass_failure_memory print_ip no_lookup 0 (str "10.2.0.1:443") (str "10.2.0.1:80") (str "10.2.0.1")
    (v4_in_v6_prefix ++ [x0a; x02; x00; x01]) (v4_in_v6_prefix ++ [x0a; x02; x00; x01]) (manager (str "t")) minute minute ∅);
    by vm_compute.
Defined.

Lemma bypass_failure_key_mismatch_witness :
  let m1 := RecordBypassFailure 0 (str "[::ffff:a02:1]:443") (manager (str "t")) in
  (ShouldBypass print_ip no_lookup minute minute ∅ (str "[::ffff:a02:1]:443") m1).2 =
  (ShouldBypass print_ip no_lookup minute minute ∅ (str "[::ffff:a02:1]:443") (manager (str "t"))).2.
Proof.
  apply (bypass_failure_key_mismatch print_ip no_lookup 0 minute minute (str "[::ffff:a02:1]:443") (str "[::ffff:a02:1]:443")
    (v4_in_v6_prefix ++ [x0a; x02; x00; x01])); by vm_compute.
Defined.

Lemma refresh_first_valid_witness :
  match refresh toy_parse (serve 5 [net10]) 5000000000 (manager (str "t")) with
  | Ok (m', acts, true) => bm_token (manager (str "t")) <> []
  | Ok (m', acts, false) => m' = manager (str "t")
  | _ => False
  end.
Proof.
  pose proof (refresh_first_valid toy_parse (serve 5 [net10]) 5000000000 (manager (str "t")) key eq_refl eq_refl) as H.
  destruct (refresh _ _ _ _) as [[[m' acts] b] | |]; [destruct b| |]; [exact (proj1 H)|exact (proj1 H)|exact H|exact H].
Defined.
End witnesses.
