(* ===== verification/Socks5.v ===== *)
(** * Socks5: the SOCKS5 server (socks5.go)

    The handshake and request are a function of the bytes the client sends before
    it closes or stops; a CONNECT is a function of what the dials return, and what
    it does (replies, dials, relaying) is a list of actions in order; the per-IP
    limiter and the relay of a connection are step systems, since other connections
    run in between. *)
From S2P Require Import Prelude Encoding Env UdpAssoc Cidr Bypass.

Definition socks5Version : byte := x05.
Definition authNone : byte := x00.
Definition authNoAccept : byte := xff.
Definition cmdConnect : byte := x01.
Definition cmdUDPAssoc : byte := x03.
Definition repSuccess : byte := x00.
Definition repCmdNotSupp : byte := x07.
Definition repGenFail : byte := x01.
Definition socks5PerIPLimit : Z := 500.

(** ** net.IP.String *)

Definition hex_digit (d : Z) : byte := z2b (if d <? 10 then 48 + d else 87 + d).

(** A 16-bit group without leading zeros. *)
Definition hex_group (g : Z) : bytes :=
  let d k := hex_digit (g / 16 ^ k mod 16) in
  if 4096 <=? g then [d 3; d 2; d 1; d 0]
  else if 256 <=? g then [d 2; d 1; d 0]
  else if 16 <=? g then [d 1; d 0] else [d 0].

Fixpoint groups16 (ip : bytes) : list Z :=
  match ip with
  | a :: b :: ip => (b2z a * 256 + b2z b) :: groups16 ip
  | _ => []
  end.

(** The length of the run of zeros at the head. *)
Fixpoint zero_run (l : list Z) : nat := match l with 0 :: l => S (zero_run l) | _ => O end.

(** The first of the longest runs of at least two zeros: position and length. *)
Fixpoint longest_run (i : nat) (l : list Z) (best : nat * nat) : nat * nat :=
  match l with
  | [] => best
  | _ :: l' =>
    let n := zero_run l in
    longest_run (S i) l' (if Nat.ltb (Nat.max 1 best.2) n then (i, n) else best)
  end.

Fixpoint join_groups (l : list Z) : bytes :=
  match l with
  | [] => []
  | [g] => hex_group g
  | g :: l => hex_group g ++ [x3a] ++ join_groups l
  end.

Definition ip6_string (ip : bytes) : bytes :=
  let gs := groups16 ip in
  let '(i, n) := longest_run 0 gs (O, O) in
  if Nat.eqb n 0 then join_groups gs
  else join_groups (take i gs) ++ [x3a; x3a] ++ join_groups (drop (i + n) gs).

Definition ip4_string (ip : bytes) : bytes :=
  match ip with
  | [a; b; c; d] =>
    Dec.print (b2z a) ++ [x2e] ++ Dec.print (b2z b) ++ [x2e] ++ Dec.print (b2z c) ++ [x2e] ++ Dec.print (b2z d)
  | _ => []
  end.

(** For the lengths 4 and 16, the only ones the code prints. *)
Definition IP_String (ip : bytes) : bytes := match To4 ip with Some v4 => ip4_string v4 | None => ip6_string ip end.

(** ** Ports and LAN addresses *)

(** [strconv.ParseUint(s, 10, 16)]. *)
Fixpoint parse_digits (acc : Z) (s : bytes) : option Z :=
  match s with
  | [] => Some acc
  | b :: s => if (48 <=? b2z b) && (b2z b <=? 57) then parse_digits (acc * 10 + (b2z b - 48)) s else None
  end.

Definition parse_uint16 (s : bytes) : option Z :=
  if bool_decide (s = []) then None else
  p ← parse_digits 0 s; if p <=? 65535 then Some p else None.

Definition bitTorrentPorts : list Z := [6881; 6882; 6883; 6884; 6885; 6886; 6887; 6888; 6889; 6969; 51413].

Definition isBitTorrentPort (target : bytes) : bool :=
  match split_host_port target with
  | None => false
  | Some (_, portStr) => match parse_uint16 portStr with None => false | Some p => bool_decide (p ∈ bitTorrentPorts) end
  end.

Definition remoteHost (addr : bytes) : bytes := match split_host_port addr with Some (h, _) => h | None => addr end.

Definition byte_at (ip : bytes) (i : nat) : Z := b2z (default x00 (ip !! i)).

Definition IsLoopback (ip : bytes) : bool :=
  match To4 ip with
  | Some v4 => byte_at v4 0 =? 127
  | None => bool_decide (ip = replicate 15 x00 ++ [x01])
  end.

Definition IsLinkLocalUnicast (ip : bytes) : bool :=
  match To4 ip with
  | Some v4 => (byte_at v4 0 =? 169) && (byte_at v4 1 =? 254)
  | None => (zlen ip =? 16) && (byte_at ip 0 =? 0xfe) && (Z.land (byte_at ip 1) 0xc0 =? 0x80)
  end.

Definition IsPrivate (ip : bytes) : bool :=
  match To4 ip with
  | Some v4 =>
    (byte_at v4 0 =? 10) || ((byte_at v4 0 =? 172) && (Z.land (byte_at v4 1) 0xf0 =? 16)) ||
    ((byte_at v4 0 =? 192) && (byte_at v4 1 =? 168))
  | None => (zlen ip =? 16) && (Z.land (byte_at ip 0) 0xfe =? 0xfc)
  end.

Definition lan_ip (ip : bytes) : bool := IsLoopback ip || IsLinkLocalUnicast ip || IsPrivate ip.

Definition isLANAddress `{Net} (target : bytes) : bool :=
  match parse_ip (host_of target) with None => false | Some ip => lan_ip ip end.

(** ** Replies *)

Definition sendSOCKS5Reply (rep : byte) : bytes := [socks5Version; rep; x00; atypIPv4; x00; x00; x00; x00; x00; x00].

Definition sendSOCKS5UDPReply (ip : bytes) (port : Z) : bytes :=
  match To4 ip with
  | Some v4 => [socks5Version; repSuccess; x00; atypIPv4] ++ v4 ++ put_u16 port
  | None => [socks5Version; repSuccess; x00; atypIPv6] ++ copy (make_bytes 16) (To16 ip) ++ put_u16 port
  end.

(** ** Handshake and request *)

Inductive socks_next := SDone | SConnect (target : bytes) | SUDPAssoc (target : bytes).

(** [io.ReadFull] of [n] bytes: what it returns and what is left. *)
Definition read_full (n : Z) (inp : bytes) : option (bytes * bytes) :=
  if n <=? zlen inp then Some (take (Z.to_nat n) inp, drop (Z.to_nat n) inp) else None.

Definition read_target (atyp : byte) (inp : bytes) : option (bytes * bytes) :=
  if byte_eqb atyp atypIPv4 then
    '(a, inp) ← read_full 4 inp; Some (IP_String a, inp)
  else if byte_eqb atyp atypIPv6 then
    '(a, inp) ← read_full 16 inp; Some ([x5b] ++ IP_String a ++ [x5d], inp)
  else
    '(l, inp) ← read_full 1 inp;
    '(d, inp) ← read_full (byte_at l 0) inp; Some (d, inp).

(** What the server has written, what it does next, and the unread input. *)
Definition handle (inp : bytes) : bytes * socks_next * bytes :=
  match read_full 2 inp with
  | None => ([], SDone, inp)
  | Some (hdr, inp) =>
    if negb (byte_eqb (default x00 (hdr !! 0%nat)) socks5Version) then ([], SDone, inp) else
    match read_full (byte_at hdr 1) inp with
    | None => ([], SDone, inp)
    | Some (methods, inp) =>
      if negb (bool_decide (authNone ∈ methods)) then ([socks5Version; authNoAccept], SDone, inp) else
      let out := [socks5Version; authNone] in
      match read_full 4 inp with
      | None => (out, SDone, inp)
      | Some (req, inp) =>
        if negb (byte_eqb (default x00 (req !! 0%nat)) socks5Version) then (out, SDone, inp) else
        let cmd := default x00 (req !! 1%nat) in
        let atyp := default x00 (req !! 3%nat) in
        if negb (bool_decide (atyp ∈ [atypIPv4; atypIPv6; atypDomain])) then (out ++ sendSOCKS5Reply repGenFail, SDone, inp) else
        match read_target atyp inp with
        | None => (out, SDone, inp)
        | Some (host, inp) =>
          match read_full 2 inp with
          | None => (out, SDone, inp)
          | Some (portBuf, inp) =>
            let target := host ++ [x3a] ++ Dec.print (be_get portBuf) in
            if byte_eqb cmd cmdConnect then (out, SConnect target, inp)
            else if byte_eqb cmd cmdUDPAssoc then (out, SUDPAssoc target, inp)
            else (out ++ sendSOCKS5Reply repCmdNotSupp, SDone, inp)
          end
        end
      end
    end
  end.

(** ** CONNECT *)

Record SOCKS5Server := mkServer {
  sv_hasBypass : bool;                             (* bypass manager not nil *)
  sv_hasLimiter : bool;
  sv_hasPool : bool;
  sv_hasDialFn : bool;
  sv_DisableUDP : bool;
  sv_BlockQUIC : bool;
  sv_AltDNSRouting : bool
}.

Definition NewSOCKS5Server : SOCKS5Server := mkServer false true true false false false false.
Definition NewSOCKS5ServerWithBypass (bypass : bool) : SOCKS5Server := mkServer bypass true true false false false false.
Definition NewSOCKS5ServerWithPool (pool bypass : bool) : SOCKS5Server := mkServer bypass true pool false false false false.
Definition NewSOCKS5ServerWithDialFunc (dialFn : bool) : SOCKS5Server := mkServer false true false dialFn false false false.

Inductive connect_act :=
| CReply (rep : byte)
| CDirect (target : bytes) (timeout : Z)           (* dial through the original NIC *)
| CAcquire (ip : bytes)
| CRelease (ip : bytes)
| CDialFn (target : bytes)
| CTunnel (target : bytes)                         (* dial through the pool *)
| CRelay (bypass : bool).

Definition second : Z := 1000000000.

Section connect.
Context `{Net} (lookup_host : bytes -> option (list bytes)).

(** What the outside answers: whether the dials succeed, whether the pool has a
    dialer; the client's address; the clock at the decision and at the record. *)
Record connect_env := mkEnv {
  ce_direct_ok : bool;
  ce_picked : bool;
  ce_dial_ok : bool;
  ce_remote : bytes;
  ce_now : Z;
  ce_now_dns : Z;
  ce_now_record : Z;
  ce_dns : dnsCache
}.

Definition tunnel_part (s : SOCKS5Server) (e : connect_env) (target : bytes) (bypassFailed : bool) (m : BypassManager)
    : BypassManager * list connect_act :=
  if sv_hasDialFn s || ce_picked e then
    let m := if bypassFailed && sv_hasBypass s then RecordBypassFailure (ce_now_record e) target m else m in
    (m, [if sv_hasDialFn s then CDialFn target else CTunnel target] ++
        (if ce_dial_ok e then [CReply repSuccess; CRelay false] else [CReply repGenFail]))
  else (m, [CReply repGenFail]).

Definition limited (s : SOCKS5Server) (e : connect_env) (acts : list connect_act) : list connect_act :=
  if sv_hasLimiter s
  then [CAcquire (remoteHost (ce_remote e))] ++ acts ++ [CRelease (remoteHost (ce_remote e))] else acts.

Definition handleConnect (s : SOCKS5Server) (e : connect_env) (target : bytes) (m : BypassManager)
    : BypassManager * list connect_act :=
  if isBitTorrentPort target then (m, [CReply repGenFail]) else
  let via_tunnel bypassFailed m :=
    let '(m, acts) := tunnel_part s e target bypassFailed m in (m, limited s e acts) in
  if negb (sv_hasDialFn s) && sv_hasBypass s then
    let '(m, should) := ShouldBypass IP_String lookup_host (ce_now e) (ce_now_dns e) (ce_dns e) target m in
    let lan := isLANAddress target in
    if should || lan then
      let dial := CDirect target (if lan then 1 * second else 8 * second) in
      if ce_direct_ok e then (m, [dial; CReply repSuccess; CRelay true])
      else if lan then (m, [dial; CReply repGenFail])
      else let '(m, acts) := via_tunnel true m in (m, dial :: acts)
    else via_tunnel false m
  else via_tunnel false m.

(** ** UDP ASSOCIATE *)

(** [session] is the address of the socket of the new session, if it could be set
    up.  The result: the bytes of the reply, whether the traffic monitor was reset,
    and whether the relay loop runs. *)
Definition handleUDPAssoc (s : SOCKS5Server) (picked : bool) (session : option (bytes * Z)) : bytes * bool * bool :=
  if sv_DisableUDP s || negb (sv_hasPool s) then (sendSOCKS5Reply repCmdNotSupp, false, false) else
  if negb picked then (sendSOCKS5Reply repGenFail, true, false) else
  match session with
  | None => (sendSOCKS5Reply repGenFail, true, false)
  | Some (ip, port) =>
    let replyIP := if bool_decide (ip = []) || ip_is_unspecified ip then v4_in_v6_prefix ++ [x7f; x00; x00; x01] else ip in
    (sendSOCKS5UDPReply replyIP port, true, true)
  end.
End connect.

(** ** The per-IP limiter *)

(** For each IP the number of tokens in its channel; [lm_held] lists the
    connections between acquire and release. *)
Record connLimiter := mkLimiter { lm_perIP : Z; lm_sems : gmap bytes Z; lm_held : list bytes }.

Definition newConnLimiter (perIP : Z) : connLimiter := mkLimiter perIP ∅ [].

(** [None]: the goroutine blocks. *)
Definition acquire (ip : bytes) (l : connLimiter) : option connLimiter :=
  let n := default 0 (lm_sems l !! ip) in
  if n <? lm_perIP l then Some (mkLimiter (lm_perIP l) (<[ip := n + 1]> (lm_sems l)) (ip :: lm_held l)) else None.

Definition release (ip : bytes) (l : connLimiter) : option connLimiter :=
  let held := match list_find (fun x => x = ip) (lm_held l) with Some (i, _) => delete i (lm_held l) | None => lm_held l end in
  match lm_sems l !! ip with
  | None => Some (mkLimiter (lm_perIP l) (lm_sems l) held)
  | Some n => if 0 <? n then Some (mkLimiter (lm_perIP l) (<[ip := n - 1]> (lm_sems l)) held) else None
  end.

(** ** Relaying a connection *)

(** The two copying goroutines: what each side has still to deliver, what was
    written to the other, and who is running. *)
Record relay := mkRelay {
  rl_fromClient : bytes;
  rl_toRemote : bytes;
  rl_fromRemote : bytes;
  rl_toClient : bytes;
  rl_up : bool;
  rl_down : bool;
  rl_clientClosed : bool;
  rl_remoteClosed : bool
}.

Definition relay_start (client remote : bytes) : relay := mkRelay client [] remote [] true true false false.

Inductive relay_event := RUp (n : nat) | RUpEnd | RDown (n : nat) | RDownEnd.

(** One chunk copied, or one copy ended (the source is exhausted, or a connection
    failed or was closed). *)
Definition relay_step (r : relay) (ev : relay_event) : option relay :=
  match ev with
  | RUp n =>
    if rl_up r && negb (rl_clientClosed r) && negb (rl_remoteClosed r) then
      Some (mkRelay (drop n (rl_fromClient r)) (rl_toRemote r ++ take n (rl_fromClient r)) (rl_fromRemote r) (rl_toClient r)
        (rl_up r) (rl_down r) (rl_clientClosed r) (rl_remoteClosed r))
    else None
  | RUpEnd =>
    if rl_up r then
      Some (mkRelay (rl_fromClient r) (rl_toRemote r) (rl_fromRemote r) (rl_toClient r) false (rl_down r) (rl_clientClosed r) true)
    else None
  | RDown n =>
    if rl_down r && negb (rl_clientClosed r) && negb (rl_remoteClosed r) then
      Some (mkRelay (rl_fromClient r) (rl_toRemote r) (drop n (rl_fromRemote r)) (rl_toClient r ++ take n (rl_fromRemote r))
        (rl_up r) (rl_down r) (rl_clientClosed r) (rl_remoteClosed r))
    else None
  | RDownEnd =>
    if rl_down r then
      Some (mkRelay (rl_fromClient r) (rl_toRemote r) (rl_fromRemote r) (rl_toClient r) (rl_up r) false true (rl_remoteClosed r))
    else None
  end.

Definition relay_run (r : relay) (evs : list relay_event) : option relay :=
  fold_left (fun r ev => r ← r; relay_step r ev) evs (Some r).

(** ** The request grammar *)

Inductive socks_addr := SA4 (ip : bytes) | SA6 (ip : bytes) | SADomain (d : bytes).

Definition addr_ok (a : socks_addr) : Prop :=
  match a with SA4 ip => zlen ip = 4 | SA6 ip => zlen ip = 16 | SADomain d => zlen d < 256 end.

Definition addr_bytes (a : socks_addr) : bytes :=
  match a with SA4 ip => ip | SA6 ip => ip | SADomain d => z2b (zlen d) :: d end.

Definition addr_type (a : socks_addr) : byte :=
  match a with SA4 _ => atypIPv4 | SA6 _ => atypIPv6 | SADomain _ => atypDomain end.

Definition addr_text (a : socks_addr) : bytes :=
  match a with SA4 ip => IP_String ip | SA6 ip => [x5b] ++ IP_String ip ++ [x5d] | SADomain d => d end.

Definition greeting (methods : bytes) : bytes := [socks5Version; z2b (zlen methods)] ++ methods.

Definition request (cmd rsv : byte) (a : socks_addr) (port : Z) : bytes :=
  [socks5Version; cmd; rsv; addr_type a] ++ addr_bytes a ++ put_u16 port.

Lemma socks_read_full_iff n inp a rest : 0 <= n -> read_full n inp = Some (a, rest) <-> zlen a = n /\ inp = a ++ rest.
Proof.
  intros Hn. unfold read_full. split.
  - destruct (n <=? zlen inp) eqn:E; [|done]. bool_to_prop. intros [= <- <-]. split; [|by rewrite take_drop].
    unfold zlen in *. rewrite length_take. lia.
  - intros [<- ->]. rewrite zlen_app, (proj2 (Z.leb_le _ _)) by (pose proof (zlen_nonneg rest); lia).
    unfold zlen. by rewrite Nat2Z.id, take_app_length, drop_app_length.
Qed.

Lemma socks_read_full_app n a rest : zlen a = n -> read_full n (a ++ rest) = Some (a, rest).
Proof. intros <-. by apply socks_read_full_iff; [apply zlen_nonneg|]. Qed.

Lemma byte_at_range ip i : 0 <= byte_at ip i < 256.
Proof. apply b2z_range. Qed.

Lemma read_target_iff atyp inp host rest :
  atyp ∈ [atypIPv4; atypIPv6; atypDomain] ->
  read_target atyp inp = Some (host, rest) <->
  exists a, addr_ok a /\ addr_type a = atyp /\ addr_text a = host /\ inp = addr_bytes a ++ rest.
Proof.
  intros Hat. unfold read_target. split.
  - destruct (byte_eqb atyp atypIPv4) eqn:E4; [|destruct (byte_eqb atyp atypIPv6) eqn:E6].
    + destruct (read_full 4 inp) as [[a r]|] eqn:E; simpl; [|done]. apply socks_read_full_iff in E as [? ->]; [|done].
      intros [= <- <-]. exists (SA4 a). unfold byte_eqb in E4. bool_to_prop. by subst.
    + destruct (read_full 16 inp) as [[a r]|] eqn:E; simpl; [|done]. apply socks_read_full_iff in E as [? ->]; [|done].
      intros [= <- <-]. exists (SA6 a). unfold byte_eqb in E6. bool_to_prop. by subst.
    + destruct (read_full 1 inp) as [[l r]|] eqn:E; simpl; [|done]. apply socks_read_full_iff in E as [Hl ->]; [|done].
      destruct l as [|lb [|]]; [done| |by rewrite !zlen_cons in Hl; pose proof (zlen_nonneg l); lia].
      destruct (read_full (byte_at [lb] 0) r) as [[d r']|] eqn:E'; simpl; [|done]. pose proof (byte_at_range [lb] 0).
      apply socks_read_full_iff in E' as [Hd ->]; [|lia]. intros [= <- <-]. exists (SADomain d). unfold byte_eqb in *. bool_to_prop.
      split; [simpl; lia|]. split; [|split; [done|]].
      * set_solver.
      * simpl. rewrite Hd. unfold byte_at. simpl. by rewrite z2b_b2z.
  - intros (a & Hok & <- & <- & ->). destruct a as [ip|ip|d]; simpl in *.
    + by rewrite socks_read_full_app.
    + by rewrite socks_read_full_app.
    + change (z2b (zlen d) :: d ++ rest) with ([z2b (zlen d)] ++ d ++ rest). rewrite socks_read_full_app by done. simpl.
      rewrite socks_read_full_app; [done|]. unfold byte_at. simpl. rewrite b2z_z2b, Z.mod_small; [done|].
      pose proof (zlen_nonneg d). lia.
Qed.

Local Ltac version_ok :=
  match goal with |- context [byte_eqb ?x socks5Version] => change (byte_eqb x socks5Version) with true end; cbn [negb].

Lemma handle_request methods cmd rsv a port rest :
  authNone ∈ methods -> zlen methods < 256 -> addr_ok a -> 0 <= port < 65536 ->
  let target := addr_text a ++ [x3a] ++ Dec.print port in
  handle (greeting methods ++ request cmd rsv a port ++ rest) =
    if byte_eqb cmd cmdConnect then ([socks5Version; authNone], SConnect target, rest)
    else if byte_eqb cmd cmdUDPAssoc then ([socks5Version; authNone], SUDPAssoc target, rest)
    else ([socks5Version; authNone] ++ sendSOCKS5Reply repCmdNotSupp, SDone, rest).
Proof.
  intros Hm Hl Ha Hport target. unfold handle, greeting, request. rewrite <- !app_assoc.
  rewrite socks_read_full_app by done. version_ok.
  rewrite socks_read_full_app.
  2:{ unfold byte_at. simpl. rewrite b2z_z2b, Z.mod_small; [done|]. pose proof (zlen_nonneg methods). lia. }
  rewrite bool_decide_eq_true_2 by done. cbn [negb]. rewrite socks_read_full_app by done.
  version_ok.
  change (default x00 ([socks5Version; cmd; rsv; addr_type a] !! 1%nat)) with cmd.
  change (default x00 ([socks5Version; cmd; rsv; addr_type a] !! 3%nat)) with (addr_type a).
  assert (addr_type a ∈ [atypIPv4; atypIPv6; atypDomain]) as Hat by (destruct a; set_solver).
  rewrite bool_decide_eq_true_2 by done. cbn [negb].
  rewrite (proj2 (read_target_iff (addr_type a) (addr_bytes a ++ put_u16 port ++ rest) (addr_text a) (put_u16 port ++ rest) Hat))
    by (by exists a).
  rewrite socks_read_full_app by done. unfold put_u16. by rewrite be_get_put_small by done.
Qed.

Lemma handle_dispatch inp out next rest :
  handle inp = (out, next, rest) -> next <> SDone ->
  exists methods cmd rsv a port, authNone ∈ methods /\ zlen methods < 256 /\ addr_ok a /\ 0 <= port < 65536 /\
    inp = greeting methods ++ request cmd rsv a port ++ rest.
Proof.
  unfold handle. intros Hh Hnext.
  destruct (read_full 2 inp) as [[hdr i1]|] eqn:E1; [|by simplify_eq]. apply socks_read_full_iff in E1 as [L1 ->]; [|done].
  destruct hdr as [|v [|nm [|]]]; try (by rewrite ?zlen_cons, ?zlen_nil in L1); [|rewrite !zlen_cons in L1; pose proof (zlen_nonneg l); lia].
  change (default x00 ([v; nm] !! 0%nat)) with v in Hh. destruct (byte_eqb v socks5Version) eqn:Ev; [|by simplify_eq/=]. cbn [negb] in Hh.
  pose proof (byte_at_range [v; nm] 1) as Hb.
  destruct (read_full (byte_at [v; nm] 1) i1) as [[methods i2]|] eqn:E2; [|by simplify_eq].
  apply socks_read_full_iff in E2 as [L2 ->]; [|lia].
  destruct (bool_decide (authNone ∈ methods)) eqn:Em; [|by simplify_eq/=]. cbn [negb] in Hh.
  destruct (read_full 4 i2) as [[req i3]|] eqn:E3; [|by simplify_eq]. apply socks_read_full_iff in E3 as [L3 ->]; [|done].
  assert (exists v' cmd rsv atyp, req = [v'; cmd; rsv; atyp]) as (v' & cmd & rsv & atyp & ->).
  { unfold zlen in L3. do 5 (destruct req as [|? req]; simpl in L3; try lia). by eexists _, _, _, _. }
  change (default x00 ([v'; cmd; rsv; atyp] !! 0%nat)) with v' in Hh.
  change (default x00 ([v'; cmd; rsv; atyp] !! 1%nat)) with cmd in Hh.
  change (default x00 ([v'; cmd; rsv; atyp] !! 3%nat)) with atyp in Hh. destruct (byte_eqb v' socks5Version) eqn:Ev'; [|by simplify_eq/=]. cbn [negb] in Hh.
  destruct (bool_decide (atyp ∈ _)) eqn:Ea; [|by simplify_eq/=]. cbn [negb] in Hh.
  destruct (read_target atyp i3) as [[host i4]|] eqn:Et; [|by simplify_eq].
  unfold byte_eqb in Ev, Ev'. bool_to_prop. apply (read_target_iff _ _ _ _ Ea) in Et as (a & Hok & <- & <- & ->).
  destruct (read_full 2 i4) as [[pb i5]|] eqn:E5; [|by simplify_eq]. apply socks_read_full_iff in E5 as [L5 ->]; [|done].
  assert (i5 = rest) as ->.
  { destruct (byte_eqb cmd cmdConnect); [by simplify_eq|]. destruct (byte_eqb cmd cmdUDPAssoc); by simplify_eq. }
  exists methods, cmd, rsv, a, (be_get pb). pose proof (be_get_range pb) as Hp. rewrite L5 in Hp.
  split; [done|]. split; [lia|]. split; [done|]. split; [exact Hp|]. subst v v'.
  unfold greeting, request, put_u16. rewrite (be_put_get 2 pb) by (unfold zlen in L5; lia).
  rewrite <- !app_assoc, L2. unfold byte_at. simpl. by rewrite z2b_b2z.
Qed.

(** C25: the server goes on to serve a CONNECT or an UDP ASSOCIATE exactly for the
    inputs of RFC 1928: a greeting that offers "no authentication" and a request
    with one of the three address forms; the destination is then the one in the
    request, the client has been sent exactly the method reply, and not a byte
    beyond the request has been consumed. *)
Theorem socks5_request_iff (inp out rest target : bytes) (udp : bool) :
  handle inp = (out, (if udp then SUDPAssoc target else SConnect target), rest) <->
  out = [socks5Version; authNone] /\
  exists methods rsv a port, authNone ∈ methods /\ zlen methods < 256 /\ addr_ok a /\ 0 <= port < 65536 /\
    target = addr_text a ++ [x3a] ++ Dec.print port /\
    inp = greeting methods ++ request (if udp then cmdUDPAssoc else cmdConnect) rsv a port ++ rest.
Proof.
  split.
  - intros Hh. destruct (handle_dispatch _ _ _ _ Hh) as (methods & cmd & rsv & a & port & Hm & Hl & Ha & Hp & ->); [by destruct udp|].
    rewrite handle_request in Hh by done. destruct (byte_eqb cmd cmdConnect) eqn:E1; [|destruct (byte_eqb cmd cmdUDPAssoc) eqn:E2];
      unfold byte_eqb in *; bool_to_prop; destruct udp; simplify_eq; (split; [done|]); by exists methods, rsv, a, port.
  - intros (-> & methods & rsv & a & port & Hm & Hl & Ha & Hp & -> & ->). rewrite handle_request by done. by destruct udp.
Qed.

(** Whatever the client sends, the server answers with nothing, with the
    refusal of the offered methods, with the acceptance, or with the acceptance and
    one failure reply, and it stops after a refusal or failure reply. *)
Theorem socks5_answers (inp : bytes) :
  let '(out, next, _) := handle inp in
  (out = [] \/ out = [socks5Version; authNoAccept] \/ out = [socks5Version; authNone] \/
   out = [socks5Version; authNone] ++ sendSOCKS5Reply repGenFail \/
   out = [socks5Version; authNone] ++ sendSOCKS5Reply repCmdNotSupp) /\
  (next <> SDone -> out = [socks5Version; authNone]).
Proof.
  unfold handle.
  repeat match goal with
  | |- context [match ?x with _ => _ end] =>
    lazymatch x with context [match _ with _ => _ end] => fail | _ => destruct x; simpl; try (split; naive_solver) end
  end.
Qed.

(** ** Texts of destinations *)

(** No colon and no bracket. *)
Definition plain_byte (b : byte) : bool := negb (byte_eqb b x3a) && negb (byte_eqb b x5b) && negb (byte_eqb b x5d).
Definition no_bracket (b : byte) : bool := negb (byte_eqb b x5b) && negb (byte_eqb b x5d).

Lemma digit_plain b : (48 <=? b2z b) && (b2z b <=? 57) = true -> plain_byte b = true.
Proof. by destruct b. Qed.

Lemma parse_digits_plain s acc p : parse_digits acc s = Some p -> forallb plain_byte s = true.
Proof.
  revert acc. induction s as [|b s IH]; intros acc; simpl; [done|].
  destruct (_ && _) eqn:Eb; [|done]. intros Hp. by rewrite digit_plain, (IH _ Hp).
Qed.

(** Reading a printed unsigned number, digit by digit. *)
Lemma parse_uint_acc d acc :
  parse_digits (Zpos acc) (str (DecimalString.NilEmpty.string_of_uint d)) = Some (Zpos (Pos.of_uint_acc d acc)).
Proof.
  revert acc. induction d; intros acc; [done|..]; cbn [DecimalString.NilEmpty.string_of_uint Pos.of_uint_acc];
    rewrite <- IHd; change (str (String.String ?c ?r)) with (Ascii.byte_of_ascii c :: str r); cbn [parse_digits];
    match goal with |- context [b2z ?x] => let v := eval vm_compute in (b2z x) in change (b2z x) with v end;
    cbn [andb Z.leb Z.compare Pos.compare Pos.compare_cont]; f_equal; lia.
Qed.
Lemma parse_uint d :
  parse_digits 0 (str (DecimalString.NilEmpty.string_of_uint d)) = Some (Z.of_N (Pos.of_uint d)).
Proof.
  induction d; [done|..]; cbn [DecimalString.NilEmpty.string_of_uint Pos.of_uint];
    change (str (String.String ?c ?r)) with (Ascii.byte_of_ascii c :: str r); cbn [parse_digits];
    match goal with |- context [b2z ?x] => let v := eval vm_compute in (b2z x) in change (b2z x) with v end;
    cbn [andb Z.leb Z.compare Pos.compare Pos.compare_cont]; [exact IHd|apply parse_uint_acc..].
Qed.

Lemma print_port z : 0 <= z < 65536 -> forallb plain_byte (Dec.print z) = true /\ parse_uint16 (Dec.print z) = Some z.
Proof.
  intros Hz. assert (parse_digits 0 (Dec.print z) = Some z) as Hp.
  { destruct z as [|p|p]; [done| |lia]. unfold Dec.print. cbn [Z.to_int DecimalString.NilZero.string_of_int].
    assert (forall d, d <> Decimal.Nil -> DecimalString.NilZero.string_of_uint d = DecimalString.NilEmpty.string_of_uint d) as ->
      by (by intros []); [|apply DecimalPos.Unsigned.to_uint_nonnil].
    rewrite parse_uint, DecimalPos.Unsigned.of_to. done. }
  split; [by eapply parse_digits_plain|]. unfold parse_uint16. rewrite bool_decide_eq_false_2, Hp; cbn [mbind option_bind].
  - by rewrite (proj2 (Z.leb_le _ _)) by lia.
  - intros E. rewrite E in Hp. injection Hp as <-. done.
Qed.

Lemma existsb_plain c s : forallb plain_byte s = true -> c = x3a \/ c = x5b \/ c = x5d -> existsb (byte_eqb c) s = false.
Proof.
  intros Hs Hc. induction s as [|b s IH]; [done|]. simpl in *. bool_to_prop. rewrite IH by done. rewrite orb_false_r.
  unfold plain_byte, byte_eqb in *. bool_to_prop. apply bool_decide_eq_false. naive_solver.
Qed.

Lemma existsb_no_bracket c s : forallb no_bracket s = true -> c = x5b \/ c = x5d -> existsb (byte_eqb c) s = false.
Proof.
  intros Hs Hc. induction s as [|b s IH]; [done|]. simpl in *. bool_to_prop. rewrite IH by done. rewrite orb_false_r.
  unfold no_bracket, byte_eqb in *. bool_to_prop. apply bool_decide_eq_false. naive_solver.
Qed.

Lemma last_colon_plain s i acc : existsb (byte_eqb x3a) s = false -> last_colon s i acc = acc.
Proof.
  revert i acc. induction s as [|b s IH]; intros i acc; simpl; [done|]. intros [Hb Hs]%orb_false_elim.
  rewrite IH by done. unfold byte_eqb in *. bool_to_prop. by rewrite bool_decide_eq_false_2 by congruence.
Qed.

Lemma last_colon_app h p i acc :
  existsb (byte_eqb x3a) p = false -> last_colon (h ++ x3a :: p) i acc = Some (i + length h)%nat.
Proof.
  revert i acc. induction h as [|b h IH]; intros i acc Hp; simpl.
  - rewrite last_colon_plain by done. by rewrite Nat.add_0_r.
  - rewrite IH by done. f_equal. lia.
Qed.

Lemma existsb_app_eq {A} (f : A -> bool) l1 l2 : existsb f (l1 ++ l2) = existsb f l1 || existsb f l2.
Proof. apply existsb_app. Qed.

Lemma split_plain host port :
  forallb plain_byte host = true -> forallb plain_byte port = true ->
  split_host_port (host ++ [x3a] ++ port) = Some (host, port).
Proof.
  intros Hh Hp. unfold split_host_port. cbn [app]. rewrite last_colon_app by (by apply existsb_plain; [|left]).
  cbn [Nat.add]. rewrite take_app_length.
  assert (drop (S (length host)) (host ++ x3a :: port) = port) as ->.
  { change (host ++ x3a :: port) with (host ++ [x3a] ++ port). rewrite app_assoc.
    apply drop_app_length'. rewrite length_app. simpl. lia. }
  rewrite (existsb_plain x3a host), !existsb_app_eq by (tauto || done). simpl.
  rewrite !(existsb_plain _ host), !(existsb_plain _ port) by (tauto || done).
  destruct host as [|b host]; [done|]. simpl in Hh. bool_to_prop. unfold plain_byte, byte_eqb in *. bool_to_prop.
  simpl. by destruct b.
Qed.

Lemma find_byte_app c h p : existsb (byte_eqb c) h = false -> find_byte c (h ++ c :: p) = Some (length h).
Proof.
  induction h as [|b h IH]; simpl; intros Hn.
  - unfold byte_eqb. by rewrite bool_decide_eq_true_2.
  - apply orb_false_elim in Hn as [Hb Hs]. rewrite IH by done. unfold byte_eqb in *. bool_to_prop.
    by rewrite bool_decide_eq_false_2 by congruence.
Qed.

Lemma split_bracket host port :
  forallb no_bracket host = true -> forallb plain_byte port = true ->
  split_host_port (([x5b] ++ host ++ [x5d]) ++ [x3a] ++ port) = Some (host, port).
Proof.
  intros Hh Hp. unfold split_host_port.
  rewrite (last_colon_app ([x5b] ++ host ++ [x5d]) port) by (by apply existsb_plain; [|left]).
  set (s := ([x5b] ++ host ++ [x5d]) ++ [x3a] ++ port).
  assert (s = (x5b :: host) ++ x5d :: x3a :: port) as E by (unfold s; simpl; by rewrite <- !app_assoc).
  assert (find_byte x5d s = Some (S (length host))) as ->.
  { rewrite E. rewrite find_byte_app; [done|]. simpl. apply (existsb_no_bracket x5d) in Hh; [done|by right]. }
  assert (length s = (length host + 3 + length port)%nat) as Hlen.
  { rewrite E. rewrite length_app. simpl. lia. }
  change s with (x5b :: (host ++ [x5d]) ++ [x3a] ++ port) at 1. cbn match.
  rewrite Hlen, (proj2 (Nat.eqb_neq _ _)) by lia.
  rewrite (proj2 (Nat.eqb_eq _ _)) by (rewrite !length_app; simpl; lia).
  assert (drop 1 s = host ++ x5d :: x3a :: port) as -> by (by rewrite E).
  assert (s = ((x5b :: host) ++ [x5d]) ++ x3a :: port) as E2 by (rewrite E; by rewrite <- app_assoc).
  assert (drop (S (S (length host))) s = x3a :: port) as ->.
  { rewrite E2. apply drop_app_length'. rewrite length_app. simpl. lia. }
  rewrite (existsb_app_eq _ host). simpl existsb.
  rewrite (existsb_no_bracket x5b host), !(existsb_plain _ port) by (tauto || done). cbn [orb].
  assert (drop (S (length ([x5b] ++ host ++ [x5d]))) s = port) as E3.
  { assert (s = (((x5b :: host) ++ [x5d]) ++ [x3a]) ++ port) as -> by (rewrite E; by rewrite <- !app_assoc).
    apply drop_app_length'. rewrite !length_app. simpl. lia. }
  cbn [Nat.add]. rewrite E3. replace (S (length host) - 1)%nat with (length host) by lia. by rewrite take_app_length.
Qed.

Lemma print_byte_plain b : forallb plain_byte (Dec.print (b2z b)) = true.
Proof. apply print_port. pose proof (b2z_range b). lia. Qed.

Lemma ip4_string_plain ip : forallb plain_byte (ip4_string ip) = true.
Proof.
  destruct ip as [|a [|b [|c [|d [|]]]]]; try done. unfold ip4_string. rewrite !forallb_app. simpl forallb.
  by rewrite !print_byte_plain.
Qed.

Lemma hex_digit_no_bracket z : no_bracket (hex_digit (z mod 16)) = true.
Proof.
  assert (forallb (fun d => no_bracket (hex_digit d)) (seqZ 0 16) = true) as H by (vm_compute; reflexivity).
  rewrite forallb_forall in H. apply H. rewrite <- list_elem_of_In, elem_of_seqZ. pose proof (Z.mod_pos_bound z 16). lia.
Qed.

Lemma hex_group_no_bracket g : forallb no_bracket (hex_group g) = true.
Proof.
  unfold hex_group. destruct (4096 <=? g), (256 <=? g), (16 <=? g); cbn [forallb]; by rewrite !hex_digit_no_bracket.
Qed.

Lemma join_groups_no_bracket l : forallb no_bracket (join_groups l) = true.
Proof.
  induction l as [|g [|g' l] IH]; [done|apply hex_group_no_bracket|].
  change (join_groups (g :: g' :: l)) with (hex_group g ++ [x3a] ++ join_groups (g' :: l)).
  rewrite !forallb_app, hex_group_no_bracket, IH. done.
Qed.

Lemma plain_no_bracket s : forallb plain_byte s = true -> forallb no_bracket s = true.
Proof.
  rewrite !forallb_forall. intros Hs b Hb. specialize (Hs b Hb). unfold plain_byte, no_bracket in *.
  apply andb_prop in Hs as [[_ H1]%andb_prop H2]. by rewrite H1, H2.
Qed.

Lemma IP_String_no_bracket ip : forallb no_bracket (IP_String ip) = true.
Proof.
  unfold IP_String. destruct (To4 ip); [apply plain_no_bracket, ip4_string_plain|].
  unfold ip6_string. destruct (longest_run _ _ _) as [i n]. destruct (Nat.eqb n 0); [apply join_groups_no_bracket|].
  by rewrite !forallb_app, !join_groups_no_bracket.
Qed.

Definition host_part (a : socks_addr) : bytes :=
  match a with SA4 ip => IP_String ip | SA6 ip => IP_String ip | SADomain d => d end.

(** The target of a request splits into the host and port it was made from. *)
Lemma split_target a port :
  addr_ok a -> 0 <= port < 65536 -> (forall d, a = SADomain d -> forallb plain_byte d = true) ->
  split_host_port (addr_text a ++ [x3a] ++ Dec.print port) = Some (host_part a, Dec.print port).
Proof.
  intros Ha Hp Hd. pose proof (proj1 (print_port port Hp)). destruct a as [ip|ip|d]; cbn [addr_text host_part addr_ok] in *.
  - apply split_plain; [|done]. unfold IP_String, To4. rewrite Ha. apply ip4_string_plain.
  - by apply split_bracket; [apply IP_String_no_bracket|].
  - apply split_plain; [by apply Hd|done].
Qed.

(** The port filter blocks a request exactly when its port is on the list, for
    both address families and for every domain name that has neither a colon nor a
    bracket. *)
Theorem bittorrent_filter_exact (a : socks_addr) (port : Z)
    (Ha : addr_ok a) (Hport : 0 <= port < 65536) (Hname : forall d, a = SADomain d -> forallb plain_byte d = true) :
  isBitTorrentPort (addr_text a ++ [x3a] ++ Dec.print port) = bool_decide (port ∈ bitTorrentPorts).
Proof.
  unfold isBitTorrentPort. rewrite split_target by done. by rewrite (proj2 (print_port port Hport)).
Qed.

(** ** LAN addresses *)

(** On IPv4 the LAN test is membership in 127.0.0.0/8, 169.254.0.0/16,
    10.0.0.0/8, 172.16.0.0/12 or 192.168.0.0/16, as ranges of 32-bit numbers, also
    for an address in its mapped IPv6 form. *)
Theorem lan_ipv4_ranges (ip : bytes) (Hlen : zlen ip = 4) :
  lan_ip (v4_in_v6_prefix ++ ip) = lan_ip ip /\
  (lan_ip ip = true <->
   let n := be_get ip in
   127 * 2 ^ 24 <= n < 128 * 2 ^ 24 \/ 169 * 2 ^ 24 + 254 * 2 ^ 16 <= n < 169 * 2 ^ 24 + 255 * 2 ^ 16 \/
   10 * 2 ^ 24 <= n < 11 * 2 ^ 24 \/ 172 * 2 ^ 24 + 16 * 2 ^ 16 <= n < 172 * 2 ^ 24 + 32 * 2 ^ 16 \/
   192 * 2 ^ 24 + 168 * 2 ^ 16 <= n < 192 * 2 ^ 24 + 169 * 2 ^ 16).
Proof.
  assert (exists a b c d, ip = [a; b; c; d]) as (a & b & c & d & ->).
  { unfold zlen in Hlen. do 5 (destruct ip as [|? ip]; simpl in Hlen; try lia). by eexists _, _, _, _. }
  split; [done|]. unfold lan_ip, IsLoopback, IsLinkLocalUnicast, IsPrivate. cbn [To4].
  change (To4 [a; b; c; d]) with (Some [a; b; c; d]). unfold byte_at. cbn [lookup list_lookup default from_option id].
  assert (be_get [a; b; c; d] = ((b2z a * 256 + b2z b) * 256 + b2z c) * 256 + b2z d) as ->.
  { unfold be_get. simpl. lia. }
  assert (Z.land (b2z b) 0xf0 = b2z b / 16 * 16) as ->.
  { by destruct b. }
  pose proof (b2z_range a). pose proof (b2z_range b). pose proof (b2z_range c). pose proof (b2z_range d).
  rewrite !orb_true_iff, !andb_true_iff, !Z.eqb_eq. cbv zeta.
  change (2 ^ 24) with 16777216. change (2 ^ 16) with 65536.
  assert (b2z b / 16 * 16 = 16 <-> 16 <= b2z b < 32) as -> by (Z.div_mod_to_equations; lia).
  set (x := b2z a) in *. set (y := b2z b) in *. set (z := b2z c) in *. set (w := b2z d) in *. clearbody x y z w.
  set (n := ((x * 256 + y) * 256 + z) * 256 + w).
  assert (x = 127 <-> 127 * 16777216 <= n < 128 * 16777216) as <- by (unfold n; lia).
  assert (x = 10 <-> 10 * 16777216 <= n < 11 * 16777216) as <- by (unfold n; lia).
  assert (x = 169 /\ y = 254 <-> 169 * 16777216 + 254 * 65536 <= n < 169 * 16777216 + 255 * 65536) as <- by (unfold n; lia).
  assert (x = 192 /\ y = 168 <-> 192 * 16777216 + 168 * 65536 <= n < 192 * 16777216 + 169 * 65536) as <- by (unfold n; lia).
  assert (x = 172 /\ 16 <= y < 32 <-> 172 * 16777216 + 16 * 65536 <= n < 172 * 16777216 + 32 * 65536) as <- by (unfold n; lia).
  tauto.
Qed.

(** ** Routing of a CONNECT *)

Definition is_reply (a : connect_act) : bool := match a with CReply _ => true | _ => false end.
Definition is_dial (a : connect_act) : bool :=
  match a with CDirect _ _ | CDialFn _ | CTunnel _ => true | _ => false end.

(** Closes a case in which the actions are known. *)
Local Ltac leaf :=
  cbn -[elem_of second];
  (split; [eexists; split; [reflexivity|]; split; [try (intros; set_solver); done|intros [b Hb]; first [reflexivity|set_solver]]|]);
  split_and!; intros; set_solver.

Section routing.
Context `{Net} (lookup_host : bytes -> option (list bytes)).

(** C22: A CONNECT is answered by exactly one reply, which reports success exactly
    when data is relayed.  A destination is dialled directly exactly when there is a
    bypass manager, no external dial function, the port is allowed, and the manager
    decides so or the address is on the LAN.  A LAN address is then never sent to
    the tunnel, an external dial function is never bypassed, and a blocked port is
    not dialled at all. *)
Theorem connect_routing (s : SOCKS5Server) (e : connect_env) (target : bytes) (m : BypassManager) :
  let '(m', acts) := handleConnect lookup_host s e target m in
  let may_bypass := negb (sv_hasDialFn s) && sv_hasBypass s && negb (isBitTorrentPort target) in
  let should := (ShouldBypass IP_String lookup_host (ce_now e) (ce_now_dns e) (ce_dns e) target m).2 in
  (exists rep, List.filter is_reply acts = [CReply rep] /\ (rep = repSuccess <-> exists b, CRelay b ∈ acts)) /\
  (forall t w, CDirect t w ∈ acts <->
     t = target /\ w = (if isLANAddress target then 1 * second else 8 * second) /\
     may_bypass = true /\ (should = true \/ isLANAddress target = true)) /\
  (may_bypass = true -> isLANAddress target = true -> forall t, (CTunnel t ∉ acts) /\ (CDialFn t ∉ acts)) /\
  (sv_hasDialFn s = true -> forall t w, (CTunnel t ∉ acts) /\ (CDirect t w ∉ acts)) /\
  (isBitTorrentPort target = true -> List.filter is_dial acts = []).
Proof.
  unfold handleConnect, tunnel_part, limited.
  destruct (ShouldBypass _ _ _ _ _ _ _) as [m1 should]. cbn [snd].
  destruct (isBitTorrentPort target); [destruct (isLANAddress target), should, (sv_hasDialFn s), (sv_hasBypass s); leaf|]. destruct (sv_hasDialFn s); cbn [negb andb orb].
  { destruct (ce_dial_ok e), (sv_hasLimiter s), (isLANAddress target), should; leaf. }
  destruct (sv_hasBypass s); cbn [andb orb].
  2:{ destruct (ce_picked e), (ce_dial_ok e), (sv_hasLimiter s), (isLANAddress target), should; leaf. }
  destruct (isLANAddress target); rewrite ?orb_true_r, ?orb_false_r; cbn [negb andb orb].
  { destruct (ce_direct_ok e), should; leaf. }
  destruct should; [destruct (ce_direct_ok e); [leaf|]|]; destruct (ce_picked e), (ce_dial_ok e), (sv_hasLimiter s); leaf.
Qed.
End routing.

(** ** The limiter in use *)

Definition held_by (l : connLimiter) (ip : bytes) : Z := zlen (filter (fun x => x = ip) (lm_held l)).

(** The states that connections reach: each acquires once and releases once. *)
Inductive limiter_reach (perIP : Z) : connLimiter -> Prop :=
| limiter_new : limiter_reach perIP (newConnLimiter perIP)
| limiter_acquire l ip l' : limiter_reach perIP l -> acquire ip l = Some l' -> limiter_reach perIP l'
| limiter_release l ip l' : limiter_reach perIP l -> ip ∈ lm_held l -> release ip l = Some l' -> limiter_reach perIP l'.

Definition limiter_ok (perIP : Z) (l : connLimiter) : Prop :=
  lm_perIP l = perIP /\ forall ip, default 0 (lm_sems l !! ip) = held_by l ip /\ held_by l ip <= perIP.

Lemma filter_delete_found (l : list bytes) ip i :
  list_find (fun x => x = ip) l = Some (i, ip) ->
  forall k, zlen (filter (fun x => x = k) l) = zlen (filter (fun x => x = k) (delete i l)) + (if bool_decide (ip = k) then 1 else 0).
Proof.
  intros (Hi & _ & _)%list_find_Some k. rewrite <- (take_drop_middle l i ip Hi) at 1. rewrite delete_take_drop.
  rewrite !filter_app, filter_cons, !zlen_app. case_decide as E; case_bool_decide; try done; [|lia].
  rewrite zlen_cons. lia.
Qed.

Lemma list_find_eq (l : list bytes) ip : ip ∈ l -> exists i, list_find (fun x => x = ip) l = Some (i, ip).
Proof.
  intros Hin. destruct (list_find_elem_of (fun x => x = ip) l ip Hin eq_refl) as [[i x] E]. exists i.
  by pose proof E as (_ & -> & _)%list_find_Some.
Qed.

Lemma held_nonneg l ip : ip ∈ lm_held l -> 0 < held_by l ip.
Proof.
  intros Hin. unfold held_by. assert (ip ∈ filter (fun x => x = ip) (lm_held l)) as Hf by (by apply list_elem_of_filter).
  set (f := filter _ _) in *. clearbody f. destruct f as [|x f]; [by apply elem_of_nil in Hf|].
  rewrite zlen_cons. pose proof (zlen_nonneg f). lia.
Qed.

Lemma acquire_ok perIP l ip l' : 0 <= perIP -> limiter_ok perIP l -> acquire ip l = Some l' -> limiter_ok perIP l'.
Proof.
  intros H0 [Hp Hl]. unfold acquire. destruct (_ <? _) eqn:E; [|done]. intros [= <-]. bool_to_prop. split; [done|].
  intros k. unfold held_by. simpl. rewrite filter_cons. destruct (Hl k) as [Hk Hb]. unfold held_by in *.
  destruct (decide (ip = k)) as [->|Hne].
  - rewrite lookup_insert_eq. simpl. rewrite Hk in *. rewrite zlen_cons. lia.
  - by rewrite lookup_insert_ne by done.
Qed.

Lemma release_ok perIP l ip : limiter_ok perIP l -> ip ∈ lm_held l ->
  exists l', release ip l = Some l' /\ limiter_ok perIP l' /\ held_by l' ip = held_by l ip - 1.
Proof.
  intros [Hp Hl] Hin. pose proof (held_nonneg l ip Hin) as Hpos. destruct (list_find_eq _ _ Hin) as [i Hi].
  pose proof (filter_delete_found _ _ _ Hi) as Hd. unfold release. rewrite Hi. destruct (Hl ip) as [Hk Hb].
  destruct (lm_sems l !! ip) as [n|] eqn:En; simpl in Hk; [|lia]. subst n.
  rewrite (proj2 (Z.ltb_lt _ _)) by done. eexists. split; [done|].
  assert (forall k, held_by (mkLimiter (lm_perIP l) (<[ip:=held_by l ip - 1]> (lm_sems l)) (delete i (lm_held l))) k =
    held_by l k - (if bool_decide (ip = k) then 1 else 0)) as Hh.
  { intros k. unfold held_by. simpl. rewrite (Hd k). lia. }
  split; [split; [done|]|rewrite Hh; by rewrite bool_decide_eq_true_2].
  intros k. rewrite Hh. simpl. case_bool_decide as E.
  - subst k. rewrite lookup_insert_eq. simpl. lia.
  - rewrite lookup_insert_ne by done. destruct (Hl k). lia.
Qed.

(** In every reachable state the tokens of an IP are its connections between
    acquire and release, never more than the limit; a new connection has to wait
    exactly while the limit is reached, a connection that ends never waits, and
    after it the waiting one can go on. *)
Theorem limiter_invariant (perIP : Z) (l : connLimiter) (Hper : 0 < perIP) (Hreach : limiter_reach perIP l) :
  (forall ip, 0 <= held_by l ip <= perIP) /\
  (forall ip, acquire ip l = None <-> held_by l ip = perIP) /\
  (forall ip, ip ∈ lm_held l -> exists l', release ip l = Some l' /\ is_Some (acquire ip l')).
Proof.
  assert (limiter_ok perIP l) as Hok.
  { induction Hreach as [|l ip l' Hr IH Ha|l ip l' Hr IH Hin Hrel].
    - split; [done|]. intros ip. unfold held_by. simpl. rewrite lookup_empty. change (zlen _) with 0. simpl. lia.
    - eapply acquire_ok; [|exact IH|exact Ha]. lia.
    - destruct (release_ok perIP l ip IH Hin) as (l2 & E & Hl2 & _). congruence. }
  destruct Hok as [Hp Hl]. split; [|split].
  - intros ip. destruct (Hl ip). split; [apply zlen_nonneg|done].
  - intros ip. destruct (Hl ip) as [Hk Hb]. unfold acquire. rewrite Hk, Hp.
    destruct (_ <? _) eqn:E; bool_to_prop; (split; [|]); intros; try done; lia.
  - intros ip Hin. destruct (release_ok perIP l ip (conj Hp Hl) Hin) as (l' & E & [Hp' Hl'] & Hh). exists l'. split; [done|].
    destruct (Hl' ip) as [Hk' _]. destruct (Hl ip) as [_ Hb]. unfold acquire. rewrite Hk', Hp', Hh.
    rewrite (proj2 (Z.ltb_lt _ _)) by lia. by eexists.
Qed.

Section failover.
Context `{Net} (lookup_host : bytes -> option (list bytes)).

(** When the direct dial of a numeric destination off the LAN fails, the
    connection goes through the tunnel in the same request; for the next 30 minutes
    the destination is not dialled directly again. *)
Theorem failed_bypass_not_retried (s : SOCKS5Server) (e e2 : connect_env) (target ip : bytes) (m : BypassManager)
    (Hip : parse_ip (host_of target) = Some ip) (Hcanon : IP_String ip = host_of target)
    (Hlan : isLANAddress target = false) (Hbt : isBitTorrentPort target = false)
    (Hserver : sv_hasDialFn s = false /\ sv_hasBypass s = true) (Hpick : ce_picked e = true)
    (Hshould : (ShouldBypass IP_String lookup_host (ce_now e) (ce_now_dns e) (ce_dns e) target m).2 = true)
    (Hfail : ce_direct_ok e = false) (Hnext : ce_now e2 < ce_now_record e + 30 * minute) :
  let '(m1, acts) := handleConnect lookup_host s e target m in
  let '(m2, acts2) := handleConnect lookup_host s e2 target m1 in
  CDirect target (8 * second) ∈ acts /\ CTunnel target ∈ acts /\ (forall t w, CDirect t w ∉ acts2) /\ m2 = m1.
Proof.
  destruct Hserver as [Hd Hb]. unfold handleConnect at 1. rewrite Hbt, Hd, Hb. cbn [negb andb].
  destruct (ShouldBypass _ _ _ _ _ _ _) as [m0 b]. simpl in Hshould. subst b. rewrite Hlan, Hfail. cbn [orb].
  unfold tunnel_part at 1. rewrite Hpick, Hd, Hb. cbn [orb andb].
  set (m1 := RecordBypassFailure (ce_now_record e) target m0).
  assert (ShouldBypass IP_String lookup_host (ce_now e2) (ce_now_dns e2) (ce_dns e2) target m1 = (m1, false)) as E2.
  { apply (recorded_not_bypassed IP_String lookup_host _ _ _ (host_of target) ip ip); [done|done| |done|done].
    unfold resolve_host. by rewrite Hip. }
  unfold handleConnect, tunnel_part, limited. rewrite Hbt, Hd, Hb, E2, Hlan. cbn [negb andb orb].
  destruct (ce_picked e2), (ce_dial_ok e), (ce_dial_ok e2), (sv_hasLimiter s); cbn -[elem_of second];
    split_and!; first [done|set_solver].
Qed.
End failover.

(** ** Relayed streams *)

(** Whatever the order of copies and failures, each side has received a prefix
    of what the other sent, the rest being undelivered; a copy that ends closes the
    connection it wrote to, so that nothing moves any more in either direction; and
    the relay can always be brought to its end, with both connections closed. *)
Theorem relay_streams (client remote : bytes) (evs : list relay_event) (r : relay)
    (Hrun : relay_run (relay_start client remote) evs = Some r) :
  rl_toRemote r ++ rl_fromClient r = client /\ rl_toClient r ++ rl_fromRemote r = remote /\
  (rl_up r = false -> rl_remoteClosed r = true) /\ (rl_down r = false -> rl_clientClosed r = true) /\
  (rl_up r = false \/ rl_down r = false -> forall n, relay_step r (RUp n) = None /\ relay_step r (RDown n) = None) /\
  (exists fin r', relay_run r fin = Some r' /\ rl_up r' = false /\ rl_down r' = false /\
     rl_clientClosed r' = true /\ rl_remoteClosed r' = true).
Proof.
  assert (forall evs, relay_run (relay_start client remote) evs = None \/ exists r,
    relay_run (relay_start client remote) evs = Some r /\
    rl_toRemote r ++ rl_fromClient r = client /\ rl_toClient r ++ rl_fromRemote r = remote /\
    rl_remoteClosed r = negb (rl_up r) /\ rl_clientClosed r = negb (rl_down r)) as G.
  { clear. induction evs as [|ev evs IH] using rev_ind; [right; by eexists|].
    unfold relay_run in *. rewrite fold_left_app. cbn [fold_left].
    destruct IH as [->|(r & -> & E1 & E2 & E3 & E4)]; [by left|]. cbn [mbind option_bind].
    destruct r as [fc tr fr tc up down cc rc]. simpl in *. subst rc cc.
    destruct ev as [n| |n|], up, down; cbn; try (by left); right; eexists; (split; [reflexivity|]); simpl;
      rewrite <- ?app_assoc, ?take_drop; by split_and!. }
  destruct (G evs) as [E|(r' & E & E1 & E2 & E3 & E4)]; rewrite Hrun in E; [done|]. injection E as <-.
  split; [done|]. split; [done|]. rewrite E3, E4. split; [by intros ->|]. split; [by intros ->|].
  split.
  - intros Hend n. unfold relay_step. rewrite E3, E4. destruct Hend as [-> | ->]; simpl; by rewrite ?andb_false_r.
  - destruct r as [fc tr fr tc up down cc rc]. simpl in *. subst rc cc. destruct up, down.
    + exists [RUpEnd; RDownEnd]. by eexists.
    + exists [RUpEnd]. by eexists.
    + exists [RDownEnd]. by eexists.
    + exists []. by eexists.
Qed.

(** ** UDP ASSOCIATE replies *)

(** What a client reads from a reply: status, address and port. *)
Definition parse_reply (b : bytes) : option (byte * bytes * Z) :=
  match b with
  | v :: rep :: x00 :: at' :: b =>
    if negb (byte_eqb v socks5Version) then None else
    let n := if byte_eqb at' atypIPv4 then 4 else 16 in
    '(ip, b) ← read_full n b; '(p, b) ← read_full 2 b; if bool_decide (b = []) then Some (rep, ip, be_get p) else None
  | _ => None
  end.

Lemma canonical_unspecified ip : ip_ok ip -> ip_is_unspecified ip = false -> ip_is_unspecified (canonical_ip ip) = false.
Proof.
  intros Hok Hun. unfold canonical_ip. destruct (To4 ip) as [v4|] eqn:E; [|done].
  pose proof (to4_length ip v4 E) as Hl. unfold To4 in E. destruct (zlen ip =? 4) eqn:E4; [by simplify_eq|].
  destruct (_ && _) eqn:E16; [|done]. injection E as <-. bool_to_prop.
  unfold ip_is_unspecified in *. bool_to_prop. rewrite !bool_decide_eq_false_2; [done|..].
  - intros E. match goal with H : ip <> v4_in_v6_prefix ++ _ |- _ => apply H end.
    rewrite <- (take_drop 12 ip). by f_equal.
  - intros E. apply (f_equal zlen) in E. rewrite Hl in E. done.
  - intros E. apply (f_equal zlen) in E. rewrite Hl in E. done.
Qed.

(** The reply to an UDP ASSOCIATE is well formed in every case; it reports
    success exactly when the relay loop runs, and then names the address and port of
    the session's socket, with 127.0.0.1 in place of an unspecified address. *)
Theorem udp_assoc_reply (s : SOCKS5Server) (picked : bool) (session : option (bytes * Z))
    (Hsession : forall ip port, session = Some (ip, port) -> (ip = [] \/ ip_ok ip) /\ 0 <= port < 65536) :
  let '(out, _, running) := handleUDPAssoc s picked session in
  exists rep ip port, parse_reply out = Some (rep, ip, port) /\ (rep = repSuccess <-> running = true) /\
    (running = true -> exists sip, session = Some (sip, port) /\ ip_is_unspecified ip = false /\
       (sip <> [] -> ip_is_unspecified sip = false -> ip = canonical_ip sip)).
Proof.
  unfold handleUDPAssoc. destruct (sv_DisableUDP s || _); [by eexists _, _, _|]. destruct picked; [|by eexists _, _, _].
  cbn [negb]. destruct session as [[ip port]|]; [|by eexists _, _, _]. destruct (Hsession ip port eq_refl) as [Hip Hport].
  set (rip := if _ || _ then _ else ip).
  assert (ip_ok rip /\ ip_is_unspecified rip = false /\ (ip <> [] -> ip_is_unspecified ip = false -> rip = ip)) as (Hok & Hun & Hsame).
  { unfold rip. destruct (bool_decide (ip = [])) eqn:E1; [|destruct (ip_is_unspecified ip) eqn:E2]; cbn [orb]; bool_to_prop.
    - split_and!; [by right|done|done].
    - split_and!; [by right|done|done].
    - destruct Hip; [done|]. by split_and!. }
  clearbody rip. exists repSuccess, (canonical_ip rip), port. split; [|split; [done|]].
  - unfold sendSOCKS5UDPReply, canonical_ip. destruct (To4 rip) as [v4|] eqn:E.
    + apply to4_length in E. cbn [app parse_reply]. change (byte_eqb socks5Version socks5Version) with true.
      change (byte_eqb atypIPv4 atypIPv4) with true. cbn [negb]. rewrite socks_read_full_app by done. cbn [mbind option_bind].
      rewrite <- (app_nil_r (put_u16 port)), socks_read_full_app by done. cbn [mbind option_bind].
      unfold put_u16. rewrite be_get_put_small by done. done.
    + destruct (to4_none_length rip Hok E) as [Hl Hc]. cbn [app parse_reply].
      change (byte_eqb socks5Version socks5Version) with true. change (byte_eqb atypIPv6 atypIPv4) with false. cbn [negb].
      rewrite Hc, socks_read_full_app by done. cbn [mbind option_bind].
      rewrite <- (app_nil_r (put_u16 port)), socks_read_full_app by done. cbn [mbind option_bind].
      unfold put_u16. rewrite be_get_put_small by done. done.
  - intros _. exists ip. split; [done|]. split; [|intros; by rewrite Hsame].
    by apply canonical_unspecified.
Qed.

(** ** Examples and witnesses *)

Example ip_string_examples :
  IP_String [xc0; xa8; x00; x0a] = str "192.168.0.10" /\
  IP_String (v4_in_v6_prefix ++ [x0a; x00; x00; x01]) = str "10.0.0.1" /\
  IP_String (replicate 16 x00) = str "::" /\
  IP_String (replicate 15 x00 ++ [x01]) = str "::1" /\
  IP_String ([x20; x01; x0d; xb8] ++ replicate 11 x00 ++ [x01]) = str "2001:db8::1" /\
  IP_String [x20; x01; x00; x00; x00; x00; x00; x01; x00; x00; x00; x00; x00; x00; x00; x02] = str "2001:0:0:1::2" /\
  IP_String [x20; x01; x00; x00; x0a; xbc; x00; x00; x00; x01; x00; x02; x00; x03; xff; xff] = str "2001:0:abc:0:1:2:3:ffff".
Proof. by vm_compute. Qed.

Lemma bittorrent_filter_exact_witness :
  isBitTorrentPort (addr_text (SA4 [x01; x02; x03; x04]) ++ [x3a] ++ Dec.print 6881) = true.
Proof. by rewrite (bittorrent_filter_exact (SA4 [x01; x02; x03; x04]) 6881 eq_refl ltac:(lia) ltac:(done)). Defined.

Lemma lan_ipv4_ranges_witness : lan_ip [xac; x1f; xff; xff] = true.
Proof. apply (lan_ipv4_ranges [xac; x1f; xff; xff] eq_refl). vm_compute. right. right. right. left. by split. Defined.

Lemma limiter_invariant_witness :
  exists l, acquire (str "127.0.0.1") (newConnLimiter 1) = Some l /\ acquire (str "127.0.0.1") l = None.
Proof.
  eexists. split; [reflexivity|].
  apply (limiter_invariant 1 _ ltac:(lia) (limiter_acquire 1 (newConnLimiter 1) (str "127.0.0.1") _ (limiter_new 1) eq_refl)).
  reflexivity.
Defined.

Lemma relay_streams_witness :
  exists r, relay_run (relay_start (str "hello") (str "world")) [RUp 2; RDown 5; RUpEnd] = Some r /\
    relay_step r (RDown 1) = None.
Proof.
  eexists. split; [reflexivity|].
  refine (proj2 (proj1 (proj2 (proj2 (proj2 (proj2 (relay_streams (str "hello") (str "world") [RUp 2; RDown 5; RUpEnd] _ eq_refl))))) _ 1%nat)).
  by left.
Defined.

Lemma udp_assoc_reply_witness :
  exists rep ip port, parse_reply (handleUDPAssoc NewSOCKS5Server true (Some (replicate 16 x00, 4000))).1.1 = Some (rep, ip, port).
Proof.
  assert (forall ip port, Some (replicate 16 x00, 4000) = Some (ip, port) -> (ip = [] \/ ip_ok ip) /\ 0 <= port < 65536) as Hs.
  { intros ip port [= <- <-]. split; [right; by right|lia]. }
  destruct (udp_assoc_reply NewSOCKS5Server true (Some (replicate 16 x00, 4000)) Hs) as (rep & ip & port & E & _).
  by exists rep, ip, port.
Defined.

Module Toy_socks.
(** One numeric address, 8.8.8.8. *)
#[export] Instance one_address : Net := {
  UDPAddr := bytes;
  UDPAddr_string := fun a => a;
  resolve_udp := fun s => Some s;
  parse_ip := fun s => if bool_decide (s = str "8.8.8.8") then Some (v4_in_v6_prefix ++ [x08; x08; x08; x08]) else None
}.
Definition everything : CIDRSet := mkCIDRSet [0] [0] [] [].
Definition manager : BypassManager := mkBypass [] None false (Some everything) (str "RU") true [] [] [] CFresh ∅.
Definition env (now : Z) : connect_env := mkEnv false true true (str "127.0.0.1:5000") now now now ∅.
End Toy_socks.

Lemma failed_bypass_not_retried_witness :
  let '(m1, acts) := handleConnect (H := Toy_socks.one_address) (fun _ => None) (NewSOCKS5ServerWithBypass true) (Toy_socks.env 0)
    (str "8.8.8.8:443") Toy_socks.manager in
  let '(_, acts2) := handleConnect (H := Toy_socks.one_address) (fun _ => None) (NewSOCKS5ServerWithBypass true) (Toy_socks.env minute)
    (str "8.8.8.8:443") m1 in
  CTunnel (str "8.8.8.8:443") ∈ acts /\ forall t w, CDirect t w ∉ acts2.
Proof.
  pose proof (failed_bypass_not_retried (H := Toy_socks.one_address) (fun _ => None) (NewSOCKS5ServerWithBypass true)
    (Toy_socks.env 0) (Toy_socks.env minute) (str "8.8.8.8:443") (v4_in_v6_prefix ++ [x08; x08; x08; x08]) Toy_socks.manager) as T.
  destruct (handleConnect _ _ (Toy_socks.env 0) _ _) as [m1 acts].
  destruct (handleConnect _ _ (Toy_socks.env minute) _ _) as [m2 acts2].
  destruct T as (_ & A & B & _); [by vm_compute..|]. by split.
Defined.
