(* ===== verification/Identity.v ===== *)
(** * Identity: node keys, signed payloads and the relay list (nodeid.go, key.go, relay.go)

    The files are optional contents, the loaded key pair a global variable of the
    code threaded explicitly.  Key generation, signing, the platform's encryption,
    HTTP and JSON are arguments. *)
From S2P Require Import Prelude Encoding Env DhtRelay.

(** ** key.go *)

Section verify.
Context `{Signatures}.

Definition VerifySignedPayload (payload pubkeyHex sigB64 : bytes) : res unit :=
  if bool_decide (pubkeyHex = []) then Err "verify: empty pubkey" else
  match Hex.decode pubkeyHex with
  | None => Err "verify: invalid pubkey"
  | Some pub =>
    if negb (zlen pub =? ed25519_public_key_size) then Err "verify: invalid pubkey" else
    match B64.decode sigB64 with
    | None => Err "verify: invalid signature encoding"
    | Some sig =>
      if negb (zlen sig =? ed25519_signature_size) then Err "verify: invalid signature encoding" else
      ok ← ed25519_verify pub payload sig;
      if ok : bool then Ok tt else Err "verify: signature verification failed"
    end
  end.
End verify.

(** ** nodeid.go *)

Definition ed25519_private_key_size : Z := 64.

(** [strings.TrimSpace] of an ASCII string. *)
Definition is_space (b : byte) : bool := bool_decide (b ∈ [x09; x0a; x0b; x0c; x0d; x20]).
Fixpoint trim_left (s : bytes) : bytes := match s with [] => [] | b :: s' => if is_space b then trim_left s' else s end.
Definition TrimSpace (s : bytes) : bytes := rev (trim_left (rev (trim_left s))).

Record node_files := mkFiles { nf_pub : option bytes; nf_key : option bytes }.
Record node_key := mkNodeKey { nk_pub : bytes; nk_priv : option bytes }.

(** What the system does during the generation of an identity. *)
Record gen_env := mkGen {
  ge_keypair : option (bytes * bytes);
  ge_mkdir : bool;
  ge_write_pub : bool;
  ge_write_key : bool
}.

Section node_id.
Context (encrypt decrypt : bytes -> option bytes).

(** The identity on disk, if it is accepted. *)
Definition stored_identity (fs : node_files) : option (bytes * node_key) :=
  pubHex ← nf_pub fs;
  let id := TrimSpace pubHex in
  if negb (zlen id =? 2 * ed25519_public_key_size) then None else
  encPriv ← nf_key fs;
  priv ← decrypt encPriv;
  if zlen priv =? ed25519_private_key_size then Some (id, mkNodeKey (default [] (Hex.decode id)) (Some priv)) else None.

(** The identifier returned, the files and the loaded key afterwards. *)
Definition LoadOrGenNodeID (ge : gen_env) (fs : node_files) (k : node_key) : res bytes * node_files * node_key :=
  match stored_identity fs with
  | Some (id, k) => (Ok id, fs, k)
  | None =>
    match ge_keypair ge with
    | None => (Err "nodeid: generate", fs, k)
    | Some (pub, priv) =>
      if negb (ge_mkdir ge) then (Err "mkdir", fs, k) else
      let id := Hex.encode pub in
      if negb (ge_write_pub ge) then (Err "nodeid: write pubkey", fs, k) else
      let fs := mkFiles (Some id) (nf_key fs) in
      match encrypt priv with
      | None => (Err "nodeid: encrypt privkey", fs, k)
      | Some enc =>
        if negb (ge_write_key ge) then (Err "nodeid: write privkey", fs, k) else
        (Ok id, mkFiles (Some id) (Some enc), mkNodeKey pub (Some priv))
      end
    end
  end.
End node_id.

Section signing.
(** [ed25519.Sign]. *)
Context (ed25519_sign : bytes -> bytes -> bytes).

Definition SignNodePayload (k : node_key) (payload : bytes) : res bytes :=
  match nk_priv k with None => Err "nodeid: key not loaded" | Some priv => Ok (ed25519_sign priv payload) end.

Definition BuildSignedRelayEntry (now : Z) (k : node_key) (nodeID addr countryCode : bytes) : res RelayEntry :=
  sig ← SignNodePayload k (relayEntryPayload (mkRelayEntry nodeID addr countryCode now []));
  Ok (mkRelayEntry nodeID addr countryCode now (B64.encode sig)).
End signing.

(** ** relay.go *)

(** [RelayEntry] of the relay list, format version 2. *)
Record ListEntry := mkListEntry { le_NodeID : bytes; le_Addr : bytes; le_CountryCode : bytes; le_ExpiresAt : Z }.
Record relay_list := mkRelayList { rlst_Version : Z; rlst_Relays : list ListEntry }.

#[global] Instance ListEntry_eq : EqDecision ListEntry. Proof. solve_decision. Defined.

Section relay_lists.
Context `{JSON relay_list} `{JSON (list ListEntry)}.

Definition usable (now : Z) (e : ListEntry) : bool :=
  negb (bool_decide (le_NodeID e = [])) && negb (bool_decide (le_Addr e = [])) && (le_ExpiresAt e >? now).

(** [get url] is the body of the answer, whatever its status. *)
Definition FetchRelayList (get : bytes -> option bytes) (now : Z) (apiURL : bytes) : res (list ListEntry) :=
  match get (trim_right_slash apiURL ++ str "/p/v1/relay/list") with
  | None => Err "GET failed"
  | Some body =>
    match json_unmarshal body with
    | None => Err "unmarshal failed"
    | Some l =>
      if rlst_Version l <? 2 then Err "relay list: unsupported version" else Ok (List.filter (usable now) (rlst_Relays l))
    end
  end.

(** The new content of the file; [wrote] tells whether the write succeeds. *)
Definition SaveRelayList (wrote : bool) (file : option bytes) (relays : list ListEntry) : option bytes * bool :=
  match json_marshal relays with
  | None => (file, false)
  | Some data => if wrote then (Some data, true) else (file, false)
  end.

Inductive file_read := FMissing | FUnreadable | FContent (data : bytes).

Definition LoadRelayList (f : file_read) : res (list ListEntry) :=
  match f with
  | FMissing => Ok []
  | FUnreadable => Err "read"
  | FContent data => match json_unmarshal data with None => Err "unmarshal" | Some l => Ok l end
  end.
End relay_lists.

(** The loop with its two accumulators. *)
Fixpoint by_country (cc : bytes) (l same other : list ListEntry) : list ListEntry :=
  match l with
  | [] => same ++ other
  | e :: l => if bool_decide (le_CountryCode e = cc) then by_country cc l (same ++ [e]) other
              else by_country cc l same (other ++ [e])
  end.

Definition RelaysByCountry (relays : list ListEntry) (preferCC : bytes) : list ListEntry :=
  if bool_decide (preferCC = []) || (zlen relays =? 0) then relays else by_country preferCC relays [] [].

(** The address [FetchMyIP] reports; [parse] is the ip field of the answer. *)
Definition FetchMyIP (get : bytes -> option bytes) (parse : bytes -> option bytes) (apiURL : bytes) : res bytes :=
  match get (trim_right_slash apiURL ++ str "/p/v1/myip") with
  | None => Err "GET failed"
  | Some body =>
    match parse body with
    | None => Err "parse myip response"
    | Some ip => if bool_decide (ip = []) then Err "empty IP in response" else Ok ip
    end
  end.

(** ** Lemmas *)

Lemma trim_left_none s : forallb (fun b => negb (is_space b)) s = true -> trim_left s = s.
Proof. destruct s as [|b s]; [done|]. simpl. intros [Hb _]%andb_prop. by apply negb_true_iff in Hb as ->. Qed.

Lemma TrimSpace_none s : forallb (fun b => negb (is_space b)) s = true -> TrimSpace s = s.
Proof.
  intros Hs. unfold TrimSpace. rewrite (trim_left_none s) by done. rewrite trim_left_none; [by rewrite rev_involutive|].
  rewrite forallb_forall in *. intros b Hb. apply Hs. by apply in_rev.
Qed.

Lemma hex_no_space l : forallb (fun b => negb (is_space b)) (Hex.encode l) = true.
Proof.
  induction l as [|b l IH]; [done|]. cbn [Hex.encode forallb]. rewrite IH, andb_true_r. clear. by destruct b; vm_compute.
Qed.

Lemma zlen_hex l : zlen (Hex.encode l) = 2 * zlen l.
Proof. unfold zlen. rewrite Hex.length_encode. lia. Qed.

Section verify_facts.
Context `{Signatures}.

(** A signed payload is accepted exactly when the key is the hex form of 32
    bytes, the signature the base64 form of 64 bytes, and the signature verifies;
    no input makes the check panic. *)
Theorem verify_payload_iff (payload pubkeyHex sigB64 : bytes) :
  VerifySignedPayload payload pubkeyHex sigB64 <> Panic /\
  (VerifySignedPayload payload pubkeyHex sigB64 = Ok tt <->
   exists pub sig, Hex.decode pubkeyHex = Some pub /\ zlen pub = 32 /\ B64.decode sigB64 = Some sig /\ zlen sig = 64 /\
     ed25519_check pub payload sig = true).
Proof.
  unfold VerifySignedPayload. case_bool_decide as E0.
  { subst. split; [done|]. split; [done|]. by intros (pub & sig & [= <-] & ? & _). }
  destruct (Hex.decode pubkeyHex) as [pub|]; [|split; [done|]; naive_solver].
  destruct (zlen pub =? ed25519_public_key_size) eqn:E1; cbn [negb];
    [|split; [done|]; split; [done|]; intros (? & ? & [= <-] & ? & _); bool_to_prop; by destruct E1].
  destruct (B64.decode sigB64) as [sig|]; [|split; [done|]; naive_solver].
  destruct (zlen sig =? ed25519_signature_size) eqn:E2; cbn [negb];
    [|split; [done|]; split; [done|]; intros (? & ? & _ & _ & [= <-] & ? & _); bool_to_prop; by destruct E2].
  unfold ed25519_verify. rewrite E1. cbn [mbind res_bind]. bool_to_prop.
  destruct (ed25519_check pub payload sig) eqn:E3; split; try done; split; try done.
  - intros _. by exists pub, sig.
  - intros (? & ? & [= <-] & _ & [= <-] & _ & ?). congruence.
Qed.
End verify_facts.

Section identity_facts.
Context `{Signatures} (encrypt decrypt : bytes -> option bytes) (ed25519_sign : bytes -> bytes -> bytes) (pub_of : bytes -> bytes).

(** An identity, once generated, is stable: its identifier is the hex form of
    the public key, and every later start loads the same identifier and the same
    keys and changes no file. *)
Theorem identity_persists (ge ge2 : gen_env) (fs fs1 : node_files) (k0 k k' : node_key) (id : bytes)
    (Hcodec : forall b c, encrypt b = Some c -> decrypt c = Some b)
    (Hsizes : forall pub priv, ge_keypair ge = Some (pub, priv) -> zlen pub = 32 /\ zlen priv = 64)
    (Hnone : stored_identity decrypt fs = None)
    (Hgen : LoadOrGenNodeID encrypt decrypt ge fs k0 = (Ok id, fs1, k)) :
  id = Hex.encode (nk_pub k) /\ LoadOrGenNodeID encrypt decrypt ge2 fs1 k' = (Ok id, fs1, k).
Proof.
  unfold LoadOrGenNodeID in Hgen. rewrite Hnone in Hgen. destruct (ge_keypair ge) as [[pub priv]|]; [|done].
  destruct (Hsizes pub priv eq_refl) as [Hp Hs]. destruct (ge_mkdir ge), (ge_write_pub ge); try done. cbn [negb] in Hgen.
  destruct (encrypt priv) as [enc|] eqn:Ee; [|done]. destruct (ge_write_key ge); [|done]. cbn [negb] in Hgen.
  injection Hgen as <- <- <-. split; [done|]. unfold LoadOrGenNodeID, stored_identity. cbn [nf_pub nf_key mbind option_bind].
  rewrite TrimSpace_none by apply hex_no_space. rewrite zlen_hex, Hp. cbn [negb].
  rewrite (Hcodec _ _ Ee). cbn [mbind option_bind]. rewrite Hs. by rewrite Hex.hex_decode_encode.
Qed.

(** C39: the relay entry a node builds with a generated identity verifies, and every
    DHT node whose clock is within the lifetime of an entry stores it, unless it has
    one as new. *)
Theorem built_entry_accepted (ge : gen_env) (fs fs1 : node_files) (k0 k : node_key) (id addr cc : bytes) (now now' : Z) (s : relayStore)
    (Hsign : forall priv msg, zlen (ed25519_sign priv msg) = 64 /\ ed25519_check (pub_of priv) msg (ed25519_sign priv msg) = true)
    (Hpair : forall pub priv, ge_keypair ge = Some (pub, priv) -> zlen pub = 32 /\ zlen priv = 64 /\ pub = pub_of priv)
    (Hnone : stored_identity decrypt fs = None)
    (Hgen : LoadOrGenNodeID encrypt decrypt ge fs k0 = (Ok id, fs1, k))
    (Hclock : -120 <= now' - now <= 120) :
  exists e, BuildSignedRelayEntry ed25519_sign now k id addr cc = Ok e /\ VerifyRelayEntry e = Ok tt /\
    (relay_store now' s e).1 = Ok tt /\
    exists e', (relay_store now' s e).2 !! id = Some e' /\ now <= re_TS e' /\ ((forall x, s !! id = Some x -> re_TS x < now) -> e' = e).
Proof.
  unfold LoadOrGenNodeID in Hgen. rewrite Hnone in Hgen. destruct (ge_keypair ge) as [[pub priv]|]; [|done].
  destruct (Hpair pub priv eq_refl) as (Hp & Hs & Hpub). destruct (ge_mkdir ge), (ge_write_pub ge); try done. cbn [negb] in Hgen.
  destruct (encrypt priv) as [enc|]; [|done]. destruct (ge_write_key ge); [|done]. cbn [negb] in Hgen.
  injection Hgen as <- <- <-. eexists. split; [reflexivity|].
  set (e := mkRelayEntry _ _ _ _ _). assert (VerifyRelayEntry e = Ok tt) as Hv.
  { unfold VerifyRelayEntry, e. cbn [re_NodeID re_Sig]. rewrite zlen_hex, Hp. cbn [negb].
    rewrite Hex.hex_decode_encode, B64.b64_decode_encode. destruct (Hsign priv (relayEntryPayload (mkRelayEntry (Hex.encode pub) addr cc now []))) as [Hl Hc].
    rewrite Hl. cbn [negb]. unfold ed25519_verify. rewrite Hp. cbn [mbind res_bind].
    change (relayEntryPayload (mkRelayEntry (Hex.encode pub) addr cc now (B64.encode _))) with
      (relayEntryPayload (mkRelayEntry (Hex.encode pub) addr cc now [])).
    rewrite Hpub at 1. by rewrite Hc. }
  assert (relay_stale now' e = false) as Hst.
  { unfold relay_stale, e. cbn [re_TS]. rewrite wrap64_id by (unfold int64; lia). change RelayTTL_seconds with 120.
    apply orb_false_iff. split; lia. }
  split; [done|]. unfold relay_store. rewrite Hv, Hst. change (re_NodeID e) with (Hex.encode pub).
  destruct (s !! Hex.encode pub) as [x|] eqn:Ex.
  - destruct (re_TS x >=? re_TS e) eqn:Et; (split; [done|]); simpl.
    + exists x. split; [done|]. simpl in Et. split; [lia|]. intros Hold. specialize (Hold x eq_refl). lia.
    + exists e. rewrite lookup_insert_eq. split; [done|]. split; [simpl; lia|done].
  - split; [done|]. simpl. exists e. rewrite lookup_insert_eq. split; [done|]. split; [simpl; lia|done].
Qed.

(** The stored identifier is not compared with the stored key: 64 arbitrary
    characters beside a private key are loaded as the node's identity, and a relay
    entry built with them does not verify unless they happen to be the hex form of
    a key the signature verifies under. *)
Theorem foreign_identity_loaded (ge : gen_env) (id enc priv addr cc : bytes) (k0 : node_key) (now : Z)
    (Hid : TrimSpace id = id) (Hlen : zlen id = 64) (Hdec : decrypt enc = Some priv) (Hpriv : zlen priv = 64)
    (Hnothex : Hex.decode id = None) :
  let '(r, fs, k) := LoadOrGenNodeID encrypt decrypt ge (mkFiles (Some id) (Some enc)) k0 in
  r = Ok id /\ exists e, BuildSignedRelayEntry ed25519_sign now k id addr cc = Ok e /\ is_err (VerifyRelayEntry e) = true.
Proof.
  unfold LoadOrGenNodeID, stored_identity. cbn [nf_pub nf_key mbind option_bind]. rewrite Hid, Hlen. cbn [negb].
  rewrite Hdec. cbn [mbind option_bind]. rewrite Hpriv. change (64 =? ed25519_private_key_size) with true.
  change (64 =? 2 * ed25519_public_key_size) with true. cbn [negb]. split; [done|].
  eexists. split; [reflexivity|]. unfold VerifyRelayEntry. cbn [re_NodeID]. rewrite Hlen.
  change (64 =? 2 * ed25519_public_key_size) with true. cbn [negb]. by rewrite Hnothex.
Qed.
End identity_facts.

(** ** Relay lists *)

Lemma by_country_spec cc l same other :
  by_country cc l same other =
  (same ++ List.filter (fun e => bool_decide (le_CountryCode e = cc)) l) ++
  (other ++ List.filter (fun e => negb (bool_decide (le_CountryCode e = cc))) l).
Proof.
  revert same other. induction l as [|e l IH]; intros same other; simpl; [by rewrite !app_nil_r|].
  case_bool_decide; simpl; rewrite IH, <- !app_assoc; done.
Qed.

(** The preferred country comes first and nothing else changes: the result is a
    permutation of the list in which both groups keep their order. *)
Theorem relays_by_country_stable (relays : list ListEntry) (cc : bytes) :
  Permutation relays (RelaysByCountry relays cc) /\
  RelaysByCountry relays cc =
    if bool_decide (cc = []) then relays
    else List.filter (fun e => bool_decide (le_CountryCode e = cc)) relays ++
         List.filter (fun e => negb (bool_decide (le_CountryCode e = cc))) relays.
Proof.
  assert (RelaysByCountry relays cc = if bool_decide (cc = []) then relays
    else List.filter (fun e => bool_decide (le_CountryCode e = cc)) relays ++
         List.filter (fun e => negb (bool_decide (le_CountryCode e = cc))) relays) as E.
  { unfold RelaysByCountry. case_bool_decide; [done|]. cbn [orb]. destruct relays as [|e l]; [done|].
    rewrite (proj2 (Z.eqb_neq _ _)) by (rewrite zlen_cons; pose proof (zlen_nonneg l); lia). by rewrite by_country_spec. }
  split; [|done]. rewrite E. case_bool_decide; [done|]. clear E.
  induction relays as [|e l IH]; [done|]. simpl. case_bool_decide; simpl; [by constructor|].
  rewrite <- Permutation_middle. by constructor.
Qed.

Section lists.
Context `{JSON relay_list} `{JSON (list ListEntry)} (ok : list ListEntry -> Prop) `{!JSONLaws (list ListEntry) ok}.

(** A fetched list contains exactly the complete and unexpired entries of an
    answer of version 2 or later, in order; saving it and loading it again after a
    restart gives it back. *)
Theorem relay_list_kept (get : bytes -> option bytes) (now : Z) (apiURL : bytes) (l : list ListEntry) (file : option bytes)
    (Hfetch : FetchRelayList get now apiURL = Ok l) (Hok : ok l) :
  (exists body ans, get (trim_right_slash apiURL ++ str "/p/v1/relay/list") = Some body /\ json_unmarshal body = Some ans /\
     2 <= rlst_Version ans /\
     forall e, e ∈ l <-> e ∈ rlst_Relays ans /\ le_NodeID e <> [] /\ le_Addr e <> [] /\ now < le_ExpiresAt e) /\
  exists data, SaveRelayList true file l = (Some data, true) /\ LoadRelayList (FContent data) = Ok l.
Proof.
  split.
  - unfold FetchRelayList in Hfetch. destruct (get _) as [body|] eqn:Eg; [|done].
    destruct (json_unmarshal body) as [ans|] eqn:Ej; [|done]. destruct (rlst_Version ans <? 2) eqn:Ev; [done|].
    injection Hfetch as <-. bool_to_prop. exists body, ans. split; [done|]. split; [done|]. split; [done|].
    intros e. rewrite list_elem_of_In, filter_In, <- list_elem_of_In. unfold usable.
    rewrite !andb_true_iff, !negb_true_iff, !bool_decide_eq_false, Z.gtb_lt. tauto.
  - unfold SaveRelayList, LoadRelayList. destruct (json_marshal_total l Hok) as [data E]. exists data. rewrite E.
    split; [done|]. by rewrite (json_roundtrip l data Hok E).
Qed.
End lists.

(** ** Concrete instances and witnesses *)

#[global] Program Instance ListEntry_countable : Countable ListEntry :=
  inj_countable' (fun e => (le_NodeID e, le_Addr e, le_CountryCode e, le_ExpiresAt e)) (fun '(a, b, c, d) => mkListEntry a b c d) _.
Next Obligation. by intros []. Qed.
#[global] Instance relay_list_eq : EqDecision relay_list. Proof. solve_decision. Defined.
#[global] Program Instance relay_list_countable : Countable relay_list :=
  inj_countable' (fun l => (rlst_Version l, rlst_Relays l)) (fun '(a, b) => mkRelayList a b) _.
Next Obligation. by intros []. Qed.

Module Toy_identity.
#[export] Existing Instances Toy.signatures.
#[export] Instance json_relay_list : JSON relay_list := Toy.json_of_countable _.
#[export] Instance json_entries : JSON (list ListEntry) := Toy.json_of_countable _.

Definition sign (priv msg : bytes) : bytes := Toy.sign msg.
Definition keep (b : bytes) : option bytes := Some b.
Definition gen : gen_env := mkGen (Some (replicate 32 x07, replicate 64 x09)) true true true.
Definition no_files : node_files := mkFiles None None.
Definition no_key : node_key := mkNodeKey [] None.
Definition the_id : bytes := Hex.encode (replicate 32 x07).
Definition the_files : node_files := mkFiles (Some the_id) (Some (replicate 64 x09)).
Definition the_key : node_key := mkNodeKey (replicate 32 x07) (Some (replicate 64 x09)).
Definition entry (now : Z) (id : bytes) : ListEntry := mkListEntry id (str "1.2.3.4:5") (str "RU") now.
Definition answer : relay_list := mkRelayList 2 [entry 5 (str "a"); entry 20 (str "b")].
Definition serve (u : bytes) : option bytes := json_marshal answer.

Lemma toy_sign_ok priv msg : zlen (sign priv msg) = 64 /\ ed25519_check (replicate 32 x07) msg (sign priv msg) = true.
Proof. split; [unfold zlen, sign, Toy.sign; by rewrite length_copy|]. by apply bool_decide_eq_true_2. Qed.
End Toy_identity.

Section witnesses.
Import Toy_identity.

Lemma identity_persists_witness :
  exists id fs k, LoadOrGenNodeID keep keep gen no_files no_key = (Ok id, fs, k) /\
    LoadOrGenNodeID keep keep (mkGen None false false false) fs no_key = (Ok id, fs, k).
Proof.
  eexists _, _, _. split; [reflexivity|].
  refine (proj2 (identity_persists keep keep gen (mkGen None false false false) no_files _ no_key _ no_key _ _ _ eq_refl eq_refl)).
  - by intros b c [= ->].
  - by intros pub priv [= <- <-].
Defined.

Lemma built_entry_accepted_witness :
  exists id fs k e, LoadOrGenNodeID keep keep gen no_files no_key = (Ok id, fs, k) /\
    BuildSignedRelayEntry sign 100 k id (str "1.2.3.4:5") (str "RU") = Ok e /\ VerifyRelayEntry e = Ok tt.
Proof.
  exists the_id, the_files, the_key.
  destruct (built_entry_accepted keep keep sign (fun _ => replicate 32 x07) gen no_files the_files no_key the_key the_id
    (str "1.2.3.4:5") (str "RU") 100 160 ∅ toy_sign_ok) as (e & E & V & _); [|reflexivity|reflexivity|lia|].
  - by intros pub priv [= <- <-].
  - exists e. split; [reflexivity|]. split; [exact E|exact V].
Defined.

Lemma foreign_identity_loaded_witness :
  let '(r, fs, k) := LoadOrGenNodeID keep keep gen (mkFiles (Some (replicate 64 x7a)) (Some (replicate 64 x09))) no_key in
  r = Ok (replicate 64 x7a).
Proof.
  pose proof (foreign_identity_loaded keep keep sign gen (replicate 64 x7a) (replicate 64 x09) (replicate 64 x09) (str "a") (str "RU")
    no_key 100 eq_refl eq_refl eq_refl eq_refl eq_refl) as H.
  destruct (LoadOrGenNodeID _ _ _ _ _) as [[r fs] k]. exact (proj1 H).
Defined.

Lemma relay_list_kept_witness :
  exists data, SaveRelayList true None [entry 20 (str "b")] = (Some data, true) /\ LoadRelayList (FContent data) = Ok [entry 20 (str "b")].
Proof.
  apply (relay_list_kept (fun _ => True) (JSONLaws0 := Toy.json_of_countable_laws _ _) serve 10 (str "https://c/") [entry 20 (str "b")] None).
  - unfold FetchRelayList. destruct (serve _) as [body|] eqn:E; [|done].
    assert (json_unmarshal body = Some answer) as ->; [|done].
    exact (@json_roundtrip _ _ (fun _ => True) (Toy.json_of_countable_laws _ _) answer body I E).
  - done.
Defined.
End witnesses.
