(* ===== verification/Router.v ===== *)
(** * Router: choice of a control node and of relays (router.go)

    The state of the router under its locks.  Nodes are shared objects: a probe that
    was started before the list was replaced still writes to its node, so a node
    carries its address in the heap ([rn_ptr]) and a write to a node that is no
    longer listed has no effect on the router.  An operation happens at one instant
    [now] (nanoseconds).  Scores are whole milliseconds, which float64 represents
    exactly; the field Loss is never written and stays 0.  The weighted mean of the
    two round-trip times, the order [rand.Shuffle] produces and the probes are
    arguments. *)
From S2P Require Import Prelude Encoding Env DhtRelay Bypass Socks5 Identity.

Inductive controlTransport := transportTCP | transportUDP.
#[global] Instance controlTransport_eq : EqDecision controlTransport. Proof. solve_decision. Defined.

Record routerNode := mkNode {
  rn_ptr : Z;
  rn_ID : bytes;
  rn_Addr : bytes;
  rn_OperatorID : bytes;
  rn_CountryCode : bytes;
  rn_RTT : Z;
  rn_TrafficRTT : Z;
  rn_LastSeen : Z;
  rn_IsAlive : bool;
  rn_transport : controlTransport
}.

Record RouterPathNode := mkPathNode { pn_ID : bytes; pn_Addr : bytes }.

(** An UDP relay connection is a number. *)
Record RouterPath := mkPath {
  rp_Relays : list RouterPathNode;
  rp_ControlAddr : bytes;
  rp_Score : Z;
  rp_UDPRelay : option Z
}.

Definition IsDirect (p : RouterPath) : bool := bool_decide (length (rp_Relays p) = 0%nat).

Record Router := mkRouter {
  r_relays : list routerNode;
  r_controls : list routerNode;
  r_paths : list RouterPath;
  r_pathIdx : Z;
  r_myCountry : bytes;
  r_dataDead : gmap bytes Z;
  r_udpDataFailed : gmap bytes Z;
  r_selfNodeID : bytes;
  r_udpPeers : gmap bytes Z;
  r_flaps : gmap bytes (list Z);
  r_next : Z                                       (* next free heap address *)
}.

Definition NewRouter : Router := mkRouter [] [] [] 0 [] ∅ ∅ [] ∅ ∅ 0.

Definition rsec : Z := 1000000000.
Definition rms : Z := 1000000.
Definition flapWindow : Z := 300 * rsec.
Definition flapPenaltyPerEviction : Z := 200 * rms.
Definition flapPenaltyCap : Z := 2 * rsec.
Definition udpOnlyPenalty : Z := 30 * rsec.

(** [time.Duration.Milliseconds]. *)
Definition Milliseconds (d : Z) : Z := Z.quot d rms.

(** ** Addresses *)

Definition trimPrefix (s prefix : bytes) : bytes :=
  if (zlen prefix <=? zlen s) && bool_decide (take (length prefix) s = prefix) then drop (length prefix) s else s.

Definition normaliseAddr (addr : bytes) : bytes :=
  let addr := trimPrefix (trimPrefix addr (str "https://")) (str "http://") in
  let addr := match find_byte x2f addr with Some i => take i addr | None => addr end in
  match split_host_port addr with None => addr ++ str ":443" | Some _ => addr end.

(** ** State changes *)

Definition with_controls (r : Router) (l : list routerNode) : Router :=
  mkRouter (r_relays r) l (r_paths r) (r_pathIdx r) (r_myCountry r) (r_dataDead r) (r_udpDataFailed r) (r_selfNodeID r)
    (r_udpPeers r) (r_flaps r) (r_next r).
Definition with_relays (r : Router) (l : list routerNode) : Router :=
  mkRouter l (r_controls r) (r_paths r) (r_pathIdx r) (r_myCountry r) (r_dataDead r) (r_udpDataFailed r) (r_selfNodeID r)
    (r_udpPeers r) (r_flaps r) (r_next r).
Definition with_next (r : Router) (n : Z) : Router :=
  mkRouter (r_relays r) (r_controls r) (r_paths r) (r_pathIdx r) (r_myCountry r) (r_dataDead r) (r_udpDataFailed r)
    (r_selfNodeID r) (r_udpPeers r) (r_flaps r) n.
Definition with_paths (r : Router) (ps : list RouterPath) (i : Z) : Router :=
  mkRouter (r_relays r) (r_controls r) ps i (r_myCountry r) (r_dataDead r) (r_udpDataFailed r) (r_selfNodeID r)
    (r_udpPeers r) (r_flaps r) (r_next r).
Definition with_peers (r : Router) (m : gmap bytes Z) : Router :=
  mkRouter (r_relays r) (r_controls r) (r_paths r) (r_pathIdx r) (r_myCountry r) (r_dataDead r) (r_udpDataFailed r)
    (r_selfNodeID r) m (r_flaps r) (r_next r).

Definition SetSelfNodeID (id : bytes) (r : Router) : Router :=
  mkRouter (r_relays r) (r_controls r) (r_paths r) (r_pathIdx r) (r_myCountry r) (r_dataDead r) (r_udpDataFailed r) id
    (r_udpPeers r) (r_flaps r) (r_next r).

Definition SetMyCountry (cc : bytes) (r : Router) : Router :=
  mkRouter (r_relays r) (r_controls r) (r_paths r) (r_pathIdx r) cc (r_dataDead r) (r_udpDataFailed r) (r_selfNodeID r)
    (r_udpPeers r) (r_flaps r) (r_next r).

Definition MarkControlDataDead (addr : bytes) (until : Z) (r : Router) : Router :=
  mkRouter (r_relays r) (r_controls r) (r_paths r) (r_pathIdx r) (r_myCountry r) (<[addr := until]> (r_dataDead r))
    (r_udpDataFailed r) (r_selfNodeID r) (r_udpPeers r) (r_flaps r) (r_next r).

(** The loops that change the first matching node and stop. *)
Fixpoint update_first (p : routerNode -> bool) (f : routerNode -> routerNode) (l : list routerNode) : list routerNode :=
  match l with
  | [] => []
  | n :: l => if p n then f n :: l else n :: update_first p f l
  end.

Definition set_alive (now : Z) (n : routerNode) : routerNode :=
  mkNode (rn_ptr n) (rn_ID n) (rn_Addr n) (rn_OperatorID n) (rn_CountryCode n) (rn_RTT n) (rn_TrafficRTT n) now true (rn_transport n).
Definition set_dead (n : routerNode) : routerNode :=
  mkNode (rn_ptr n) (rn_ID n) (rn_Addr n) (rn_OperatorID n) (rn_CountryCode n) (rn_RTT n) (rn_TrafficRTT n) (rn_LastSeen n)
    false (rn_transport n).
Definition set_transport (t : controlTransport) (n : routerNode) : routerNode :=
  mkNode (rn_ptr n) (rn_ID n) (rn_Addr n) (rn_OperatorID n) (rn_CountryCode n) (rn_RTT n) (rn_TrafficRTT n) (rn_LastSeen n)
    (rn_IsAlive n) t.
Definition set_rtt (rtt : Z) (n : routerNode) : routerNode :=
  mkNode (rn_ptr n) (rn_ID n) (rn_Addr n) (rn_OperatorID n) (rn_CountryCode n) rtt (rn_TrafficRTT n) (rn_LastSeen n)
    (rn_IsAlive n) (rn_transport n).
Definition set_traffic_rtt (rtt : Z) (n : routerNode) : routerNode :=
  mkNode (rn_ptr n) (rn_ID n) (rn_Addr n) (rn_OperatorID n) (rn_CountryCode n) (rn_RTT n) rtt (rn_LastSeen n)
    (rn_IsAlive n) (rn_transport n).

Definition has_addr (addr : bytes) (n : routerNode) : bool := bool_decide (rn_Addr n = addr).

Definition MarkControlAlive (now : Z) (addr : bytes) (r : Router) : Router :=
  with_controls r (update_first (has_addr (normaliseAddr addr)) (set_alive now) (r_controls r)).

Definition MarkUDPDataFailed (now : Z) (addr : bytes) (r : Router) : Router :=
  let r := with_controls r (update_first (fun n => has_addr addr n && bool_decide (rn_transport n = transportUDP))
                              (set_transport transportTCP) (r_controls r)) in
  mkRouter (r_relays r) (r_controls r) (r_paths r) (r_pathIdx r) (r_myCountry r) (r_dataDead r)
    (<[addr := now + 300 * rsec]> (r_udpDataFailed r)) (r_selfNodeID r) (r_udpPeers r) (r_flaps r) (r_next r).

Definition UpdateControlRTT (addr : bytes) (rtt : Z) (r : Router) : Router :=
  with_controls r (update_first (has_addr addr) (set_rtt rtt) (r_controls r)).

Definition UpdateTrafficRTT (addr : bytes) (rtt : Z) (r : Router) : Router :=
  let norm := normaliseAddr addr in
  if existsb (has_addr norm) (r_controls r)
  then with_controls r (update_first (has_addr norm) (set_traffic_rtt rtt) (r_controls r))
  else with_relays r (update_first (has_addr norm) (set_traffic_rtt rtt) (r_relays r)).

Definition MarkRelayAlive (now : Z) (id : bytes) (r : Router) : Router :=
  with_relays r (update_first (fun n => bool_decide (rn_ID n = id) || has_addr id n) (set_alive now) (r_relays r)).

(** ** The lists of nodes *)

Definition fresh_node (ptr now : Z) (id addr op cc : bytes) : routerNode :=
  mkNode ptr id (normaliseAddr addr) op cc 0 0 now true transportTCP.

Fixpoint fresh_controls (ptr now : Z) (regions : gmap bytes bytes) (addrs : list bytes) : list routerNode :=
  match addrs with
  | [] => []
  | a :: addrs => fresh_node ptr now a a a (default [] (regions !! a)) :: fresh_controls (ptr + 1) now regions addrs
  end.

Definition SetControlsWithRegions (now : Z) (addrs : list bytes) (regions : gmap bytes bytes) (r : Router) : Router :=
  with_next (with_controls r (fresh_controls (r_next r) now regions addrs)) (r_next r + zlen addrs).

Definition SetControls (now : Z) (addrs : list bytes) (r : Router) : Router := SetControlsWithRegions now addrs ∅ r.
Definition SetControl (now : Z) (addr : bytes) (r : Router) : Router := SetControls now [addr] r.

Fixpoint fresh_relays (ptr now : Z) (l : list ListEntry) : list routerNode :=
  match l with
  | [] => []
  | e :: l => fresh_node ptr now (le_NodeID e) (le_Addr e) (host_of (le_Addr e)) (le_CountryCode e) :: fresh_relays (ptr + 1) now l
  end.

Definition UpdateRelays (now : Z) (l : list ListEntry) (r : Router) : Router :=
  with_next (with_relays r (fresh_relays (r_next r) now l)) (r_next r + zlen l).

(** The loop of [MergeDHTRelays]; [known] are the identifiers seen so far. *)
Fixpoint merge_loop (now : Z) (self : bytes) (known : gset bytes) (ptr : Z) (entries : list RelayEntry) (acc : list routerNode)
    : list routerNode * Z :=
  match entries with
  | [] => (acc, ptr)
  | e :: entries =>
    if bool_decide (re_NodeID e ∈ known) then merge_loop now self known ptr entries acc
    else if negb (bool_decide (self = [])) && bool_decide (re_NodeID e = self) then merge_loop now self known ptr entries acc
    else merge_loop now self ({[re_NodeID e]} ∪ known) (ptr + 1) entries
           (acc ++ [fresh_node ptr now (re_NodeID e) (re_Addr e) (host_of (re_Addr e)) (re_CountryCode e)])
  end.

Definition MergeDHTRelays (now : Z) (entries : list RelayEntry) (r : Router) : Router :=
  if zlen entries =? 0 then r else
  let '(l, ptr) := merge_loop now (r_selfNodeID r) (list_to_set (rn_ID <$> r_relays r)) (r_next r) entries (r_relays r) in
  with_next (with_relays r l) ptr.

(** ** UDP peers: the connections closed by an operation are listed *)

Definition RegisterUDPPeer (key : bytes) (conn : Z) (r : Router) : Router * list Z :=
  (with_peers r (<[key := conn]> (r_udpPeers r)), match r_udpPeers r !! key with Some old => [old] | None => [] end).

Definition RemoveUDPPeer (key : bytes) (r : Router) : Router * list Z :=
  match r_udpPeers r !! key with
  | Some c => (with_peers r (delete key (r_udpPeers r)), [c])
  | None => (r, [])
  end.

Definition CloseAllUDPPeers (r : Router) : Router * list Z := (with_peers r ∅, snd <$> map_to_list (r_udpPeers r)).

Definition udpPeer (r : Router) (id addr : bytes) : option Z :=
  match r_udpPeers r !! id with Some c => Some c | None => r_udpPeers r !! addr end.

Definition HasUDPPeer (failed : Z -> bool) (nodeID : bytes) (r : Router) : bool :=
  match r_udpPeers r !! nodeID with Some c => negb (failed c) | None => false end.

(** ** Probes *)

(** The write of a probe to its node. *)
Definition write_node (ptr : Z) (f : routerNode -> routerNode) (l : list routerNode) : list routerNode :=
  (fun n => if rn_ptr n =? ptr then f n else n) <$> l.

Definition write_control (ptr : Z) (f : routerNode -> routerNode) (r : Router) : Router :=
  with_controls r (write_node ptr f (r_controls r)).

(** After the TCP probe of node [n]; the flag tells whether the UDP probe follows. *)
Definition probe_tcp (now : Z) (n : routerNode) (rtt : option Z) (r : Router) : Router * bool :=
  match rtt with
  | Some rtt => (write_control (rn_ptr n) (fun n => set_transport transportTCP (set_alive now (set_rtt rtt n))) r, false)
  | None =>
    if match r_udpDataFailed r !! rn_Addr n with Some t => now <? t | None => false end
    then (write_control (rn_ptr n) (fun n => set_transport transportTCP (set_dead n)) r, false)
    else (r, true)
  end.

Definition probe_udp (now : Z) (n : routerNode) (rtt : option Z) (r : Router) : Router :=
  match rtt with
  | Some rtt => write_control (rn_ptr n) (fun n => set_transport transportUDP (set_alive now (set_rtt rtt n))) r
  | None => write_control (rn_ptr n) (fun n => set_transport transportTCP (set_dead n)) r
  end.

(** One goroutine of [ProbeDataPlane] run without interruption. *)
Definition probe_control (now now' : Z) (n : routerNode) (tcp udp : option Z) (r : Router) : Router :=
  let '(r, next) := probe_tcp now n tcp r in if next then probe_udp now' n udp r else r.

(** One goroutine of [MeasureRTTs]; the node is a relay or a control. *)
Definition measure (now : Z) (n : routerNode) (rtt : option Z) (r : Router) : Router :=
  let f n := match rtt with Some rtt => set_alive now (set_rtt rtt n) | None => set_dead n end in
  with_relays (write_control (rn_ptr n) f r) (write_node (rn_ptr n) f (r_relays r)).

(** The end of [probeControlPing] and [ProbeControlE2E]: [body] is the decoded
    answer, its flag and its rtt_ms already in nanoseconds. *)
Definition probe_answer (elapsed : Z) (body : option (bool * Z)) : option Z :=
  match body with
  | Some (true, exit_rtt) => Some (if exit_rtt >? 0 then elapsed + exit_rtt else elapsed)
  | _ => None
  end.

(** ** Flaps *)

Definition RecordControlFlap (now : Z) (addr : bytes) (r : Router) : Router :=
  let kept := List.filter (fun t => negb (t <? now - flapWindow)) (default [] (r_flaps r !! addr)) in
  mkRouter (r_relays r) (r_controls r) (r_paths r) (r_pathIdx r) (r_myCountry r) (r_dataDead r) (r_udpDataFailed r)
    (r_selfNodeID r) (r_udpPeers r) (<[addr := kept ++ [now]]> (r_flaps r)) (r_next r).

Definition flapPenaltyOf (now : Z) (addr : bytes) (r : Router) : Z :=
  let count := zlen (List.filter (fun t => negb (t <? now - flapWindow)) (default [] (r_flaps r !! addr))) in
  let penalty := count * Milliseconds flapPenaltyPerEviction in
  let cap := Milliseconds flapPenaltyCap in
  if penalty >? cap then cap else penalty.

Definition ControlRTT (now : Z) (addr : bytes) (r : Router) : Z :=
  let found := List.find (has_addr addr) (r_controls r) in
  let rtt := match found with Some n => rn_RTT n | None => 0 end in
  let isUDP := match found with Some n => bool_decide (rn_transport n = transportUDP) | None => false end in
  rtt + (flapPenaltyOf now addr r * rms + (if isUDP then udpOnlyPenalty else 0)).

Definition ControlTransport (addr : bytes) (r : Router) : controlTransport :=
  match List.find (has_addr addr) (r_controls r) with Some n => rn_transport n | None => transportTCP end.

Definition ControlTransportName (addr : bytes) (r : Router) : bytes :=
  match ControlTransport addr r with transportUDP => str "udp" | transportTCP => str "tcp" end.

(** ** Liveness and scores *)

Definition alive (now : Z) (r : Router) (n : routerNode) : bool :=
  if negb (rn_IsAlive n) || (now - rn_LastSeen n >=? 30 * rsec) then false else
  match r_dataDead r !! rn_Addr n with Some exp => negb (now <? exp) | None => true end.

Definition instabilityPenalty (now : Z) (n : routerNode) : Z :=
  let since := now - rn_LastSeen n in
  if since >? 15 * rsec then 100 else if since >? 5 * rsec then 20 else 0.

Section paths.
(** [blend a b] is [time.Duration(0.3*float64(a) + 0.7*float64(b))]. *)
Context `{SliceSort} (blend : Z -> Z -> Z) (now : Z) (shuffle : list RouterPath -> list RouterPath).

Definition nodeScore (r : Router) (n : routerNode) : Z :=
  let rtt := if (rn_TrafficRTT n >? 0) && (rn_RTT n >? 0) then blend (rn_RTT n) (rn_TrafficRTT n)
             else if rn_TrafficRTT n >? 0 then rn_TrafficRTT n else rn_RTT n in
  Milliseconds rtt + flapPenaltyOf now (rn_Addr n) r.

Definition node_cost (n : routerNode) : Z := Milliseconds (rn_RTT n) + instabilityPenalty now n.

(** The relays of a path; [first] marks the first hop. *)
Fixpoint score_relays (r : Router) (live : list routerNode) (first : bool) (l : list RouterPathNode) (s : Z) (uc : option Z)
    : Z * option Z :=
  match l with
  | [] => (s, uc)
  | rn :: l =>
    let s := match List.find (fun n => bool_decide (rn_ID n = pn_ID rn)) live with Some n => s + node_cost n | None => s end in
    let s := s + 10 in
    match first, udpPeer r (pn_ID rn) (pn_Addr rn) with
    | true, Some c => score_relays r live false l (s - 30) (Some c)
    | _, _ => score_relays r live false l s uc
    end
  end.

Definition scorePath (r : Router) (controls live : list routerNode) (p : RouterPath) : RouterPath :=
  let s := match List.find (has_addr (rp_ControlAddr p)) controls with Some c => node_cost c | None => 0 end in
  let '(s, uc) := score_relays r live true (rp_Relays p) s (rp_UDPRelay p) in
  mkPath (rp_Relays p) (rp_ControlAddr p) s uc.

Definition is_tcp (n : routerNode) : bool := bool_decide (rn_transport n = transportTCP).

(** The controls a path may end at. *)
Definition candidate_controls (r : Router) : list routerNode :=
  let aliveControls := List.filter (alive now r) (r_controls r) in
  let in_cc n := bool_decide (rn_CountryCode n = r_myCountry r) in
  let '(aliveControls, outOfCountry) :=
    if bool_decide (r_myCountry r = []) then (aliveControls, [])
    else let inCountry := List.filter in_cc aliveControls in
         if zlen inCountry >? 0 then (inCountry, List.filter (fun n => negb (in_cc n)) aliveControls) else (aliveControls, []) in
  let tcpAlive := List.filter is_tcp aliveControls in
  let aliveControls := if zlen tcpAlive >? 0 then tcpAlive else aliveControls in
  let outOfCountry := List.filter is_tcp outOfCountry in
  if zlen aliveControls =? 0 then [] else
  if (zlen aliveControls <? 3) && (zlen outOfCountry >? 0) then
    let sorted := sort_slice (fun a b => nodeScore r a <? nodeScore r b) outOfCountry in
    aliveControls ++ take (Z.to_nat (3 - zlen aliveControls)) sorted
  else aliveControls.

(** The relays a path may use. *)
Definition candidate_relays (r : Router) : list routerNode :=
  let same n := bool_decide (r_myCountry r = []) || bool_decide (rn_CountryCode n = r_myCountry r) in
  let live := List.filter (fun n => alive now r n && same n) (r_relays r) in
  let live := if negb (bool_decide (r_myCountry r = [])) && (zlen live =? 0) then List.filter (alive now r) (r_relays r) else live in
  take 20 (sort_slice (fun a b => nodeScore r a <? nodeScore r b) live).

Definition hop (n : routerNode) : RouterPathNode := mkPathNode (rn_ID n) (rn_Addr n).

(** May [b] follow [a] on a path? *)
Definition apart (a b : routerNode) : bool :=
  negb (bool_decide (rn_ID b = rn_ID a) || bool_decide (rn_OperatorID b = rn_OperatorID a)).

Definition paths_via (live : list routerNode) (ctrl : bytes) : list RouterPath :=
  mkPath [] ctrl 0 None ::
  flat_map (fun r1 =>
    mkPath [hop r1] ctrl 0 None ::
    flat_map (fun r2 =>
      if negb (apart r1 r2) then [] else
      mkPath [hop r1; hop r2] ctrl 0 None ::
      flat_map (fun r3 =>
        if bool_decide (rn_ID r3 = rn_ID r1) || bool_decide (rn_ID r3 = rn_ID r2) then []
        else if bool_decide (rn_OperatorID r3 = rn_OperatorID r1) || bool_decide (rn_OperatorID r3 = rn_OperatorID r2) then []
        else [mkPath [hop r1; hop r2; hop r3] ctrl 0 None]) live) live) live.

Definition path_less (a b : RouterPath) : bool :=
  let ra := negb (IsDirect a) in
  let rb := negb (IsDirect b) in
  if negb (Bool.eqb ra rb) then ra else rp_Score a <? rp_Score b.

(** The scored paths in order, before the cut and the shuffle. *)
Definition ranked_paths (r : Router) : list RouterPath :=
  let controls := candidate_controls r in
  let live := candidate_relays r in
  insertion_sort path_less (scorePath r controls live <$> flat_map (fun c => paths_via live (rn_Addr c)) controls).

Definition BuildPaths (r : Router) : Router :=
  if zlen (candidate_controls r) =? 0 then with_paths r [] (r_pathIdx r)
  else with_paths r (shuffle (take 5 (ranked_paths r))) 0.
End paths.

(** ** Using the paths *)

(** Indexing panics out of range. *)
Definition Primary (r : Router) : res (option RouterPath) :=
  if zlen (r_paths r) =? 0 then Ok None else p ← index (r_paths r) (r_pathIdx r); Ok (Some p).

Definition Advance (r : Router) : Router * bool :=
  if r_pathIdx r + 1 <? zlen (r_paths r) then (with_paths r (r_paths r) (r_pathIdx r + 1), true)
  else (with_paths r (r_paths r) 0, false).

Definition router_Reset (r : Router) : Router := with_paths r (r_paths r) 0.

(** [rnd] is [rand.Intn]. *)
Definition PickRandom (rnd : Z) (r : Router) : res (option RouterPath) :=
  if zlen (r_paths r) =? 0 then Ok None else p ← index (r_paths r) rnd; Ok (Some p).

Fixpoint best_score (norm : bytes) (l : list RouterPath) (best : option Z) : option Z :=
  match l with
  | [] => best
  | p :: l =>
    let better := match best with None => true | Some b => rp_Score p <? b end in
    best_score norm l (if bool_decide (rp_ControlAddr p = norm) && better then Some (rp_Score p) else best)
  end.

(** The factor is the fraction [num/den]. *)
Definition PrimaryIsBetter (currentAddr : bytes) (num den : Z) (r : Router) : res (bool * option RouterPath) :=
  if zlen (r_paths r) =? 0 then Ok (false, None) else
  p ← index (r_paths r) (r_pathIdx r);
  let norm := normaliseAddr currentAddr in
  if bool_decide (rp_ControlAddr p = norm) then Ok (false, None) else
  match best_score norm (r_paths r) None with
  | None => Ok (true, Some p)
  | Some currentBest => Ok (rp_Score p * num <=? currentBest * den, Some p)
  end.

Fixpoint unique_addrs (seen : gset bytes) (l : list RouterPath) : list bytes :=
  match l with
  | [] => []
  | p :: l => if bool_decide (rp_ControlAddr p ∈ seen) then unique_addrs seen l
              else rp_ControlAddr p :: unique_addrs ({[rp_ControlAddr p]} ∪ seen) l
  end.

Definition QualifyingControlAddrs (r : Router) : list bytes := unique_addrs ∅ (r_paths r).
Definition AllControlAddrs (r : Router) : list bytes := rn_Addr <$> r_controls r.
Definition UnreachableControls (now : Z) (r : Router) : list bytes :=
  rn_Addr <$> List.filter (fun n => negb (alive now r n)) (r_controls r).

(** ** Candidate controls *)

Lemma elem_of_lfilter {A} (f : A -> bool) l x : x ∈ List.filter f l <-> x ∈ l /\ f x = true.
Proof. by rewrite !list_elem_of_In, filter_In. Qed.

Lemma zlen_pos {A} (l : list A) : (zlen l >? 0) = true <-> l <> [].
Proof. destruct l; [done|]. rewrite zlen_cons, Z.gtb_lt. pose proof (zlen_nonneg l). split; [done|lia]. Qed.

Lemma zlen_not_pos {A} (l : list A) : (zlen l >? 0) = false -> l = [].
Proof. destruct l; [done|]. rewrite (proj2 (zlen_pos _)); done. Qed.

Lemma zlen_zero {A} (l : list A) : (zlen l =? 0) = true <-> l = [].
Proof. destruct l; [done|]. rewrite zlen_cons, Z.eqb_eq. pose proof (zlen_nonneg l). split; [lia|done]. Qed.

Section path_facts.
Context `{SliceSort} (blend : Z -> Z -> Z) (now : Z).

(** The alive controls of the preferred group: those of the client's country if
    there are any, all otherwise. *)
Definition preferred (r : Router) : list routerNode :=
  let l := List.filter (alive now r) (r_controls r) in
  let cc := List.filter (fun n => bool_decide (rn_CountryCode n = r_myCountry r)) l in
  if negb (bool_decide (r_myCountry r = [])) && (zlen cc >? 0) then cc else l.

(** The alive controls outside it that TCP reaches. *)
Definition reserve (r : Router) : list routerNode :=
  let l := List.filter (alive now r) (r_controls r) in
  let cc := List.filter (fun n => bool_decide (rn_CountryCode n = r_myCountry r)) l in
  if negb (bool_decide (r_myCountry r = [])) && (zlen cc >? 0)
  then List.filter is_tcp (List.filter (fun n => negb (bool_decide (rn_CountryCode n = r_myCountry r))) l) else [].

(** The preferred controls that TCP reaches if there are any, all of them otherwise. *)
Definition core_controls (r : Router) : list routerNode :=
  if zlen (List.filter is_tcp (preferred r)) >? 0 then List.filter is_tcp (preferred r) else preferred r.

Lemma candidate_controls_eq r :
  candidate_controls blend now r =
  if zlen (core_controls r) =? 0 then [] else
  if (zlen (core_controls r) <? 3) && (zlen (reserve r) >? 0) then
    core_controls r ++ take (Z.to_nat (3 - zlen (core_controls r)))
      (sort_slice (fun a b => nodeScore blend now r a <? nodeScore blend now r b) (reserve r))
  else core_controls r.
Proof.
  unfold candidate_controls, core_controls, preferred, reserve.
  destruct (bool_decide (r_myCountry r = [])); cbn [negb andb]; [done|].
  destruct (zlen (List.filter _ (List.filter _ (r_controls r))) >? 0); done.
Qed.

Lemma core_nil r : core_controls r = [] <-> preferred r = [].
Proof.
  unfold core_controls. destruct (zlen _ >? 0) eqn:E; [|done]. apply zlen_pos in E.
  split; [done|]. intros Hp. by rewrite Hp in E.
Qed.

Lemma preferred_nil r : preferred r = [] <-> List.filter (alive now r) (r_controls r) = [].
Proof.
  unfold preferred. destruct (_ && _) eqn:E; [|done]. apply andb_prop in E as [_ E]. apply zlen_pos in E.
  split; [done|]. intros Hp. by rewrite Hp in E.
Qed.

Lemma preferred_alive r n : n ∈ preferred r -> n ∈ r_controls r /\ alive now r n = true.
Proof. unfold preferred. destruct (_ && _); rewrite ?elem_of_lfilter; tauto. Qed.

Lemma core_preferred r n : n ∈ core_controls r -> n ∈ preferred r.
Proof. unfold core_controls. destruct (_ >? 0); rewrite ?elem_of_lfilter; tauto. Qed.

Lemma reserve_alive r n : n ∈ reserve r -> n ∈ r_controls r /\ alive now r n = true /\ is_tcp n = true /\
  r_myCountry r <> [] /\ rn_CountryCode n <> r_myCountry r.
Proof.
  unfold reserve. destruct (_ && _) eqn:E; [|by intros []%elem_of_nil]. rewrite !elem_of_lfilter. bool_to_prop.
  intros [[[? ?] Hc] ?]. by bool_to_prop.
Qed.

Lemma candidate_cases r n : n ∈ candidate_controls blend now r -> n ∈ core_controls r \/ n ∈ reserve r /\ zlen (core_controls r) < 3.
Proof.
  rewrite candidate_controls_eq. destruct (zlen _ =? 0); [by intros []%elem_of_nil|].
  destruct (_ && _) eqn:E; [|by left]. bool_to_prop. rewrite elem_of_app. intros [?|Hn%elem_of_take]; [by left|right].
  split; [|done]. by rewrite sort_slice_perm.
Qed.

Lemma candidate_alive r n : n ∈ candidate_controls blend now r -> n ∈ r_controls r /\ alive now r n = true.
Proof.
  intros [Hc|[(? & ? & _)%reserve_alive _]]%candidate_cases; [|done]. by apply preferred_alive, core_preferred.
Qed.

Lemma candidate_nil r : candidate_controls blend now r = [] <-> List.filter (alive now r) (r_controls r) = [].
Proof.
  rewrite <- preferred_nil, <- core_nil, candidate_controls_eq. destruct (zlen _ =? 0) eqn:E.
  - apply zlen_zero in E. by rewrite E.
  - assert (core_controls r <> []) as Hn by (intros Hn; apply (zlen_zero (core_controls r)) in Hn; congruence).
    destruct (_ && _); [|done]. destruct (core_controls r); [done|]. done.
Qed.

(** An alive control of the preferred group: of the client's country, or any when that
    country is not known or has no alive control. *)
Definition in_group (r : Router) (n : routerNode) : Prop :=
  n ∈ r_controls r /\ alive now r n = true /\
  (r_myCountry r = [] \/ rn_CountryCode n = r_myCountry r \/
   forall c, c ∈ r_controls r -> alive now r c = true -> rn_CountryCode c <> r_myCountry r).

Lemma preferred_iff r n : n ∈ preferred r <-> in_group r n.
Proof.
  unfold preferred, in_group. destruct (bool_decide (r_myCountry r = [])) eqn:E0; bool_to_prop; cbn [negb andb].
  { rewrite elem_of_lfilter. naive_solver. }
  destruct (zlen _ >? 0) eqn:E; rewrite !elem_of_lfilter.
  - rewrite bool_decide_eq_true. split; [naive_solver|]. intros (? & ? & [?|[?|Hno]]); [done|done|].
    apply zlen_pos in E. destruct (List.filter _ (List.filter _ _)) as [|c l] eqn:El; [done|].
    assert (c ∈ c :: l) as Hc by left. rewrite <- El, !elem_of_lfilter, bool_decide_eq_true in Hc. destruct Hc as [[? ?] ?]. by destruct (Hno c).
  - apply zlen_not_pos in E. split; [|naive_solver]. intros [Hin Ha]. split; [done|]. split; [done|]. right. right. intros c Hc Hac Hcc.
    assert (c ∈ @nil routerNode) as Hx; [|by apply elem_of_nil in Hx].
    rewrite <- E, !elem_of_lfilter, bool_decide_eq_true. done.
Qed.

Lemma core_iff r n : n ∈ core_controls r <-> in_group r n /\ (is_tcp n = true \/ forall c, in_group r c -> is_tcp c = false).
Proof.
  unfold core_controls. destruct (zlen _ >? 0) eqn:E.
  - rewrite elem_of_lfilter, preferred_iff. split; [naive_solver|]. intros (Hg & [?|Hno]); [done|].
    apply zlen_pos in E. destruct (List.filter _ _) as [|c l] eqn:El; [done|]. assert (c ∈ c :: l) as Hc by left.
    rewrite <- El, elem_of_lfilter, preferred_iff in Hc. destruct Hc as [Hg' Ht]. rewrite (Hno c Hg') in Ht. done.
  - apply zlen_not_pos in E. rewrite preferred_iff. split; [|naive_solver]. intros Hg. split; [done|]. right. intros c Hc.
    destruct (is_tcp c) eqn:Et; [|done]. assert (c ∈ @nil routerNode) as Hx; [|by apply elem_of_nil in Hx].
    by rewrite <- E, elem_of_lfilter, preferred_iff.
Qed.

Lemma reserve_iff r n : n ∈ reserve r <-> n ∈ r_controls r /\ alive now r n = true /\ is_tcp n = true /\ ~ in_group r n.
Proof.
  rewrite <- preferred_iff. unfold reserve, preferred. destruct (_ && _) eqn:E.
  - rewrite !elem_of_lfilter, negb_true_iff, bool_decide_eq_false, bool_decide_eq_true. naive_solver.
  - rewrite elem_of_lfilter. split; [by intros ?%elem_of_nil|naive_solver].
Qed.

Lemma core_in_candidates r n : n ∈ core_controls r -> n ∈ candidate_controls blend now r.
Proof.
  intros Hn. rewrite candidate_controls_eq. destruct (zlen _ =? 0) eqn:E; [apply zlen_zero in E; by rewrite E in Hn|].
  destruct (_ && _); [apply elem_of_app; by left|done].
Qed.

Lemma candidates_filled r n : n ∈ reserve r -> n ∉ candidate_controls blend now r -> candidate_controls blend now r <> [] ->
  3 <= zlen (candidate_controls blend now r).
Proof.
  rewrite candidate_controls_eq. intros Hn. destruct (zlen (core_controls r) =? 0); [done|]. destruct (_ && _) eqn:E.
  - intros Hno _. apply andb_prop in E as [E _]. apply not_elem_of_app in Hno as [_ Hno]. set (l := sort_slice _ _) in *.
    assert (n ∈ l) as Hl by (unfold l; by rewrite <- sort_slice_perm). rewrite zlen_app. unfold zlen at 2. rewrite length_take.
    destruct (Nat.le_gt_cases (length l) (Z.to_nat (3 - zlen (core_controls r)))) as [Hle|Hgt]; [by rewrite take_ge in Hno|]. lia.
  - intros _ _. apply andb_false_iff in E as [E|E]; [lia|]. apply zlen_not_pos in E. rewrite E in Hn. by apply elem_of_nil in Hn.
Qed.

End path_facts.

(** ** Paths *)

Section build_facts.
Context `{SliceSort} (blend : Z -> Z -> Z) (now : Z).

Lemma candidate_relays_alive r n : n ∈ candidate_relays blend now r -> n ∈ r_relays r /\ alive now r n = true.
Proof.
  unfold candidate_relays. intros Hn%elem_of_take. rewrite <- sort_slice_perm in Hn.
  destruct (_ && _); apply elem_of_lfilter in Hn as [? Ha]; [done|]. by apply andb_prop in Ha as [? _].
Qed.

(** The hops of a path: alive relays, no two of one node or one operator. *)
Definition hops_ok (live : list routerNode) (p : RouterPath) : Prop :=
  exists ns, rp_Relays p = hop <$> ns /\ (forall n, n ∈ ns -> n ∈ live) /\ (length ns <= 3)%nat /\
    NoDup (rn_ID <$> ns) /\ NoDup (rn_OperatorID <$> ns).

Lemma apart_true a b : apart a b = true -> rn_ID b <> rn_ID a /\ rn_OperatorID b <> rn_OperatorID a.
Proof. unfold apart. rewrite negb_true_iff, orb_false_iff. intros [? ?]. by bool_to_prop. Qed.

Lemma paths_via_ok live ctrl p : p ∈ paths_via live ctrl -> rp_ControlAddr p = ctrl /\ hops_ok live p.
Proof.
  unfold paths_via. rewrite elem_of_cons. intros [->|Hp].
  { split; [done|]. exists []. split_and!; [done|by intros n []%elem_of_nil|simpl; lia|constructor|constructor]. }
  apply list_elem_of_In, in_flat_map in Hp as (r1 & H1%list_elem_of_In & Hp%list_elem_of_In).
  apply elem_of_cons in Hp as [->|Hp].
  { split; [done|]. exists [r1]. split_and!; [done|by intros n ->%list_elem_of_singleton|simpl; lia|apply NoDup_singleton..]. }
  apply list_elem_of_In, in_flat_map in Hp as (r2 & H2%list_elem_of_In & Hp%list_elem_of_In).
  destruct (negb (apart r1 r2)) eqn:E12; [by apply elem_of_nil in Hp|]. apply negb_false_iff, apart_true in E12 as [E1 E2].
  apply elem_of_cons in Hp as [->|Hp].
  { split; [done|]. exists [r1; r2]. split_and!; [done|set_solver|simpl; lia| |]; simpl; apply NoDup_cons; split;
      try apply NoDup_singleton; by intros E%list_elem_of_singleton. }
  apply list_elem_of_In, in_flat_map in Hp as (r3 & H3%list_elem_of_In & Hp%list_elem_of_In).
  destruct (_ || _) eqn:E3; [by apply elem_of_nil in Hp|]. destruct (bool_decide (rn_OperatorID r3 = _) || _) eqn:E4; [by apply elem_of_nil in Hp|].
  apply list_elem_of_singleton in Hp as ->. bool_to_prop. split; [done|]. exists [r1; r2; r3].
  split_and!; [done|set_solver|simpl; lia| |]; simpl; apply NoDup_cons; (split; [set_solver|]); apply NoDup_cons;
    (split; [set_solver|apply NoDup_singleton]).
Qed.

Lemma scorePath_shape r controls live p :
  rp_Relays (scorePath now r controls live p) = rp_Relays p /\ rp_ControlAddr (scorePath now r controls live p) = rp_ControlAddr p.
Proof. unfold scorePath. by destruct (score_relays _ _ _ _ _ _ _) as [s uc]. Qed.

Lemma ranked_ok r p : p ∈ ranked_paths blend now r ->
  (exists c, c ∈ candidate_controls blend now r /\ rp_ControlAddr p = rn_Addr c) /\ hops_ok (candidate_relays blend now r) p.
Proof.
  unfold ranked_paths. rewrite <- insertion_sort_perm. intros (q & -> & Hq)%list_elem_of_fmap.
  apply list_elem_of_In, in_flat_map in Hq as (c & Hc%list_elem_of_In & Hq%list_elem_of_In).
  apply paths_via_ok in Hq as [Ea (ns & En & Hns)]. destruct (scorePath_shape r (candidate_controls blend now r)
    (candidate_relays blend now r) q) as [E1 E2].
  split; [exists c; by rewrite E2|]. exists ns. by rewrite E1.
Qed.

Lemma ranked_direct r c : c ∈ candidate_controls blend now r ->
  exists p, p ∈ ranked_paths blend now r /\ IsDirect p = true /\ rp_ControlAddr p = rn_Addr c.
Proof.
  intros Hc. exists (scorePath now r (candidate_controls blend now r) (candidate_relays blend now r) (mkPath [] (rn_Addr c) 0 None)).
  split; [|done]. unfold ranked_paths. rewrite <- insertion_sort_perm. apply list_elem_of_fmap_2.
  apply list_elem_of_In, in_flat_map. exists c. split; [by apply list_elem_of_In|]. by left.
Qed.

Lemma path_less_asym a b : path_less a b = true -> path_less b a = false.
Proof. unfold path_less. destruct (IsDirect a), (IsDirect b); simpl; intros; try done; bool_to_prop; apply Z.ltb_ge; lia. Qed.

Lemma path_less_trans a b c : path_less b a = false -> path_less c b = false -> path_less c a = false.
Proof.
  unfold path_less. destruct (IsDirect a), (IsDirect b), (IsDirect c); simpl; intros; try done; bool_to_prop; apply Z.ltb_ge; lia.
Qed.

Lemma ranked_sorted r : StronglySorted (fun x y => path_less y x = false) (ranked_paths blend now r).
Proof. apply insertion_sort_sorted; [apply path_less_trans|apply path_less_asym]. Qed.

Lemma sorted_take_drop {A} (less : A -> A -> bool) n l x y :
  StronglySorted (fun x y => less y x = false) l -> x ∈ take n l -> y ∈ drop n l -> less y x = false.
Proof.
  intros Hs. revert n. induction Hs as [|a l Hs IH Hall]; intros n; [by rewrite take_nil; intros []%elem_of_nil|].
  destruct n as [|n]; simpl; [by intros []%elem_of_nil|]. rewrite elem_of_cons. intros [->|Hx] Hy.
  - rewrite Forall_forall in Hall. by apply Hall; eapply elem_of_drop.
  - by eapply IH.
Qed.

Context (shuffle : list RouterPath -> list RouterPath).

(** C15: after [BuildPaths] there are between one and five candidate paths exactly
    when some control is alive, and the first is current.  Every path ends at an
    alive control and its hops, at most three, are alive relays of distinct nodes
    and distinct operators. *)
Theorem build_paths_sound (r : Router) (Hshuffle : forall l, Permutation l (shuffle l)) :
  let r' := BuildPaths blend now shuffle r in
  (r_paths r' = [] <-> forall c, c ∈ r_controls r -> alive now r c = false) /\
  zlen (r_paths r') <= 5 /\ (r_paths r' <> [] -> r_pathIdx r' = 0) /\
  (forall p, p ∈ r_paths r' ->
     (exists c, c ∈ r_controls r /\ alive now r c = true /\ rp_ControlAddr p = rn_Addr c) /\
     exists ns, rp_Relays p = hop <$> ns /\ (length ns <= 3)%nat /\ NoDup (rn_ID <$> ns) /\ NoDup (rn_OperatorID <$> ns) /\
       forall n, n ∈ ns -> n ∈ r_relays r /\ alive now r n = true).
Proof.
  unfold BuildPaths. destruct (zlen (candidate_controls blend now r) =? 0) eqn:E; cbn [r_paths r_pathIdx with_paths].
  - apply zlen_zero in E. split; [|split; [done|split; [done|by intros p []%elem_of_nil]]]. split; [|done]. intros _ c Hc.
    apply candidate_nil in E. destruct (alive now r c) eqn:Ea; [|done].
    assert (c ∈ List.filter (alive now r) (r_controls r)) as Hf by (by apply elem_of_lfilter). rewrite E in Hf. by apply elem_of_nil in Hf.
  - destruct (candidate_controls blend now r) as [|c l] eqn:Ec; [done|].
    destruct (ranked_direct r c) as (p & Hp & _); [rewrite Ec; left|].
    assert (shuffle (take 5 (ranked_paths blend now r)) <> []) as Hne.
    { intros En. pose proof (Hshuffle (take 5 (ranked_paths blend now r))) as Hs. rewrite En in Hs. symmetry in Hs.
      apply Permutation_nil_l in Hs. destruct (ranked_paths blend now r); [by apply elem_of_nil in Hp|done]. }
    split; [|split; [|split; [done|]]].
    + split; [done|]. intros Hdead. exfalso. destruct (candidate_alive blend now r c) as [Hin Ha]; [rewrite Ec; left|].
      by rewrite Hdead in Ha.
    + unfold zlen. rewrite <- Hshuffle, length_take. lia.
    + intros q Hq. rewrite <- Hshuffle in Hq. apply elem_of_take, ranked_ok in Hq as [(c' & Hc' & Ea) (ns & En & Hl & Hlen & Hd1 & Hd2)].
      split; [exists c'; by apply candidate_alive in Hc' as [? ?]|]. exists ns. split_and!; try done.
      intros n Hn. by apply candidate_relays_alive, Hl.
Qed.

(** The candidates are the best paths: no path that was left out ranks before a
    chosen one, where every path with relays ranks before every direct path and
    paths of the same kind rank by score.  A control that qualifies is left out only
    if five better paths exist. *)
Theorem build_paths_best (r : Router) (p : RouterPath) (Hshuffle : forall l, Permutation l (shuffle l))
    (Hp : p ∈ ranked_paths blend now r) (Hout : p ∉ r_paths (BuildPaths blend now shuffle r)) :
  zlen (r_paths (BuildPaths blend now shuffle r)) = 5 /\
  forall q, q ∈ r_paths (BuildPaths blend now shuffle r) ->
    path_less p q = false /\ (IsDirect p = false -> IsDirect q = false /\ rp_Score q <= rp_Score p).
Proof.
  unfold BuildPaths in *. destruct (zlen (candidate_controls blend now r) =? 0) eqn:E; cbn [r_paths with_paths] in *.
  { apply zlen_zero in E. apply ranked_ok in Hp as [(c & Hc & _) _]. rewrite E in Hc. by apply elem_of_nil in Hc. }
  rewrite <- Hshuffle in Hout. rewrite <- (take_drop 5 (ranked_paths blend now r)) in Hp. apply elem_of_app in Hp as [?|Hd]; [done|].
  split.
  - unfold zlen. rewrite <- Hshuffle, length_take. assert (length (drop 5 (ranked_paths blend now r)) <> 0%nat) as Hl.
    { destruct (drop 5 _); [by apply elem_of_nil in Hd|done]. } rewrite length_drop in Hl. lia.
  - intros q Hq. rewrite <- Hshuffle in Hq. assert (path_less p q = false) as Hl by (eapply sorted_take_drop; [apply ranked_sorted|done..]).
    split; [done|]. intros Hr. unfold path_less in Hl. rewrite Hr in Hl. destruct (IsDirect q) eqn:Eq; simpl in Hl; [done|].
    split; [done|]. bool_to_prop. done.
Qed.
End build_facts.

(** ** All operations *)

Inductive router_event :=
| ESelf (id : bytes)
| ECountry (cc : bytes)
| EDataDead (addr : bytes) (until : Z)
| EAlive (now : Z) (addr : bytes)
| EUDPFailed (now : Z) (addr : bytes)
| ERegister (key : bytes) (conn : Z)
| ERemove (key : bytes)
| ECloseAll
| EControls (now : Z) (addrs : list bytes) (regions : gmap bytes bytes)
| ERelays (now : Z) (l : list ListEntry)
| EMerge (now : Z) (l : list RelayEntry)
| ERelayAlive (now : Z) (id : bytes)
| EProbeTCP (now : Z) (n : routerNode) (rtt : option Z)
| EProbeUDP (now : Z) (n : routerNode) (rtt : option Z)
| EMeasure (now : Z) (n : routerNode) (rtt : option Z)
| EControlRTT (addr : bytes) (rtt : Z)
| ETrafficRTT (addr : bytes) (rtt : Z)
| EFlap (now : Z) (addr : bytes)
| EBuild (now : Z) (shuffle : list RouterPath -> list RouterPath)
| EAdvance
| EReset.

Section runs.
Context `{SliceSort} (blend : Z -> Z -> Z).

Definition router_step (r : Router) (ev : router_event) : Router :=
  match ev with
  | ESelf id => SetSelfNodeID id r
  | ECountry cc => SetMyCountry cc r
  | EDataDead addr until => MarkControlDataDead addr until r
  | EAlive now addr => MarkControlAlive now addr r
  | EUDPFailed now addr => MarkUDPDataFailed now addr r
  | ERegister key conn => (RegisterUDPPeer key conn r).1
  | ERemove key => (RemoveUDPPeer key r).1
  | ECloseAll => (CloseAllUDPPeers r).1
  | EControls now addrs regions => SetControlsWithRegions now addrs regions r
  | ERelays now l => UpdateRelays now l r
  | EMerge now l => MergeDHTRelays now l r
  | ERelayAlive now id => MarkRelayAlive now id r
  | EProbeTCP now n rtt => (probe_tcp now n rtt r).1
  | EProbeUDP now n rtt => probe_udp now n rtt r
  | EMeasure now n rtt => measure now n rtt r
  | EControlRTT addr rtt => UpdateControlRTT addr rtt r
  | ETrafficRTT addr rtt => UpdateTrafficRTT addr rtt r
  | EFlap now addr => RecordControlFlap now addr r
  | EBuild now shuffle => BuildPaths blend now shuffle r
  | EAdvance => (Advance r).1
  | EReset => router_Reset r
  end.

Definition router_run (evs : list router_event) : Router := fold_left router_step evs NewRouter.

Definition index_ok_inv (r : Router) : Prop := r_paths r = [] \/ 0 <= r_pathIdx r < zlen (r_paths r).

Lemma paths_kept r ev :
  match ev with EBuild _ _ | EAdvance | EReset => True
  | _ => r_paths (router_step r ev) = r_paths r /\ r_pathIdx (router_step r ev) = r_pathIdx r end.
Proof.
  destruct ev; simpl; try done.
  - unfold RemoveUDPPeer. by destruct (_ !! _).
  - unfold MergeDHTRelays. destruct (_ =? _); [done|]. by destruct (merge_loop _ _ _ _ _ _).
  - unfold probe_tcp. destruct rtt; [done|]. by destruct (match _ !! _ with Some _ => _ | None => _ end).
  - unfold probe_udp. by destruct rtt.
  - unfold UpdateTrafficRTT. by destruct (existsb _ _).
Qed.

Lemma router_step_index r ev : index_ok_inv r -> index_ok_inv (router_step r ev).
Proof.
  intros Hr. pose proof (paths_kept r ev) as Hk. unfold index_ok_inv in *.
  assert (0 <= zlen (r_paths r)) by apply zlen_nonneg.
  destruct ev; try (destruct Hk as [-> ->]; exact Hr).
  - simpl. unfold BuildPaths. destruct (_ =? _); cbn [r_paths r_pathIdx with_paths]; [by left|].
    set (l := shuffle _). destruct l as [|p l'] eqn:El; [by left|]. right. rewrite zlen_cons. pose proof (zlen_nonneg l'). lia.
  - simpl. unfold Advance. destruct (_ <? _) eqn:E; cbn; bool_to_prop.
    + destruct Hr as [->|Hr]; [by left|]. right. lia.
    + destruct (r_paths r) as [|p l]; [by left|]. right. rewrite zlen_cons. pose proof (zlen_nonneg l). lia.
  - simpl. destruct (r_paths r) as [|p l]; [by left|]. right. rewrite zlen_cons. pose proof (zlen_nonneg l). lia.
Qed.

(** Moving changes nothing but the position. *)
Lemma advance_only_moves r k : with_paths (Nat.iter k (fun r => (Advance r).1) (router_Reset r)) (r_paths r) 0 = router_Reset r.
Proof.
  assert (forall m, r_paths m = r_paths r -> with_paths m (r_paths r) 0 = router_Reset r ->
    r_paths (Advance m).1 = r_paths r /\ with_paths (Advance m).1 (r_paths r) 0 = router_Reset r) as Hstep.
  { intros m Hp Hm. unfold Advance. destruct (_ <? _); cbn [fst]; (split; [done|]); rewrite <- Hm; by destruct m. }
  assert (r_paths (Nat.iter k (fun r => (Advance r).1) (router_Reset r)) = r_paths r /\
    with_paths (Nat.iter k (fun r => (Advance r).1) (router_Reset r)) (r_paths r) 0 = router_Reset r) as [_ ?]; [|done].
  induction k as [|k [IH1 IH2]]; [done|]. rewrite Nat.iter_succ. by apply Hstep.
Qed.

(** C17: after any sequence of operations the current path exists: asking for it
    never indexes out of range and gives a path exactly when there are candidates;
    from the top, [Advance] visits every candidate once, in order, before it reports that
    they are exhausted, and then it is back at the top; what it leaves alone is everything
    but the position. *)
Theorem router_invariant (evs : list router_event) :
  let r := router_run evs in
  (exists o, Primary r = Ok o /\ (o = None <-> r_paths r = []) /\ (forall p, o = Some p -> p ∈ r_paths r)) /\
  (forall currentAddr num den, PrimaryIsBetter currentAddr num den r <> Panic) /\
  (forall k, (k < length (r_paths r))%nat ->
     Primary (Nat.iter k (fun r => (Advance r).1) (router_Reset r)) = Ok (r_paths r !! k) /\
     ((Advance (Nat.iter k (fun r => (Advance r).1) (router_Reset r))).2 = true <-> (S k < length (r_paths r))%nat)) /\
  Nat.iter (length (r_paths r)) (fun r => (Advance r).1) (router_Reset r) = router_Reset r /\
  ((Advance r).2 = false -> (Advance r).1 = router_Reset r).
Proof.
  intros r. assert (index_ok_inv r) as Hr.
  { unfold r, router_run. assert (index_ok_inv NewRouter) as H0 by (by left). revert H0. generalize NewRouter.
    induction evs as [|ev evs IH]; intros r0 H0; [done|]. simpl. apply IH. by apply router_step_index. }
  split; [|split].
  - unfold Primary. destruct (zlen (r_paths r) =? 0) eqn:E.
    + apply zlen_zero in E. rewrite E. exists None. by split_and!.
    + assert (r_paths r <> []) as Hn by (intros Hn; apply (zlen_zero (r_paths r)) in Hn; congruence).
      destruct Hr as [?|Hr]; [done|]. destruct (index_ok _ _ Hr) as (p & -> & Hp). exists (Some p). cbn [mbind res_bind].
      split_and!; [done|done|]. intros ? [= <-]. by eapply list_elem_of_lookup_2.
  - intros cur num den. unfold PrimaryIsBetter. destruct (zlen (r_paths r) =? 0) eqn:E; [done|].
    assert (r_paths r <> []) as Hn by (intros Hn; apply (zlen_zero (r_paths r)) in Hn; congruence).
    destruct Hr as [?|Hr]; [done|]. destruct (index_ok _ _ Hr) as (p & -> & _). cbn [mbind res_bind].
    destruct (bool_decide _); [done|]. by destruct (best_score _ _ _).
  - assert (forall k, (k < length (r_paths r))%nat ->
      let r1 := Nat.iter k (fun r => (Advance r).1) (router_Reset r) in r_paths r1 = r_paths r /\ r_pathIdx r1 = Z.of_nat k) as G.
    { induction k as [|k IH]; intros Hk; [done|]. destruct IH as [E1 E2]; [lia|]. simpl.
      set (r1 := Nat.iter k _ _) in *. unfold Advance. rewrite E1, E2. rewrite (proj2 (Z.ltb_lt _ _)) by (unfold zlen; lia).
      cbn. split; [done|lia]. }
    split; [|split; [|unfold Advance; by destruct (_ <? _)]].
    2:{ destruct (length (r_paths r)) as [|k] eqn:El; [done|]. destruct (G k ltac:(lia)) as [E1 E2]. rewrite Nat.iter_succ.
        set (r1 := Nat.iter k _ _) in *. unfold Advance. rewrite E1, E2. rewrite (proj2 (Z.ltb_ge _ _)) by (unfold zlen; lia).
        cbn [fst]. unfold r1. apply advance_only_moves. }
    intros k Hk. destruct (G k Hk) as [E1 E2]. set (r1 := Nat.iter k _ _) in *. split.
    + unfold Primary. rewrite E1, E2. rewrite (proj2 (Z.eqb_neq _ _)) by (unfold zlen; lia).
      destruct (index_ok (r_paths r) (Z.of_nat k)) as (p & -> & Hp); [unfold zlen; lia|]. rewrite Nat2Z.id in Hp. by rewrite Hp.
    + unfold Advance. rewrite E1, E2. destruct (_ <? _) eqn:E; bool_to_prop; unfold zlen in *; simpl; split; intros; try done; lia.
Qed.
End runs.

(** ** Flap penalties *)

(** The evictions of [addr] among the events, with their times. *)
Definition flap_times (addr : bytes) (evs : list router_event) : list Z :=
  omap (fun ev => match ev with EFlap t a => if bool_decide (a = addr) then Some t else None | _ => None end) evs.

Definition flap_event_before (now : Z) (ev : router_event) : Prop := match ev with EFlap t _ => t <= now | _ => True end.

Section flaps.
Context `{SliceSort} (blend : Z -> Z -> Z).

Lemma flaps_kept r ev :
  match ev with EFlap _ _ => True | _ => r_flaps (router_step blend r ev) = r_flaps r end.
Proof.
  destruct ev; simpl; try done.
  - unfold RemoveUDPPeer. by destruct (_ !! _).
  - unfold MergeDHTRelays. destruct (_ =? _); [done|]. by destruct (merge_loop _ _ _ _ _ _).
  - unfold probe_tcp. destruct rtt; [done|]. by destruct (match _ !! _ with Some _ => _ | None => _ end).
  - unfold probe_udp. by destruct rtt.
  - unfold UpdateTrafficRTT. by destruct (existsb _ _).
  - unfold BuildPaths. by destruct (_ =? _).
  - unfold Advance. by destruct (_ <? _).
Qed.

Definition recent (now : Z) (l : list Z) : list Z := List.filter (fun t => negb (t <? now - flapWindow)) l.

Lemma recent_recent t now l : t <= now -> recent now (recent t l) = recent now l.
Proof.
  intros Ht. unfold recent. induction l as [|x l IH]; simpl; [done|].
  destruct (x <? t - flapWindow) eqn:E1; simpl.
  - bool_to_prop. rewrite (proj2 (Z.ltb_lt x (now - flapWindow))) by lia. exact IH.
  - by rewrite IH.
Qed.

Lemma recent_app now l1 l2 : recent now (l1 ++ l2) = recent now l1 ++ recent now l2.
Proof. unfold recent. apply List.filter_app. Qed.

(** The penalty of a control is 200 ms for each of its evictions of the last
    five minutes, at most 2 s, whatever else the router did: dropping old entries
    when a new one is recorded loses nothing. *)
Theorem flap_penalty_refines (evs : list router_event) (now : Z) (addr : bytes) (Hpast : Forall (flap_event_before now) evs) :
  flapPenaltyOf now addr (router_run blend evs) = Z.min 2000 (200 * zlen (recent now (flap_times addr evs))).
Proof.
  assert (recent now (default [] (r_flaps (router_run blend evs) !! addr)) = recent now (flap_times addr evs)) as E.
  { unfold router_run. induction evs as [|ev evs IH] using rev_ind; [done|].
    apply Forall_app in Hpast as [Hp [Hev _]%Forall_cons]. specialize (IH Hp). rewrite fold_left_app. cbn [fold_left].
    set (r := fold_left _ evs NewRouter) in *. unfold flap_times in *. rewrite omap_app, recent_app, <- IH.
    pose proof (flaps_kept r ev) as Hk.
    destruct ev as [| | | | | | | | | | | | | | | | |t a| | |]; try (rewrite Hk; simpl; by rewrite app_nil_r).
    clear Hk. simpl in Hev. cbn [router_step RecordControlFlap r_flaps omap list_omap].
    destruct (decide (a = addr)) as [->|Hne].
    - rewrite lookup_insert_eq, bool_decide_eq_true_2 by done. cbn [default from_option id].
      rewrite recent_app. fold (recent t (default [] (r_flaps r !! addr))). by rewrite recent_recent.
    - rewrite lookup_insert_ne, bool_decide_eq_false_2 by done. simpl. by rewrite app_nil_r. }
  unfold flapPenaltyOf. fold (recent now (default [] (r_flaps (router_run blend evs) !! addr))). rewrite E.
  change (Milliseconds flapPenaltyPerEviction) with 200. change (Milliseconds flapPenaltyCap) with 2000.
  destruct (_ >? _) eqn:Ec; lia.
Qed.
End flaps.

(** ** Addresses in normal form *)

Lemma find_byte_none c s : find_byte c s = None <-> c ∉ s.
Proof.
  induction s as [|b s IH]; simpl; [split; [intros _ []%elem_of_nil|done]|].
  unfold byte_eqb. case_bool_decide as E; [subst; split; [done|intros Hn; destruct Hn; left]|].
  destruct (find_byte c s); simpl; rewrite elem_of_cons; naive_solver.
Qed.

Lemma find_byte_take c s i : find_byte c s = Some i -> c ∉ take i s.
Proof.
  revert i. induction s as [|b s IH]; simpl; [done|]. intros i. unfold byte_eqb. case_bool_decide as E; [by intros [= <-]; intros []%elem_of_nil|].
  destruct (find_byte c s) as [j|]; simpl; [|done]. intros [= <-]. simpl. rewrite elem_of_cons. intros [->|Hin]; [done|by apply (IH j)].
Qed.

Lemma trimPrefix_slash s p : x2f ∈ p -> x2f ∉ s -> trimPrefix s p = s.
Proof.
  intros Hp Hs. unfold trimPrefix. destruct (_ && _) eqn:E; [|done]. bool_to_prop.
  destruct Hs. rewrite <- (take_drop (length p) s). apply elem_of_app. left. by rewrite H0.
Qed.

Lemma normalise_no_slash addr : x2f ∉ normaliseAddr addr.
Proof.
  unfold normaliseAddr. set (a := trimPrefix _ _). set (b := match find_byte x2f a with Some i => take i a | None => a end).
  assert (x2f ∉ b) as Hb.
  { unfold b. destruct (find_byte x2f a) eqn:E; [by apply find_byte_take|by apply find_byte_none]. }
  destruct (split_host_port b); [done|]. rewrite elem_of_app. intros [?|Hx]; [done|]. vm_compute in Hx. set_solver.
Qed.

(** A normalised address has no scheme and no path; one that has a port is
    left as it is by a second normalisation; and a plain host name, with or without
    scheme and path, gets port 443. *)
Theorem normalise_addr (addr host path : bytes) (Hhost : forallb plain_byte host = true) (Hslash : x2f ∉ host) :
  (x2f ∉ normaliseAddr addr) /\
  (split_host_port (normaliseAddr addr) <> None -> normaliseAddr (normaliseAddr addr) = normaliseAddr addr) /\
  normaliseAddr host = host ++ str ":443" /\
  normaliseAddr (str "https://" ++ host ++ [x2f] ++ path) = host ++ str ":443" /\
  split_host_port (host ++ str ":443") = Some (host, str "443").
Proof.
  assert (forall s, x2f ∉ s -> split_host_port s <> None -> normaliseAddr s = s) as Hid.
  { intros s Hs Hsp. unfold normaliseAddr. rewrite (trimPrefix_slash s), (trimPrefix_slash s) by (done || by_decide).
    rewrite (proj2 (find_byte_none _ _)) by done. by destruct (split_host_port s). }
  assert (split_host_port host = None) as Hnone.
  { unfold split_host_port. rewrite last_colon_plain; [done|]. apply existsb_plain; [done|by left]. }
  assert (forall s, x2f ∉ s -> trimPrefix s (str "http://") = s) as Ht by (intros s Hs; apply trimPrefix_slash; [by_decide|done]).
  split; [apply normalise_no_slash|]. split; [intros Hs; apply Hid; [apply normalise_no_slash|done]|]. split; [|split].
  - unfold normaliseAddr. rewrite (trimPrefix_slash host) by (done || by_decide). rewrite Ht by done.
    by rewrite (proj2 (find_byte_none _ _)), Hnone by done.
  - unfold normaliseAddr.
    assert (trimPrefix (str "https://" ++ host ++ [x2f] ++ path) (str "https://") = host ++ x2f :: path) as ->.
    { unfold trimPrefix. rewrite take_app_length, drop_app_length, bool_decide_eq_true_2 by done. rewrite andb_true_r.
      rewrite (proj2 (Z.leb_le _ _)); [done|]. rewrite zlen_app. pose proof (zlen_nonneg (host ++ [x2f] ++ path)). lia. }
    assert (trimPrefix (host ++ x2f :: path) (str "http://") = host ++ x2f :: path) as ->.
    { unfold trimPrefix. destruct (_ && _) eqn:E; [|done]. exfalso. bool_to_prop.
      (* the colon of the prefix would be in the host *)
      assert (x3a ∈ host \/ (length host <= 4)%nat /\ take (length host) (str "http://") = host) as Hc.
      { destruct (decide (length host <= 4)%nat) as [Hl|Hl].
        - right. split; [done|]. assert (take (length host) (take (length (str "http://")) (host ++ x2f :: path)) = host) as Htk.
          { rewrite take_take, Nat.min_l by (simpl; lia). apply take_app_length. }
          by rewrite H0 in Htk.
        - left. assert (take 5 (take (length (str "http://")) (host ++ x2f :: path)) = take 5 host) as Htk.
          { rewrite take_take, Nat.min_l by (simpl; lia). apply take_app_le. lia. }
          rewrite H0 in Htk. apply (elem_of_take 5). rewrite <- Htk. by_decide. }
      destruct Hc as [Hc|[Hl Hh]].
      - rewrite forallb_forall in Hhost. apply list_elem_of_In, Hhost in Hc. done.
      - assert ((host ++ x2f :: path) !! length host = Some x2f) as Hlk by (by rewrite list_lookup_middle).
        assert (take (length (str "http://")) (host ++ x2f :: path) !! length host = Some x2f) as Hlk2
          by (rewrite lookup_take_lt by (simpl; lia); done).
        rewrite H0 in Hlk2. do 5 (destruct host as [|? host]; [by vm_compute in Hlk2|]). simpl in Hl. lia. }
    rewrite find_byte_app; [|]. 2:{ destruct (existsb (byte_eqb x2f) host) eqn:E; [|done]. apply existsb_exists in E as (b & Hb & Eb).
      destruct Hslash. unfold byte_eqb in Eb. bool_to_prop. subst. by apply list_elem_of_In. }
    rewrite take_app_length, Hnone. done.
  - apply (split_plain host (str "443")); [done|]. by vm_compute.
Qed.

(** An IPv6 address without brackets is not understood: its colons are taken
    for a malformed port, the result is no host:port address, and each further
    normalisation appends another port. *)
Theorem normalise_bare_ipv6 :
  normaliseAddr (str "2001:db8::1") = str "2001:db8::1:443" /\
  split_host_port (normaliseAddr (str "2001:db8::1")) = None /\
  normaliseAddr (normaliseAddr (str "2001:db8::1")) = str "2001:db8::1:443:443".
Proof. by vm_compute. Qed.

(** ** Merging relays *)

Lemma merge_loop_spec now self known ptr entries acc :
  (forall i, i ∈ known <-> i ∈ rn_ID <$> acc) ->
  exists new, (merge_loop now self known ptr entries acc).1 = acc ++ new /\
    NoDup (rn_ID <$> new) /\ (forall n, n ∈ new -> rn_ID n ∉ rn_ID <$> acc) /\
    (forall n, n ∈ new -> ptr <= rn_ptr n < (merge_loop now self known ptr entries acc).2) /\
    ptr <= (merge_loop now self known ptr entries acc).2 /\
    (forall n, n ∈ new -> (self <> [] -> rn_ID n <> self) /\ rn_IsAlive n = true /\ rn_LastSeen n = now /\
       exists e, e ∈ entries /\ rn_ID n = re_NodeID e /\ rn_Addr n = normaliseAddr (re_Addr e)) /\
    (forall e, e ∈ entries -> re_NodeID e ∈ rn_ID <$> (acc ++ new) \/ self <> [] /\ re_NodeID e = self).
Proof.
  revert known ptr acc. induction entries as [|e entries IH]; intros known ptr acc Hk; cbn [merge_loop].
  { exists []. rewrite app_nil_r. split; [done|]. split; [apply NoDup_nil_2|]. split; [by intros n []%elem_of_nil|].
    split; [by intros n []%elem_of_nil|]. split; [simpl; lia|]. split; by intros ? []%elem_of_nil. }
  destruct (bool_decide (re_NodeID e ∈ known)) eqn:E1; [|destruct (_ && _) eqn:E2]; bool_to_prop.
  - destruct (IH known ptr acc Hk) as (new & A & B & C & D & D' & F & G). exists new. split_and!; try done.
    + intros n Hn. destruct (F n Hn) as (? & ? & ? & e' & ? & ?). split_and!; try done. exists e'. by split; [right|].
    + intros e' [->|Hin]%elem_of_cons; [|by apply G]. left. rewrite fmap_app. apply elem_of_app. left. by apply Hk.
  - destruct (IH known ptr acc Hk) as (new & A & B & C & D & D' & F & G). exists new. split_and!; try done.
    + intros n Hn. destruct (F n Hn) as (? & ? & ? & e' & ? & ?). split_and!; try done. exists e'. by split; [right|].
    + intros e' [->|Hin]%elem_of_cons; [|by apply G]. by right.
  - set (n0 := fresh_node ptr now (re_NodeID e) (re_Addr e) (host_of (re_Addr e)) (re_CountryCode e)).
    destruct (IH ({[re_NodeID e]} ∪ known) (ptr + 1) (acc ++ [n0])) as (new & A & B & C & D & D' & F & G).
    { intros i. rewrite elem_of_union, elem_of_singleton, fmap_app, elem_of_app, Hk. simpl. rewrite list_elem_of_singleton. tauto. }
    exists (n0 :: new). rewrite A, <- app_assoc. split; [done|].
    assert (forall n, n ∈ new -> rn_ID n <> re_NodeID e) as Hdiff.
    { intros n Hn Eq. apply (C n Hn). rewrite fmap_app, elem_of_app. right. simpl. by apply list_elem_of_singleton. }
    split; [|split; [|split; [|split; [lia|split]]]].
    + rewrite fmap_cons. apply NoDup_cons. split; [|done]. intros (n & Eq & Hn)%list_elem_of_fmap. by apply (Hdiff n Hn).
    + intros n [->|Hn]%elem_of_cons; [by rewrite <- Hk|]. intros Hin. apply (C n Hn). rewrite fmap_app, elem_of_app. by left.
    + intros n [->|Hn]%elem_of_cons; [cbn; lia|]. specialize (D n Hn). lia.
    + intros n [->|Hn]%elem_of_cons.
      * apply andb_false_iff in E2. split_and!; [|done|done|exists e; by split; [left|]].
        intros Hs. destruct E2 as [E2|E2]; bool_to_prop; done.
      * destruct (F n Hn) as (? & ? & ? & e' & ? & ?). split_and!; try done. exists e'. by split; [right|].
    + intros e' [->|Hin]%elem_of_cons.
      * left. rewrite fmap_app, elem_of_app. right. left.
      * destruct (G e' Hin) as [Hg|?]; [left|by right]. by rewrite <- app_assoc in Hg.
Qed.

(** Merging DHT relays keeps the known relays with their measurements, adds one
    node for each identifier not known yet, never the client itself, and leaves
    identifiers unique if they were. *)
Theorem merge_relays (now : Z) (entries : list RelayEntry) (r : Router) :
  exists new, r_relays (MergeDHTRelays now entries r) = r_relays r ++ new /\
    (NoDup (rn_ID <$> r_relays r) -> NoDup (rn_ID <$> r_relays (MergeDHTRelays now entries r))) /\
    (forall n, n ∈ new -> (r_selfNodeID r <> [] -> rn_ID n <> r_selfNodeID r) /\
       exists e, e ∈ entries /\ rn_ID n = re_NodeID e /\ rn_Addr n = normaliseAddr (re_Addr e)) /\
    (forall e, e ∈ entries -> re_NodeID e ∈ rn_ID <$> r_relays (MergeDHTRelays now entries r) \/
       r_selfNodeID r <> [] /\ re_NodeID e = r_selfNodeID r).
Proof.
  unfold MergeDHTRelays. destruct (zlen entries =? 0) eqn:E.
  { apply zlen_zero in E as ->. exists []. rewrite app_nil_r. split_and!; try done; by intros ? []%elem_of_nil. }
  destruct (merge_loop_spec now (r_selfNodeID r) (list_to_set (rn_ID <$> r_relays r)) (r_next r) entries (r_relays r))
    as (new & A & B & C & _ & _ & F & G); [intros i; by rewrite elem_of_list_to_set|].
  destruct (merge_loop _ _ _ _ _ _) as [l ptr]. simpl in A. subst l. cbn [r_relays with_next with_relays]. exists new.
  split; [done|]. split; [|split; [|done]].
  - intros Hn. rewrite fmap_app. apply NoDup_app. split_and!; [done| |done].
    intros i Hi (n & -> & Hin)%list_elem_of_fmap. by apply (C n Hin).
  - intros n Hn. destruct (F n Hn) as (? & _ & _ & ?). by split.
Qed.

(** ** Probes that come late *)

Definition ptrs_ok (r : Router) : Prop := Forall (fun n => rn_ptr n < r_next r) (r_controls r ++ r_relays r).

Lemma update_first_ptr p f l : (forall n, rn_ptr (f n) = rn_ptr n) -> rn_ptr <$> update_first p f l = rn_ptr <$> l.
Proof. intros Hf. induction l as [|n l IH]; [done|]. cbn [update_first]. destruct (p n); rewrite !fmap_cons, ?Hf, ?IH; done. Qed.

Lemma write_node_ptr ptr f l : (forall n, rn_ptr (f n) = rn_ptr n) -> rn_ptr <$> write_node ptr f l = rn_ptr <$> l.
Proof. intros Hf. unfold write_node. induction l as [|n l IH]; [done|]. rewrite !fmap_cons, IH. by destruct (_ =? _); rewrite ?Hf. Qed.

Lemma forall_ptr (P : Z -> Prop) l l' : rn_ptr <$> l' = rn_ptr <$> l -> Forall (fun n => P (rn_ptr n)) l -> Forall (fun n => P (rn_ptr n)) l'.
Proof.
  intros E Hl. apply (Forall_fmap rn_ptr P). rewrite E. apply (Forall_fmap rn_ptr P). exact Hl.
Qed.

Lemma fresh_controls_ptr ptr now regions addrs :
  Forall (fun n => ptr <= rn_ptr n < ptr + zlen addrs) (fresh_controls ptr now regions addrs).
Proof.
  revert ptr. induction addrs as [|a addrs IH]; intros ptr; simpl; [constructor|]. rewrite zlen_cons. pose proof (zlen_nonneg addrs).
  constructor; [simpl; lia|]. eapply Forall_impl; [apply IH|]. simpl. intros n Hn. lia.
Qed.

Lemma fresh_relays_ptr ptr now l : Forall (fun n => ptr <= rn_ptr n < ptr + zlen l) (fresh_relays ptr now l).
Proof.
  revert ptr. induction l as [|a l IH]; intros ptr; simpl; [constructor|]. rewrite zlen_cons. pose proof (zlen_nonneg l).
  constructor; [simpl; lia|]. eapply Forall_impl; [apply IH|]. simpl. intros n Hn. lia.
Qed.

Lemma write_node_absent ptr f l : Forall (fun n => rn_ptr n <> ptr) l -> write_node ptr f l = l.
Proof.
  unfold write_node. induction 1 as [|n l Hn Hl IH]; [done|]. rewrite fmap_cons, IH. by rewrite (proj2 (Z.eqb_neq _ _)) by done.
Qed.

Section late_probes.
Context `{SliceSort} (blend : Z -> Z -> Z).

Lemma ptrs_same r r' :
  rn_ptr <$> r_controls r' = rn_ptr <$> r_controls r -> rn_ptr <$> r_relays r' = rn_ptr <$> r_relays r -> r_next r' = r_next r ->
  ptrs_ok r -> ptrs_ok r'.
Proof.
  unfold ptrs_ok. intros E1 E2 ->. rewrite !Forall_app. intros [H1 H2]. split; by eapply (forall_ptr (fun p => p < r_next r)).
Qed.

Lemma router_step_ptrs r ev : ptrs_ok r -> ptrs_ok (router_step blend r ev).
Proof.
  intros Hr. destruct ev; simpl; try (apply (ptrs_same r); [done|done|done|exact Hr]);
    try (apply (ptrs_same r); [by apply update_first_ptr|done|done|exact Hr]).
  - unfold RemoveUDPPeer. by destruct (_ !! _).
  - unfold ptrs_ok in *. cbn [r_controls r_relays r_next with_next with_controls SetControlsWithRegions].
    apply Forall_app in Hr as [_ Hr]. apply Forall_app. split; (eapply Forall_impl; [first [exact Hr|apply fresh_controls_ptr]|]);
      simpl; intros n Hn; pose proof (zlen_nonneg addrs); lia.
  - unfold ptrs_ok in *. cbn [r_controls r_relays r_next with_next with_relays UpdateRelays].
    apply Forall_app in Hr as [Hr _]. apply Forall_app. split; (eapply Forall_impl; [first [exact Hr|apply fresh_relays_ptr]|]);
      simpl; intros n Hn; pose proof (zlen_nonneg l); lia.
  - unfold MergeDHTRelays. destruct (_ =? _); [done|].
    destruct (merge_loop_spec now (r_selfNodeID r) (list_to_set (rn_ID <$> r_relays r)) (r_next r) l (r_relays r))
      as (new & A & _ & _ & D & D' & _ & _); [intros i; by rewrite elem_of_list_to_set|].
    destruct (merge_loop _ _ _ _ _ _) as [l' ptr]. simpl in A, D, D'. subst l'. unfold ptrs_ok in *. cbn.
    apply Forall_app in Hr as [Hc Hr]. rewrite !Forall_app. split_and!.
    + eapply Forall_impl; [exact Hc|]. simpl. lia.
    + eapply Forall_impl; [exact Hr|]. simpl. lia.
    + apply Forall_forall. intros n Hn. specialize (D n Hn). lia.
  - apply (ptrs_same r); [done|by apply update_first_ptr|done|exact Hr].
  - unfold probe_tcp. destruct rtt; simpl; [apply (ptrs_same r); [by apply write_node_ptr|done|done|exact Hr]|].
    destruct (match _ !! _ with Some _ => _ | None => _ end); [|exact Hr].
    apply (ptrs_same r); [by apply write_node_ptr|done|done|exact Hr].
  - unfold probe_udp. destruct rtt; (apply (ptrs_same r); [by apply write_node_ptr|done|done|exact Hr]).
  - unfold measure. apply (ptrs_same r); cbn; [by apply write_node_ptr; intros n0; destruct rtt..|done|exact Hr].
  - unfold UpdateTrafficRTT. destruct (existsb _ _); (apply (ptrs_same r); [done || by apply update_first_ptr|done || by apply update_first_ptr|done|exact Hr]).
  - unfold BuildPaths. destruct (_ =? _); (apply (ptrs_same r); [done|done|done|exact Hr]).
  - unfold Advance. destruct (_ <? _); (apply (ptrs_same r); [done|done|done|exact Hr]).
Qed.

(** A probe that is still running when the list of controls is replaced does no
    harm: its result, of either probe, whenever it arrives, changes nothing in the
    router. *)
Theorem stale_probe_harmless (evs : list router_event) (n : routerNode) (now t : Z) (addrs : list bytes) (regions : gmap bytes bytes)
    (tcp udp : option Z) (Hn : n ∈ r_controls (router_run blend evs)) :
  let r := SetControlsWithRegions now addrs regions (router_run blend evs) in
  (probe_tcp t n tcp r).1 = r /\ probe_udp t n udp r = r.
Proof.
  assert (ptrs_ok (router_run blend evs)) as Hp.
  { unfold router_run. assert (ptrs_ok NewRouter) as H0 by constructor. revert H0. clear Hn. generalize NewRouter.
    induction evs as [|ev evs IH]; intros r0 H0; [done|]. simpl. apply IH. by apply router_step_ptrs. }
  intros r. assert (rn_ptr n < r_next (router_run blend evs)) as Hlt.
  { unfold ptrs_ok in Hp. rewrite Forall_forall in Hp. apply Hp. apply elem_of_app. by left. }
  assert (forall f, write_control (rn_ptr n) f r = r) as Hw.
  { intros f. unfold write_control. rewrite write_node_absent; [by destruct r|]. unfold r. cbn.
    eapply Forall_impl; [apply fresh_controls_ptr|]. simpl. lia. }
  split.
  - unfold probe_tcp. destruct tcp; [apply Hw|]. destruct (match _ !! _ with Some _ => _ | None => _ end); [apply Hw|done].
  - unfold probe_udp. destruct udp; apply Hw.
Qed.
End late_probes.

(** ** Switching controls *)

Lemma best_score_spec norm l best :
  match best_score norm l best with
  | None => best = None /\ forall q, q ∈ l -> rp_ControlAddr q <> norm
  | Some b => (forall q, q ∈ l -> rp_ControlAddr q = norm -> b <= rp_Score q) /\ (forall b0, best = Some b0 -> b <= b0) /\
              (best = Some b \/ exists q, q ∈ l /\ rp_ControlAddr q = norm /\ rp_Score q = b)
  end.
Proof.
  revert best. induction l as [|p l IH]; intros best; cbn [best_score].
  { destruct best as [b|]; [|split; [done|by intros q []%elem_of_nil]]. split; [by intros q []%elem_of_nil|].
    split; [by intros b0 [= <-]|by left]. }
  destruct (bool_decide (rp_ControlAddr p = norm) && _) eqn:E.
  - apply andb_prop in E as [Ec Eb]. bool_to_prop. specialize (IH (Some (rp_Score p))).
    destruct (best_score norm l (Some (rp_Score p))) as [b|]; [|by destruct IH]. destruct IH as (H1 & H2 & H3).
    specialize (H2 _ eq_refl). split; [|split].
    + intros q [->|Hq]%elem_of_cons; [done|by apply H1].
    + intros b0 ->. bool_to_prop. lia.
    + right. destruct H3 as [[= <-]|(q & ? & ? & ?)]; [exists p; by split; [left|]|exists q; by split; [right|]].
  - specialize (IH best). apply andb_false_iff in E.
    destruct (best_score norm l best) as [b|].
    + destruct IH as (H1 & H2 & H3). split; [|split; [done|]].
      * intros q [->|Hq]%elem_of_cons; [|by apply H1]. intros Hc. destruct E as [E|E]; [by bool_to_prop|].
        destruct best as [b0|]; [|done]. bool_to_prop. specialize (H2 b0 eq_refl). lia.
      * destruct H3 as [?|(q & ? & ?)]; [by left|right; exists q; by split; [right|]].
    + destruct IH as [-> H1]. split; [done|]. intros q [->|Hq]%elem_of_cons; [|by apply H1].
      destruct E as [E|E]; [by bool_to_prop|done].
Qed.

(** The router advises to switch exactly when the primary path ends at another
    control and either no candidate path goes through the current control, or the
    primary's score times the factor is at most the score of every such path. *)
Theorem primary_is_better_exact (currentAddr : bytes) (num den : Z) (r : Router) (p : RouterPath)
    (Hden : 0 < den) (Hprim : Primary r = Ok (Some p)) :
  exists b o, PrimaryIsBetter currentAddr num den r = Ok (b, o) /\ (b = true -> o = Some p) /\
    (b = true <-> rp_ControlAddr p <> normaliseAddr currentAddr /\
       forall q, q ∈ r_paths r -> rp_ControlAddr q = normaliseAddr currentAddr -> rp_Score p * num <= rp_Score q * den).
Proof.
  unfold Primary in Hprim. unfold PrimaryIsBetter. destruct (zlen (r_paths r) =? 0); [done|].
  destruct (index (r_paths r) (r_pathIdx r)) as [p'| |]; simpl in Hprim; try done. injection Hprim as ->. cbn [mbind res_bind].
  case_bool_decide as E; [eexists _, _; split; [done|]; split; [done|]; naive_solver|].
  pose proof (best_score_spec (normaliseAddr currentAddr) (r_paths r) None) as Hb.
  destruct (best_score _ (r_paths r) None) as [b|].
  - destruct Hb as (H1 & _ & [?|(q & Hq & Hc & Hs)]); [done|]. eexists _, _. split; [done|]. split; [done|].
    rewrite Z.leb_le. split.
    + intros Hle. split; [done|]. intros q' Hq' Hc'. specialize (H1 q' Hq' Hc'). nia.
    + intros [_ Hall]. rewrite <- Hs. by apply Hall.
  - destruct Hb as [_ Hno]. eexists _, _. split; [done|]. split; [done|]. split; [|done]. intros _. split; [done|].
    intros q Hq Hc. by destruct (Hno q Hq).
Qed.

(** ** Exclusions *)

Section exclusions.
Context `{SliceSort} (blend : Z -> Z -> Z) (shuffle : list RouterPath -> list RouterPath).

(** A control whose data plane was marked dead is on no path built before the
    deadline, and so is a control whose last sign of life is 30 seconds old or
    whose last probe failed on both transports. *)
Theorem excluded_controls (now until : Z) (addr : bytes) (r : Router) (Hshuffle : forall l, Permutation l (shuffle l))
    (Hbad : r_dataDead r !! addr = Some until /\ now < until \/
            forall c, c ∈ r_controls r -> rn_Addr c = addr -> rn_IsAlive c = false \/ rn_LastSeen c + 30 * rsec <= now) :
  (addr ∉ QualifyingControlAddrs (BuildPaths blend now shuffle r)) /\
  forall p, p ∈ r_paths (BuildPaths blend now shuffle r) -> rp_ControlAddr p <> addr.
Proof.
  assert (forall p, p ∈ r_paths (BuildPaths blend now shuffle r) -> rp_ControlAddr p <> addr) as Hno.
  { unfold BuildPaths. destruct (_ =? _); cbn [r_paths with_paths]; [by intros p []%elem_of_nil|].
    intros p Hp. rewrite <- Hshuffle in Hp. apply elem_of_take, ranked_ok in Hp as [(c & Hc & ->) _].
    apply candidate_alive in Hc as [Hc Ha]. intros <-. unfold alive in Ha. destruct (_ || _) eqn:E; [done|]. bool_to_prop.
    destruct Hbad as [[Hd Hu]|Hbad].
    - rewrite Hd in Ha. bool_to_prop. lia.
    - destruct (Hbad c Hc eq_refl) as [?|?]; [congruence|]. rewrite Z.geb_leb in *. bool_to_prop. lia. }
  split; [|done]. unfold QualifyingControlAddrs.
  assert (forall seen l, addr ∈ unique_addrs seen l -> exists p, p ∈ l /\ rp_ControlAddr p = addr) as Hu.
  { intros seen l. revert seen. induction l as [|p l IH]; intros seen; cbn [unique_addrs]; [by intros []%elem_of_nil|].
    destruct (bool_decide _); [|rewrite elem_of_cons; intros [->|Hin]; [exists p; by split; [left|]|]].
    - intros Hin. destruct (IH seen Hin) as (q & ? & ?). exists q. by split; [right|].
    - destruct (IH _ Hin) as (q & ? & ?). exists q. by split; [right|]. }
  intros (p & Hp & E)%Hu. by apply (Hno p).
Qed.

(** The in-country filter is not hard: with one or two qualifying controls in
    the country, the best controls of other countries are used beside them. *)
Theorem foreign_controls_supplement (now : Z) (r : Router)
    (Hfew : 0 < zlen (core_controls now r) < 3) (Hres : reserve now r <> []) :
  exists extra, candidate_controls blend now r = core_controls now r ++ extra /\ extra <> [] /\
    zlen extra = Z.min (3 - zlen (core_controls now r)) (zlen (reserve now r)) /\
    (forall n, n ∈ extra -> rn_CountryCode n <> r_myCountry r) /\
    forall n n', n ∈ extra -> n' ∈ reserve now r -> n' ∉ extra -> nodeScore blend now r n <= nodeScore blend now r n'.
Proof.
  rewrite candidate_controls_eq. rewrite (proj2 (Z.eqb_neq _ _)) by lia. rewrite (proj2 (Z.ltb_lt _ _)), (proj2 (zlen_pos _)) by (done || lia).
  cbn [andb]. set (less := fun a b => nodeScore blend now r a <? nodeScore blend now r b).
  set (k := Z.to_nat (3 - zlen (core_controls now r))). exists (take k (sort_slice less (reserve now r))). split; [done|].
  assert (length (sort_slice less (reserve now r)) = length (reserve now r)) as Hlen by (by rewrite <- sort_slice_perm).
  assert (length (reserve now r) <> 0%nat) as Hnz by (by destruct (reserve now r)).
  assert (zlen (take k (sort_slice less (reserve now r))) = Z.min (3 - zlen (core_controls now r)) (zlen (reserve now r))) as Hz.
  { unfold zlen at 1. rewrite length_take, Hlen. unfold k. clear -Hfew. unfold zlen in *. lia. }
  split; [intros En; rewrite En, zlen_nil in Hz; unfold zlen in *; lia|]. split; [done|]. split.
  - intros n Hn%elem_of_take. rewrite <- sort_slice_perm in Hn. by apply reserve_alive in Hn as (_ & _ & _ & _ & ?).
  - intros n n' Hn Hn' Hout. rewrite (sort_slice_perm less) in Hn'. rewrite <- (take_drop k (sort_slice less _)) in Hn'.
    apply elem_of_app in Hn' as [?|Hn']; [done|].
    assert (less n' n = false) as Hl.
    { eapply sorted_take_drop; [apply sort_slice_sorted|exact Hn|exact Hn']; unfold less; intros; bool_to_prop; apply Z.ltb_ge; lia. }
    unfold less in Hl. by bool_to_prop.
Qed.

(** The preference for TCP is not hard either: when only UDP reaches the
    controls of the client's country, they are used even though TCP reaches controls
    elsewhere. *)
Theorem udp_only_control_kept (now : Z) (r : Router) (c f : routerNode)
    (Hc : c ∈ preferred now r) (Hudp : forall n, n ∈ preferred now r -> is_tcp n = false) (Hf : f ∈ reserve now r) :
  c ∈ candidate_controls blend now r /\ is_tcp c = false /\ alive now r f = true /\ is_tcp f = true.
Proof.
  assert (core_controls now r = preferred now r) as Ec.
  { unfold core_controls. destruct (zlen _ >? 0) eqn:E; [|done]. apply zlen_pos in E.
    destruct (List.filter is_tcp (preferred now r)) as [|n l] eqn:El; [done|].
    assert (n ∈ List.filter is_tcp (preferred now r)) as Hn by (rewrite El; left). apply elem_of_lfilter in Hn as [Hn Ht].
    rewrite Hudp in Ht; done. }
  split; [|split; [by apply Hudp|by apply reserve_alive in Hf as (_ & ? & ? & _)]].
  rewrite candidate_controls_eq, Ec. destruct (zlen (preferred now r) =? 0) eqn:E.
  - apply zlen_zero in E. rewrite E in Hc. by apply elem_of_nil in Hc.
  - destruct (_ && _); [apply elem_of_app; by left|done].
Qed.
End exclusions.

(** ** Witnesses *)

Module Toy_router.
#[export] Existing Instance insertion_slice_sort.
Definition mean (a b : Z) : Z := (3 * a + 7 * b) / 10.
Definition regions : gmap bytes bytes := {[str "ru1" := str "RU"; str "de1" := str "DE"]}.

(** A client in RU with a control at home and one abroad, and one relay. *)
Definition events : list router_event :=
  [ECountry (str "RU"); EControls 0 [str "ru1"; str "de1"] regions; ERelays 0 [mkListEntry (str "r1") (str "9.9.9.9:1") (str "RU") 100]].
Definition router : Router := router_run mean events.
Definition home : routerNode := mkNode 0 (str "ru1") (str "ru1:443") (str "ru1") (str "RU") 0 0 0 true transportTCP.
Definition abroad : routerNode := mkNode 1 (str "de1") (str "de1:443") (str "de1") (str "DE") 0 0 0 true transportTCP.
(** The same with the home control behind a TCP block. *)
Definition blocked : Router := router_run mean (events ++ [EProbeTCP 1 home None; EProbeUDP 1 home (Some 5)]).
Definition home_udp : routerNode := mkNode 0 (str "ru1") (str "ru1:443") (str "ru1") (str "RU") 5 0 1 true transportUDP.
End Toy_router.

Section witnesses.
Import Toy_router.

Lemma build_paths_sound_witness : zlen (r_paths (BuildPaths mean 1 (fun l => l) router)) <= 5.
Proof. apply (build_paths_sound mean 1 (fun l => l) router). done. Defined.

(** With seven controls without relays, the last direct path is left out. *)
Definition seven : Router := router_run mean [EControls 0 [str "a"; str "b"; str "c"; str "d"; str "e"; str "f"; str "g"] ∅].
Definition worst : RouterPath := mkPath [] (str "g:443") 0 None.

Lemma build_paths_best_witness : zlen (r_paths (BuildPaths mean 1 (fun l => l) seven)) = 5.
Proof.
  apply (build_paths_best mean 1 (fun l => l) seven worst); [done| |].
  - vm_compute. do 6 right. left.
  - vm_compute. set_solver.
Defined.

Lemma flap_penalty_refines_witness :
  flapPenaltyOf (10 * rsec) (str "ru1:443") (router_run mean [EFlap 0 (str "ru1:443"); EFlap (5 * rsec) (str "ru1:443")]) = 400.
Proof.
  rewrite (flap_penalty_refines mean); [reflexivity|].
  constructor; [vm_compute; discriminate|]. constructor; [vm_compute; discriminate|constructor].
Defined.

Lemma normalise_addr_witness : normaliseAddr (str "control.example") = str "control.example:443".
Proof. apply (normalise_addr [] (str "control.example") []); [reflexivity|]. vm_compute. set_solver. Defined.

Lemma stale_probe_harmless_witness :
  let r := SetControlsWithRegions 5 [str "new"] ∅ router in probe_udp 9 home (Some 3) r = r.
Proof. apply (stale_probe_harmless mean events home 5 9 [str "new"] ∅ None (Some 3)). vm_compute. left. Defined.

Lemma primary_is_better_exact_witness :
  exists b o, PrimaryIsBetter (str "elsewhere") 3 2 (BuildPaths mean 1 (fun l => l) router) = Ok (b, o).
Proof.
  destruct (Primary (BuildPaths mean 1 (fun l => l) router)) as [[p|] | |] eqn:E; try (by vm_compute in E).
  destruct (primary_is_better_exact (str "elsewhere") 3 2 _ p ltac:(lia) E) as (b & o & H & _). by exists b, o.
Defined.

Lemma excluded_controls_witness :
  str "ru1:443" ∉ QualifyingControlAddrs (BuildPaths mean 1 (fun l => l) (MarkControlDataDead (str "ru1:443") 99 router)).
Proof. apply (excluded_controls mean (fun l => l) 1 99); [done|]. left. by vm_compute. Defined.

Lemma foreign_controls_supplement_witness :
  exists extra, candidate_controls mean 1 router = core_controls 1 router ++ extra /\ extra <> [].
Proof.
  destruct (foreign_controls_supplement mean 1 router) as (extra & A & B & _); [by vm_compute|by vm_compute|]. by exists extra.
Defined.

Lemma udp_only_control_kept_witness : home_udp ∈ candidate_controls mean 2 blocked.
Proof.
  apply (udp_only_control_kept mean 2 blocked home_udp abroad); [vm_compute; left| |vm_compute; left].
  vm_compute. intros n Hn. apply elem_of_cons in Hn as [->|Hn]; [done|by apply elem_of_nil in Hn].
Defined.
End witnesses.
