(* ===== verification/ParaExit.v ===== *)
(** * ParaExit: the reverse tunnel to regional exits (para_exit.go)

    The goroutine that keeps one exit connected is a step system: [connectToExit]
    with [runSession] inside and the goroutine of the planned reconnect beside it.
    What the network does is part of the event.  Stream headers, the registration
    frame and the list of exits are functions of what is read.  yamux, TLS, signing
    and JSON are arguments. *)
From S2P Require Import Prelude Encoding Env Identity.

Definition psec : Z := 1000000000.

(** ** Headers, registration, the list of exits *)

(** The part [parseFirstJSON] decodes: up to the first newline. *)
Definition first_line (buf : bytes) : bytes := match find_byte x0a buf with Some i => take i buf | None => buf end.

Record paraRegBody := mkReg { pr_NodeID : bytes; pr_TS : Z }.
Record reg_frame := mkRegFrame { rf_node_id : bytes; rf_ts : Z; rf_sig : bytes }.

Section frames.
Context `{JSON paraRegBody} (ed25519_sign : bytes -> bytes -> bytes) (parse_target : bytes -> option bytes).

Definition register (privKey nodeID : bytes) (now : Z) : res reg_frame :=
  match json_marshal (mkReg nodeID now) with
  | None => Err "marshal"
  | Some body => Ok (mkRegFrame nodeID now (B64.encode (ed25519_sign privKey body)))
  end.

(** The stream delivers [chunks], one per read.  The result is the target to dial
    and what is then copied to it; nothing when the header is rejected. *)
Definition handleStream (chunks : list bytes) : option (bytes * bytes) :=
  match chunks with
  | [] => None
  | c :: rest =>
    let buf := take 256 c in
    if zlen buf =? 0 then None else
    match parse_target (first_line buf) with
    | None => None
    | Some t => if bool_decide (t = []) then None else Some (t, drop 256 c ++ mjoin rest)
    end
  end.

Definition exitDialAddr (addr : bytes) : bytes :=
  match split_host_port addr with None => addr ++ str ":443" | Some _ => addr end.

(** [get] is the status and the decoded addresses of the answer. *)
Definition fetchExits (get : bytes -> option (Z * option (list bytes))) (apiURL : bytes) : res (list bytes) :=
  match get (apiURL ++ str "/p/v1/para-exits") with
  | None => Err "GET para-exits"
  | Some (status, body) =>
    if negb (status =? 200) then Err "GET para-exits: status" else
    match body with
    | None => Err "decode para-exits"
    | Some l => Ok (exitDialAddr <$> List.filter (fun a => negb (bool_decide (a = []))) l)
    end
  end.
End frames.

(** ** Backoff *)

Definition grow (limit b : Z) : Z := if b <? limit then b * 2 else b.

(** [loop]: the wait before the next fetch, and the wait after it fails again. *)
Definition fetch_wait (failures : nat) : Z := Nat.iter failures (grow (300 * psec)) (10 * psec).

(** ** The goroutine of one exit *)

(** The goroutine that plans the reconnect: waiting, ended, or about to close. *)
Inductive timer := Armed | Fired | Gone.

Inductive phase :=
| PCheck                                           (* top of the loop *)
| PDial                                            (* inside runSession, before the session is listed *)
| PReg (closed : bool)                             (* listed, registering *)
| PRun (closed planned : bool) (t : timer)         (* accepting streams *)
| PWait                                            (* the select after an error *)
| PDone.

Record worker := mkWorker {
  w_phase : phase;
  w_backoff : Z;
  w_childStop : bool;                              (* the list of exits is being fetched again *)
  w_stop : bool                                    (* Stop was called *)
}.

Definition new_worker : worker := mkWorker PCheck (1 * psec) false false.

Inductive para_event :=
| XStop                                            (* Stop: close the channel, then every listed session *)
| XChildStop
| XLoop                                            (* the check at the top *)
| XDialFailed
| XListed                                          (* dialled and appended to the sessions *)
| XRegistered
| XRegisterFailed
| XTimer                                           (* the planned time is over *)
| XTimerClose                                      (* after the grace period *)
| XTimerStop                                       (* the planning goroutine sees a stop *)
| XRemoteClosed
| XAcceptFailed                                    (* AcceptStream returns an error *)
| XWaited                                          (* the backoff is over *)
| XWaitStop.                                       (* a stop ends the backoff *)

Definition with_phase (w : worker) (p : phase) : worker := mkWorker p (w_backoff w) (w_childStop w) (w_stop w).

(** [None]: the event cannot happen. *)
Definition worker_step (w : worker) (ev : para_event) : option worker :=
  match ev, w_phase w with
  | XStop, p =>
    if w_stop w then None
    else Some (mkWorker (match p with PReg _ => PReg true | PRun _ planned t => PRun true planned t | _ => p end) (w_backoff w) (w_childStop w) true)
  | XChildStop, p => if w_childStop w then None else Some (mkWorker p (w_backoff w) true (w_stop w))
  | XLoop, PCheck => Some (with_phase w (if w_childStop w || w_stop w then PDone else PDial))
  | XDialFailed, PDial => Some (with_phase w PWait)
  | XListed, PDial => Some (with_phase w (PReg false))
  | XRegistered, PReg false => Some (with_phase w (PRun false false Armed))
  | XRegisterFailed, PReg _ => Some (with_phase w PWait)
  | XTimer, PRun c pl Armed => Some (with_phase w (PRun c pl Fired))
  | XTimerClose, PRun c pl Fired => Some (with_phase w (PRun true true Gone))
  | XTimerStop, PRun c pl Armed => if w_childStop w || w_stop w then Some (with_phase w (PRun c pl Gone)) else None
  | XRemoteClosed, PReg false => Some (with_phase w (PReg true))
  | XRemoteClosed, PRun false pl t => Some (with_phase w (PRun true pl t))
  | XAcceptFailed, PRun true planned t =>
    Some (if planned then mkWorker PCheck (1 * psec) (w_childStop w) (w_stop w) else with_phase w PWait)
  | XWaited, PWait => Some (mkWorker PCheck (grow (60 * psec) (w_backoff w)) (w_childStop w) (w_stop w))
  | XWaitStop, PWait => if w_childStop w || w_stop w then Some (with_phase w PDone) else None
  | _, _ => None
  end.

Inductive worker_reach : worker -> Prop :=
| reach_new : worker_reach new_worker
| reach_step w ev w' : worker_reach w -> worker_step w ev = Some w' -> worker_reach w'.

Definition worker_run (w : worker) (evs : list para_event) : option worker :=
  fold_left (fun w ev => w ← w; worker_step w ev) evs (Some w).

(** ** Properties *)

Lemma worker_run_cons w ev evs : worker_run w (ev :: evs) = (w' ← worker_step w ev; worker_run w' evs).
Proof.
  unfold worker_run. simpl. destruct (worker_step w ev); [done|]. induction evs; [done|]. exact IHevs.
Qed.

Lemma reach_run w evs w' : worker_reach w -> worker_run w evs = Some w' -> worker_reach w'.
Proof.
  revert w. induction evs as [|ev evs IH]; intros w Hw Hr; [by injection Hr as <-|].
  rewrite worker_run_cons in Hr. destruct (worker_step w ev) as [w1|] eqn:E; [|done].
  apply (IH w1); [by eapply reach_step|done].
Qed.

(** The wait before the list of exits is fetched again doubles with each
    failure from 10 seconds and never exceeds 320 seconds; the wait before an exit is
    dialled again is 1, 2, 4, ... up to 64 seconds, in every state the goroutine can
    reach. *)
Theorem backoff_bounds (w : worker) (Hw : worker_reach w) :
  (exists k : nat, (k <= 6)%nat /\ w_backoff w = 2 ^ Z.of_nat k * psec) /\
  forall n, 10 * psec <= fetch_wait n <= 320 * psec /\ ((n <= 5)%nat -> fetch_wait n = 10 * 2 ^ Z.of_nat n * psec) /\
    ((5 <= n)%nat -> fetch_wait n = 320 * psec).
Proof.
  split.
  - induction Hw as [|w ev w' Hw IH Hs]; [exists 0%nat; split; [lia|done]|]. destruct IH as (k & Hk & Eb).
    assert (w_backoff w' = w_backoff w \/ w_backoff w' = 1 * psec \/ w_backoff w' = grow (60 * psec) (w_backoff w)) as Hc.
    { unfold worker_step in Hs. destruct w as [ph b cs st]. destruct ev, ph; simpl in Hs;
        repeat case_match; simplify_eq/=; auto. }
    destruct Hc as [->|[->| ->]]; [by exists k|exists 0%nat; split; [lia|done]|].
    rewrite Eb. unfold grow. destruct (_ <? _) eqn:E; bool_to_prop; [|by exists k].
    assert (k <> 6%nat) by (intros ->; change (2 ^ Z.of_nat 6) with 64 in E; unfold psec in E; lia).
    exists (S k). split; [lia|]. rewrite Nat2Z.inj_succ, Z.pow_succ_r by lia. ring.
  - intros n. assert (forall m, fetch_wait (5 + m) = 320 * psec) as Hlate.
    { induction m as [|m IH]; [done|]. rewrite Nat.add_succ_r. unfold fetch_wait in *. simpl in *. rewrite IH. done. }
    assert ((5 <= n)%nat -> fetch_wait n = 320 * psec) as H5.
    { intros Hn. replace n with (5 + (n - 5))%nat by lia. apply Hlate. }
    split; [|split; [|done]].
    + destruct (decide (5 <= n)%nat) as [Hn|Hn]; [rewrite H5 by done; unfold psec; lia|].
      do 5 (destruct n as [|n]; [vm_compute; split; discriminate|]). lia.
    + intros Hn. do 6 (destruct n as [|n]; [done|]). lia.
Qed.

(** ** Stopping *)

(** Stopped, with no session that [Stop] did not see. *)
Definition stopping (w : worker) : bool :=
  w_stop w && match w_phase w with PDial => false | PReg c => c | PRun c _ _ => c | _ => true end.

Definition rank (w : worker) : nat :=
  (match w_phase w with
   | PDone => 0 | PCheck => 1 | PWait => 2 | PReg _ => 3 | PDial => 9
   | PRun _ _ Gone => 3 | PRun _ _ Fired => 4 | PRun _ _ Armed => 5 end) * 2 + (if w_childStop w then 0 else 1).

Lemma stopping_step w ev w' : stopping w = true -> worker_step w ev = Some w' -> stopping w' = true /\ (rank w' < rank w)%nat.
Proof.
  destruct w as [ph b cs st]. unfold stopping, rank. simpl. intros [-> Hp]%andb_prop.
  destruct ev, ph as [| |c|c pl t| |]; simpl; try done; repeat case_match; intros; simplify_eq/=; split; try done; lia.
Qed.

Lemma stopping_progress w : stopping w = true -> w_phase w <> PDone -> exists ev w', worker_step w ev = Some w'.
Proof.
  destruct w as [ph b cs st]. unfold stopping. simpl. intros [-> Hp]%andb_prop Hn.
  destruct ph as [| |c|c pl t| |]; simpl in *; subst; try done.
  - exists XLoop. by eexists.
  - exists XRegisterFailed. by eexists.
  - exists XAcceptFailed. by eexists.
  - exists XWaited. by eexists.
Qed.

(** C37: when [Stop] is called, a goroutine that is not just then between dialling
    and listing its session comes to its end: every run after it has at most eleven
    more steps, and as long as it has not ended a step is possible. *)
Theorem stop_ends_worker (w w1 : worker) (evs : list para_event) (w2 : worker)
    (Hphase : w_phase w <> PDial) (Hstop : worker_step w XStop = Some w1) (Hrun : worker_run w1 evs = Some w2) :
  (length evs <= 11)%nat /\ (w_phase w2 <> PDone -> exists ev w3, worker_step w2 ev = Some w3).
Proof.
  assert (stopping w1 = true /\ (rank w1 <= 11)%nat) as [Hs Hr].
  { destruct w as [ph b cs st]. simpl in *. destruct st; [done|]. injection Hstop as <-. unfold stopping, rank. simpl.
    destruct ph as [| |c|c pl []| |], cs; simpl; try done; split; try done; lia. }
  clear Hphase Hstop.
  assert (stopping w2 = true /\ (length evs + rank w2 <= rank w1)%nat) as [Hs2 Hr2].
  { clear Hr. revert w1 Hs Hrun. induction evs as [|ev evs IH]; intros w1 Hs Hrun.
    - injection Hrun as <-. by split.
    - rewrite worker_run_cons in Hrun. destruct (worker_step w1 ev) as [wn|] eqn:E; [|done]. cbn [mbind option_bind] in Hrun.
      destruct (stopping_step w1 ev wn Hs E) as [Hs' Hlt]. destruct (IH wn Hs' Hrun) as [H1 H2]. split; [done|]. simpl. lia. }
  split; [lia|]. by apply stopping_progress.
Qed.

(** The end of a session is left to the exit.  Once the goroutine that plans
    the reconnect has seen a stop it ends without closing the session; unless the
    exit closes it (or [Stop] is called), the goroutine accepts streams for ever.
    This state is reached when the hourly refresh closes the child channel, which
    then waits for the goroutine; and when [Stop] comes between dialling and listing
    a session. *)
Theorem session_survives_stop (w : worker) (pl : bool) (evs : list para_event) (w' : worker)
    (Hphase : w_phase w = PRun false pl Gone) (Hevs : Forall (fun ev => ev <> XRemoteClosed /\ ev <> XStop) evs)
    (Hrun : worker_run w evs = Some w') :
  w_phase w' = PRun false pl Gone /\
  (exists w0, worker_reach w0 /\ w_childStop w0 = true /\ w_stop w0 = false /\ w_phase w0 = PRun false false Gone) /\
  (exists w0, worker_reach w0 /\ w_stop w0 = true /\ w_phase w0 = PRun false false Gone).
Proof.
  split; [|split].
  - revert w Hphase Hrun. induction Hevs as [|ev evs [Hr Hs] Hevs IH]; intros w Hphase Hrun; [by injection Hrun as <-|].
    rewrite worker_run_cons in Hrun. destruct (worker_step w ev) as [w1|] eqn:E; [|done]. apply (IH w1); [|done].
    destruct w as [ph b cs st]. simpl in Hphase. subst ph. destruct ev; simpl in E; try done. by destruct cs; simplify_eq.
  - exists (mkWorker (PRun false false Gone) (1 * psec) true false). split; [|done].
    by apply (reach_run new_worker [XLoop; XListed; XRegistered; XChildStop; XTimerStop]); [apply reach_new|].
  - exists (mkWorker (PRun false false Gone) (1 * psec) false true). split; [|done].
    by apply (reach_run new_worker [XLoop; XStop; XListed; XRegistered; XTimerStop]); [apply reach_new|].
Qed.

(** ** Frames *)

Section frame_facts.
Context `{JSON paraRegBody} `{Signatures} (ed25519_sign : bytes -> bytes -> bytes) (pub_of : bytes -> bytes).

(** The registration frame is one an exit accepts: its signature verifies, under
    the key that is the node identifier, over the encoded identifier and time. *)
Theorem registration_verifies (privKey : bytes) (now : Z) (f : reg_frame) (body : bytes)
    (Hsign : forall priv msg, zlen (ed25519_sign priv msg) = 64 /\ ed25519_check (pub_of priv) msg (ed25519_sign priv msg) = true)
    (Hpub : zlen (pub_of privKey) = 32)
    (Hbody : json_marshal (mkReg (Hex.encode (pub_of privKey)) now) = Some body)
    (Hreg : register ed25519_sign privKey (Hex.encode (pub_of privKey)) now = Ok f) :
  rf_node_id f = Hex.encode (pub_of privKey) /\ rf_ts f = now /\ VerifySignedPayload body (rf_node_id f) (rf_sig f) = Ok tt.
Proof.
  unfold register in Hreg. rewrite Hbody in Hreg. injection Hreg as <-. split; [done|]. split; [done|].
  cbn [rf_node_id rf_sig]. unfold VerifySignedPayload. destruct (Hsign privKey body) as [Hl Hc].
  rewrite bool_decide_eq_false_2, Hex.hex_decode_encode, Hpub, B64.b64_decode_encode, Hl.
  - cbn [negb]. unfold ed25519_verify. rewrite Hpub. cbn [mbind res_bind]. by rewrite Hc.
  - intros E. apply (f_equal zlen) in E. rewrite zlen_hex, Hpub in E. done.
Qed.

End frame_facts.

Section stream_facts.
Context (parse_target : bytes -> option bytes).

Lemma first_line_newline h extra : x0a ∉ h -> first_line (h ++ [x0a] ++ extra) = h.
Proof.
  intros Hn. unfold first_line. assert (find_byte x0a (h ++ [x0a] ++ extra) = Some (length h)) as ->; [|apply take_app_length].
  induction h as [|b h IH]; [done|]. rewrite elem_of_cons in Hn. cbn [app find_byte]. unfold byte_eqb.
  rewrite bool_decide_eq_false_2 by (intros ->; tauto). cbn [app] in IH. rewrite IH by tauto. done.
Qed.

(** Bytes the exit sends right behind the header are lost: when one read
    delivers the header line and the beginning of the data, the data of that read
    never reaches the target. *)
Theorem stream_header_loses_data (h extra t : bytes) (rest : list bytes)
    (Hline : x0a ∉ h) (Hsize : zlen (h ++ [x0a] ++ extra) <= 256) (Hparse : parse_target h = Some t) (Ht : t <> []) :
  handleStream parse_target ((h ++ [x0a] ++ extra) :: rest) = Some (t, mjoin rest).
Proof.
  unfold handleStream. unfold zlen in Hsize. rewrite take_ge, drop_ge by lia. rewrite first_line_newline, Hparse by done.
  rewrite bool_decide_eq_false_2 by done. rewrite (proj2 (Z.eqb_neq _ _)); [done|].
  rewrite !zlen_app, zlen_cons. pose proof (zlen_nonneg h). pose proof (zlen_nonneg extra). rewrite zlen_nil. lia.
Qed.

(** A fetched exit is dialled exactly as given if it has a port, and on port 443
    otherwise; entries without address are dropped and the order is kept. *)
Theorem exits_dialled (get : bytes -> option (Z * option (list bytes))) (apiURL : bytes) (l : list bytes)
    (Hfetch : fetchExits get apiURL = Ok l) :
  exists addrs, get (apiURL ++ str "/p/v1/para-exits") = Some (200, Some addrs) /\
    Forall2 (fun a d => a <> [] /\ (d = a /\ split_host_port a <> None \/ d = a ++ str ":443" /\ split_host_port a = None))
      (List.filter (fun a => negb (bool_decide (a = []))) addrs) l.
Proof.
  unfold fetchExits in Hfetch. destruct (get _) as [[status body]|]; [|done].
  destruct (status =? 200) eqn:E; [|done]. cbn [negb] in Hfetch. destruct body as [addrs|]; [|done]. injection Hfetch as <-.
  bool_to_prop. subst. exists addrs. split; [done|]. induction addrs as [|a addrs IH]; simpl; [constructor|].
  case_bool_decide as Ea; simpl; [exact IH|]. constructor; [|exact IH]. split; [done|]. unfold exitDialAddr.
  destruct (split_host_port a) eqn:Es; [left|right]; done.
Qed.
End stream_facts.

(** ** Witnesses *)

#[global] Instance paraRegBody_eq : EqDecision paraRegBody. Proof. solve_decision. Defined.
#[global] Program Instance paraRegBody_countable : Countable paraRegBody :=
  inj_countable' (fun p => (pr_NodeID p, pr_TS p)) (fun '(a, b) => mkReg a b) _.
Next Obligation. by intros []. Qed.

Lemma backoff_bounds_witness : exists k : nat, (k <= 6)%nat /\ w_backoff new_worker = 2 ^ Z.of_nat k * psec.
Proof. apply (backoff_bounds new_worker reach_new). Defined.

Lemma stop_ends_worker_witness :
  exists w1 w2, worker_step (mkWorker (PRun false false Armed) psec false false) XStop = Some w1 /\
    worker_run w1 [XTimerStop; XAcceptFailed] = Some w2 /\ exists ev w3, worker_step w2 ev = Some w3.
Proof.
  eexists _, _. split; [reflexivity|]. split; [reflexivity|].
  apply (stop_ends_worker (mkWorker (PRun false false Armed) psec false false) _ [XTimerStop; XAcceptFailed] _
    ltac:(discriminate) eq_refl eq_refl). discriminate.
Defined.

Lemma session_survives_stop_witness :
  exists w', worker_run (mkWorker (PRun false false Gone) psec false true) [XChildStop] = Some w' /\ w_phase w' = PRun false false Gone.
Proof.
  eexists. split; [reflexivity|].
  apply (session_survives_stop (mkWorker (PRun false false Gone) psec false true) false [XChildStop]); [reflexivity| |reflexivity].
  by repeat constructor.
Defined.

Section frame_witnesses.
Import Toy_identity.

Lemma registration_verifies_witness :
  exists f body, register (H := Toy.json_of_countable paraRegBody) sign (replicate 64 x09) the_id 100 = Ok f /\
    VerifySignedPayload body (rf_node_id f) (rf_sig f) = Ok tt.
Proof.
  eexists _, _. split; [reflexivity|].
  apply (registration_verifies (H := Toy.json_of_countable paraRegBody) sign (fun _ => replicate 32 x07) (replicate 64 x09) 100 _ _
    toy_sign_ok eq_refl eq_refl eq_refl).
Defined.

Lemma stream_header_loses_data_witness :
  handleStream (fun h => Some h) [str "host:80" ++ [x0a] ++ str "GET /"; str " HTTP"] = Some (str "host:80", str " HTTP").
Proof.
  apply (stream_header_loses_data (fun h => Some h) (str "host:80") (str "GET /") (str "host:80") [str " HTTP"]);
    [vm_compute; set_solver|vm_compute; discriminate|reflexivity|discriminate].
Defined.

Lemma exits_dialled_witness :
  exists addrs, (fun _ : bytes => Some (200, Some [str "a"; []; str "b:1"])) [] = Some (200, Some addrs).
Proof.
  destruct (exits_dialled (fun _ => Some (200, Some [str "a"; []; str "b:1"])) (str "u") [str "a:443"; str "b:1"]) as (addrs & E & _);
    [by vm_compute|]. by exists addrs.
Defined.
End frame_witnesses.
