(* ===== verification/LogRotate.v ===== *)
(** * LogRotate: the rotating log writer and the pruning of old logs (log.go)

    The log directory is a map from file names to contents.  The name of a new file
    is an argument (it is the time to the second), and so is whether opening and
    removing succeed, how much of a message a failing write gets into the file, and
    whether stderr takes a message. *)
From S2P Require Import Prelude Encoding Env UdpAssoc Cidr.

Definition logMaxBytes : Z := 10 * 1024 * 1024.
Definition logTotalBytes : Z := 200 * 1024 * 1024.
Definition logKeepDays : Z := 7.
Definition tunLogMaxBytes : Z := 2 * 1024 * 1024.
Definition tunLogTotalBytes : Z := 20 * 1024 * 1024.
Definition tunLogKeepDays : Z := 3.

(** ** The writer *)

Record rotatingWriter := mkRW {
  rw_maxBytes : Z;
  rw_name : bytes;                                 (* the file behind rw.f *)
  rw_open : bool;                                  (* false once it was closed *)
  rw_written : Z
}.

Abbreviation log_dir := (gmap bytes bytes).

(** The outcome of the system calls of one write: the name of a file that is opened and
    whether opening and reading its size succeed; [oe_short]: the write to the file fails
    after that many bytes; whether a write to stderr succeeds. *)
Record open_env := mkOpen { oe_name : bytes; oe_ok : bool; oe_stat : bool; oe_short : option nat; oe_stderr : bool }.

Definition openNewLocked (e : open_env) (fs : log_dir) (rw : rotatingWriter) : option (log_dir * rotatingWriter) :=
  if negb (oe_ok e) then None else
  let old := default [] (fs !! oe_name e) in
  Some (<[oe_name e := old]> fs, mkRW (rw_maxBytes rw) (oe_name e) true (if oe_stat e then zlen old else 0)).

Definition newRotatingWriter (maxBytes : Z) (e : open_env) (fs : log_dir) : option (log_dir * rotatingWriter) :=
  openNewLocked e fs (mkRW maxBytes [] false 0).

(** [WriteFailed]: an error is returned. *)
Inductive write_result := WroteFile (pruned : bool) | WroteStderr | WriteFailed.

Definition write_open (p : bytes) (pruned : bool) (e : open_env) (fs : log_dir) (rw : rotatingWriter) : log_dir * rotatingWriter * write_result :=
  if rw_open rw then
    let n := match oe_short e with None => p | Some n => take n p end in
    (<[rw_name rw := default [] (fs !! rw_name rw) ++ n]> fs, mkRW (rw_maxBytes rw) (rw_name rw) true (rw_written rw + zlen n),
     match oe_short e with None => WroteFile pruned | Some _ => WriteFailed end)
  else (fs, rw, WriteFailed).

Definition rw_Write (p : bytes) (e : open_env) (fs : log_dir) (rw : rotatingWriter) : log_dir * rotatingWriter * write_result :=
  if rw_written rw + zlen p >? rw_maxBytes rw then
    let rw := mkRW (rw_maxBytes rw) (rw_name rw) false (rw_written rw) in
    match openNewLocked e fs rw with
    | None => (fs, rw, if oe_stderr e then WroteStderr else WriteFailed)
    | Some (fs, rw) => write_open p true e fs rw
    end
  else write_open p false e fs rw.

Fixpoint rw_run (ops : list (bytes * open_env)) (fs : log_dir) (rw : rotatingWriter) : log_dir * rotatingWriter :=
  match ops with
  | [] => (fs, rw)
  | (p, e) :: ops => let '(fs, rw, _) := rw_Write p e fs rw in rw_run ops fs rw
  end.

(** ** Pruning *)

Record log_entry := mkEntry { lg_name : bytes; lg_isDir : bool; lg_stat : option (Z * Z) }.   (* size, modification time *)
Record log_file := mkLogFile { lf_name : bytes; lf_size : Z; lf_mod : Z }.

Definition is_log (prefix name : bytes) : bool :=
  has_prefix name prefix && has_suffix name (str ".log") &&
  match drop (length prefix) name with [] => false | b :: _ => (48 <=? b2z b) && (b2z b <=? 57) end.

Definition log_of (prefix : bytes) (e : log_entry) : option log_file :=
  if lg_isDir e || negb (is_log prefix (lg_name e)) then None else
  '(size, mod_) ← lg_stat e; Some (mkLogFile (lg_name e) size mod_).

Fixpoint trim_total (removable : bytes -> bool) (limit : Z) (l : list log_file) (total : Z) : list log_file :=
  match l with
  | [] => []
  | f :: l =>
    if total >? limit then
      if removable (lf_name f) then f :: trim_total removable limit l (total - lf_size f) else trim_total removable limit l total
    else []
  end.

Definition sum_sizes (l : list log_file) : Z := fold_right (fun f s => lf_size f + s) 0 l.

Section prune.
Context `{SliceSort} (removable : bytes -> bool).

Definition sorted_logs (prefix : bytes) (entries : list log_entry) : list log_file :=
  sort_slice (fun a b => lex_less (lf_name a) (lf_name b)) (omap (log_of prefix) entries).

Definition kept_by_age (prefix : bytes) (cutoff : Z) (entries : list log_entry) : list log_file :=
  List.filter (fun f => negb (lf_mod f <? cutoff)) (sorted_logs prefix entries).

(** The files removed, in order. *)
Definition pruneLogFiles (prefix : bytes) (totalBytes cutoff : Z) (entries : list log_entry) : list log_file :=
  let logs := sorted_logs prefix entries in
  let keep := kept_by_age prefix cutoff entries in
  List.filter (fun f => (lf_mod f <? cutoff) && removable (lf_name f)) logs ++ trim_total removable totalBytes keep (sum_sizes keep).
End prune.

(** ** Properties of the writer *)

(** The files in the order they were opened, the last one current. *)
Record rw_ok (names : list bytes) (cur : bytes) (fs : log_dir) (rw : rotatingWriter) : Prop := {
  rwo_name : rw_name rw = cur;
  rwo_open : rw_open rw = true;
  rwo_nodup : NoDup (names ++ [cur]);
  rwo_cur : rw_written rw = zlen (default [] (fs !! cur));
  rwo_exists : forall n, n ∈ names ++ [cur] -> is_Some (fs !! n)
}.

Definition content (fs : log_dir) (names : list bytes) : bytes := mjoin ((fun n => default [] (fs !! n)) <$> names).

Definition size_ok (max : Z) (ps : list bytes) (c : bytes) : Prop := zlen c <= max \/ c ∈ ps.

Lemma content_insert_other fs names n c : n ∉ names -> content (<[n := c]> fs) names = content fs names.
Proof.
  unfold content. induction names as [|m names IH]; [done|]. rewrite elem_of_cons. intros Hn. rewrite !fmap_cons, !mjoin_cons, IH by tauto.
  by rewrite lookup_insert_ne by naive_solver.
Qed.

Lemma content_snoc fs names n : content fs (names ++ [n]) = content fs names ++ default [] (fs !! n).
Proof. unfold content. rewrite fmap_app, join_app. simpl. by rewrite app_nil_r. Qed.

Definition sizes_ok (max : Z) (ps : list bytes) (fs : log_dir) (names : list bytes) : Prop :=
  Forall (fun n => size_ok max ps (default [] (fs !! n))) names.

Lemma sizes_ok_weaken max ps ps' fs names : (forall p, p ∈ ps -> p ∈ ps') -> sizes_ok max ps fs names -> sizes_ok max ps' fs names.
Proof. intros Hp Hs. eapply Forall_impl; [exact Hs|]. intros n [?|?]; [by left|right; by apply Hp]. Qed.

Lemma sizes_ok_other max ps fs names n c : n ∉ names -> sizes_ok max ps fs names -> sizes_ok max ps (<[n := c]> fs) names.
Proof.
  unfold sizes_ok. intros Hn. rewrite !Forall_forall. intros Hs m Hm. rewrite lookup_insert_ne by (by intros ->). by apply Hs.
Qed.

Lemma not_last {A} (l : list A) x : NoDup (l ++ [x]) -> x ∉ l.
Proof. intros (_ & Hd & _)%NoDup_app Hx. apply (Hd x Hx). left. Qed.

(** One write to the current file. *)
Lemma append_ok max ps names cur fs rw p e :
  oe_short e = None -> rw_ok names cur fs rw -> content fs (names ++ [cur]) = mjoin ps -> sizes_ok max ps fs (names ++ [cur]) ->
  rw_written rw + zlen p <= max \/ default [] (fs !! cur) = [] ->
  let '(fs', rw', _) := write_open p false e fs rw in
  rw_ok names cur fs' rw' /\ content fs' (names ++ [cur]) = mjoin (ps ++ [p]) /\ sizes_ok max (ps ++ [p]) fs' (names ++ [cur]) /\
  rw_maxBytes rw' = rw_maxBytes rw /\ forall n, n <> cur -> fs' !! n = fs !! n.
Proof.
  intros Hsh [Hn Ho Hd Hc He] Hcont Hs Hp. unfold write_open. rewrite Ho, Hn, Hsh. set (c := default [] (fs !! cur)) in *.
  pose proof (not_last _ _ Hd) as Hcur. split; [|split; [|split; [|split; [done|]]]].
  - split; cbn; [done|done|done|by rewrite lookup_insert_eq, Hc, <- zlen_app|].
    intros n Hin. destruct (decide (cur = n)) as [->|Hne]; [by rewrite lookup_insert_eq|]. rewrite lookup_insert_ne by done. by apply He.
  - rewrite content_snoc in *. rewrite content_insert_other, lookup_insert_eq by done. simpl. rewrite app_assoc. fold c in Hcont.
    rewrite Hcont, join_app. simpl. by rewrite app_nil_r.
  - apply Forall_app in Hs as [Hs1 Hs2]. apply Forall_app. split.
    + apply (sizes_ok_weaken max ps); [set_solver|]. by apply sizes_ok_other.
    + apply Forall_singleton. rewrite lookup_insert_eq. simpl. destruct Hp as [Hp| ->].
      * left. rewrite zlen_app. lia.
      * right. set_solver.
  - intros n Hne. by rewrite lookup_insert_ne.
Qed.

(** Opening the next file. *)
Lemma rotate_ok max ps names cur fs rw e fs' rw' :
  0 <= max -> rw_ok names cur fs rw -> content fs (names ++ [cur]) = mjoin ps -> sizes_ok max ps fs (names ++ [cur]) ->
  oe_stat e = true -> fs !! oe_name e = None ->
  openNewLocked e fs (mkRW (rw_maxBytes rw) (rw_name rw) false (rw_written rw)) = Some (fs', rw') ->
  rw_ok (names ++ [cur]) (oe_name e) fs' rw' /\ content fs' ((names ++ [cur]) ++ [oe_name e]) = mjoin ps /\
  sizes_ok max ps fs' ((names ++ [cur]) ++ [oe_name e]) /\ default [] (fs' !! oe_name e) = [] /\
  rw_maxBytes rw' = rw_maxBytes rw /\ forall n, n <> oe_name e -> fs' !! n = fs !! n.
Proof.
  intros Hmax [Hn Ho Hd Hc He] Hcont Hs Hst Hf. unfold openNewLocked. destruct (negb _); [done|]. intros [= <- <-].
  assert (oe_name e ∉ names ++ [cur]) as Hnew by (intros Hin; destruct (He _ Hin); congruence).
  rewrite Hf, Hst. split; [|split; [|split; [|split; [by rewrite lookup_insert_eq|split; [done|]]]]].
  - split; cbn; [done|done| |by rewrite lookup_insert_eq|].
    + apply NoDup_app. split_and!; [done| |apply NoDup_singleton]. intros x Hx ->%list_elem_of_singleton. done.
    + intros n Hin. destruct (decide (oe_name e = n)) as [->|Hne]; [by rewrite lookup_insert_eq|]. rewrite lookup_insert_ne by done.
      apply elem_of_app in Hin as [?| ->%list_elem_of_singleton]; [by apply He|done].
  - by rewrite content_snoc, lookup_insert_eq, content_insert_other, app_nil_r.
  - apply Forall_app. split; [by apply sizes_ok_other|]. apply Forall_singleton. rewrite lookup_insert_eq. left. simpl. rewrite zlen_nil. done.
  - intros n Hne. by rewrite lookup_insert_ne.
Qed.

Lemma rw_run_ok max ops : forall names cur fs rw ps,
  0 <= max -> rw_maxBytes rw = max -> rw_ok names cur fs rw -> content fs (names ++ [cur]) = mjoin ps ->
  sizes_ok max ps fs (names ++ [cur]) -> Forall (fun op => oe_ok op.2 = true /\ oe_stat op.2 = true /\ oe_short op.2 = None) ops ->
  NoDup (oe_name ∘ snd <$> ops) -> (forall op, op ∈ ops -> fs !! oe_name op.2 = None) ->
  let '(fs', rw') := rw_run ops fs rw in
  exists names', (forall n, n ∈ names' -> is_Some (fs' !! n) /\ (n ∈ names ++ [cur] \/ n ∈ (oe_name ∘ snd <$> ops))) /\ NoDup names' /\
    content fs' names' = mjoin (ps ++ (fst <$> ops)) /\ sizes_ok max (ps ++ (fst <$> ops)) fs' names'.
Proof.
  induction ops as [|[p e] ops IH]; intros names cur fs rw ps Hmax Hm Hok Hcont Hs Hops Hnd Hfr; cbn [rw_run].
  { exists (names ++ [cur]). rewrite app_nil_r. split; [|split; [apply Hok|by split]]. intros n Hn. split; [by apply Hok|by left]. }
  apply Forall_cons in Hops as [(Hoe & Hst & Hsh) Hops]. cbn [snd] in Hoe, Hst, Hsh. rewrite fmap_cons in Hnd. apply NoDup_cons in Hnd as [Hnin Hnd].
  assert (fs !! oe_name e = None) as Hfe by (apply (Hfr (p, e)); left).
  assert (is_Some (fs !! cur)) as Hcur by (apply Hok; apply elem_of_app; right; by left).
  unfold rw_Write. rewrite Hm. destruct (rw_written rw + zlen p >? max) eqn:E.
  - destruct (openNewLocked e fs _) as [[fs1 rw1]|] eqn:Eo; [|by unfold openNewLocked in Eo; rewrite Hoe in Eo].
    rewrite <- Hm in Eo. destruct (rotate_ok max ps names cur fs rw e fs1 rw1 Hmax Hok Hcont Hs Hst Hfe Eo) as (Hok1 & Hc1 & Hs1 & He1 & Hm1 & Hrest1).
    pose proof (append_ok max ps (names ++ [cur]) (oe_name e) fs1 rw1 p e Hsh Hok1 Hc1 Hs1 (or_intror He1)) as Ha.
    unfold write_open in *. rewrite (rwo_open _ _ _ _ Hok1), Hsh in *. destruct Ha as (Hok2 & Hc2 & Hs2 & Hm2 & Hrest2).
    specialize (IH (names ++ [cur]) (oe_name e) _ _ (ps ++ [p]) Hmax (eq_trans Hm2 (eq_trans Hm1 Hm)) Hok2 Hc2 Hs2 Hops Hnd).
    destruct (rw_run ops _ _) as [fs' rw']. destruct IH as (names' & I1 & I2 & I3 & I4).
    { intros op Hop. assert (oe_name op.2 <> oe_name e) as Hne.
      { intros Eq. apply Hnin. simpl. rewrite <- Eq. by apply (list_elem_of_fmap_2 (oe_name ∘ snd)). }
      rewrite Hrest2, Hrest1 by done. apply Hfr. by right. }
    exists names'. rewrite <- app_assoc in I3, I4. split; [|done]. intros n Hn. destruct (I1 n Hn) as [? Hc]. split; [done|].
    rewrite fmap_cons. simpl in Hc. set_solver.
  - assert (rw_written rw + zlen p <= max) as Hle by lia.
    pose proof (append_ok max ps names cur fs rw p e Hsh Hok Hcont Hs (or_introl Hle)) as Ha.
    unfold write_open in *. rewrite (rwo_open _ _ _ _ Hok), Hsh in *. destruct Ha as (Hok2 & Hc2 & Hs2 & Hm2 & Hrest2).
    specialize (IH names cur _ _ (ps ++ [p]) Hmax (eq_trans Hm2 Hm) Hok2 Hc2 Hs2 Hops Hnd).
    destruct (rw_run ops _ _) as [fs' rw']. destruct IH as (names' & I1 & I2 & I3 & I4).
    { intros op Hop. rewrite Hrest2; [apply Hfr; by right|]. intros Eq. assert (fs !! oe_name op.2 = None) as Hno by (apply Hfr; by right).
      rewrite Eq in Hno. destruct Hcur. congruence. }
    exists names'. rewrite <- app_assoc in I3, I4. split; [|done]. intros n Hn. destruct (I1 n Hn) as [? Hc]. split; [done|].
    rewrite fmap_cons. set_solver.
Qed.

(** As long as files can be opened under new names and written, nothing written is lost or
    reordered across rotations: the files, in the order they were opened, hold
    exactly the messages written, one after the other; and no file is larger than
    the limit unless it holds one single message that is. *)
Theorem rotation_keeps_everything (max : Z) (e0 : open_env) (ops : list (bytes * open_env)) (fs0 fs1 : log_dir) (rw1 : rotatingWriter)
    (Hmax : 0 <= max) (Hstart : newRotatingWriter max e0 fs0 = Some (fs1, rw1)) (Hfresh0 : fs0 !! oe_name e0 = None)
    (Hok : Forall (fun op => oe_ok op.2 = true /\ oe_stat op.2 = true /\ oe_short op.2 = None) ops)
    (Hnames : NoDup (oe_name e0 :: (oe_name ∘ snd <$> ops)))
    (Hfresh : forall op, op ∈ ops -> fs0 !! oe_name op.2 = None) :
  let '(fs, rw) := rw_run ops fs1 rw1 in
  exists names, (forall n, n ∈ names -> fs0 !! n = None /\ is_Some (fs !! n)) /\ NoDup names /\
    content fs names = mjoin (fst <$> ops) /\ Forall (fun n => size_ok max (fst <$> ops) (default [] (fs !! n))) names.
Proof.
  unfold newRotatingWriter, openNewLocked in Hstart. destruct (oe_ok e0); [|done]. cbn [negb] in Hstart.
  rewrite Hfresh0 in Hstart. injection Hstart as <- <-. apply NoDup_cons in Hnames as [Hn0 Hnd].
  pose proof (rw_run_ok max ops [] (oe_name e0) (<[oe_name e0 := []]> fs0) (mkRW max (oe_name e0) true (if oe_stat e0 then 0 else 0)) [] Hmax eq_refl) as G.
  change (zlen (default [] (@None bytes))) with 0.
  destruct (rw_run ops _ _) as [fs rw]. destruct G as (names & G1 & G2 & G3 & G4).
  - split; cbn; [done|done|apply NoDup_singleton|rewrite lookup_insert_eq; by destruct (oe_stat e0)|].
    intros n ->%list_elem_of_singleton. by rewrite lookup_insert_eq.
  - unfold content. cbn. by rewrite lookup_insert_eq.
  - apply Forall_singleton. rewrite lookup_insert_eq. by left.
  - done.
  - done.
  - intros op Hop. rewrite lookup_insert_ne; [by apply Hfresh|]. intros Eq. apply Hn0. rewrite Eq.
    by apply (list_elem_of_fmap_2 (oe_name ∘ snd)).
  - exists names. split; [|done]. intros n Hn. destruct (G1 n Hn) as [? Hc]. split; [|done].
    destruct Hc as [->%list_elem_of_singleton|(op & -> & Hop)%list_elem_of_fmap]; [done|by apply Hfresh].
Qed.

(** Once opening the next file failed, a message small enough not to rotate again
    is written to the file that was closed: it is in no file, nothing is reopened and
    the writer does not change, so the same holds for every later message of that size. *)
Theorem write_lost_after_failed_rotation (p q : bytes) (e e' : open_env) (fs : log_dir) (rw : rotatingWriter)
    (Hrot : rw_written rw + zlen p > rw_maxBytes rw) (Hfail : oe_ok e = false) (Hstderr : oe_stderr e = true) (Hfit : rw_written rw + zlen q <= rw_maxBytes rw) :
  let '(fs1, rw1, r1) := rw_Write p e fs rw in
  r1 = WroteStderr /\ fs1 = fs /\ rw_Write q e' fs1 rw1 = (fs, rw1, WriteFailed).
Proof.
  unfold rw_Write at 1. rewrite (proj2 (Z.gtb_gt _ _)) by lia. unfold openNewLocked. rewrite Hfail, Hstderr. cbn [negb].
  split; [done|]. split; [done|]. unfold rw_Write. cbn [rw_written rw_maxBytes rw_name rw_open]. rewrite Z.gtb_ltb, (proj2 (Z.ltb_ge _ _)) by lia. done.
Qed.

(** A rotation in the second the current file was opened reopens that file (its
    name is the time to the second): the message is appended to it past the limit. *)
Theorem same_second_rotation (p : bytes) (e : open_env) (names : list bytes) (cur : bytes) (fs : log_dir) (rw : rotatingWriter)
    (Hok : rw_ok names cur fs rw) (Hrot : rw_written rw + zlen p > rw_maxBytes rw) (He : oe_ok e = true) (Hfull : oe_short e = None) (Hsame : oe_name e = cur) :
  let '(fs', rw', _) := rw_Write p e fs rw in
  rw_name rw' = cur /\ default [] (fs' !! cur) = default [] (fs !! cur) ++ p /\
  zlen (default [] (fs' !! cur)) > rw_maxBytes rw.
Proof.
  destruct Hok as [Hn Ho Hd Hc Hx]. unfold rw_Write. rewrite (proj2 (Z.gtb_gt _ _)) by lia. unfold openNewLocked. rewrite He, Hsame.
  unfold write_open. rewrite Hfull. cbn. rewrite !lookup_insert_eq. cbn. split; [done|]. split; [done|]. rewrite zlen_app. lia.
Qed.

(** ** Properties of pruning *)

Section prune_props.
Context `{SliceSort} (removable : bytes -> bool).

Lemma trim_total_sub limit l : forall total f, f ∈ trim_total removable limit l total -> f ∈ l /\ removable (lf_name f) = true.
Proof.
  induction l as [|g l IH]; intros total f; cbn [trim_total]; [by intros ?%elem_of_nil|].
  destruct (total >? limit); [|by intros ?%elem_of_nil]. destruct (removable (lf_name g)) eqn:E.
  - rewrite elem_of_cons. intros [->|Hf]; [by split; [left|]|]. destruct (IH _ _ Hf). split; [by right|done].
  - intros Hf. destruct (IH _ _ Hf). split; [by right|done].
Qed.

(** The oldest names go first, and no more of them than needed. *)
Lemma trim_total_prefix limit l :
  0 <= limit -> Forall (fun f => removable (lf_name f) = true) l ->
  exists k, (k <= length l)%nat /\ trim_total removable limit l (sum_sizes l) = take k l /\ sum_sizes (drop k l) <= limit /\
    forall j, (j < k)%nat -> sum_sizes (drop j l) > limit.
Proof.
  intros Hl. induction l as [|f l IH]; intros Hr; cbn [trim_total].
  - exists 0%nat. split; [done|]. split; [done|]. split; [done|lia].
  - apply Forall_cons in Hr as [Hf Hr]. destruct (IH Hr) as (k & Hk & Ht & Hs & Hm).
    destruct (sum_sizes (f :: l) >? limit) eqn:E.
    + exists (S k). rewrite Hf. replace (sum_sizes (f :: l) - lf_size f) with (sum_sizes l) by (unfold sum_sizes; simpl; lia). cbn [length take drop]. rewrite Ht.
      split; [lia|]. split; [done|]. split; [done|]. intros [|j] Hj; [cbn [drop]; lia|apply Hm; lia].
    + exists 0%nat. split; [cbn; lia|]. split; [done|]. split; [cbn [drop]; lia|lia].
Qed.

Lemma log_of_is_log prefix e f : log_of prefix e = Some f -> lf_name f = lg_name e /\ lg_isDir e = false /\ is_log prefix (lf_name f) = true.
Proof.
  unfold log_of. destruct (lg_isDir e); [done|]. destruct (is_log prefix (lg_name e)) eqn:E; [|done]. cbn [orb negb].
  destruct (lg_stat e) as [[size mod_]|]; [|done]. by intros [= <-].
Qed.

Lemma elem_of_sorted_logs prefix entries f : f ∈ sorted_logs prefix entries <-> exists e, e ∈ entries /\ log_of prefix e = Some f.
Proof. unfold sorted_logs. rewrite <- sort_slice_perm. apply list_elem_of_omap. Qed.

Lemma elem_of_kept prefix cutoff entries f : f ∈ kept_by_age prefix cutoff entries <-> f ∈ sorted_logs prefix entries /\ cutoff <= lf_mod f.
Proof.
  unfold kept_by_age. rewrite !list_elem_of_In, filter_In, negb_true_iff, Z.ltb_ge. done.
Qed.

Lemma sorted_filter {A} (R : A -> A -> Prop) (f : A -> bool) l : StronglySorted R l -> StronglySorted R (List.filter f l).
Proof.
  induction 1 as [|x l Hs IH Hall]; cbn [List.filter]; [constructor|]. destruct (f x); [|done]. constructor; [done|].
  rewrite Forall_forall in Hall |- *. intros y Hy. apply Hall. rewrite list_elem_of_In, filter_In, <- list_elem_of_In in Hy. tauto.
Qed.

Lemma kept_sorted prefix cutoff entries :
  StronglySorted (fun a b => lex_less (lf_name b) (lf_name a) = false) (kept_by_age prefix cutoff entries).
Proof.
  apply sorted_filter. apply (sort_slice_sorted (fun a b => lex_less (lf_name a) (lf_name b))); intros x y *;
    [apply lex_less_negtrans|apply lex_less_asym].
Qed.

(** A removed file is one of the prefix's logs: the names of the other writer, which
    have a letter after the prefix, are not. *)
Lemma is_log_digit prefix b rest : is_log prefix (prefix ++ b :: rest) = true -> 48 <= b2z b <= 57.
Proof. unfold is_log. rewrite drop_app_length. intros [_ ?]%andb_true_iff. bool_to_prop. lia. Qed.

(** Pruning removes only regular log files of the prefix (a digit after it, so
    that pruning one writer's files never touches another's), every removable one past
    the age limit, and, where all can be removed, of the others in name order the
    shortest prefix that brings the rest within the total size. *)
Theorem prune_exact (prefix : bytes) (totalBytes cutoff : Z) (entries : list log_entry) (Htotal : 0 <= totalBytes) :
  let removed := pruneLogFiles removable prefix totalBytes cutoff entries in
  let keep := kept_by_age prefix cutoff entries in
  (forall f, f ∈ removed -> removable (lf_name f) = true /\
     exists e, e ∈ entries /\ lg_name e = lf_name f /\ lg_isDir e = false /\ is_log prefix (lf_name f) = true) /\
  (forall f, f ∈ removed -> forall b rest, lf_name f = prefix ++ b :: rest -> 48 <= b2z b <= 57) /\
  (forall e f, e ∈ entries -> log_of prefix e = Some f -> lf_mod f < cutoff -> removable (lf_name f) = true -> f ∈ removed) /\
  (Forall (fun f => removable (lf_name f) = true) keep ->
   exists k, (k <= length keep)%nat /\
     removed = List.filter (fun f => (lf_mod f <? cutoff) && removable (lf_name f)) (sorted_logs prefix entries) ++ take k keep /\
     sum_sizes (drop k keep) <= totalBytes /\
     (forall j, (j < k)%nat -> sum_sizes (drop j keep) > totalBytes) /\
     (forall a b, a ∈ take k keep -> b ∈ drop k keep -> lex_less (lf_name b) (lf_name a) = false)).
Proof.
  cbv zeta. unfold pruneLogFiles.
  assert (forall f, f ∈ pruneLogFiles removable prefix totalBytes cutoff entries ->
            f ∈ sorted_logs prefix entries /\ removable (lf_name f) = true) as Hsub.
  { intros f. unfold pruneLogFiles. rewrite elem_of_app. intros [Hf|Hf].
    - rewrite list_elem_of_In, filter_In, andb_true_iff, <- list_elem_of_In in Hf. tauto.
    - destruct (trim_total_sub _ _ _ _ Hf) as [Hk ?]. apply elem_of_kept in Hk. tauto. }
  unfold pruneLogFiles in Hsub. split; [|split; [|split]].
  - intros f Hf. destruct (Hsub f Hf) as [Hs Hr]. split; [done|]. apply elem_of_sorted_logs in Hs as (e & He & Hl).
    destruct (log_of_is_log _ _ _ Hl) as (-> & ? & ?). by exists e.
  - intros f Hf b rest Hn. destruct (Hsub f Hf) as [Hs _]. apply elem_of_sorted_logs in Hs as (e & He & Hl).
    destruct (log_of_is_log _ _ _ Hl) as (_ & _ & Hlog). rewrite Hn in Hlog. by apply is_log_digit in Hlog.
  - intros e f He Hl Hage Hr. apply elem_of_app. left. rewrite list_elem_of_In, filter_In, <- list_elem_of_In.
    split; [apply elem_of_sorted_logs; by exists e|]. rewrite Hr, andb_true_r. by apply Z.ltb_lt.
  - intros Hr. destruct (trim_total_prefix totalBytes _ Htotal Hr) as (k & Hk & -> & Hs & Hm). exists k.
    split; [done|]. split; [done|]. split; [done|]. split; [done|]. intros a b Ha Hb.
    pose proof (kept_sorted prefix cutoff entries) as Hss. rewrite <- (take_drop k (kept_by_age _ _ _)) in Hss.
    by apply (StronglySorted_app_inv _ _ _ _ _ Hss).
Qed.
End prune_props.

(** ** Concrete runs *)

Module Toy_log.
Definition name_at (s : String.string) : bytes := str "snc_" ++ str s ++ str ".log".
Definition opened (s : String.string) : open_env := mkOpen (name_at s) true true None true.
Arguments name_at s%_string_scope.
Arguments opened s%_string_scope.
Definition dir1 : log_dir := <[name_at "1" := []]> ∅.
Definition writer : rotatingWriter := mkRW 4 (name_at "1") true 0.
Definition files : list log_entry :=
  [mkEntry (str "snc_tun_1.log") false (Some (9, 0)); mkEntry (name_at "3") false (Some (5, 10));
   mkEntry (name_at "1") false (Some (5, 0)); mkEntry (name_at "2") false (Some (5, 10))].
End Toy_log.
Import Toy_log.

Lemma rotation_keeps_everything_witness :
  let '(fs, rw) := rw_run [(str "abc", opened "2"); (str "de", opened "3"); (str "wxyz!", opened "4")] dir1 writer in
  exists names, NoDup names /\ content fs names = str "abcdewxyz!".
Proof.
  assert (newRotatingWriter 4 (opened "1") ∅ = Some (dir1, writer)) as Hnew.
  { unfold newRotatingWriter, openNewLocked. cbn [oe_ok opened negb oe_name oe_stat]. by rewrite lookup_empty. }
  pose proof (rotation_keeps_everything 4 (opened "1") [(str "abc", opened "2"); (str "de", opened "3"); (str "wxyz!", opened "4")]
    ∅ dir1 writer ltac:(lia) Hnew ltac:(apply lookup_empty)) as G.
  destruct (rw_run _ _ _) as [fs rw]. destruct G as (names & _ & Hd & Hc & _).
  - repeat constructor.
  - apply (bool_decide_unpack _). vm_compute. exact I.
  - intros op Hop. apply lookup_empty.
  - by exists names.
Defined.

Lemma write_lost_after_failed_rotation_witness :
  let '(fs1, rw1, _) := rw_Write (str "abcde") (mkOpen [] false true None true) dir1 writer in
  rw_Write (str "ab") (opened "2") fs1 rw1 = (dir1, rw1, WriteFailed).
Proof.
  pose proof (write_lost_after_failed_rotation (str "abcde") (str "ab") (mkOpen [] false true None true) (opened "2") dir1 writer
    ltac:(vm_compute; reflexivity) eq_refl eq_refl ltac:(vm_compute; discriminate)) as G.
  destruct (rw_Write (str "abcde") _ _ _) as [[fs1 rw1] r]. apply G.
Defined.

Lemma same_second_rotation_witness :
  let '(fs, rw, _) := rw_Write (str "abcde") (opened "1") dir1 writer in zlen (default [] (fs !! name_at "1")) > 4.
Proof.
  assert (rw_ok [] (name_at "1") dir1 writer) as Hok.
  { split; [done|done|apply NoDup_singleton|reflexivity|]. intros n ->%list_elem_of_singleton. by exists []. }
  pose proof (same_second_rotation (str "abcde") (opened "1") [] (name_at "1") dir1 writer Hok ltac:(vm_compute; reflexivity) eq_refl eq_refl eq_refl) as G.
  destruct (rw_Write _ _ _ _) as [[fs rw] r]. apply G.
Defined.

Lemma prune_exact_witness :
  let removed := @pruneLogFiles insertion_slice_sort (fun _ => true) (str "snc_") 6 5 files in
  lf_name <$> removed = [name_at "1"; name_at "2"] /\ forall f, f ∈ removed -> is_log (str "snc_") (lf_name f) = true.
Proof.
  split; [reflexivity|]. intros f Hf.
  destruct (@prune_exact insertion_slice_sort (fun _ => true) (str "snc_") 6 5 files ltac:(lia)) as (G & _).
  by destruct (G f Hf) as (_ & e & _ & _ & _ & ?).
Defined.
