(* ===== verification/Camouflage.v ===== *)
(** * Camouflage: browser headers, POST pacing and decoy requests
    (headers.go, pacing.go, decoy.go)

    A session draws a browser and keeps to it; [adaptiveJitter] delays a POST by a
    random time that depends on how busy the tunnel is; the decoy loop fetches from
    public CDNs while the tunnel is lightly loaded.  The random draws are arguments,
    reduced to the range the code asks for; [rnd] is the rounding of a real result to
    a float64.  [Decoys] has the requests and their
    connections. *)
From S2P Require Import Prelude Encoding Env.
From Stdlib Require Import QArith Qround Lqa.
#[local] Open Scope Z_scope.

(** [rng.Intn] and [rng.Int63n]: a draw below [n]; they panic on [n <= 0]. *)
Definition below (draw n : Z) : res Z := if n <=? 0 then Panic else Ok (draw mod n).

Module Headers.
(** ** Browser headers (headers.go) *)

Definition userAgents : list bytes :=
  [str "Mozilla/5.0 (Windows NT 10.0; Win64; x64) AppleWebKit/537.36 (KHTML, like Gecko) Chrome/124.0.0.0 Safari/537.36";
   str "Mozilla/5.0 (Windows NT 10.0; Win64; x64) AppleWebKit/537.36 (KHTML, like Gecko) Chrome/123.0.0.0 Safari/537.36";
   str "Mozilla/5.0 (Windows NT 10.0; Win64; x64) AppleWebKit/537.36 (KHTML, like Gecko) Chrome/122.0.0.0 Safari/537.36";
   str "Mozilla/5.0 (Macintosh; Intel Mac OS X 10_15_7) AppleWebKit/537.36 (KHTML, like Gecko) Chrome/124.0.0.0 Safari/537.36";
   str "Mozilla/5.0 (Macintosh; Intel Mac OS X 10_15_7) AppleWebKit/537.36 (KHTML, like Gecko) Chrome/123.0.0.0 Safari/537.36";
   str "Mozilla/5.0 (X11; Linux x86_64) AppleWebKit/537.36 (KHTML, like Gecko) Chrome/124.0.0.0 Safari/537.36";
   str "Mozilla/5.0 (Windows NT 10.0; Win64; x64; rv:125.0) Gecko/20100101 Firefox/125.0";
   str "Mozilla/5.0 (Windows NT 10.0; Win64; x64; rv:124.0) Gecko/20100101 Firefox/124.0";
   str "Mozilla/5.0 (Windows NT 10.0; Win64; x64; rv:123.0) Gecko/20100101 Firefox/123.0";
   str "Mozilla/5.0 (Macintosh; Intel Mac OS X 10.15; rv:125.0) Gecko/20100101 Firefox/125.0";
   str "Mozilla/5.0 (X11; Linux x86_64; rv:125.0) Gecko/20100101 Firefox/125.0";
   str "Mozilla/5.0 (Macintosh; Intel Mac OS X 14_4_1) AppleWebKit/605.1.15 (KHTML, like Gecko) Version/17.4.1 Safari/605.1.15";
   str "Mozilla/5.0 (Macintosh; Intel Mac OS X 13_6_6) AppleWebKit/605.1.15 (KHTML, like Gecko) Version/17.4.1 Safari/605.1.15";
   str "Mozilla/5.0 (iPhone; CPU iPhone OS 17_4_1 like Mac OS X) AppleWebKit/605.1.15 (KHTML, like Gecko) Version/17.4.1 Mobile/15E148 Safari/604.1";
   str "Mozilla/5.0 (Windows NT 10.0; Win64; x64) AppleWebKit/537.36 (KHTML, like Gecko) Chrome/124.0.0.0 Safari/537.36 Edg/124.0.0.0";
   str "Mozilla/5.0 (Windows NT 10.0; Win64; x64) AppleWebKit/537.36 (KHTML, like Gecko) Chrome/123.0.0.0 Safari/537.36 Edg/123.0.0.0";
   str "Mozilla/5.0 (Linux; Android 14; Pixel 8) AppleWebKit/537.36 (KHTML, like Gecko) Chrome/124.0.0.0 Mobile Safari/537.36";
   str "Mozilla/5.0 (Linux; Android 13; SM-S918B) AppleWebKit/537.36 (KHTML, like Gecko) Chrome/124.0.0.0 Mobile Safari/537.36";
   str "Mozilla/5.0 (Linux; Android 14; SAMSUNG SM-S918B) AppleWebKit/537.36 (KHTML, like Gecko) SamsungBrowser/24.0 Chrome/117.0.0.0 Mobile Safari/537.36";
   str "Mozilla/5.0 (Windows NT 10.0; Win64; x64) AppleWebKit/537.36 (KHTML, like Gecko) Chrome/124.0.0.0 Safari/537.36 OPR/110.0.0.0"].

Definition refererPool : list bytes :=
  [str "https://www.google.com/";
   str "https://www.youtube.com/";
   str "https://www.facebook.com/";
   str "https://www.instagram.com/";
   str "https://twitter.com/";
   str "https://www.reddit.com/";
   str "https://www.wikipedia.org/";
   str "https://www.amazon.com/";
   str "https://www.linkedin.com/";
   str "https://www.netflix.com/";
   str "https://www.twitch.tv/";
   str "https://www.tiktok.com/";
   str "https://www.pinterest.com/";
   str "https://www.ebay.com/";
   str "https://www.bing.com/";
   str "https://www.yahoo.com/";
   str "https://www.whatsapp.com/";
   str "https://www.telegram.org/";
   str "https://www.apple.com/";
   str "https://www.microsoft.com/";
   str "https://github.com/";
   str "https://stackoverflow.com/";
   str "https://www.nytimes.com/";
   str "https://www.bbc.com/";
   str "https://www.cnn.com/";
   str "https://www.theguardian.com/";
   str "https://www.forbes.com/";
   str "https://www.medium.com/";
   str "https://www.spotify.com/";
   str "https://www.dropbox.com/";
   str "https://drive.google.com/";
   str "https://docs.google.com/";
   str "https://mail.google.com/";
   str "https://www.paypal.com/";
   str "https://www.zoom.us/";
   str "https://slack.com/";
   str "https://www.notion.so/";
   str "https://www.figma.com/";
   str "https://trello.com/";
   str "https://www.shopify.com/";
   str "https://www.wordpress.com/";
   str "https://www.wix.com/";
   str "https://www.cloudflare.com/";
   str "https://www.adobe.com/";
   str "https://www.salesforce.com/";
   str "https://www.coursera.org/";
   str "https://www.udemy.com/";
   str "https://www.airbnb.com/";
   str "https://www.booking.com/";
   str "https://www.aliexpress.com/"].

Record headerSet := mkHS {
  accept : bytes;
  acceptLanguage : bytes;
  acceptEncoding : bytes;
  secFetchSite : bytes;
  secFetchMode : bytes;
  secFetchDest : bytes
}.

Definition chromeHeaders : headerSet :=
  mkHS (str "text/html,application/xhtml+xml,application/xml;q=0.9,image/avif,image/webp,image/apng,*/*;q=0.8,application/signed-exchange;v=b3;q=0.7")
       (str "en-US,en;q=0.9")
       (str "gzip, deflate, br")
       (str "none")
       (str "navigate")
       (str "document").

Definition firefoxHeaders : headerSet :=
  mkHS (str "text/html,application/xhtml+xml,application/xml;q=0.9,image/avif,image/webp,*/*;q=0.8")
       (str "en-US,en;q=0.5")
       (str "gzip, deflate, br")
       (str "none")
       (str "navigate")
       (str "document").

Definition safariHeaders : headerSet :=
  mkHS (str "text/html,application/xhtml+xml,application/xml;q=0.9,*/*;q=0.8")
       (str "en-US,en;q=0.9")
       (str "gzip, deflate, br")
       []
       []
       [].

Definition containsAny (s : bytes) (subs : list bytes) : bool :=
  existsb (fun sub =>
    (length sub <=? length s)%nat &&
    existsb (fun i => bool_decide (take (length sub) (drop i s) = sub)) (seq 0 (S (length s - length sub)))) subs.

Definition pickHeaderSet (ua : bytes) : headerSet :=
  if containsAny ua [str "Firefox"] then firefoxHeaders
  else if containsAny ua [str "Safari"] && negb (containsAny ua [str "Chrome"; str "Chromium"; str "CriOS"]) then safariHeaders
  else chromeHeaders.

Record Session := mkSession { ua : bytes; referer : bytes; hs : headerSet }.

Definition pick (l : list bytes) (draw : Z) : res bytes :=
  i ← below draw (zlen l); match l !! Z.to_nat i with Some x => Ok x | None => Panic end.

Definition NewSession (draw1 draw2 : Z) : res Session :=
  u ← pick userAgents draw1; r ← pick refererPool draw2; Ok (mkSession u r (pickHeaderSet u)).

Definition Headers (s : Session) (host : bytes) : gmap bytes bytes :=
  let h : gmap bytes bytes :=
    <[str "User-Agent" := ua s]> (<[str "Accept" := accept (hs s)]>
    (<[str "Accept-Language" := acceptLanguage (hs s)]> (<[str "Accept-Encoding" := acceptEncoding (hs s)]>
    (<[str "Referer" := str "https://" ++ host ++ str "/"]> (<[str "Origin" := str "https://" ++ host]>
    (<[str "Connection" := str "keep-alive"]> ∅)))))) in
  if bool_decide (secFetchSite (hs s) = []) then h else
  <[str "Sec-Fetch-Dest" := secFetchDest (hs s)]> (<[str "Sec-Fetch-Mode" := secFetchMode (hs s)]>
    (<[str "Sec-Fetch-Site" := secFetchSite (hs s)]> h)).

Definition RandomReferer (draw : Z) : res bytes := pick refererPool draw.
Definition UA (s : Session) : bytes := ua s.
End Headers.

Module Pacing.
(** ** The delay of a POST (pacing.go) *)

Definition ms : Z := 1000000.
Definition jitterBusyIRI : Z := 20 * ms.
Definition jitterFullIRI : Z := 200 * ms.
Definition jitterMax : Z := 40 * ms.

(** [time.Duration(f)]: truncation towards zero. *)
Definition trunc (q : Q) : Z := Z.quot (Qnum q) (Zpos (Qden q)).

Section jitter.
Context (rnd : Q -> Q).

Definition jitter_ceiling (iri : Z) : Z :=
  let scale := rnd (rnd (inject_Z (iri - jitterBusyIRI)) / rnd (inject_Z (jitterFullIRI - jitterBusyIRI))) in
  let scale := if negb (Qle_bool scale 1) then 1%Q else scale in
  trunc (rnd (rnd (inject_Z jitterMax) * scale)).

Definition adaptiveJitter (iri draw : Z) : res Z :=
  let iri := if iri =? 0 then jitterFullIRI else iri in
  if iri <? jitterBusyIRI then Ok 0 else
  let ceiling := jitter_ceiling iri in
  if ceiling <=? 0 then Ok 0 else below draw ceiling.
End jitter.
End Pacing.

Module Decoy.
(** ** Decoy requests (decoy.go) *)

Definition dsec : Z := 1000000000.
Definition decoyBusyWindow : Z := 500 * Pacing.ms.
Definition decoyDormantAfter : Z := 600 * dsec.
Definition decoyMinInterval : Z := 20 * dsec.
Definition decoyMaxInterval : Z := 60 * dsec.

Definition decoyTargets : list bytes :=
  [str "https://cdn.jsdelivr.net/";
   str "https://cdnjs.cloudflare.com/";
   str "https://ajax.googleapis.com/";
   str "https://fonts.googleapis.com/css2";
   str "https://code.jquery.com/jquery-3.7.1.min.js";
   str "https://unpkg.com/react@18/umd/react.production.min.js";
   str "https://stackpath.bootstrapcdn.com/bootstrap/4.5.2/css/bootstrap.min.css";
   str "https://d3js.org/d3.v7.min.js";
   str "https://cdnjs.cloudflare.com/ajax/libs/lodash.js/4.17.21/lodash.min.js";
   str "https://maxcdn.bootstrapcdn.com/font-awesome/4.7.0/css/font-awesome.min.css"].

(** The manager and the goroutine of its loop. *)
Record DecoyManager := mkDM {
  dm_targets : list bytes;
  dm_lastAct : option Z;                           (* None: the zero time *)
  dm_cancelled : bool;                             (* Stop was called *)
  dm_wake : option Z;                              (* when the timer of the loop is due; None: the loop returned *)
  dm_clock : Z;
  dm_fired : list Z                                (* when decoys were fired, latest first *)
}.

(** [NewDecoyManager] and [Start]: the loop is about to run for the first time. *)
Definition NewDecoyManager (now : Z) : DecoyManager := mkDM decoyTargets None false (Some now) now [].

Definition idleSince (lastAct : option Z) (now : Z) : Z :=
  match lastAct with None => decoyDormantAfter + dsec | Some t => now - t end.

(** One pass of the loop: the target fired at, if any, and the time to wait. *)
Definition loop_pass (targets : list bytes) (idle draw1 draw2 : Z) : res (option Z * Z) :=
  if idle <? decoyBusyWindow then Ok (None, decoyBusyWindow - idle + 50 * Pacing.ms)
  else if idle >? decoyDormantAfter then Ok (None, 120 * dsec)
  else i ← below draw1 (zlen targets); d ← below draw2 (decoyMaxInterval - decoyMinInterval); Ok (Some i, decoyMinInterval + d).

Inductive decoy_event :=
| DActivity (now : Z)                              (* MarkActivity *)
| DWake (now draw1 draw2 : Z)                      (* the timer wins the select; one pass *)
| DStop                                            (* Stop *)
| DDone.                                           (* the cancelled context wins the select *)

(** [None]: the event cannot happen. *)
Definition decoy_step (d : DecoyManager) (ev : decoy_event) : option DecoyManager :=
  match ev with
  | DActivity now =>
    if now <? dm_clock d then None else
    Some (mkDM (dm_targets d) (Some now) (dm_cancelled d) (dm_wake d) now (dm_fired d))
  | DStop => Some (mkDM (dm_targets d) (dm_lastAct d) true (dm_wake d) (dm_clock d) (dm_fired d))
  | DDone => if dm_cancelled d then Some (mkDM (dm_targets d) (dm_lastAct d) true None (dm_clock d) (dm_fired d)) else None
  | DWake now r1 r2 =>
    match dm_wake d with
    | None => None
    | Some w =>
      if (now <? dm_clock d) || (now <? w) then None else
      match loop_pass (dm_targets d) (idleSince (dm_lastAct d) now) r1 r2 with
      | Ok (fire, wait) =>
        Some (mkDM (dm_targets d) (dm_lastAct d) (dm_cancelled d) (Some (now + wait)) now
                (match fire with Some _ => now :: dm_fired d | None => dm_fired d end))
      | _ => None
      end
    end
  end.

Inductive decoy_reach (now0 : Z) : DecoyManager -> Prop :=
| dr_start : decoy_reach now0 (NewDecoyManager now0)
| dr_step d ev d' : decoy_reach now0 d -> decoy_step d ev = Some d' -> decoy_reach now0 d'.
End Decoy.

(** ** Properties of the headers *)

Lemma below_ok draw n : 0 < n -> below draw n = Ok (draw mod n) /\ 0 <= draw mod n < n.
Proof. intros Hn. unfold below. replace (n <=? 0) with false by lia. split; [done|by apply Z.mod_pos_bound]. Qed.

Section headers_props.
Import Headers.

(** [containsAny] decides whether one of the strings occurs in the text. *)
Theorem contains_any_iff (s : bytes) (subs : list bytes) :
  containsAny s subs = true <-> exists sub a b, sub ∈ subs /\ s = a ++ sub ++ b.
Proof.
  unfold containsAny. rewrite existsb_exists. split.
  - intros (sub & Hin & [Hl He]%andb_true_iff). apply existsb_exists in He as (i & _ & Hi). apply bool_decide_eq_true in Hi.
    exists sub, (take i s), (drop (length sub) (drop i s)). split; [by apply list_elem_of_In|].
    rewrite <- Hi at 1. by rewrite take_drop, take_drop.
  - intros (sub & a & b & Hin & ->). exists sub. split; [by apply list_elem_of_In|]. rewrite !length_app.
    apply andb_true_iff. split; [apply Nat.leb_le; lia|]. apply existsb_exists. exists (length a). split.
    + apply in_seq. lia.
    + apply bool_decide_eq_true. by rewrite drop_app_length, take_app_length.
Qed.

Lemma pick_ok l draw : l <> [] -> exists x, pick l draw = Ok x /\ x ∈ l.
Proof.
  intros Hl. assert (0 < zlen l) as Hp by (destruct l; [done|unfold zlen; simpl; lia]).
  destruct (below_ok draw (zlen l) Hp) as [E Hb]. unfold pick. rewrite E. cbn [mbind res_bind].
  destruct (lookup_lt_is_Some_2 l (Z.to_nat (draw mod zlen l))) as [x Hx]; [unfold zlen in *; lia|].
  rewrite Hx. exists x. split; [done|]. by eapply list_elem_of_lookup_2.
Qed.

(** The browser families of the pool. *)
Definition is_safari (u : bytes) : bool := containsAny u [str "Safari"] && negb (containsAny u [str "Chrome"; str "Chromium"; str "CriOS"]).

Lemma pool_families : forallb (fun u => negb (containsAny u [str "Firefox"] && containsAny u [str "Safari"])) userAgents = true.
Proof. by vm_compute. Qed.

Lemma header_set_cases u :
  (containsAny u [str "Firefox"] = true /\ pickHeaderSet u = firefoxHeaders) \/
  (containsAny u [str "Firefox"] = false /\ is_safari u = true /\ pickHeaderSet u = safariHeaders) \/
  (containsAny u [str "Firefox"] = false /\ is_safari u = false /\ pickHeaderSet u = chromeHeaders).
Proof.
  unfold pickHeaderSet. fold (is_safari u). destruct (containsAny u [str "Firefox"]); [by left|]. right.
  destruct (is_safari u); [by left|by right].
Qed.

Ltac lookup_key := repeat first [rewrite lookup_insert_eq | rewrite lookup_insert_ne by (by vm_compute)].

Lemma headers_common s host :
  Headers s host !! str "User-Agent" = Some (ua s) /\ Headers s host !! str "Accept" = Some (accept (hs s)) /\
  Headers s host !! str "Referer" = Some (str "https://" ++ host ++ str "/") /\
  Headers s host !! str "Origin" = Some (str "https://" ++ host).
Proof. unfold Headers. cbv zeta. case_bool_decide; repeat split; by lookup_key. Qed.

Lemma headers_sec_fetch s host :
  Headers s host !! str "Sec-Fetch-Site" = (if bool_decide (secFetchSite (hs s) = []) then None else Some (secFetchSite (hs s))) /\
  Headers s host !! str "Sec-Fetch-Mode" = (if bool_decide (secFetchSite (hs s) = []) then None else Some (secFetchMode (hs s))) /\
  Headers s host !! str "Sec-Fetch-Dest" = (if bool_decide (secFetchSite (hs s) = []) then None else Some (secFetchDest (hs s))).
Proof. unfold Headers. cbv zeta. case_bool_decide; repeat split; lookup_key; try done; by apply lookup_empty. Qed.

(** Whatever is drawn, a session is one browser of the pool throughout: the user
    agent is sent as drawn, the Accept line is that of its family, and the Sec-Fetch
    headers are sent, all three, exactly when the browser is not Safari.  The referer
    and the origin sent name the host contacted; the referer drawn is never sent. *)
Theorem session_is_one_browser (draw1 draw2 : Z) (host : bytes) :
  exists s, NewSession draw1 draw2 = Ok s /\ ua s ∈ userAgents /\ referer s ∈ refererPool /\
    Headers s host !! str "User-Agent" = Some (ua s) /\
    Headers s host !! str "Accept" = Some (accept (if containsAny (ua s) [str "Firefox"] then firefoxHeaders
                                                   else if is_safari (ua s) then safariHeaders else chromeHeaders)) /\
    (is_Some (Headers s host !! str "Sec-Fetch-Site") <-> is_safari (ua s) = false) /\
    (is_Some (Headers s host !! str "Sec-Fetch-Mode") <-> is_safari (ua s) = false) /\
    (is_Some (Headers s host !! str "Sec-Fetch-Dest") <-> is_safari (ua s) = false) /\
    (forall r, Headers (mkSession (ua s) r (hs s)) host = Headers s host) /\
    Headers s host !! str "Referer" = Some (str "https://" ++ host ++ str "/") /\
    Headers s host !! str "Origin" = Some (str "https://" ++ host).
Proof.
  destruct (pick_ok userAgents draw1) as (u & Eu & Hu); [done|]. destruct (pick_ok refererPool draw2) as (r & Er & Hr); [done|].
  exists (mkSession u r (pickHeaderSet u)). unfold NewSession. rewrite Eu. cbn [mbind res_bind]. rewrite Er. cbn [mbind res_bind].
  destruct (headers_common (mkSession u r (pickHeaderSet u)) host) as (H1 & H2 & H3 & H4).
  destruct (headers_sec_fetch (mkSession u r (pickHeaderSet u)) host) as (S1 & S2 & S3).
  rewrite H1, H2, H3, H4, S1, S2, S3. cbn [ua referer hs].
  assert (containsAny u [str "Firefox"] = true -> is_safari u = false) as Hff.
  { pose proof pool_families as Hp. rewrite forallb_forall in Hp. specialize (Hp u (proj1 (list_elem_of_In _ _) Hu)).
    intros E. rewrite E in Hp. unfold is_safari. by destruct (containsAny u [str "Safari"]). }
  destruct (header_set_cases u) as [[E ->]|[(E & Es & ->)|(E & Es & ->)]];
    rewrite E; first [rewrite (Hff E) | rewrite Es]; repeat split; try done; by intros [].
Qed.
End headers_props.

(** ** Properties of the pacing *)

(** Rounding to a float64: monotone, exact on integers of up to 53 bits, and within a
    relative error of 2^-53 on positive numbers from the smallest normal one to 2^1023. *)
Definition ulp : Q := 1 # 9007199254740992.   (* 2^-53 *)
Class Float64 (rnd : Q -> Q) := {
  rnd_mono : forall x y, (x <= y)%Q -> (rnd x <= rnd y)%Q;
  rnd_int : forall z, Z.abs z <= 2 ^ 53 -> (rnd (inject_Z z) == inject_Z z)%Q;
  rnd_error : forall q, ((1 # (2 ^ 1022)%positive) <= q)%Q -> (q <= inject_Z (2 ^ 1023))%Q ->
    ((1 - ulp) * q <= rnd q)%Q /\ (rnd q <= (1 + ulp) * q)%Q
}.

Section pacing_props.
Import Pacing.
Context (rnd : Q -> Q) `{Float64 rnd}.

#[local] Instance rnd_proper : Proper (Qeq ==> Qeq) rnd.
Proof. intros x y Hxy. apply Qle_antisym; apply rnd_mono; rewrite Hxy; apply Qle_refl. Qed.

Lemma rnd_const z : Z.abs z <= 2 ^ 53 -> (rnd (inject_Z z) == inject_Z z)%Q.
Proof. apply rnd_int. Qed.

Lemma trunc_mono x y : (0 <= x)%Q -> (x <= y)%Q -> trunc x <= trunc y.
Proof.
  unfold trunc, Qle. destruct x as [n d], y as [n' d']. cbn. intros Hx Hy. rewrite !Z.quot_div_nonneg by nia.
  apply Z.div_le_lower_bound; [lia|]. pose proof (Z.mul_div_le n (Zpos d) ltac:(lia)). nia.
Qed.

Lemma trunc_int z x : (x == inject_Z z)%Q -> trunc x = z.
Proof.
  unfold Qeq, trunc, inject_Z. destruct x as [n d]. cbn. intros E. replace n with (z * Zpos d) by lia. by rewrite Z.quot_mul.
Qed.

(** The scale factor. *)
Definition raw_scale (iri : Z) : Q := rnd (rnd (inject_Z (iri - jitterBusyIRI)) / rnd (inject_Z (jitterFullIRI - jitterBusyIRI))).
Definition scale_of (iri : Z) : Q := if negb (Qle_bool (raw_scale iri) 1) then 1%Q else raw_scale iri.

Lemma raw_scale_mono a b : a <= b -> (raw_scale a <= raw_scale b)%Q.
Proof.
  intros Hab. unfold raw_scale. apply rnd_mono. rewrite (rnd_const (jitterFullIRI - jitterBusyIRI)) by (vm_compute; discriminate).
  apply Qmult_le_compat_r; [|vm_compute; discriminate]. apply rnd_mono. rewrite <- Zle_Qle. lia.
Qed.

Lemma raw_scale_at_busy : (raw_scale jitterBusyIRI == 0)%Q.
Proof.
  unfold raw_scale. rewrite Z.sub_diag, (rnd_const 0), (rnd_const (jitterFullIRI - jitterBusyIRI)) by (vm_compute; discriminate).
  transitivity (rnd (inject_Z 0)); [by apply rnd_proper|by apply rnd_const].
Qed.

Lemma raw_scale_at_full : (raw_scale jitterFullIRI == 1)%Q.
Proof.
  unfold raw_scale. rewrite (rnd_const (jitterFullIRI - jitterBusyIRI)) by (vm_compute; discriminate).
  transitivity (rnd (inject_Z 1)); [by apply rnd_proper|by apply rnd_const].
Qed.

Lemma scale_bounds iri : jitterBusyIRI <= iri -> (0 <= scale_of iri <= 1)%Q.
Proof.
  intros Hi. unfold scale_of. destruct (Qle_bool (raw_scale iri) 1) eqn:E; cbn [negb]; [|vm_compute; split; discriminate].
  apply Qle_bool_iff in E. split; [|done]. rewrite <- raw_scale_at_busy. by apply raw_scale_mono.
Qed.

Lemma scale_mono a b : a <= b -> (scale_of a <= scale_of b)%Q.
Proof.
  intros Hab. pose proof (raw_scale_mono a b Hab) as Hm. unfold scale_of.
  destruct (Qle_bool (raw_scale a) 1) eqn:Ea; destruct (Qle_bool (raw_scale b) 1) eqn:Eb; cbn [negb]; [done| | |apply Qle_refl].
  - by apply Qle_bool_iff in Ea.
  - apply Qle_bool_iff in Eb. exfalso. assert (Qle_bool (raw_scale a) 1 = true); [|congruence].
    apply Qle_bool_iff. by eapply Qle_trans.
Qed.

Lemma ceiling_of iri : jitter_ceiling rnd iri = trunc (rnd (rnd (inject_Z jitterMax) * scale_of iri)).
Proof. done. Qed.

Lemma product_mono s s' : (0 <= s)%Q -> (s <= s')%Q ->
  (0 <= rnd (rnd (inject_Z jitterMax) * s))%Q /\ (rnd (rnd (inject_Z jitterMax) * s) <= rnd (rnd (inject_Z jitterMax) * s'))%Q.
Proof.
  intros H0 Hs. rewrite (rnd_const jitterMax) by (vm_compute; discriminate). split.
  - apply (Qle_trans _ (rnd (inject_Z 0))); [rewrite rnd_const by done; apply Qle_refl|]. apply rnd_mono. apply Qmult_le_0_compat; [vm_compute; discriminate|done].
  - apply rnd_mono. rewrite !(Qmult_comm (inject_Z jitterMax)). apply Qmult_le_compat_r; [done|vm_compute; discriminate].
Qed.

Lemma ceiling_mono a b : jitterBusyIRI <= a -> a <= b -> jitter_ceiling rnd a <= jitter_ceiling rnd b.
Proof.
  intros Ha Hab. rewrite !ceiling_of. destruct (scale_bounds a Ha) as [H0 _].
  destruct (product_mono (scale_of a) (scale_of b) H0 (scale_mono a b Hab)). by apply trunc_mono.
Qed.

Lemma ceiling_full iri : jitterFullIRI <= iri -> jitter_ceiling rnd iri = jitterMax.
Proof.
  intros Hi. rewrite ceiling_of. apply trunc_int.
  assert (scale_of iri == 1)%Q as ->.
  { apply Qle_antisym; [apply scale_bounds; unfold jitterFullIRI, jitterBusyIRI, ms in *; lia|].
    eapply Qle_trans; [|by apply (scale_mono jitterFullIRI)]. unfold scale_of.
    replace (Qle_bool (raw_scale jitterFullIRI) 1) with true; [cbn [negb]; rewrite raw_scale_at_full; apply Qle_refl|].
    symmetry. apply Qle_bool_iff. rewrite raw_scale_at_full. apply Qle_refl. }
  rewrite (rnd_const jitterMax), Qmult_1_r by (vm_compute; discriminate). apply rnd_const. vm_compute. discriminate.
Qed.

Lemma ceiling_le_max iri : jitterBusyIRI <= iri -> jitter_ceiling rnd iri <= jitterMax.
Proof.
  intros Hi. destruct (Z.le_ge_cases jitterFullIRI iri) as [Hf|Hf]; [by rewrite ceiling_full|].
  rewrite <- (ceiling_full jitterFullIRI) by lia. by apply ceiling_mono.
Qed.

Lemma ceiling_at_busy : jitter_ceiling rnd jitterBusyIRI = 0.
Proof.
  rewrite ceiling_of. apply trunc_int. assert (scale_of jitterBusyIRI == 0)%Q as ->.
  { apply Qle_antisym; [|apply scale_bounds; lia]. unfold scale_of. destruct (Qle_bool _ 1) eqn:E; cbn [negb]; [rewrite raw_scale_at_busy; apply Qle_refl|].
    exfalso. assert (Qle_bool (raw_scale jitterBusyIRI) 1 = true); [|congruence]. apply Qle_bool_iff. rewrite raw_scale_at_busy. discriminate. }
  rewrite Qmult_0_r. by apply (rnd_const 0).
Qed.

Lemma jitter_in_range iri draw : jitterBusyIRI <= iri ->
  adaptiveJitter rnd iri draw = Ok (if jitter_ceiling rnd iri <=? 0 then 0 else draw mod jitter_ceiling rnd iri).
Proof.
  intros Hi. unfold adaptiveJitter. cbv zeta. replace (iri =? 0) with false by (unfold jitterBusyIRI, ms in Hi; lia).
  replace (iri <? jitterBusyIRI) with false by lia. destruct (_ <=? 0) eqn:E; [done|]. apply below_ok. lia.
Qed.

Lemma jitter_draws_zero iri : adaptiveJitter rnd iri 0 = Ok 0.
Proof.
  unfold adaptiveJitter. cbv zeta. set (i := if iri =? 0 then _ else _). destruct (i <? jitterBusyIRI); [done|].
  destruct (_ <=? 0) eqn:E; [done|]. rewrite (proj1 (below_ok 0 (jitter_ceiling rnd i) ltac:(lia))). by rewrite Z.mod_0_l by lia.
Qed.

(** The scale factor and the ceiling between the two thresholds, up to rounding. *)
Lemma scale_near iri : jitterBusyIRI < iri <= jitterFullIRI ->
  ((1 - ulp) * (inject_Z (iri - jitterBusyIRI) / 180000000) <= scale_of iri)%Q /\
  (scale_of iri <= (1 + ulp) * (inject_Z (iri - jitterBusyIRI) / 180000000))%Q.
Proof.
  intros Hi. set (x := (inject_Z (iri - jitterBusyIRI) / 180000000)%Q).
  assert ((1 # 180000000) <= x)%Q as Hlo.
  { unfold x. apply Qle_shift_div_l; [reflexivity|]. assert ((1 # 180000000) * 180000000 == inject_Z 1)%Q as -> by reflexivity.
    rewrite <- Zle_Qle. lia. }
  assert (x <= 1)%Q as Hhi.
  { unfold x. apply Qle_shift_div_r; [reflexivity|]. assert (1 * 180000000 == inject_Z 180000000)%Q as -> by reflexivity.
    rewrite <- Zle_Qle. unfold jitterFullIRI, jitterBusyIRI, ms in *. lia. }
  assert (raw_scale iri == rnd x)%Q as Eraw.
  { unfold raw_scale. rewrite (rnd_const (jitterFullIRI - jitterBusyIRI)) by (vm_compute; discriminate).
    rewrite (rnd_const (iri - jitterBusyIRI)) by (unfold jitterFullIRI, jitterBusyIRI, ms in *; lia). reflexivity. }
  destruct (rnd_error x) as [El Eh]; [eapply Qle_trans; [|exact Hlo]; vm_compute; discriminate|
    eapply Qle_trans; [exact Hhi|]; vm_compute; discriminate|]. rewrite <- Eraw in El, Eh.
  unfold scale_of. destruct (Qle_bool (raw_scale iri) 1) eqn:E; cbn [negb]; [done|].
  assert (1 < raw_scale iri)%Q as Hgt. { apply Qnot_le_lt. intros Hle%Qle_bool_iff. congruence. }
  unfold ulp in *. split; [lra|]. apply Qlt_le_weak. eapply Qlt_le_trans; eassumption.
Qed.

Lemma ceiling_linear iri : jitterBusyIRI < iri <= jitterFullIRI ->
  Z.abs (jitter_ceiling rnd iri - (iri - jitterBusyIRI) * 2 / 9) <= 1.
Proof.
  intros Hi. destruct (scale_near iri Hi) as [Sl Sh]. rewrite ceiling_of.
  set (x := (inject_Z (iri - jitterBusyIRI) / 180000000)%Q) in *. set (n := iri - jitterBusyIRI) in *. set (f := n * 2 / 9).
  assert (0 < n <= 180000000) as Hn by (unfold n, jitterFullIRI, jitterBusyIRI, ms in *; lia).
  assert (40000000 * x == inject_Z n * (2 # 9))%Q as Et by (unfold x; field).
  assert (inject_Z 1 <= inject_Z n <= inject_Z 180000000)%Q as [Hn1 Hn2] by (rewrite <- !Zle_Qle; lia).
  assert (inject_Z n * 2 == 9 * inject_Z f + inject_Z (n * 2 mod 9))%Q as Ef.
  { change 2%Q with (inject_Z 2). change 9%Q with (inject_Z 9). rewrite <- !inject_Z_mult, <- inject_Z_plus. unfold f.
    apply inject_Z_injective. pose proof (Z.div_mod (n * 2) 9 ltac:(lia)). lia. }
  assert (inject_Z 0 <= inject_Z (n * 2 mod 9) <= inject_Z 8)%Q as [Hr1 Hr2].
  { rewrite <- !Zle_Qle. pose proof (Z.mod_pos_bound (n * 2) 9 ltac:(lia)). lia. }
  set (p := (rnd (inject_Z jitterMax) * scale_of iri)%Q).
  assert (p == 40000000 * scale_of iri)%Q as Ep by (unfold p; rewrite (rnd_const jitterMax) by (vm_compute; discriminate); reflexivity).
  assert ((1 # 1000) <= p)%Q as Hp1 by (unfold ulp, inject_Z in *; lra).
  assert (p <= 100000000)%Q as Hp2 by (unfold ulp, inject_Z in *; lra).
  destruct (rnd_error p) as [El Eh]; [eapply Qle_trans; [|exact Hp1]; vm_compute; discriminate|
    eapply Qle_trans; [exact Hp2|]; vm_compute; discriminate|].
  assert (0 <= f) as Hf by (apply Z.div_pos; lia).
  assert (trunc (rnd p) <= f + 1) as Hup.
  { rewrite <- (trunc_int (f + 1) (inject_Z (f + 1))) by reflexivity. apply trunc_mono; [unfold ulp in *; lra|].
    rewrite inject_Z_plus. unfold ulp, inject_Z in *. lra. }
  assert (f - 1 <= trunc (rnd p)) as Hlo; [|lia].
  destruct (Z.eq_dec f 0) as [Hf0|Hf0].
  - assert (0 <= trunc (rnd p)); [|lia]. rewrite <- (trunc_int 0 (inject_Z 0)) by reflexivity.
    apply trunc_mono; [apply Qle_refl|]. unfold ulp, inject_Z in *. lra.
  - rewrite <- (trunc_int (f - 1) (inject_Z (f - 1))) by reflexivity.
    apply trunc_mono; [rewrite <- (Zle_Qle 0); lia|]. replace (f - 1) with (f + -1) by lia. rewrite inject_Z_plus. unfold ulp, inject_Z in *. lra.
Qed.

(** C38: for every interval between requests and every draw the delay is a time from 0
    to below 40 ms (the random source is never asked for an empty range).  It is 0 for
    an interval below 20 ms; from 200 ms on, and for the very first request, it is the
    draw reduced to the whole 40 ms; in between it is the draw reduced to a range that is
    2/9 of what the interval exceeds 20 ms by, up to one nanosecond of floating-point
    rounding; and every delay that is possible for one interval is possible for every
    longer one, so the range only grows. *)
Theorem jitter_bounds (iri draw : Z) :
  (exists d, adaptiveJitter rnd iri draw = Ok d /\ 0 <= d < jitterMax) /\
  (iri < jitterBusyIRI -> iri <> 0 -> adaptiveJitter rnd iri draw = Ok 0) /\
  (jitterFullIRI <= iri \/ iri = 0 -> adaptiveJitter rnd iri draw = Ok (draw mod (40 * ms))) /\
  (20 * ms <= iri <= 200 * ms -> exists range, Z.abs (range - (iri - 20 * ms) * 2 / 9) <= 1 /\
     adaptiveJitter rnd iri draw = Ok (if range <=? 0 then 0 else draw mod range)) /\
  (forall iri', iri <> 0 -> iri <= iri' -> iri' <> 0 -> exists draw', adaptiveJitter rnd iri' draw' = adaptiveJitter rnd iri draw).
Proof.
  assert (0 < jitterMax) as Hm by (vm_compute; done). split; [|split; [|split; [|split]]].
  - unfold adaptiveJitter. cbv zeta. set (i := if iri =? 0 then _ else _). destruct (i <? jitterBusyIRI) eqn:E; [exists 0; split; [done|lia]|].
    destruct (jitter_ceiling rnd i <=? 0) eqn:Ec; [exists 0; split; [done|lia]|].
    destruct (below_ok draw (jitter_ceiling rnd i) ltac:(lia)) as [-> Hb]. eexists. split; [done|].
    pose proof (ceiling_le_max i ltac:(lia)). lia.
  - intros Hi H0. unfold adaptiveJitter. replace (iri =? 0) with false by lia. by replace (iri <? jitterBusyIRI) with true by lia.
  - intros Hi. unfold adaptiveJitter. cbv zeta. set (i := if iri =? 0 then _ else _).
    assert (jitterFullIRI <= i) as Hf by (subst i; destruct (iri =? 0) eqn:E; lia).
    replace (i <? jitterBusyIRI) with false by (unfold jitterFullIRI, jitterBusyIRI, ms in *; lia). rewrite ceiling_full by done.
    replace (jitterMax <=? 0) with false by lia. by apply below_ok.
  - intros Hi. rewrite jitter_in_range by (unfold jitterBusyIRI; lia). eexists. split; [|done].
    destruct (Z.eq_dec iri jitterBusyIRI) as [->|Hne]; [rewrite ceiling_at_busy; vm_compute; discriminate|].
    apply (ceiling_linear iri). unfold jitterBusyIRI, jitterFullIRI in *. lia.
  - intros iri' H0 Hle H0'. destruct (Z.lt_ge_cases iri jitterBusyIRI) as [Hb|Hb].
    + exists 0. transitivity (@Ok Z 0); [|unfold adaptiveJitter; replace (iri =? 0) with false by lia; by replace (iri <? jitterBusyIRI) with true by lia].
      apply jitter_draws_zero.
    + rewrite (jitter_in_range iri) by done. pose proof (ceiling_mono iri iri' Hb Hle). destruct (_ <=? 0) eqn:Ec; [exists 0; apply jitter_draws_zero|].
      exists (draw mod jitter_ceiling rnd iri). rewrite jitter_in_range by (unfold jitterBusyIRI in *; lia).
      replace (jitter_ceiling rnd iri' <=? 0) with false by lia. f_equal. pose proof (Z.mod_pos_bound draw (jitter_ceiling rnd iri) ltac:(lia)).
      apply Z.mod_small. lia.
Qed.
End pacing_props.

(** Exact arithmetic is one such rounding. *)
#[local] Instance exact_rounding : Float64 (fun q => q).
Proof.
  split; [done|intros z _; apply Qeq_refl|]. intros q Hq _. assert (0 <= q)%Q as H0 by (eapply Qle_trans; [|exact Hq]; discriminate).
  unfold ulp. split; lra.
Qed.

Lemma jitter_bounds_witness : exists d, Pacing.adaptiveJitter (fun q => q) (110 * Pacing.ms) 123456789 = Ok d /\ 0 <= d < 40000000.
Proof. exact (proj1 (jitter_bounds (fun q => q) (110 * Pacing.ms) 123456789)). Defined.

(** ** Properties of the decoy loop *)

Section decoy_props.
Import Decoy.

(** Fires are at least 20 s apart, each in a lightly loaded period. *)
Fixpoint spaced (l : list Z) : Prop :=
  match l with
  | a :: (b :: _) as l' => a - b >= decoyMinInterval /\ spaced l'
  | _ => True
  end.

Lemma loop_pass_cases targets idle r1 r2 : targets <> [] ->
  (idle < decoyBusyWindow /\ loop_pass targets idle r1 r2 = Ok (None, decoyBusyWindow - idle + 50 * Pacing.ms)) \/
  (idle > decoyDormantAfter /\ loop_pass targets idle r1 r2 = Ok (None, 120 * dsec)) \/
  (decoyBusyWindow <= idle <= decoyDormantAfter /\ exists i d, loop_pass targets idle r1 r2 = Ok (Some i, decoyMinInterval + d) /\
     0 <= i < zlen targets /\ 0 <= d < decoyMaxInterval - decoyMinInterval).
Proof.
  intros Ht. assert (0 < zlen targets) as Hp by (destruct targets; [done|unfold zlen; simpl; lia]).
  unfold loop_pass. destruct (idle <? decoyBusyWindow) eqn:E1; [left; split; [lia|done]|].
  destruct (idle >? decoyDormantAfter) eqn:E2; [right; left; split; [lia|done]|]. right. right. split; [lia|].
  destruct (below_ok r1 (zlen targets) Hp) as [-> H1].
  destruct (below_ok r2 (decoyMaxInterval - decoyMinInterval)) as [-> H2]; [vm_compute; done|].
  cbn [mbind res_bind]. do 2 eexists. split; [done|]. by split.
Qed.

Record decoy_inv (now0 : Z) (d : DecoyManager) : Prop := {
  di_targets : dm_targets d = decoyTargets;
  di_spaced : spaced (dm_fired d);
  di_next : forall t w, head (dm_fired d) = Some t -> dm_wake d = Some w -> w - t >= decoyMinInterval;
  di_clock : forall t, head (dm_fired d) = Some t -> t <= dm_clock d;
  di_act : forall a, dm_lastAct d = Some a -> a <= dm_clock d;
  di_quiet : dm_lastAct d = None -> dm_fired d = [];
  di_running : dm_cancelled d = false -> dm_wake d <> None
}.

Lemma decoy_inv_step now0 d ev d' : decoy_inv now0 d -> decoy_step d ev = Some d' -> decoy_inv now0 d'.
Proof.
  intros [Ht Hs Hn Hc Ha Hq Hr]. destruct ev as [now|now r1 r2| |]; cbn [decoy_step].
  - destruct (now <? dm_clock d) eqn:E; [done|]. intros [= <-]. split; cbn; try done.
    + intros t Hh. specialize (Hc t Hh). lia.
    + intros a [= ->]. lia.
  - destruct (dm_wake d) as [w|] eqn:Ew; [|done]. destruct ((now <? dm_clock d) || (now <? w)) eqn:E; [done|].
    apply orb_false_iff in E as [E1 E2]. rewrite Ht.
    assert (decoyMinInterval > 0 /\ decoyBusyWindow > 0) as [Hmi Hbw] by (vm_compute; done).
    destruct (loop_pass_cases decoyTargets (idleSince (dm_lastAct d) now) r1 r2 ltac:(done))
      as [[Hi ->]|[[Hi ->]|[Hi (i & dl & -> & Hir & Hdl)]]]; intros [= <-]; split; cbn; try done.
    + intros t w' Hh [= <-]. specialize (Hn t w Hh eq_refl). unfold Pacing.ms. lia.
    + intros t Hh. specialize (Hc t Hh). lia.
    + intros a Hh. specialize (Ha a Hh). lia.
    + intros t w' Hh [= <-]. specialize (Hn t w Hh eq_refl). unfold dsec. lia.
    + intros t Hh. specialize (Hc t Hh). lia.
    + intros a Hh. specialize (Ha a Hh). lia.
    + destruct (dm_fired d) as [|b l]; [done|]. split; [|done]. specialize (Hn b w eq_refl eq_refl). lia.
    + intros t w' [= ->] [= <-]. lia.
    + intros t [= ->]. lia.
    + intros a Hh. specialize (Ha a Hh). lia.
    + intros Hnone. rewrite Hnone in Hi. cbn in Hi. unfold dsec in Hi. lia.
  - intros [= <-]. by split.
  - destruct (dm_cancelled d); [|done]. intros [= <-]. by split.
Qed.

Lemma decoy_invariant now0 d : decoy_reach now0 d -> decoy_inv now0 d.
Proof.
  induction 1 as [|d ev d' _ IH Hs]; [|by eapply decoy_inv_step]. by split.
Qed.

Lemma spaced_drop a l : spaced (a :: l) -> spaced l.
Proof. destruct l; [done|]. by intros [_ ?]. Qed.

Lemma spaced_window pre a b c d l : spaced (pre ++ a :: b :: c :: d :: l) -> a - d >= 60 * dsec.
Proof.
  induction pre as [|x pre IH]; intros Hs; [|apply IH; by eapply spaced_drop].
  destruct Hs as (H1 & H2 & H3 & _). unfold decoyMinInterval, dsec in *. lia.
Qed.

(** In every run of the decoy manager any four requests in a row span at least a
    minute (at most three a minute), a request is only sent when the tunnel's last
    activity was from 500 ms to 10 minutes ago, none is sent before the first
    activity, and the loop never ends before [Stop]. *)
Theorem decoy_rate (now0 : Z) (d : DecoyManager) (Hr : decoy_reach now0 d) :
  (forall pre a b c e l, dm_fired d = pre ++ a :: b :: c :: e :: l -> a - e >= 60 * dsec) /\
  (dm_lastAct d = None -> dm_fired d = []) /\
  (dm_cancelled d = false -> dm_wake d <> None) /\
  (forall now r1 r2 d', decoy_step d (DWake now r1 r2) = Some d' -> dm_fired d' <> dm_fired d ->
     exists a, dm_lastAct d = Some a /\ decoyBusyWindow <= now - a <= decoyDormantAfter).
Proof.
  destruct (decoy_invariant now0 d Hr) as [Ht Hs Hn Hc Ha Hq Hw]. split; [|split; [done|split; [done|]]].
  - intros pre a b c e l E. rewrite E in Hs. by eapply spaced_window.
  - intros now r1 r2 d'. cbn [decoy_step]. destruct (dm_wake d) as [w|]; [|done]. destruct (_ || _); [done|]. rewrite Ht.
    destruct (loop_pass_cases decoyTargets (idleSince (dm_lastAct d) now) r1 r2 ltac:(done))
      as [[Hi ->]|[[Hi ->]|[Hi (i & dl & -> & _)]]]; intros [= <-]; cbn; [done|done|]. intros _.
    destruct (dm_lastAct d) as [a|]; [by exists a|]. cbn in Hi. unfold dsec in Hi. lia.
Qed.

(** A pass that finds the tunnel busy sleeps just long enough: if there is no
    activity until the loop wakes, on time or up to 9 minutes late, that pass sends a
    decoy. *)
Theorem decoy_resumes (now0 : Z) (d d1 d2 : DecoyManager) (a now now' r1 r2 r3 r4 : Z)
    (Hr : decoy_reach now0 d) (Hact : dm_lastAct d = Some a) (Hbusy : now - a < decoyBusyWindow)
    (H1 : decoy_step d (DWake now r1 r2) = Some d1) (H2 : decoy_step d1 (DWake now' r3 r4) = Some d2)
    (Hlate : now' <= now + 540 * dsec) :
  dm_fired d1 = dm_fired d /\ dm_fired d2 = now' :: dm_fired d.
Proof.
  destruct (decoy_invariant now0 d Hr) as [Ht Hs Hn Hc Ha Hq Hw]. revert H1. cbn [decoy_step].
  destruct (dm_wake d) as [w|]; [|done]. destruct (_ || _); [done|]. rewrite Ht, Hact. cbn [idleSince].
  destruct (loop_pass_cases decoyTargets (now - a) r1 r2 ltac:(done)) as [[Hi ->]|[[Hi _]|[Hi _]]];
    [|exfalso; unfold decoyDormantAfter, decoyBusyWindow, dsec, Pacing.ms in *; lia|exfalso; lia].
  intros [= <-]. revert H2. cbn [decoy_step dm_wake dm_clock dm_targets dm_lastAct dm_fired dm_cancelled idleSince]. destruct ((now' <? now) || _) eqn:Eg2; [done|]. apply orb_false_iff in Eg2 as [_ Eg2]. apply Z.ltb_ge in Eg2.
  destruct (loop_pass_cases decoyTargets (now' - a) r3 r4 ltac:(done)) as [[Hi' _]|[[Hi' _]|[Hi' (i & dl & -> & _)]]];
    [exfalso; unfold Pacing.ms in *; lia|exfalso; unfold decoyDormantAfter, decoyBusyWindow, dsec, Pacing.ms in *; lia|].
  by intros [= <-].
Qed.
End decoy_props.

Module Toy_decoy.
Import Decoy.
Definition d0 : DecoyManager := NewDecoyManager 0.
Definition d1 : DecoyManager := default d0 (decoy_step d0 (DActivity dsec)).
Definition d2 : DecoyManager := default d0 (decoy_step d1 (DWake (dsec + 100 * Pacing.ms) 0 0)).
Definition d3 : DecoyManager := default d0 (decoy_step d2 (DWake (dsec + 550 * Pacing.ms) 7 7)).

Lemma reach1 : decoy_reach 0 d1.
Proof. apply (dr_step 0 d0 (DActivity dsec)); [constructor|reflexivity]. Qed.

Lemma reach3 : decoy_reach 0 d3.
Proof.
  apply (dr_step 0 d2 (DWake (dsec + 550 * Pacing.ms) 7 7)); [|reflexivity].
  apply (dr_step 0 d1 (DWake (dsec + 100 * Pacing.ms) 0 0)); [apply reach1|reflexivity].
Qed.
End Toy_decoy.

Lemma decoy_rate_witness : Decoy.dm_fired Toy_decoy.d3 = [1550000000] /\ Decoy.dm_wake Toy_decoy.d3 <> None.
Proof. split; [reflexivity|]. by apply (decoy_rate 0 Toy_decoy.d3 Toy_decoy.reach3). Defined.

Lemma decoy_resumes_witness : Decoy.dm_fired Toy_decoy.d3 = [1550000000].
Proof.
  apply (decoy_resumes 0 Toy_decoy.d1 Toy_decoy.d2 Toy_decoy.d3 1000000000 1100000000 1550000000 0 0 7 7);
    [apply Toy_decoy.reach1|reflexivity|by vm_compute|reflexivity|reflexivity|by vm_compute].
Defined.
