(* ===== verification/AuthRequest.v ===== *)
(** * AuthRequest: what the authenticator sends and how it reads the answer (tunnel.go)

    The configuration of an [Authenticator], the login requests of both methods over
    HTTP and over the UDP relay, the decoding of their answers and the whole [Login]
    built from them.  The HTTP client is an argument that maps a request to an
    exchange; JSON decoding is an argument per target type. *)
From S2P Require Import Prelude Encoding Env TunnelWire Auth Camouflage.

Record KeyAuthParams := mkKAP {
  kp_Username : bytes;
  kp_Servers : list bytes;
  kp_ControlNodes : list bytes;
  kp_ArbiterPubkey : bytes;
  kp_NodeID : bytes;
  kp_APIKey : bytes;
  kp_ClientID : bytes;
  kp_KeyID : bytes;
  kp_AuthSig : bytes
}.

Record keyAuthInfo := mkKAI {
  ka_username : bytes;
  ka_servers : list bytes;
  ka_controlNodes : list bytes;
  ka_arbiterPubkey : bytes;
  ka_nodeID : bytes;
  ka_apiKey : bytes;
  ka_clientID : bytes;
  ka_keyID : bytes;
  ka_authSig : bytes
}.

(** Which connections the HTTP client uses: direct ones, a dial function, or a
    fixed browser preset. *)
Inductive http_client := CDirect | CVia (fn : nat) | CPreset (p : nat).

(** The [Authenticator] with the fields its requests are built from. *)
Record authenticator := mkAuthenticator {
  au_serverURL : bytes;
  au_apiKey : bytes;
  au_username : bytes;
  au_password : bytes;
  au_session : Headers.Session;
  au_client : http_client;
  au_token : bytes;
  au_keyID : bytes;
  au_deviceID : bytes;
  au_deviceName : bytes;
  au_keyAuth : option keyAuthInfo;
  au_pendingNotifs : list bytes
}.

Definition NewAuthenticator (serverURL apiKey username password : bytes) (s : Headers.Session) : authenticator :=
  mkAuthenticator (trim_right_slash serverURL) apiKey username password s CDirect [] [] [] [] None [].

Definition NewAuthenticatorWithToken (serverURL apiKey token : bytes) (s : Headers.Session) : authenticator :=
  mkAuthenticator (trim_right_slash serverURL) apiKey [] [] s CDirect token [] [] [] None [].

Definition SetDeviceInfo (keyID deviceID deviceName : bytes) (a : authenticator) : authenticator :=
  mkAuthenticator (au_serverURL a) (au_apiKey a) (au_username a) (au_password a) (au_session a) (au_client a) (au_token a)
    keyID deviceID deviceName (au_keyAuth a) (au_pendingNotifs a).

Definition SetKeyAuthParams (p : KeyAuthParams) (a : authenticator) : authenticator :=
  if bool_decide (kp_AuthSig p = []) then a else
  mkAuthenticator (au_serverURL a) (au_apiKey a) (au_username a) (au_password a) (au_session a) (au_client a) (au_token a)
    (au_keyID a) (au_deviceID a) (au_deviceName a)
    (Some (mkKAI (kp_Username p) (kp_Servers p) (kp_ControlNodes p) (kp_ArbiterPubkey p) (kp_NodeID p) (kp_APIKey p)
             (kp_ClientID p) (kp_KeyID p) (kp_AuthSig p)))
    (au_pendingNotifs a).

Definition AdoptToken (tok : bytes) (a : authenticator) : authenticator :=
  mkAuthenticator (au_serverURL a) (au_apiKey a) (au_username a) (au_password a) (au_session a) (au_client a) tok
    (au_keyID a) (au_deviceID a) (au_deviceName a) (au_keyAuth a) (au_pendingNotifs a).

Definition set_client (c : http_client) (a : authenticator) : authenticator :=
  mkAuthenticator (au_serverURL a) (au_apiKey a) (au_username a) (au_password a) (au_session a) c (au_token a)
    (au_keyID a) (au_deviceID a) (au_deviceName a) (au_keyAuth a) (au_pendingNotifs a).

Definition auth_SetDialFunc (fn : nat) : authenticator -> authenticator := set_client (CVia fn).
Definition auth_ClearDialFunc : authenticator -> authenticator := set_client CDirect.
Definition SetHTTPClientForPreset (p : nat) : authenticator -> authenticator := set_client (CPreset p).

Definition set_notifs (n : list bytes) (a : authenticator) : authenticator :=
  mkAuthenticator (au_serverURL a) (au_apiKey a) (au_username a) (au_password a) (au_session a) (au_client a) (au_token a)
    (au_keyID a) (au_deviceID a) (au_deviceName a) (au_keyAuth a) n.

(** The notifications ([None] is nil) and the cleared authenticator. *)
Definition DrainNotifications (a : authenticator) : option (list bytes) * authenticator :=
  if bool_decide (au_pendingNotifs a = []) then (None, a) else (Some (au_pendingNotifs a), set_notifs [] a).

(** ** Request bodies *)

(** The values of a [map[string]interface{}] payload. *)
Inductive jval := JStr (s : bytes) | JArr (l : list bytes).
#[global] Instance jval_eq : EqDecision jval. Proof. solve_decision. Defined.

Abbreviation payload := (gmap bytes jval).

Definition put_str (k : String.string) (v : bytes) (m : payload) : payload := if bool_decide (v = []) then m else <[str k := JStr v]> m.
Definition put_arr (k : String.string) (v : list bytes) (m : payload) : payload := if bool_decide (v = []) then m else <[str k := JArr v]> m.
Arguments put_str k%_string_scope v m.
Arguments put_arr k%_string_scope v m.

Definition buildKeyAuthBody (ka : keyAuthInfo) (a : authenticator) : payload :=
  put_str "device_name" (au_deviceName a) (put_str "device_id" (au_deviceID a)
  (put_str "key_id" (ka_keyID ka) (put_str "client_id" (ka_clientID ka) (put_str "api_key" (ka_apiKey ka)
  (put_str "arbiter_pubkey" (ka_arbiterPubkey ka) (put_arr "control_nodes" (ka_controlNodes ka) (put_arr "servers" (ka_servers ka)
  (<[str "auth_sig" := JStr (ka_authSig ka)]> (<[str "node_id" := JStr (ka_nodeID ka)]>
  (<[str "username" := JStr (ka_username ka)]> (<[str ".command" := JStr (str "authenticateKey")]> ∅))))))))))).

Definition buildPasswordAuthBody (a : authenticator) : payload :=
  put_str "device_name" (au_deviceName a) (put_str "device_id" (au_deviceID a) (put_str "key_id" (au_keyID a)
  (<[str "key" := JStr (au_apiKey a)]> (<[str "password" := JStr (au_password a)]> (<[str "user" := JStr (au_username a)]>
  (<[str "path" := JStr (str "users")]> (<[str ".command" := JStr (str "verifyPassword")]> ∅))))))).

(** ** The exchanges *)

Record http_request := mkReq { rq_url : bytes; rq_header : gmap bytes bytes; rq_body : payload }.

(** A value of the generic answer: a string, an object (its string fields), or
    something else. *)
Inductive gval := GStr (s : bytes) | GObj (m : gmap bytes bytes) | GOther.

Section exchanges.
Context (raw_object : bytes -> option (gmap bytes bytes))      (* map[string]json.RawMessage *)
        (raw_string : bytes -> option bytes)                   (* a string *)
        (raw_notifs : bytes -> option (list bytes))            (* []Notification *)
        (raw_generic : bytes -> option (gmap bytes gval))      (* map[string]interface{} *)
        (parse_transient : bytes -> bool)
        (client h1 : http_request -> http_exchange).

(** [req.Header.Set] of the session's headers over what is set already. *)
Definition auth_headers (a : authenticator) : gmap bytes bytes :=
  Headers.Headers (au_session a) (hostOf (au_serverURL a)) ∪ {[ str "Content-Type" := str "application/json" ]}.

Definition doKeyAuth (a : authenticator) : res (authenticator * (bytes + auth_error)) :=
  match au_keyAuth a with
  | None => Panic
  | Some ka =>
    Ok match client (mkReq (au_serverURL a ++ str "/") (auth_headers a) (buildKeyAuthBody ka a)) with
    | None => (a, inr (mkAuthError Unclassified []))
    | Some (status, raw) =>
      if negb (status =? 200) then (a, inr (classifyAuthError status raw (parse_transient raw))) else
      match raw_object raw with
      | None => (a, inr (mkAuthError Rejected raw))
      | Some result =>
        let tok := match result !! str "session" with Some s => default [] (raw_string s) | None => [] end in
        if bool_decide (tok = []) then (a, inr (mkAuthError Rejected raw)) else
        (match result !! str "notifications" with
         | Some n => match raw_notifs n with
                     | Some ns => if bool_decide (ns = []) then a else set_notifs ns a
                     | None => a
                     end
         | None => a
         end, inl tok)
      end
    end
  end.

Definition doPasswordAuth (a : authenticator) : bytes + auth_error :=
  match client (mkReq (au_serverURL a ++ str "/") (auth_headers a) (buildPasswordAuthBody a)) with
  | None => inr (mkAuthError Unclassified [])
  | Some (status, raw) =>
    if negb (status =? 200) then inr (classifyAuthError status raw (parse_transient raw)) else
    match raw_generic raw with
    | None => inr (mkAuthError Rejected raw)
    | Some result =>
      let tok := match result !! str "session" with
                 | Some (GStr s) => s
                 | _ => match result !! str "data" with Some (GObj d) => default [] (d !! str "session") | _ => [] end
                 end in
      if bool_decide (tok = []) then inr (mkAuthError Rejected raw) else inl tok
    end
  end.

(** [ProxyValidate]: the answer's "session" field, [None] when it does not decode. *)
Definition ProxyValidate (field : bytes -> option bytes) (username password : bytes) (a : authenticator) : bytes + auth_error :=
  let body : payload := <[str "password" := JStr password]> (<[str "username" := JStr username]> ∅) in
  let header : gmap bytes bytes := <[str "X-Session" := au_token a]> {[ str "Content-Type" := str "application/json" ]} in
  match client (mkReq (au_serverURL a ++ str "/api/auth/proxy-validate") header body) with
  | None => inr (mkAuthError Unclassified [])
  | Some (status, raw) =>
    if negb (status =? 200) then inr (classifyAuthError status raw (parse_transient raw)) else
    match field raw with
    | None => inr (mkAuthError Unclassified raw)
    | Some tok => if bool_decide (tok = []) then inr (mkAuthError Unclassified raw) else inl tok
    end
  end.

(** The request of [tryAuthViaControlCache]. *)
Definition cache_request (a : authenticator) : http_request :=
  mkReq (au_serverURL a ++ str "/p/v1/auth/cached") {[ str "Content-Type" := str "application/json" ]}
    {[ str "device_id" := JStr (au_deviceID a) ]}.

Definition key_session (raw : bytes) : option bytes :=
  (fun result => match result !! str "session" with Some s => default [] (raw_string s) | None => [] end) <$> raw_object raw.

(** [Login]: [keyFirst] says which of two results arrives first.  The key method's
    notifications are stored by its goroutine. *)
Definition login (keyFirst : bool) (a : authenticator) : res (authenticator * option auth_class) :=
  k ← match au_keyAuth a with None => Ok (a, []) | Some _ => r ← doKeyAuth a; Ok (r.1, [r.2]) end;
  let pw := if bool_decide (au_password a = []) then [] else [doPasswordAuth a] in
  let arrivals := if keyFirst then k.2 ++ pw else pw ++ k.2 in
  let cached := tryAuthViaControlCache key_session (au_deviceID a) (h1 (cache_request a)) in
  let '(a', err) := Login (mkAuth (au_token a) (bool_decide (is_Some (au_keyAuth a))) (au_password a) (au_deviceID a)) arrivals cached in
  Ok (AdoptToken (a_token a') k.1, err).
End exchanges.

(** ** Properties of the requests *)

Lemma lookup_put_str_eq (k : String.string) (v : bytes) (m : payload) : m !! str k = None -> put_str k v m !! str k = if bool_decide (v = []) then None else Some (JStr v).
Proof. intros Hm. unfold put_str. case_bool_decide; [done|]. apply lookup_insert_eq. Qed.
Lemma lookup_put_arr_eq (k : String.string) (v : list bytes) (m : payload) : m !! str k = None -> put_arr k v m !! str k = if bool_decide (v = []) then None else Some (JArr v).
Proof. intros Hm. unfold put_arr. case_bool_decide; [done|]. apply lookup_insert_eq. Qed.
Lemma lookup_put_str_ne (k : String.string) (k' : bytes) (v : bytes) (m : payload) : str k <> k' -> put_str k v m !! k' = m !! k'.
Proof. intros Hk. unfold put_str. case_bool_decide; [done|]. by apply lookup_insert_ne. Qed.
Lemma lookup_put_arr_ne (k : String.string) (k' : bytes) (v : list bytes) (m : payload) : str k <> k' -> put_arr k v m !! k' = m !! k'.
Proof. intros Hk. unfold put_arr. case_bool_decide; [done|]. by apply lookup_insert_ne. Qed.

(** Look a concrete key up in a body: walk down to the field of that name. *)
Ltac key_absent :=
  repeat first [rewrite lookup_put_str_ne by (by vm_compute) | rewrite lookup_put_arr_ne by (by vm_compute)
               | rewrite lookup_insert_ne by (by vm_compute)];
  by apply lookup_empty.
Ltac body_key :=
  repeat first [rewrite lookup_put_str_ne by (by vm_compute) | rewrite lookup_put_arr_ne by (by vm_compute)
               | rewrite lookup_insert_ne by (by vm_compute)];
  first [by rewrite lookup_insert_eq | by rewrite lookup_put_str_eq by key_absent | by rewrite lookup_put_arr_eq by key_absent].

Definition opt_str (v : bytes) : option jval := if bool_decide (v = []) then None else Some (JStr v).
Definition opt_arr (v : list bytes) : option jval := if bool_decide (v = []) then None else Some (JArr v).

(** What each request is meant to contain, field by field. *)
Definition key_fields (ka : keyAuthInfo) (a : authenticator) : list (bytes * option jval) :=
  [(str ".command", Some (JStr (str "authenticateKey"))); (str "username", Some (JStr (ka_username ka)));
   (str "node_id", Some (JStr (ka_nodeID ka))); (str "auth_sig", Some (JStr (ka_authSig ka)));
   (str "servers", opt_arr (ka_servers ka)); (str "control_nodes", opt_arr (ka_controlNodes ka));
   (str "arbiter_pubkey", opt_str (ka_arbiterPubkey ka)); (str "api_key", opt_str (ka_apiKey ka));
   (str "client_id", opt_str (ka_clientID ka)); (str "key_id", opt_str (ka_keyID ka));
   (str "device_id", opt_str (au_deviceID a)); (str "device_name", opt_str (au_deviceName a))].

Definition password_fields (a : authenticator) : list (bytes * option jval) :=
  [(str ".command", Some (JStr (str "verifyPassword"))); (str "path", Some (JStr (str "users")));
   (str "user", Some (JStr (au_username a))); (str "password", Some (JStr (au_password a))); (str "key", Some (JStr (au_apiKey a)));
   (str "key_id", opt_str (au_keyID a)); (str "device_id", opt_str (au_deviceID a)); (str "device_name", opt_str (au_deviceName a))].

Definition field (fs : list (bytes * option jval)) (k : bytes) : option jval :=
  mjoin (snd <$> find (fun f => bool_decide (f.1 = k)) fs).

Lemma field_eq k v fs : field ((k, v) :: fs) k = v.
Proof. unfold field. cbn [find fst]. by rewrite bool_decide_true. Qed.
Lemma field_ne k' k v fs : k' <> k -> field ((k', v) :: fs) k = field fs k.
Proof. intros Hk. unfold field. cbn [find fst]. by rewrite bool_decide_false. Qed.

(** The login bodies have exactly the documented fields: the mandatory ones
    always, an optional one exactly when its value is not empty, nothing else. *)
Theorem login_bodies_exact (ka : keyAuthInfo) (a : authenticator) (k : bytes) :
  buildKeyAuthBody ka a !! k = field (key_fields ka a) k /\ buildPasswordAuthBody a !! k = field (password_fields a) k.
Proof.
  split.
  - unfold key_fields.
    repeat match goal with |- _ = field ((?x, _) :: _) k =>
      destruct (decide (x = k)) as [<-|]; [rewrite field_eq; unfold buildKeyAuthBody, opt_str, opt_arr; body_key|rewrite field_ne by done] end.
    unfold buildKeyAuthBody.
    repeat first [rewrite lookup_put_str_ne by done | rewrite lookup_put_arr_ne by done | rewrite lookup_insert_ne by done]. apply lookup_empty.
  - unfold password_fields.
    repeat match goal with |- _ = field ((?x, _) :: _) k =>
      destruct (decide (x = k)) as [<-|]; [rewrite field_eq; unfold buildPasswordAuthBody, opt_str; body_key|rewrite field_ne by done] end.
    unfold buildPasswordAuthBody.
    repeat first [rewrite lookup_put_str_ne by done | rewrite lookup_insert_ne by done]. apply lookup_empty.
Qed.

(** ** Properties of the login *)

(** The ways an authenticator comes to be configured. *)
Inductive configured : authenticator -> Prop :=
| cf_new url key user pw s : configured (NewAuthenticator url key user pw s)
| cf_token url key tok s : configured (NewAuthenticatorWithToken url key tok s)
| cf_device k d n a : configured a -> configured (SetDeviceInfo k d n a)
| cf_params p a : configured a -> configured (SetKeyAuthParams p a)
| cf_adopt t a : configured a -> configured (AdoptToken t a)
| cf_client c a : configured a -> configured (set_client c a)
| cf_notifs n a : configured a -> configured (set_notifs n a).

Lemma configured_key a ka : configured a -> au_keyAuth a = Some ka -> ka_authSig ka <> [].
Proof.
  intros Hc. revert ka. induction Hc as [| |k d n a _ IH|p a _ IH|t a _ IH|c a _ IH|n a _ IH]; intros ka; [done|done|apply IH| |apply IH|apply IH|apply IH].
  unfold SetKeyAuthParams. case_bool_decide; [apply IH|]. by intros [= <-].
Qed.

Section login_props.
Context (raw_object : bytes -> option (gmap bytes bytes)) (raw_string : bytes -> option bytes) (raw_notifs : bytes -> option (list bytes))
        (raw_generic : bytes -> option (gmap bytes gval)) (parse_transient : bytes -> bool) (client h1 : http_request -> http_exchange).

Abbreviation doKeyAuth := (doKeyAuth raw_object raw_string raw_notifs parse_transient client).
Abbreviation doPasswordAuth := (doPasswordAuth raw_generic parse_transient client).
Abbreviation login := (login raw_object raw_string raw_notifs raw_generic parse_transient client h1).

Lemma do_key_auth_total a ka :
  au_keyAuth a = Some ka -> exists n r, doKeyAuth a = Ok (set_notifs n a, r) /\ forall tok, r = inl tok -> tok <> [].
Proof.
  intros Hk. assert (a = set_notifs (au_pendingNotifs a) a) as Ha by (by destruct a). unfold AuthRequest.doKeyAuth. rewrite Hk.
  destruct (client _) as [[status raw]|]; [|exists (au_pendingNotifs a); eexists; rewrite <- Ha; by split].
  destruct (negb _); [exists (au_pendingNotifs a); eexists; rewrite <- Ha; by split|].
  destruct (raw_object raw) as [result|]; [|exists (au_pendingNotifs a); eexists; rewrite <- Ha; by split]. cbv zeta.
  set (tok := match result !! str "session" with Some _ => _ | None => _ end).
  destruct (decide (tok = [])) as [->|Ht]; [exists (au_pendingNotifs a); eexists; rewrite <- Ha; by split|].
  rewrite bool_decide_false by done.
  assert (exists n, match result !! str "notifications" with
     | Some n => match raw_notifs n with Some ns => if bool_decide (ns = []) then a else set_notifs ns a | None => a end
     | None => a end = set_notifs n a) as [n ->].
  { destruct (result !! str "notifications") as [x|]; [|by exists (au_pendingNotifs a)].
    destruct (raw_notifs x) as [[|y ns]|]; [by exists (au_pendingNotifs a)|by exists (y :: ns)|by exists (au_pendingNotifs a)]. }
  exists n. eexists. split; [done|]. by intros ? [= <-].
Qed.

Lemma do_password_auth_token a tok : doPasswordAuth a = inl tok -> tok <> [].
Proof.
  unfold AuthRequest.doPasswordAuth. destruct (client _) as [[status raw]|]; [|done]. destruct (negb _); [done|].
  destruct (raw_generic raw); [|done]. case_bool_decide; [done|]. by intros [= <-].
Qed.

Lemma cache_token dev ex tok : tryAuthViaControlCache (key_session raw_object raw_string) dev ex = Some tok -> tok <> [].
Proof.
  unfold tryAuthViaControlCache. case_bool_decide; [done|]. destruct ex as [[status raw]|]; [|done]. destruct (negb _); [done|].
  destruct (key_session _ _ raw); [|done]. case_bool_decide; [done|]. by intros [= <-].
Qed.

(** The results of the launched methods, the key method's first. *)
Definition method_results (a : authenticator) : list (bytes + auth_error) :=
  match au_keyAuth a with
  | Some _ => match doKeyAuth a with Ok r => [r.2] | _ => [] end
  | None => []
  end ++ (if bool_decide (au_password a = []) then [] else [doPasswordAuth a]).

Definition plain_auth (a : authenticator) : Authenticator :=
  mkAuth (au_token a) (bool_decide (is_Some (au_keyAuth a))) (au_password a) (au_deviceID a).

Lemma method_results_length a : length (method_results a) = methods (plain_auth a).
Proof.
  unfold method_results, methods, plain_auth. cbn. destruct (au_keyAuth a) as [ka|] eqn:Ek.
  - destruct (do_key_auth_total a ka Ek) as (n & r & -> & _). rewrite (bool_decide_true (is_Some _)) by done. by case_bool_decide.
  - rewrite (bool_decide_false (is_Some _)) by (by intros []). by case_bool_decide.
Qed.

Lemma method_results_token a tok : inl tok ∈ method_results a -> tok <> [].
Proof.
  unfold method_results. rewrite elem_of_app. intros [Hin|Hin].
  - destruct (au_keyAuth a) as [ka|] eqn:Ek; [|by apply elem_of_nil in Hin].
    destruct (do_key_auth_total a ka Ek) as (n & r & E & Ht). rewrite E in Hin. apply list_elem_of_singleton in Hin. by apply Ht.
  - case_bool_decide; [by apply elem_of_nil in Hin|]. apply list_elem_of_singleton in Hin. by eapply do_password_auth_token.
Qed.

(** [login] is [Login] on the methods' results. *)
Lemma login_unfold keyFirst a :
  exists n arrivals, Permutation (method_results a) arrivals /\
    login keyFirst a = let '(a', err) := Login (plain_auth a) arrivals
                         (tryAuthViaControlCache (key_session raw_object raw_string) (au_deviceID a) (h1 (cache_request a))) in
                       Ok (AdoptToken (a_token a') (set_notifs n a), err).
Proof.
  unfold AuthRequest.login, method_results. fold (plain_auth a). set (pw := if bool_decide _ then _ else _).
  destruct (au_keyAuth a) as [ka|] eqn:Ek.
  - destruct (do_key_auth_total a ka Ek) as (n & r & -> & _). cbn [mbind res_bind fst snd].
    exists n, (if keyFirst then [r] ++ pw else pw ++ [r]). split; [|done]. destruct keyFirst; [done|]. apply Permutation_app_comm.
  - cbn [mbind res_bind fst snd app]. exists (au_pendingNotifs a), (if keyFirst then pw else pw ++ []).
    split; [destruct keyFirst; by rewrite ?app_nil_r|]. by replace (set_notifs (au_pendingNotifs a) a) with a by (by destruct a).
Qed.

(** C21: a login never panics and, whichever method answers first, ends the same way.
    It succeeds exactly when one of the launched requests brought a token, or none was
    refused, one found the arbiter away, and the control's cache had a login for the
    device; then the new token is not empty.  When it fails the token is kept.  Either
    way nothing else but the notifications changes. *)
Theorem login_complete (keyFirst : bool) (a : authenticator) (Hm : au_keyAuth a <> None \/ au_password a <> []) :
  let rej := existsb (of_class Rejected) (method_results a) in
  let tra := existsb (of_class Transient) (method_results a) in
  let cached := tryAuthViaControlCache (key_session raw_object raw_string) (au_deviceID a) (h1 (cache_request a)) in
  exists a' err n, login keyFirst a = Ok (a', err) /\
    (err = None <-> existsb succeeds (method_results a) = true \/ (rej = false /\ tra = true /\ is_Some cached)) /\
    (err = None -> au_token a' <> [] /\ (inl (au_token a') ∈ method_results a \/ cached = Some (au_token a'))) /\
    (err <> None -> au_token a' = au_token a /\ err = Some (if rej then Rejected else if tra then Transient else Unclassified)) /\
    a' = AdoptToken (au_token a') (set_notifs n a).
Proof.
  intros rej tra cached. destruct (login_unfold keyFirst a) as (n & arrivals & Hp & ->). fold cached.
  assert (methods (plain_auth a) <> 0%nat) as Hpos.
  { unfold methods, plain_auth. cbn. destruct Hm as [Hk|Hk]; [rewrite (bool_decide_true (is_Some _)) by (by destruct (au_keyAuth a))|].
    - lia.
    - rewrite (bool_decide_false (_ = [])) by done. lia. }
  pose proof (login_spec (plain_auth a) cached arrivals Hpos ltac:(rewrite <- Hp; apply method_results_length)) as H0.
  destruct (Login (plain_auth a) arrivals cached) as [a' err]. destruct H0 as (He & Htok & Hkeep).
  rewrite <- !(login_existsb_perm _ _ _ Hp) in He. fold rej tra in He. exists (AdoptToken (a_token a') (set_notifs n a)), err, n.
  split; [done|]. split; [|split; [|split; [|done]]].
  - rewrite He. destruct (existsb succeeds _); [naive_solver|]. destruct rej, tra; simpl; case_bool_decide; naive_solver.
  - intros E. cbn. assert (inl (a_token a') ∈ method_results a \/ cached = Some (a_token a')) as [Hin|Hc].
    { rewrite Hp. by apply Htok. }
    + split; [by apply method_results_token in Hin|by left].
    + split; [by apply cache_token in Hc|by right].
  - intros Hne. rewrite (Hkeep Hne). split; [done|]. rewrite He in *. destruct (existsb succeeds _); [done|]. by destruct (_ && _).
Qed.
End login_props.

(** An authenticator configured through its operations asks for a key login only
    with a signature, and hands every notification out once: after a drain there is
    none until the next login. *)
Theorem key_auth_signed (a : authenticator) (ka : keyAuthInfo) (Hc : configured a) (Hk : au_keyAuth a = Some ka) :
  (exists s, buildKeyAuthBody ka a !! str "auth_sig" = Some (JStr s) /\ s <> []) /\
  (let '(ns, a') := DrainNotifications a in
   default [] ns = au_pendingNotifs a /\ ns <> Some [] /\ DrainNotifications a' = (None, a') /\ configured a').
Proof.
  split.
  - exists (ka_authSig ka). split; [unfold buildKeyAuthBody; body_key|by eapply configured_key].
  - unfold DrainNotifications. case_bool_decide as E; [by rewrite bool_decide_true, E|]. split; [done|]. split; [by intros [=]|].
    split; [by rewrite bool_decide_true|by constructor].
Qed.

(** ** Concrete runs *)

Module Toy_login.
Definition browser : Headers.Session := Headers.mkSession (str "ua") [] Headers.chromeHeaders.
Definition params : KeyAuthParams := mkKAP (str "u") [] [str "c1"] [] (str "n") [] [] [] (str "sig").
Definition user : authenticator :=
  SetDeviceInfo [] (str "dev") [] (SetKeyAuthParams params (NewAuthenticator (str "https://c1/") (str "k") (str "u") (str "pw") browser)).

(** The arbiter is away for both methods; the cache answers. *)
Definition away (_ : http_request) : http_exchange := Some (503, str "busy").
Definition cache (_ : http_request) : http_exchange := Some (200, str "tok").
Definition as_object (raw : bytes) : option (gmap bytes bytes) := Some {[ str "session" := raw ]}.

Lemma user_configured : configured user.
Proof. repeat constructor. Qed.
End Toy_login.
Import Toy_login.

Lemma login_complete_witness :
  exists a', login as_object Some (fun _ => None) (fun _ => None) (fun _ => true) away cache false user = Ok (a', None) /\ au_token a' <> [].
Proof.
  destruct (login_complete as_object Some (fun _ => None) (fun _ => None) (fun _ => true) away cache false user ltac:(by left))
    as (a' & err & n & E & Hiff & Hok & _ & _).
  assert (err = None) as ->.
  { apply Hiff. right. split; [by vm_compute|]. split; [by vm_compute|]. eexists. vm_compute. reflexivity. }
  exists a'. split; [exact E|]. by apply Hok.
Defined.

Lemma key_auth_signed_witness :
  exists ka s, au_keyAuth user = Some ka /\ buildKeyAuthBody ka user !! str "auth_sig" = Some (JStr s) /\ s <> [].
Proof.
  destruct (au_keyAuth user) as [ka|] eqn:E; [|by vm_compute in E].
  destruct (key_auth_signed user ka user_configured E) as [(s & A & B) _]. by exists ka, s.
Defined.
