(* ===== verification/TunnelDial.v ===== *)
(** * TunnelDial: the dialer at work (tunnel.go)

    [Dial] as a whole (its sends through [doPost], the retries, the outcome window,
    the new connection), UDP datagrams over the tunnel, the opening of a stream, and
    the dialer together with the connections it has opened.  A dial is one step and so
    is every action of a connection; what the network does is part of the step. *)
From S2P Require Import Prelude Encoding Env TunnelWire UdpAssoc DialWindow Auth Camouflage Session.

Definition tunnelPaths : list bytes := [str "/api/media/upload"; str "/api/content/submit"].
Definition tunnelPipelineWidth : Z := 8.

(** [tunnelPaths[td.rngIntn(len(tunnelPaths))]]. *)
Definition pick_path (draw : Z) : bytes := nth (Z.to_nat (draw mod zlen tunnelPaths)) tunnelPaths [].

(** What the traffic monitor is told. *)
Inductive monitor_event := MSent (n : Z) | MRecv (n : Z).

(** ** Requests *)

(** The headers of a tunnel request: what the request sets, then the session's. *)
Definition tunnel_headers (token clientIP clientCC : bytes) (s : Headers.Session) (host : bytes) : gmap bytes bytes :=
  let h : gmap bytes bytes := <[str "X-Session" := token]> {[ str "Content-Type" := str "application/octet-stream" ]} in
  let h := if bool_decide (clientIP = []) then h else <[str "X-Client-IP" := clientIP]> h in
  let h := if bool_decide (clientCC = []) then h else <[str "X-Client-CC" := clientCC]> h in
  (filter (fun kv => kv.2 <> []) h) ∪ Headers.Headers s host ∪ h.

Section requests.
Context `{AEAD}.

(** The closure [Dial] gives its connection. *)
Definition send (envs : list post_env) (draw : Z) (connID target : bytes) (s : Z) (payload : bytes) (d : post_state)
    : option (post_state * (bytes + post_error) * list post_event * list monitor_event) :=
  let path := pick_path draw in
  let tgt := if s =? 0 then target else [] in
  let plain := buildUploadPlain connID (s mod 2 ^ 32) tgt payload in
  let sent := if zlen payload >? 0 then [MSent (zlen payload)] else [] in
  match doPost envs d path plain true true with
  | None => None
  | Some (d, r, evs) =>
    Some (d, r, evs, sent ++ match r with inl resp => if zlen resp >? 0 then [MRecv (zlen resp)] else [] | inr _ => [] end)
  end.

Inductive udp_error := UConnID | UPost (e : post_error) | UBatch.

(** The first datagram with content is enough for the monitor. *)
Definition first_content (frames : list bytes) : list monitor_event :=
  match find (fun f => zlen f >? 0) frames with Some f => [MRecv (zlen f)] | None => [] end.

Definition udp_post (path : bytes) (envs : list post_env) (connIDHex : bytes) (dst : Addr) (body : bytes) (d : post_state)
    : option (post_state * (list bytes + udp_error) * list post_event) :=
  match buildUDPRelayPlain connIDHex dst body with
  | Ok plain =>
    match doPost envs d path plain true false with
    | None => None
    | Some (d, inr e, evs) => Some (d, inr (UPost e), evs)
    | Some (d, inl data, evs) => Some (d, match decodeDatagramBatch data with Ok fs => inl fs | _ => inr UBatch end, evs)
    end
  | _ => Some (d, inr UConnID, [])
  end.

Definition PostUDPFrame (envs : list post_env) (connIDHex : bytes) (dst : Addr) (body : bytes) (d : post_state)
    : option (post_state * (list bytes + udp_error) * list post_event * list monitor_event) :=
  match udp_post (str "/api/udp/relay") envs connIDHex dst body d with
  | None => None
  | Some (d, r, evs) =>
    Some (d, r, evs,
      match r with
      | inr UConnID => []
      | _ => (if zlen body >? 0 then [MSent (zlen body)] else []) ++ match r with inl fs => first_content fs | inr _ => [] end
      end)
  end.

Definition DrainUDPFrames (envs : list post_env) (connIDHex : bytes) (dst : Addr) (d : post_state)
    : option (post_state * (list bytes + udp_error) * list post_event) :=
  udp_post (str "/api/udp/drain") envs connIDHex dst [] d.

Inductive stream_error := SSeal | STransport | SHTTP (status : Z).

(** [http] gives the status and the whole body the server will stream. *)
Definition openStreamPost (rnd : option bytes) (draw : Z) (http : bytes -> gmap bytes bytes -> bytes -> option (Z * bytes))
    (clientIP clientCC : bytes) (sess : Headers.Session) (serverURL connID token : bytes) : framedDecryptReader + stream_error :=
  let key := sessionKey token in
  match sealFrame rnd key (buildStreamOpenPlain connID) with
  | Ok body =>
    match http (serverURL ++ pick_path draw) (tunnel_headers token clientIP clientCC sess (hostOf serverURL)) body with
    | None => inr STransport
    | Some (status, stream) => if negb (status =? 200) then inr (SHTTP status) else inl (newFramedDecryptReader stream key)
    end
  | _ => inr SSeal
  end.

(** ** Dial *)

Record TunnelDialer := mkTD {
  td_post : post_state;
  td_streaming : bool;
  td_win : winState;
  td_activeConns : Z;
  td_conns : list (TunnelConn * list output)       (* the connections dialled, each with what it has output *)
}.

Definition newTunnelDialer (token : bytes) (udpHook streaming : bool) : TunnelDialer := mkTD (mkPost token udpHook) streaming newWin 0 [].

(** The world of one attempt. *)
Record dial_world := mkWorld { dw_envs : list post_env; dw_draw : Z; dw_now : Z }.

Definition dial_err_of (r : bytes + post_error) : dial_err :=
  match r with inl _ => DOk | inr (PHTTP status) => DHTTP status | inr _ => DOther end.

Definition is_panic (r : bytes + post_error) : bool := match r with inr PPanic => true | _ => false end.

(** The first probe and [n] more; the result, the requests made and the attempts. *)
Fixpoint dial_attempts (n : nat) (worlds : list dial_world) (connID target : bytes) (ps : post_state) (w : winState)
    : option (post_state * winState * (bytes + post_error) * list post_event) :=
  match worlds with
  | [] => None
  | dw :: worlds =>
    match send (dw_envs dw) (dw_draw dw) connID target 0 [] ps with
    | None => None
    | Some (ps, r, evs, _) =>
      if is_panic r then Some (ps, w, r, evs) else           (* the process is gone *)
      let w := (classifyDialErr (dw_now dw) w (dial_err_of r)).1.1 in
      match dial_err_of r, n with
      | DOther, S n =>
        match dial_attempts n worlds connID target ps w with
        | None => None
        | Some (ps, w, r, evs') => Some (ps, w, r, evs ++ evs')
        end
      | _, _ => Some (ps, w, r, evs)
      end
    end
  end.

Definition td_Dial (worlds : list dial_world) (depth : Z) (connID target : bytes) (td : TunnelDialer)
    : option (TunnelDialer * (TunnelConn + post_error) * list post_event) :=
  match dial_attempts 2 worlds connID target (td_post td) (td_win td) with
  | None => None
  | Some (ps, w, inr e, evs) => Some (mkTD ps (td_streaming td) w (td_activeConns td) (td_conns td), inr e, evs)
  | Some (ps, w, inl resp, evs) =>
    let conn := established (newTunnelConn depth (td_streaming td) (if td_streaming td then tunnelPipelineWidth else 0)) resp in
    Some (mkTD ps (td_streaming td) w (td_activeConns td + 1) (td_conns td ++ [(conn, [])]), inl conn, evs)
  end.

Definition OpenConns (td : TunnelDialer) : Z := td_activeConns td.
Definition LastDataTime (td : TunnelDialer) : Z := w_lastDataAt (td_win td).

(** The callbacks of a connection: [onStreamDead] and [renewStream] record a failure,
    [onClose] counts the connection out. *)
Definition callback (now : Z) (td : TunnelDialer) (o : output) : TunnelDialer :=
  match o with
  | OStreamDead | ORenewed =>
    mkTD (td_post td) (td_streaming td) (recordDialOutcome now (td_win td) false).1.1 (td_activeConns td) (td_conns td)
  | OOnClose => mkTD (td_post td) (td_streaming td) (td_win td) (td_activeConns td - 1) (td_conns td)
  | _ => td
  end.

Inductive td_event :=
| TDial (worlds : list dial_world) (depth : Z) (connID target : bytes)
| TConn (i : nat) (a : action) (now : Z).

(** [None]: the event cannot happen. *)
Definition td_step (td : TunnelDialer) (ev : td_event) : option TunnelDialer :=
  match ev with
  | TDial worlds depth connID target =>
    if depth <? 0 then None else
    match td_Dial worlds depth connID target td with Some (td, _, _) => Some td | None => None end
  | TConn i a now =>
    match td_conns td !! i with
    | None => None
    | Some (c, tr) =>
      match conn_step c a with
      | None => None
      | Some (c, out) =>
        Some (fold_left (callback now) out
                (mkTD (td_post td) (td_streaming td) (td_win td) (td_activeConns td) (<[i := (c, tr ++ out)]> (td_conns td))))
      end
    end
  end.

Inductive td_reach (td0 : TunnelDialer) : TunnelDialer -> Prop :=
| tdr_start : td_reach td0 td0
| tdr_step td ev td' : td_reach td0 td -> td_step td ev = Some td' -> td_reach td0 td'.
End requests.

(** ** Configuration *)

Module Config.
(** The hooks a dialer calls ([onUDPFailed] is part of [post_state]). *)
Inductive hook := HActivity | HReAuthWarning | HReAuthRecovered | HFatalError | HDataFail | HFirstFail | HRTTUpdate.
#[global] Instance hook_eq : EqDecision hook. Proof. solve_decision. Defined.

(** Functions are numbered; [None] is nil. *)
Record config := mkConfig {
  cf_hooks : hook -> option nat;
  cf_override : option nat;                        (* rawDialOverride *)
  cf_clientIP : bytes;
  cf_clientCC : bytes
}.

Definition fresh : config := mkConfig (fun _ => None) None [] [].

Definition set_hook (h : hook) (fn : option nat) (c : config) : config :=
  mkConfig (fun h' => if decide (h' = h) then fn else cf_hooks c h') (cf_override c) (cf_clientIP c) (cf_clientCC c).

Definition SetActivityHook := set_hook HActivity.
Definition SetReAuthWarningHook := set_hook HReAuthWarning.
Definition SetReAuthRecoveredHook := set_hook HReAuthRecovered.
Definition SetFatalErrorHook := set_hook HFatalError.
Definition SetDataFailHook (threshold : Z) := set_hook HDataFail.
Definition SetFirstFailHook := set_hook HFirstFail.
Definition SetRTTUpdateHook := set_hook HRTTUpdate.
Definition SetUDPFailedHook (fn : option nat) (d : post_state) : post_state := mkPost (ps_token d) (bool_decide (is_Some fn)).

Definition SetDialFunc (fn : nat) (c : config) : config := mkConfig (cf_hooks c) (Some fn) (cf_clientIP c) (cf_clientCC c).
Definition ClearDialFunc (c : config) : config := mkConfig (cf_hooks c) None (cf_clientIP c) (cf_clientCC c).
Definition SetClientIP (ip : bytes) (c : config) : config := mkConfig (cf_hooks c) (cf_override c) ip (cf_clientCC c).
Definition SetClientCC (cc : bytes) (c : config) : config := mkConfig (cf_hooks c) (cf_override c) (cf_clientIP c) cc.

(** The dialer of the transport: it looks the override up on every connection. *)
Definition rawDial {A} (direct : bytes -> A) (fns : nat -> bytes -> A) (c : config) (addr : bytes) : A :=
  match cf_override c with Some fn => fns fn addr | None => direct addr end.

Inductive set_event :=
| SHook (h : hook) (fn : option nat)
| SDial (fn : option nat)                          (* SetDialFunc, ClearDialFunc *)
| SIP (ip : bytes)
| SCC (cc : bytes).

Definition set_step (c : config) (ev : set_event) : config :=
  match ev with
  | SHook h fn => set_hook h fn c
  | SDial (Some fn) => SetDialFunc fn c
  | SDial None => ClearDialFunc c
  | SIP ip => SetClientIP ip c
  | SCC cc => SetClientCC cc c
  end.

(** The last value of one setting in a history. *)
Fixpoint last_set {A} (sel : set_event -> option A) (init : A) (evs : list set_event) : A :=
  match evs with
  | [] => init
  | ev :: evs => last_set sel (match sel ev with Some a => a | None => init end) evs
  end.

(** The settings are independent registers: whatever the order of the setters, each
    hook, the dial function and the client's address and country are the last ones
    set, a connection is dialled through the last function set and directly once it
    was cleared. *)
Theorem settings_are_registers (evs : list set_event) :
  let c := fold_left set_step evs fresh in
  (forall h, cf_hooks c h = last_set (fun ev => match ev with SHook h' fn => if decide (h = h') then Some fn else None | _ => None end) None evs) /\
  cf_override c = last_set (fun ev => match ev with SDial fn => Some fn | _ => None end) None evs /\
  cf_clientIP c = last_set (fun ev => match ev with SIP ip => Some ip | _ => None end) [] evs /\
  cf_clientCC c = last_set (fun ev => match ev with SCC cc => Some cc | _ => None end) [] evs.
Proof.
  assert (forall c0, let c := fold_left set_step evs c0 in
    (forall h, cf_hooks c h = last_set (fun ev => match ev with SHook h' fn => if decide (h = h') then Some fn else None | _ => None end) (cf_hooks c0 h) evs) /\
    cf_override c = last_set (fun ev => match ev with SDial fn => Some fn | _ => None end) (cf_override c0) evs /\
    cf_clientIP c = last_set (fun ev => match ev with SIP ip => Some ip | _ => None end) (cf_clientIP c0) evs /\
    cf_clientCC c = last_set (fun ev => match ev with SCC cc => Some cc | _ => None end) (cf_clientCC c0) evs) as G; [|apply (G fresh)].
  induction evs as [|ev evs IH]; intros c0; cbn [fold_left last_set]; [done|].
  destruct (IH (set_step c0 ev)) as (A & B & C & D). cbv zeta. rewrite B, C, D. split_and!; [|by destruct ev as [? ?|[?|]|?|?]..].
  intros h. rewrite A. destruct ev as [h' fn|[?|]|?|?]; try done. cbn. by destruct (decide (h = h')).
Qed.
End Config.

(** ** Properties of a dial *)

Lemma pick_path_in draw : pick_path draw ∈ tunnelPaths.
Proof.
  unfold pick_path. apply list_elem_of_In, nth_In. pose proof (Z.mod_pos_bound draw (zlen tunnelPaths) ltac:(done)) as Hb.
  change (zlen tunnelPaths) with 2 in *. cbn. lia.
Qed.

Section dial_props.
Context `{AEADLaws}.

(** The requests of a dial. *)
Definition dial_request (id target : bytes) (e : post_event) : Prop :=
  match e with
  | EvSend _ p tok body => p ∈ tunnelPaths /\ exists plain, openFrame (sessionKey tok) body = Ok plain /\
      parseUploadFrame plain = Ok (Hex.encode id, 0, target, [])
  | _ => True
  end.

Lemma conn_id_encoded id : zlen id = 16 -> conn_id_field (Hex.encode id) = id.
Proof. intros Hid. unfold conn_id_field. rewrite Hex.hex_decode_encode, copy_exact; [done|]. unfold zlen in Hid. by replace (length id) with 16%nat by lia. Qed.

(** The environments of an attempt: two, whose re-authentications end. *)
Definition world_ends (dw : dial_world) : Prop :=
  (2 <= length (dw_envs dw))%nat /\ Forall (fun e => forall bad, pe_refresh e bad <> Running) (dw_envs dw).
Definition world_long (dw : dial_world) : Prop := Forall (fun e => long_tokens (pe_reauth e)) (dw_envs dw).

Lemma send_ok dw id target d :
  world_ends dw -> zlen id = 16 -> zlen target < 2 ^ 16 ->
  exists d' r evs mon, send (dw_envs dw) (dw_draw dw) (Hex.encode id) target 0 [] d = Some (d', r, evs, mon) /\
    Forall (dial_request id target) evs /\ (count is_send evs <= 2)%nat /\
    (8 <= zlen (ps_token d) -> world_long dw -> 8 <= zlen (ps_token d') /\ r <> inr PPanic).
Proof.
  intros [He Hends] Hid Ht. unfold send. change (0 =? 0) with true. change (0 mod 2 ^ 32) with 0. cbv iota zeta.
  destruct (do_post_ok (dw_envs dw) d (pick_path (dw_draw dw)) (buildUploadPlain (Hex.encode id) 0 target []) true true He Hends)
    as ([[d' r] evs] & E & (Hc & Hs & _ & _)). rewrite E.
  exists d', r, evs. eexists. split; [done|]. split; [|split; [done|]; intros; by eapply do_post_long]. eapply Forall_impl; [exact Hc|].
  intros [| |udp p tok body|]; cbn; try done. intros [-> Ho]. split; [apply pick_path_in|]. eexists. split; [exact Ho|]. unfold buildUploadPlain.
  rewrite (conn_id_encoded id) by done. by apply parse_built.
Qed.

(** A success is the answer of one of the attempts, the last one made. *)
Definition answered_by (worlds : list dial_world) (connID target : bytes) (ps' : post_state) (resp : bytes) : Prop :=
  exists dw ps evs mon, dw ∈ worlds /\ send (dw_envs dw) (dw_draw dw) connID target 0 [] ps = Some (ps', inl resp, evs, mon).

Lemma dial_attempts_ok n : forall worlds id target ps w,
  (n < length worlds)%nat -> Forall world_ends worlds -> zlen id = 16 -> zlen target < 2 ^ 16 ->
  exists ps' w' r evs, dial_attempts n worlds (Hex.encode id) target ps w = Some (ps', w', r, evs) /\
    Forall (dial_request id target) evs /\ (count is_send evs <= 2 * S n)%nat /\
    (forall resp, r = inl resp -> answered_by worlds (Hex.encode id) target ps' resp) /\
    (8 <= zlen (ps_token ps) -> Forall world_long worlds -> r <> inr PPanic).
Proof.
  induction n as [|n IH]; intros [|dw worlds] id target ps w Hl Hw Hid Ht; try (simpl in Hl; lia);
    apply Forall_cons in Hw as [He Hw]; cbn [dial_attempts];
    destruct (send_ok dw id target ps He Hid Ht) as (ps1 & r & evs & mon & Es & Hr & Hc & Hp); rewrite Es;
    (assert (forall resp, r = inl resp -> answered_by (dw :: worlds) (Hex.encode id) target ps1 resp) as Ha
      by (intros resp ->; exists dw, ps, evs, mon; split; [left|done]));
    (assert (8 <= zlen (ps_token ps) -> Forall world_long (dw :: worlds) -> r <> inr PPanic) as Hnp
      by (intros H1 [H2 _]%Forall_cons; by apply Hp)).
  - destruct (is_panic r); [|destruct (dial_err_of r)]; do 4 eexists; (split; [done|]); (split; [done|]); (split; [lia|done]).
  - set (w1 := (classifyDialErr _ _ _).1.1). destruct (is_panic r); [do 4 eexists; (split; [done|]); (split; [done|]); (split; [lia|done])|].
    destruct (dial_err_of r); [do 4 eexists; (split; [done|]); (split; [done|]); (split; [lia|done])..|].
    destruct (IH worlds id target ps1 w1 ltac:(simpl in Hl; lia) Hw Hid Ht) as (ps2 & w2 & r2 & evs2 & -> & Hr2 & Hc2 & Ha2 & Hp2).
    do 4 eexists. split; [done|]. split; [by apply Forall_app|]. rewrite count_app. split; [lia|]. split.
    + intros resp ->. destruct (Ha2 resp eq_refl) as (dw' & ps0 & evs0 & mon0 & Hin & E0). exists dw', ps0, evs0, mon0. split; [by right|done].
    + intros H1 [H2 H3]%Forall_cons. apply Hp2; [|done]. by apply Hp.
Qed.

(** A first attempt that is served ends the dial. *)
Lemma dial_attempts_served n env envs draw now worlds connID target ps w data :
  serves env (ps_token ps) (buildUploadPlain connID 0 target []) data -> zlen data < 2 ^ 32 ->
  exists ps' w' evs, dial_attempts n (mkWorld (env :: envs) draw now :: worlds) connID target ps w = Some (ps', w', inl data, evs).
Proof.
  intros Hs Hd. destruct (do_post_served env envs ps (pick_path draw) _ data true true Hs Hd) as (d' & evs & E & _).
  assert (exists mon, send (env :: envs) draw connID target 0 [] ps = Some (d', inl data, evs, mon)) as [mon Em]
    by (unfold send; change (0 =? 0) with true; change (0 mod 2 ^ 32) with 0; cbv iota zeta; rewrite E; by eexists).
  destruct n; cbn [dial_attempts dw_envs dw_draw dw_now]; rewrite Em; cbn [is_panic dial_err_of]; by eexists _, _, _.
Qed.

(** C18: a dial to a target of less than 64 KB of text ends after at most three attempts of
    two requests each, given that re-authentications end; it panics only where a token of
    fewer than 8 bytes is in play.  Every request goes to one of the tunnel's paths and
    opens, under the token it carries, to the first frame of the connection: its identifier,
    number 0, the target and no data.  On success the connection holds exactly the answer of
    the attempt that succeeded, numbers its frames from 1 and is counted as open; otherwise
    the count is unchanged.  A first attempt that a server knowing the session answers does
    succeed, with the data that server sealed. *)
Theorem dial_contract (worlds : list dial_world) (depth : Z) (id target : bytes) (td : TunnelDialer)
    (Hw : (3 <= length worlds)%nat) (He : Forall world_ends worlds)
    (Hid : zlen id = 16) (Ht : zlen target < 2 ^ 16) :
  exists td' r evs, td_Dial worlds depth (Hex.encode id) target td = Some (td', r, evs) /\
    Forall (dial_request id target) evs /\ (count is_send evs <= 6)%nat /\
    (8 <= zlen (ps_token (td_post td)) -> Forall world_long worlds -> r <> inr PPanic) /\
    match r with
    | inl conn => OpenConns td' = OpenConns td + 1 /\ td_conns td' = td_conns td ++ [(conn, [])] /\
        answered_by worlds (Hex.encode id) target (td_post td') (tc_readBuf conn) /\
        tc_seq conn = 1 /\ tc_closed conn = false /\ tc_streaming conn = td_streaming td
    | inr _ => OpenConns td' = OpenConns td /\ td_conns td' = td_conns td
    end /\
    (forall env envs draw now rest data, worlds = mkWorld (env :: envs) draw now :: rest -> zlen data < 2 ^ 32 ->
       serves env (ps_token (td_post td)) (buildUploadPlain (Hex.encode id) 0 target []) data ->
       exists conn, r = inl conn /\ tc_readBuf conn = data).
Proof.
  destruct (dial_attempts_ok 2 worlds id target (td_post td) (td_win td) ltac:(lia) He Hid Ht)
    as (ps & w & r & evs & E & Hr & Hc & Ha & Hp).
  assert (forall env envs draw now rest data, worlds = mkWorld (env :: envs) draw now :: rest -> zlen data < 2 ^ 32 ->
       serves env (ps_token (td_post td)) (buildUploadPlain (Hex.encode id) 0 target []) data -> r = inl data) as Hsv.
  { intros env envs draw now rest data -> Hd Hs.
    destruct (dial_attempts_served 2 env envs draw now rest (Hex.encode id) target (td_post td) (td_win td) data Hs Hd) as (? & ? & ? & E2).
    congruence. }
  unfold td_Dial. rewrite E. destruct r as [resp|e]; do 3 eexists; (split; [done|]); (split; [done|]); (split; [lia|]).
  - split; [done|]. split; [by split_and!; try done; apply Ha|]. intros env envs draw now rest data Hws Hd Hs.
    specialize (Hsv env envs draw now rest data Hws Hd Hs) as [= ->]. eexists. split; [done|]. done.
  - split; [intros H1 H2 [= ->]; by apply (Hp H1 H2)|]. split; [done|]. intros env envs draw now rest data Hws Hd Hs.
    by specialize (Hsv env envs draw now rest data Hws Hd Hs).
Qed.
End dial_props.

(** ** Properties of the open connections *)

(** The close callback has not run yet: the connection is open or its final POST is under way. *)
Definition is_open (cc : TunnelConn * list output) : bool := negb (bool_decide (tc_closer cc.1 = ClDone)).
Definition open_count (l : list (TunnelConn * list output)) : Z := fold_right (fun cc n => (if is_open cc then 1 else 0) + n) 0 l.

Lemma open_count_app l1 l2 : open_count (l1 ++ l2) = open_count l1 + open_count l2.
Proof. unfold open_count. induction l1 as [|cc l1 IH]; cbn [app fold_right]; [done|]. rewrite IH. lia. Qed.

Lemma open_count_insert l i cc cc' :
  l !! i = Some cc -> open_count (<[i := cc']> l) = open_count l - (if is_open cc then 1 else 0) + (if is_open cc' then 1 else 0).
Proof.
  intros Hi. destruct (list_elem_of_split_length l i cc Hi) as (l1 & l2 & -> & ->).
  rewrite insert_app_r_alt by lia. rewrite Nat.sub_diag. cbn [insert list_insert]. rewrite !open_count_app. cbn. lia.
Qed.

Lemma open_count_nonneg l : 0 <= open_count l.
Proof. induction l as [|cc l IH]; [done|]. unfold open_count in *. cbn [fold_right]. destruct (is_open cc); lia. Qed.

Lemma open_count_zero l : open_count l = 0 <-> Forall (fun cc => tc_closer cc.1 = ClDone) l.
Proof.
  induction l as [|cc l IH]; [done|]. rewrite Forall_cons, <- IH. pose proof (open_count_nonneg l). 
  change (open_count (cc :: l)) with ((if is_open cc then 1 else 0) + open_count l).
  unfold is_open. case_bool_decide; cbn [negb]; split; [split; [done|lia]|intros [_ ?]; lia|intros ?; exfalso; lia|by intros []].
Qed.

Lemma unclosed_le l : zlen (List.filter (fun cc : TunnelConn * list output => negb (tc_closed cc.1)) l) <= open_count l.
Proof.
  induction l as [|cc l IH]; [done|]. change (open_count (cc :: l)) with ((if is_open cc then 1 else 0) + open_count l).
  cbn [List.filter]. unfold is_open, tc_closed in *. repeat case_bool_decide; cbn [negb]; rewrite ?zlen_cons; lia || congruence.
Qed.

(** What the callbacks of a step add up to. *)
Lemma callbacks_effect now out : forall td,
  let td' := fold_left (callback now) out td in
  td_conns td' = td_conns td /\ td_streaming td' = td_streaming td /\ td_activeConns td' = td_activeConns td - closes out /\
  LastDataTime td' = LastDataTime td.
Proof.
  induction out as [|o out IH]; intros td; cbn [fold_left]; [by rewrite Z.sub_0_r|].
  destruct (IH (callback now td o)) as (A & B & C & D). cbv zeta in *. rewrite A, B, C, D.
  assert (forall w, w_lastDataAt (recordDialOutcome now w false).1.1 = w_lastDataAt w) as Hl.
  { intros w. unfold recordDialOutcome. cbv zeta. by destruct (_ && _). }
  assert (closes (o :: out) = closes [o] + closes out) as -> by (unfold closes; cbn; by rewrite app_nil_r, zlen_app).
  unfold LastDataTime. destruct o; cbn [callback td_conns td_streaming td_activeConns td_win]; rewrite ?Hl;
    match goal with |- context [closes [?x]] => let v := eval vm_compute in (closes [x]) in change (closes [x]) with v end;
    split_and!; try done; lia.
Qed.

Section open_props.
Context `{AEAD}.

Definition width_of (streaming : bool) : Z := if streaming then tunnelPipelineWidth else 0.

Record td_inv (td : TunnelDialer) : Prop := {
  ti_count : td_activeConns td = open_count (td_conns td);
  ti_conns : forall c tr, (c, tr) ∈ td_conns td ->
    exists depth resp, 0 <= depth /\ conn_inv depth (width_of (td_streaming td)) (td_streaming td) resp c tr
}.

Lemma td_inv_step td ev td' : td_inv td -> td_step td ev = Some td' -> td_inv td'.
Proof.
  intros [Hc Hi]. destruct ev as [worlds depth connID target|i a now]; cbn [td_step].
  - destruct (depth <? 0) eqn:Ed; [done|]. unfold td_Dial. destruct (dial_attempts _ _ _ _ _ _) as [[[[ps w] [resp|e]] evs]|]; [| |done].
    + intros [= <-]. split; cbn [td_activeConns td_conns td_streaming].
      * rewrite open_count_app, Hc. by replace (open_count [_]) with 1 by done.
      * intros c tr [Hin|Hin]%elem_of_app; [by apply Hi|]. apply list_elem_of_singleton in Hin as [= -> ->].
        exists depth, resp. split; [lia|]. apply dialed_inv; [lia|]. unfold width_of. by intros ->.
    + intros [= <-]. by split.
  - destruct (td_conns td !! i) as [[c tr]|] eqn:El; [|done]. destruct (conn_step c a) as [[c1 out]|] eqn:Es; [|done]. intros [= <-].
    set (td1 := mkTD _ _ _ _ _). destruct (callbacks_effect now out td1) as (A & B & C & D).
    destruct (Hi c tr ltac:(by eapply list_elem_of_lookup_2)) as (depth & resp & Hd & Hinv).
    assert (td_streaming td = true -> 0 < width_of (td_streaming td)) as Hwd by (unfold width_of; by intros ->).
    pose proof (conn_inv_step depth (width_of (td_streaming td)) (td_streaming td) resp Hd Hwd c tr a c1 out Hinv Es) as Hinv1.
    split.
    + rewrite A, C. subst td1. cbn [td_activeConns td_conns]. rewrite (open_count_insert _ _ (c, tr)) by done. rewrite Hc. unfold is_open. cbn [fst].
      destruct Hinv as (_ & _ & _ & _ & Hcl & _), Hinv1 as (_ & _ & _ & _ & Hcl1 & _). unfold closed_once in *.
      unfold closes in Hcl, Hcl1 |- *. rewrite flat_map_app, zlen_app in Hcl1.
      destruct (bool_decide (tc_closer c = _)), (bool_decide (tc_closer c1 = _)); cbn [negb]; lia.
    + rewrite A, B. subst td1. cbn [td_conns td_streaming]. intros c2 tr2 Hin.
      apply list_elem_of_lookup_1 in Hin as [j Hj]. destruct (decide (i = j)) as [<-|Hne].
      * rewrite list_lookup_insert_eq in Hj by (by eapply lookup_lt_Some). injection Hj as <- <-. by exists depth, resp.
      * rewrite list_lookup_insert_ne in Hj by done. apply Hi. by eapply list_elem_of_lookup_2.
Qed.

(** C19: whatever is dialled and whatever the connections do, in any interleaving of their
    steps, the dialer's count of open connections is exactly the number of its connections
    whose close callback has not run: those that were not closed and those whose [Close] is
    still waiting for its final POST.  It is never negative, at least the number of
    connections that are not closed, and 0, which ends a drain, exactly when every
    connection was closed and its final POST has returned. *)
Theorem open_conns_exact (token : bytes) (udpHook streaming : bool) (td : TunnelDialer)
    (Hr : td_reach (newTunnelDialer token udpHook streaming) td) :
  OpenConns td = open_count (td_conns td) /\ 0 <= OpenConns td /\
  zlen (List.filter (fun cc => negb (tc_closed cc.1)) (td_conns td)) <= OpenConns td /\
  (OpenConns td = 0 <-> Forall (fun cc => tc_closer cc.1 = ClDone) (td_conns td)).
Proof.
  assert (td_inv td) as [Hc _].
  { induction Hr as [|td ev td' _ IH Hs]; [|by eapply td_inv_step]. split; [done|]. by intros c tr ?%elem_of_nil. }
  unfold OpenConns. rewrite Hc. split; [done|]. split; [apply open_count_nonneg|]. split; [apply unclosed_le|apply open_count_zero].
Qed.

(** The time of the last data is the time of the last dial the control answered,
    also with an error status, and not that of the last successful POST: nothing an
    established connection does, however much it transfers, moves it. *)
Theorem last_data_is_last_dial (td : TunnelDialer) (i : nat) (a : action) (now : Z) (td' : TunnelDialer)
    (Hs : td_step td (TConn i a now) = Some td') (now1 status : Z) (w : winState) (Hst : status <> 404) :
  LastDataTime td' = LastDataTime td /\ w_lastDataAt (DialWindow.classifyDialErr now1 w (DHTTP status)).1.1 = now1.
Proof.
  split.
  - revert Hs. cbn [td_step]. destruct (td_conns td !! i) as [[c tr]|]; [|done]. destruct (conn_step c a) as [[c1 out]|]; [|done].
    intros [= <-]. by destruct (callbacks_effect now out (mkTD (td_post td) (td_streaming td) (td_win td) (td_activeConns td)
      (<[i := (c1, tr ++ out)]> (td_conns td)))) as (_ & _ & _ & ->).
  - unfold DialWindow.classifyDialErr. rewrite (proj2 (Z.eqb_neq _ _) Hst). cbn [negb]. unfold recordDialOutcome. cbv zeta. by destruct (_ && _).
Qed.
End open_props.

(** ** Properties of the requests *)

Section delivery.
Context `{AEADLaws}.

(** C34: a datagram posted to an exit that knows the session, and a drain, return
    exactly the datagrams the exit sealed into its answer, in order; the monitor
    hears of the datagram sent, unless it is empty, and of the first returned
    datagram that is not.  A connection identifier that is not the hexadecimal text of 16
    bytes sends nothing, by neither call, and tells the monitor nothing. *)
Theorem udp_frames_delivered (env : post_env) (envs : list post_env) (d : post_state) (id : bytes) (dst : Addr) (body plain : bytes)
    (frames : list bytes) (Hplain : buildUDPRelayPlain (Hex.encode id) dst body = Ok plain)
    (Hs : serves env (ps_token d) plain (encode_batch frames)) (Hsize : zlen (encode_batch frames) < 2 ^ 32)
    (Hn : zlen frames < 2 ^ 32) (Hf : Forall (fun f => zlen f < 2 ^ 32) frames) :
  (exists d' evs, PostUDPFrame (env :: envs) (Hex.encode id) dst body d = Some (d', inl frames, evs,
     (if zlen body >? 0 then [MSent (zlen body)] else []) ++ first_content frames)) /\
  (body = [] -> exists d' evs, DrainUDPFrames (env :: envs) (Hex.encode id) dst d = Some (d', inl frames, evs)) /\
  (forall bad, (forall raw, Hex.decode bad = Some raw -> zlen raw <> 16) ->
     PostUDPFrame (env :: envs) bad dst body d = Some (d, inr UConnID, [], []) /\
     DrainUDPFrames (env :: envs) bad dst d = Some (d, inr UConnID, [])).
Proof.
  assert (forall path, exists d' evs, udp_post path (env :: envs) (Hex.encode id) dst body d = Some (d', inl frames, evs)) as Hp.
  { intros path. unfold udp_post. rewrite Hplain.
    destruct (do_post_served env envs d path plain (encode_batch frames) true false Hs Hsize) as (d' & evs & -> & _).
    rewrite decode_encoded by done. by exists d', evs. }
  split; [|split].
  - unfold PostUDPFrame. destruct (Hp (str "/api/udp/relay")) as (d' & evs & ->). by exists d', evs.
  - intros ->. apply Hp.
  - intros bad Hb. unfold PostUDPFrame, DrainUDPFrames, udp_post, buildUDPRelayPlain.
    destruct (Hex.decode bad) as [raw|]; [|done]. by rewrite (proj2 (Z.eqb_neq _ _) (Hb raw eq_refl)).
Qed.

Definition set_or_absent (v : bytes) : option bytes := if bool_decide (v = []) then None else Some v.

(** The exit of a stream, behind the server [url]: it answers a request on one of the
    tunnel's paths that carries the session in its X-Session header, opens under that
    session to the request for the stream of [id], and names the client's address and
    country exactly where they are set; with frames sealed for that session. *)
Definition streams (http : bytes -> gmap bytes bytes -> bytes -> option (Z * bytes)) (serverURL id token ip cc : bytes) (ps : list bytes) : Prop :=
  forall p h body, p ∈ tunnelPaths -> openFrame (sessionKey token) body = Ok (buildStreamOpenPlain (Hex.encode id)) ->
    h !! str "X-Session" = Some token -> h !! str "X-Client-IP" = set_or_absent ip -> h !! str "X-Client-CC" = set_or_absent cc ->
    exists frames, Forall2 (sealed_as (sessionKey token)) ps frames /\ http (serverURL ++ p) h body = Some (200, mjoin (stream_frame <$> frames)).

Lemma tunnel_headers_session token ip cc s host : token <> [] -> tunnel_headers token ip cc s host !! str "X-Session" = Some token.
Proof.
  intros Ht. unfold tunnel_headers. cbv zeta. set (h := if bool_decide (cc = []) then _ else _).
  assert (h !! str "X-Session" = Some token) as Hh.
  { subst h. repeat case_bool_decide; repeat first [rewrite lookup_insert_eq | rewrite lookup_insert_ne by (by vm_compute)]; done. }
  rewrite <- (assoc_L (∪)). apply lookup_union_Some_l. by apply map_lookup_filter_Some.
Qed.

Lemma tunnel_headers_client token ip cc s host :
  tunnel_headers token ip cc s host !! str "X-Client-IP" = set_or_absent ip /\
  tunnel_headers token ip cc s host !! str "X-Client-CC" = set_or_absent cc.
Proof.
  unfold set_or_absent.
  assert (forall k (h : gmap bytes bytes) v, Headers.Headers s host !! k = None -> (v <> Some []) -> h !! k = v ->
    (filter (fun kv => kv.2 <> []) h ∪ Headers.Headers s host ∪ h) !! k = v) as Hu.
  { intros k h v Hs Hv Hk. destruct v as [x|].
    - rewrite <- (assoc_L (∪)). apply lookup_union_Some_l, map_lookup_filter_Some. split; [done|]. cbn. congruence.
    - rewrite !lookup_union_None. split; [split|]; [|done|done]. apply map_lookup_filter_None. by left. }
  assert (Headers.Headers s host !! str "X-Client-IP" = None /\ Headers.Headers s host !! str "X-Client-CC" = None) as [H1 H2].
  { unfold Headers.Headers. cbv zeta. case_bool_decide; split; repeat rewrite lookup_insert_ne by (by vm_compute); apply lookup_empty. }
  split; apply Hu; try done; repeat case_bool_decide; try congruence;
    repeat first [rewrite lookup_insert_eq | rewrite lookup_insert_ne by (by vm_compute)]; try done; by apply lookup_singleton_ne.
Qed.

(** C20: a stream opened with a non-empty token to an exit that knows the session delivers,
    read to its end in pieces of any size, exactly what the exit sent in frames of at most
    1 MB: the one request the exit has to recognise authenticates itself with the token whose
    key seals the stream both ways, asks for this connection, and names the client's address
    and country exactly where they are set.  Any other status is reported as such. *)
Theorem stream_open_delivers (rnd id token ip cc serverURL : bytes) (draw size : Z) (sess : Headers.Session) (ps : list bytes)
    (http : bytes -> gmap bytes bytes -> bytes -> option (Z * bytes)) (fuel : nat)
    (Ht : token <> []) (Hh : streams http serverURL id token ip cc ps) (Hsize : 0 < size) (Hps : Forall (fun p => zlen p <= 2 ^ 20 - 28) ps)
    (Hfuel : (length ps + length (mjoin ps) < fuel)%nat) :
  (exists r, openStreamPost (Some rnd) draw http ip cc sess serverURL (Hex.encode id) token = inl r /\
    read_loop fuel size r [] = Some (mjoin ps, Err "EOF")) /\
  (forall status stream, status <> 200 ->
     openStreamPost (Some rnd) draw (fun _ _ _ => Some (status, stream)) ip cc sess serverURL (Hex.encode id) token = inr (SHTTP status)).
Proof.
  unfold openStreamPost. cbv zeta. destruct (session_seal rnd token (buildStreamOpenPlain (Hex.encode id))) as [body Eb]. rewrite Eb.
  destruct (tunnel_headers_client token ip cc sess (hostOf serverURL)) as [Hip Hcc]. split.
  2:{ intros status stream Hst. by rewrite (proj2 (Z.eqb_neq _ _) Hst). }
  destruct (Hh (pick_path draw) (tunnel_headers token ip cc sess (hostOf serverURL)) body) as (frames & Hss & ->); try done.
  - apply pick_path_in.
  - by apply (open_of_seal_frame _ _ _ _ Eb).
  - by apply tunnel_headers_session.
  - change (negb (200 =? 200)) with false. cbv iota. eexists. split; [done|].
    by apply (read_loop_delivers (sessionKey token) size ps frames Hsize Hss Hps fuel [] []).
Qed.
End delivery.

(** ** Concrete runs *)

Module Toy_dial.
#[export] Existing Instances Toy.aead Toy.aead_laws.

Definition id16 : bytes := replicate 16 xab.
Definition answering (data : bytes) : post_env := toy_env 200 (toy_answer data).
Definition world (status : Z) (data : bytes) (now : Z) : dial_world :=
  mkWorld [toy_env status (toy_answer data); toy_env status (toy_answer data)] 1 now.
Definition fresh : TunnelDialer := newTunnelDialer (str "token123") false true.
Definition worlds : list dial_world := [world 200 (str "hello") 5; world 200 [] 6; world 200 [] 7].
Definition after_dial : TunnelDialer := match td_step fresh (TDial worlds 4 (Hex.encode id16) (str "a.b:1")) with Some td => td | None => fresh end.
Definition then_ (td : TunnelDialer) (a : action) : TunnelDialer := match td_step td (TConn 0 a 9) with Some td => td | None => fresh end.
Definition closing : TunnelDialer := then_ (then_ after_dial AClose) ACloseSend.
Definition after_close : TunnelDialer := then_ closing ACloseDone.
End Toy_dial.
Import Toy_dial.

Lemma dial_contract_witness :
  exists td' conn evs, td_Dial worlds 4 (Hex.encode id16) (str "a.b:1") fresh = Some (td', inl conn, evs) /\ OpenConns td' = 1 /\ tc_seq conn = 1 /\
    tc_readBuf conn = str "hello".
Proof.
  destruct (dial_contract worlds 4 id16 (str "a.b:1") fresh) as (td' & [conn|e] & evs & E & _ & _ & _ & G & _).
  - simpl. lia.
  - repeat constructor; intros bad; apply toy_env_ends.
  - done.
  - by vm_compute.
  - exists td', conn, evs. destruct G as (A & _ & _ & B & _). split; [exact E|]. split; [exact A|]. split; [exact B|].
    vm_compute in E. by injection E as <- <- <-.
  - exfalso. vm_compute in E. discriminate.
Defined.

Lemma open_conns_exact_witness :
  OpenConns closing = 1 /\ Forall (fun cc => tc_closed cc.1 = true) (td_conns closing) /\
  OpenConns after_close = 0 /\ Forall (fun cc => tc_closer cc.1 = ClDone) (td_conns after_close).
Proof.
  assert (td_reach (newTunnelDialer (str "token123") false true) after_close) as Hr.
  { apply (tdr_step _ closing (TConn 0 ACloseDone 9)); [|by vm_compute].
    apply (tdr_step _ (then_ after_dial AClose) (TConn 0 ACloseSend 9)); [|by vm_compute].
    apply (tdr_step _ after_dial (TConn 0 AClose 9)); [|by vm_compute].
    apply (tdr_step _ fresh (TDial worlds 4 (Hex.encode id16) (str "a.b:1"))); [apply tdr_start|by vm_compute]. }
  split; [by vm_compute|]. split; [repeat constructor|]. split; [by vm_compute|].
  apply (open_conns_exact (str "token123") false true after_close Hr). by vm_compute.
Defined.

Lemma last_data_is_last_dial_witness : LastDataTime after_close = LastDataTime closing.
Proof. apply (last_data_is_last_dial closing 0 ACloseDone 9 after_close ltac:(by vm_compute) 1 500 newWin ltac:(done)). Defined.

Lemma udp_frames_delivered_witness :
  exists d' evs, PostUDPFrame [answering (encode_batch [str "pong"])] (Hex.encode id16) (mkAddr (replicate 4 x01) 53) (str "ping")
    (mkPost (str "token") false) = Some (d', inl [str "pong"], evs, [MSent 4; MRecv 4]).
Proof.
  destruct (buildUDPRelayPlain (Hex.encode id16) (mkAddr (replicate 4 x01) 53) (str "ping")) as [plain| |] eqn:E; [|done..].
  apply (udp_frames_delivered (answering (encode_batch [str "pong"])) [] (mkPost (str "token") false) id16
    (mkAddr (replicate 4 x01) 53) (str "ping") plain [str "pong"] E).
  - split; [by eexists|]. intros udp path body _. exists (Some []), [].
    destruct (buildUploadResponse (Some []) [] (sessionKey (str "token")) (encode_batch [str "pong"])) as [raw| |] eqn:Er; [|done..].
    exists raw. split; [exact Er|].
    assert (toy_answer (encode_batch [str "pong"]) (str "token") = Some raw) as Ha by (unfold toy_answer; by rewrite Er).
    unfold exchange, answering, toy_env. cbn [pe_udp pe_http ps_token]. rewrite Ha. by destruct udp.
  - by vm_compute.
  - by vm_compute.
  - by repeat constructor.
Defined.

Definition toy_stream (ps : list bytes) (token : bytes) : bytes :=
  mjoin ((fun p => match sealFrame (Some []) (sessionKey token) p with Ok f => stream_frame f | _ => [] end) <$> ps).

Definition toy_exit (_ : bytes) (h : gmap bytes bytes) (_ : bytes) : option (Z * bytes) :=
  if bool_decide (h !! str "X-Client-IP" = Some (str "1.2.3.4")) then Some (200, toy_stream [str "ab"; str "c"] (str "token")) else None.

Lemma stream_open_delivers_witness :
  exists r, openStreamPost (Some []) 0 toy_exit (str "1.2.3.4") []
    (Headers.mkSession [] [] Headers.chromeHeaders) (str "https://c1") (Hex.encode id16) (str "token") = inl r /\
    read_loop 10 2 r [] = Some (str "abc", Err "EOF").
Proof.
  destruct (stream_open_delivers [] id16 (str "token") (str "1.2.3.4") [] (str "https://c1") 0 2 (Headers.mkSession [] [] Headers.chromeHeaders)
    [str "ab"; str "c"] toy_exit 10 ltac:(done)) as [A _]; [|lia| |simpl; lia|exact A].
  - intros p h body _ _ _ Hip _.
    destruct (sealFrame (Some []) (sessionKey (str "token")) (str "ab")) as [f1| |] eqn:E1; [|done..].
    destruct (sealFrame (Some []) (sessionKey (str "token")) (str "c")) as [f2| |] eqn:E2; [|done..].
    exists [f1; f2]. split; [repeat constructor; by exists (Some [])|]. unfold toy_exit. rewrite bool_decide_eq_true_2 by exact Hip.
    unfold toy_stream. rewrite !fmap_cons, E1, E2. done.
  - repeat constructor; by vm_compute.
Defined.
