(* ===== verification/UdpControl.v ===== *)
(** * UdpControl: the direct UDP channel to a control (udp_control.go)

    The one-shot probe over the relay's frame format and the address the persistent
    connection dials.  The datagram that comes back and the JSON decoder are
    arguments; [ControlLink] has the persistent connection. *)
From S2P Require Import Prelude Encoding Env UdpRelay Router.

Definition udpControlProbeReqID : Z := 0xCAFEBABE.

(** The address dialled by [probeControlUDP] and [newUDPControlConn]. *)
Definition control_udp_addr (addr : bytes) : bytes :=
  match split_host_port addr with None => addr ++ str ":443" | Some _ => addr end.

Definition probe_frame : bytes := udpEncodeRequest udpControlProbeReqID (str "/p/v1/ping") [] [].

Section probe.
(** Decoding the answer: its flag, and its rtt_ms already in nanoseconds. *)
Context (parse_ping : bytes -> option (bool * Z)).

(** The checks on the datagram read into a buffer of 512 bytes; [Ok None] is the
    code's [false]. *)
Definition probe_reply (datagram : bytes) (elapsed : Z) : res (option Z) :=
  let data := take 512 datagram in
  if zlen data <? 15 then Ok None else
  magic ← be_at 4 data 0;
  if negb (magic =? udpRelayMagic) then Ok None else
  reqID ← be_at 4 data 4;
  if negb (reqID =? udpControlProbeReqID) then Ok None else
  typ ← index data 8;
  if negb (byte_eqb typ udpRelayTypeResponse) then Ok None else
  status ← be_at 2 data 9;
  if negb (status =? 200) then Ok None else
  bLen ← be_at 4 data 11;
  if 15 + bLen >? zlen data then Ok None else
  body ← slice data 15 (15 + bLen);
  match parse_ping body with
  | Some (true, rtt) => Ok (Some (if rtt >? 0 then rtt else elapsed))
  | _ => Ok None
  end.

(** [net] sends a frame to an address: the datagram that answers and the time it
    took, or nothing before the deadline. *)
Definition probeControlUDP (net : bytes -> bytes -> option (bytes * Z)) (addr : bytes) : res (option Z) :=
  match net (control_udp_addr addr) probe_frame with
  | None => Ok None
  | Some (datagram, elapsed) => probe_reply datagram elapsed
  end.

(** ** Properties *)

(** A response datagram. *)
Definition response (reqID status : Z) (body trailing : bytes) : bytes :=
  put_u32 udpRelayMagic ++ put_u32 reqID ++ [udpRelayTypeResponse] ++ put_u16 status ++ put_u32 (zlen body) ++ body ++ trailing.

(** The reply as one condition on the fields of the datagram. *)
Definition fields_ok (m q : bytes) (t : byte) (s n rest : bytes) : bool :=
  (be_get m =? udpRelayMagic) && (be_get q =? udpControlProbeReqID) && byte_eqb t udpRelayTypeResponse &&
  (be_get s =? 200) && (be_get n <=? zlen rest).

Lemma probe_reply_fields m q t s n rest elapsed :
  zlen m = 4 -> zlen q = 4 -> zlen s = 2 -> zlen n = 4 -> zlen (m ++ q ++ [t] ++ s ++ n ++ rest) <= 512 ->
  probe_reply (m ++ q ++ [t] ++ s ++ n ++ rest) elapsed =
  Ok (if fields_ok m q t s n rest then
        match parse_ping (take (Z.to_nat (be_get n)) rest) with Some (true, rtt) => Some (if rtt >? 0 then rtt else elapsed) | _ => None end
      else None).
Proof.
  intros Hm Hq Hs Hn Hl. set (data := m ++ q ++ [t] ++ s ++ n ++ rest) in *. unfold probe_reply, fields_ok. cbv zeta.
  rewrite take_ge by (unfold zlen in Hl; lia). pose proof (zlen_nonneg rest).
  assert (zlen data = 15 + zlen rest) as Hd by (unfold data; wire_lia). rewrite (proj2 (Z.ltb_ge _ _)) by lia.
  rewrite (be_at_at 4 data [] m (q ++ [t] ++ s ++ n ++ rest) 0) by (done || wire_lia). cbn [mbind res_bind].
  destruct (be_get m =? udpRelayMagic); [|done]. cbn [negb andb].
  rewrite (be_at_at 4 data m q ([t] ++ s ++ n ++ rest) 4) by (done || lia). cbn [mbind res_bind].
  destruct (be_get q =? udpControlProbeReqID); [|done]. cbn [negb andb].
  rewrite (index_at data (m ++ q) t (s ++ n ++ rest)) by (wire_lia || (unfold data; wire_split)). cbn [mbind res_bind].
  destruct (byte_eqb t udpRelayTypeResponse); [|done]. cbn [negb andb].
  rewrite (be_at_at 2 data (m ++ q ++ [t]) s (n ++ rest)) by (wire_lia || (unfold data; wire_split)). cbn [mbind res_bind].
  destruct (be_get s =? 200); [|done]. cbn [negb andb].
  rewrite (be_at_at 4 data (m ++ q ++ [t] ++ s) n rest) by (wire_lia || (unfold data; wire_split)). cbn [mbind res_bind].
  pose proof (be_get_range n) as Hr. rewrite Z.gtb_ltb, Hd. destruct (be_get n <=? zlen rest) eqn:E.
  - rewrite (proj2 (Z.ltb_ge _ _)) by lia.
    rewrite (slice_at data (m ++ q ++ [t] ++ s ++ n) (take (Z.to_nat (be_get n)) rest) (drop (Z.to_nat (be_get n)) rest)).
    + cbn [mbind res_bind]. by destruct (parse_ping _) as [[[] ?]|].
    + unfold data. rewrite take_drop. wire_split.
    + wire_lia.
    + unfold zlen in *. rewrite length_take. lia.
  - by rewrite (proj2 (Z.ltb_lt _ _)) by lia.
Qed.

Lemma datagram_fields (data : bytes) :
  15 <= zlen data -> exists (m q : bytes) (t : byte) (s n rest : bytes), data = m ++ q ++ [t] ++ s ++ n ++ rest /\ zlen m = 4 /\ zlen q = 4 /\ zlen s = 2 /\ zlen n = 4.
Proof.
  unfold zlen. intros Hl. do 15 (destruct data as [|? data]; [simpl in Hl; lia|]).
  eexists [_; _; _; _], [_; _; _; _], _, [_; _], [_; _; _; _], data. split; [reflexivity|]. by repeat split.
Qed.

(** For every datagram the probe answers without panicking, and it takes a
    datagram for a live control exactly when its first 512 bytes are a relay response
    to this very probe, with status 200 and a body that decodes to "ok"; the time it
    then reports is the one in the body when there is one, else the time the probe
    took. *)
Theorem udp_probe_exact (datagram : bytes) (elapsed rtt : Z) :
  probe_reply datagram elapsed <> Panic /\ (forall e, probe_reply datagram elapsed <> Err e) /\
  (probe_reply datagram elapsed = Ok (Some rtt) <->
   exists body trailing exit_rtt, take 512 datagram = response udpControlProbeReqID 200 body trailing /\
     parse_ping body = Some (true, exit_rtt) /\ rtt = if exit_rtt >? 0 then exit_rtt else elapsed).
Proof.
  assert (probe_reply datagram elapsed = probe_reply (take 512 datagram) elapsed) as ->.
  { unfold probe_reply. by rewrite take_take, Nat.min_id. }
  set (data := take 512 datagram). assert (zlen data <= 512) as Hl by (unfold data, zlen; rewrite length_take; lia).
  destruct (Z.le_gt_cases 15 (zlen data)) as [Hge|Hlt].
  2: { unfold probe_reply. rewrite take_ge by (unfold zlen in Hl; lia). rewrite (proj2 (Z.ltb_lt _ _)) by lia.
       split; [done|]. split; [done|]. split; [done|]. intros (body & tr & x & E & _). exfalso. revert Hlt. rewrite E. unfold response.
       pose proof (zlen_nonneg body). pose proof (zlen_nonneg tr). wire_lia. }
  destruct (datagram_fields data Hge) as (m & q & t & s & n & rest & Ed & Hm & Hq & Hs & Hn). rewrite Ed in Hl |- *.
  rewrite probe_reply_fields by done. split; [done|]. split; [done|]. unfold fields_ok. split.
  - destruct (_ && _) eqn:Ef; [|done]. rewrite !andb_true_iff in Ef. destruct Ef as [[[[E1 E2] E3] E4] E5].
    destruct (parse_ping _) as [[[] x]|] eqn:Ep; try done. intros [= <-].
    exists (take (Z.to_nat (be_get n)) rest), (drop (Z.to_nat (be_get n)) rest), x. split; [|done]. unfold response.
    pose proof (be_get_range n). bool_to_prop.
    replace (zlen (take (Z.to_nat (be_get n)) rest)) with (be_get n) by (unfold zlen in *; rewrite length_take; lia).
    rewrite take_drop. rewrite <- E1, <- E2, <- E4. unfold put_u32, put_u16.
    rewrite !be_put_get by (unfold zlen in *; lia). by apply bool_decide_eq_true in E3 as ->.
  - intros (body & tr & x & E & Ep & ->). unfold response in E.
    apply app_inj_1 in E as [-> E]; [|unfold zlen in Hm; unfold put_u32, put_u16; rewrite length_be_put; lia].
    apply app_inj_1 in E as [-> E]; [|unfold zlen in Hq; unfold put_u32, put_u16; rewrite length_be_put; lia]. apply app_inj_1 in E as [Et E]; [|done]. injection Et as ->.
    apply app_inj_1 in E as [-> E]; [|unfold zlen in Hs; unfold put_u32, put_u16; rewrite length_be_put; lia].
    apply app_inj_1 in E as [-> ->]; [|unfold zlen in Hn; unfold put_u32, put_u16; rewrite length_be_put; lia].
    pose proof (zlen_nonneg body). pose proof (zlen_nonneg tr). rewrite zlen_app.
    assert (zlen body <= 512) as Hb by (rewrite !zlen_app in Hl; pose proof (zlen_nonneg (put_u32 udpRelayMagic)); wire_lia).
    rewrite !be_get_u32, be_get_u16 by (done || lia). rewrite !Z.eqb_refl, (proj2 (Z.leb_le _ _)) by lia.
    change (byte_eqb udpRelayTypeResponse udpRelayTypeResponse) with true. cbn [andb].
    replace (Z.to_nat (zlen body)) with (length body) by (unfold zlen; lia). rewrite take_app_length, Ep. done.
Qed.
End probe.

(** For the same answer of the same control, one that reports its exit's latency,
    the UDP probe reports a smaller time than the TCP probe, by the whole time the
    probe took: the UDP result leaves the way to the control out. *)
Theorem udp_probe_omits_way (parse_ping : bytes -> option (bool * Z)) (body trailing : bytes) (elapsed exit_rtt : Z)
    (Hsize : zlen (response udpControlProbeReqID 200 body trailing) <= 512)
    (Hp : parse_ping body = Some (true, exit_rtt)) (Hr : 0 < exit_rtt) (He : 0 < elapsed) :
  exists udp tcp, probe_reply parse_ping (response udpControlProbeReqID 200 body trailing) elapsed = Ok (Some udp) /\
    probe_answer elapsed (parse_ping body) = Some tcp /\ tcp = udp + elapsed.
Proof.
  exists exit_rtt, (elapsed + exit_rtt). split; [|split; [|lia]].
  - set (data := response _ _ _ _) in *. unfold response in data. pose proof (zlen_nonneg body). pose proof (zlen_nonneg trailing).
    assert (zlen body <= 512) as Hb by (revert Hsize; unfold data; wire_lia).
    unfold data. rewrite (probe_reply_fields parse_ping (put_u32 udpRelayMagic) (put_u32 udpControlProbeReqID) udpRelayTypeResponse
      (put_u16 200) (put_u32 (zlen body)) (body ++ trailing)) by (done || wire_lia).
    unfold fields_ok. rewrite !be_get_u32, be_get_u16 by (done || lia). rewrite !Z.eqb_refl, (proj2 (Z.leb_le _ _)) by wire_lia.
    change (byte_eqb udpRelayTypeResponse udpRelayTypeResponse) with true. cbn [andb].
    replace (Z.to_nat (zlen body)) with (length body) by (unfold zlen; lia). rewrite take_app_length, Hp.
    by rewrite (proj2 (Z.gtb_lt _ _)) by lia.
  - rewrite Hp. unfold probe_answer. by rewrite (proj2 (Z.gtb_lt _ _)) by lia.
Qed.

Lemma udp_probe_omits_way_witness :
  probe_reply (fun _ => Some (true, 30)) (response udpControlProbeReqID 200 (str "{}") []) 100 = Ok (Some 30).
Proof.
  destruct (udp_probe_omits_way (fun _ => Some (true, 30)) (str "{}") [] 100 30) as (u & t & A & B & C); [by vm_compute|done|lia|lia|].
  assert (t = 130) as -> by (vm_compute in B; congruence). rewrite A. f_equal. f_equal. lia.
Defined.
