(* ===== verification/TimeZone.v ===== *)
(** * TimeZone: the country of the device's time zone (tz_country.go)

    The table from IANA zone names to country codes, by the headings it has in the
    source, and the lookup.  The zone's name is an argument. *)
From S2P Require Import Prelude.

Definition tz_africa : list (bytes * bytes) :=
  [(str "Africa/Abidjan", str "CI"); (str "Africa/Accra", str "GH"); (str "Africa/Addis_Ababa", str "ET");
   (str "Africa/Algiers", str "DZ"); (str "Africa/Asmara", str "ER"); (str "Africa/Bamako", str "ML");
   (str "Africa/Bangui", str "CF"); (str "Africa/Banjul", str "GM"); (str "Africa/Bissau", str "GW");
   (str "Africa/Blantyre", str "MW"); (str "Africa/Brazzaville", str "CG"); (str "Africa/Bujumbura", str "BI");
   (str "Africa/Cairo", str "EG"); (str "Africa/Casablanca", str "MA"); (str "Africa/Ceuta", str "ES");
   (str "Africa/Conakry", str "GN"); (str "Africa/Dakar", str "SN"); (str "Africa/Dar_es_Salaam", str "TZ");
   (str "Africa/Djibouti", str "DJ"); (str "Africa/Douala", str "CM"); (str "Africa/El_Aaiun", str "EH");
   (str "Africa/Freetown", str "SL"); (str "Africa/Gaborone", str "BW"); (str "Africa/Harare", str "ZW");
   (str "Africa/Johannesburg", str "ZA"); (str "Africa/Juba", str "SS"); (str "Africa/Kampala", str "UG");
   (str "Africa/Khartoum", str "SD"); (str "Africa/Kigali", str "RW"); (str "Africa/Kinshasa", str "CD");
   (str "Africa/Lagos", str "NG"); (str "Africa/Libreville", str "GA"); (str "Africa/Lome", str "TG");
   (str "Africa/Luanda", str "AO"); (str "Africa/Lubumbashi", str "CD"); (str "Africa/Lusaka", str "ZM");
   (str "Africa/Malabo", str "GQ"); (str "Africa/Maputo", str "MZ"); (str "Africa/Maseru", str "LS");
   (str "Africa/Mbabane", str "SZ"); (str "Africa/Mogadishu", str "SO"); (str "Africa/Monrovia", str "LR");
   (str "Africa/Nairobi", str "KE"); (str "Africa/Ndjamena", str "TD"); (str "Africa/Niamey", str "NE");
   (str "Africa/Nouakchott", str "MR"); (str "Africa/Ouagadougou", str "BF"); (str "Africa/Porto-Novo", str "BJ");
   (str "Africa/Sao_Tome", str "ST"); (str "Africa/Tripoli", str "LY"); (str "Africa/Tunis", str "TN");
   (str "Africa/Windhoek", str "NA")].

Definition tz_america : list (bytes * bytes) :=
  [(str "America/Adak", str "US"); (str "America/Anchorage", str "US"); (str "America/Anguilla", str "AI");
   (str "America/Antigua", str "AG"); (str "America/Araguaina", str "BR"); (str "America/Argentina/Buenos_Aires", str "AR");
   (str "America/Argentina/Catamarca", str "AR"); (str "America/Argentina/Cordoba", str "AR");
   (str "America/Argentina/Jujuy", str "AR"); (str "America/Argentina/La_Rioja", str "AR");
   (str "America/Argentina/Mendoza", str "AR"); (str "America/Argentina/Rio_Gallegos", str "AR");
   (str "America/Argentina/Salta", str "AR"); (str "America/Argentina/San_Juan", str "AR");
   (str "America/Argentina/San_Luis", str "AR"); (str "America/Argentina/Tucuman", str "AR");
   (str "America/Argentina/Ushuaia", str "AR"); (str "America/Aruba", str "AW"); (str "America/Asuncion", str "PY");
   (str "America/Atikokan", str "CA"); (str "America/Bahia", str "BR"); (str "America/Bahia_Banderas", str "MX");
   (str "America/Barbados", str "BB"); (str "America/Belem", str "BR"); (str "America/Belize", str "BZ");
   (str "America/Blanc-Sablon", str "CA"); (str "America/Boa_Vista", str "BR"); (str "America/Bogota", str "CO");
   (str "America/Boise", str "US"); (str "America/Cambridge_Bay", str "CA"); (str "America/Campo_Grande", str "BR");
   (str "America/Cancun", str "MX"); (str "America/Caracas", str "VE"); (str "America/Cayenne", str "GF");
   (str "America/Cayman", str "KY"); (str "America/Chicago", str "US"); (str "America/Chihuahua", str "MX");
   (str "America/Costa_Rica", str "CR"); (str "America/Creston", str "CA"); (str "America/Cuiaba", str "BR");
   (str "America/Curacao", str "CW"); (str "America/Danmarkshavn", str "GL"); (str "America/Dawson", str "CA");
   (str "America/Dawson_Creek", str "CA"); (str "America/Denver", str "US"); (str "America/Detroit", str "US");
   (str "America/Dominica", str "DM"); (str "America/Edmonton", str "CA"); (str "America/Eirunepe", str "BR");
   (str "America/El_Salvador", str "SV"); (str "America/Fortaleza", str "BR"); (str "America/Glace_Bay", str "CA");
   (str "America/Godthab", str "GL"); (str "America/Goose_Bay", str "CA"); (str "America/Grand_Turk", str "TC");
   (str "America/Grenada", str "GD"); (str "America/Guadeloupe", str "GP"); (str "America/Guatemala", str "GT");
   (str "America/Guayaquil", str "EC"); (str "America/Guyana", str "GY"); (str "America/Halifax", str "CA");
   (str "America/Havana", str "CU"); (str "America/Hermosillo", str "MX"); (str "America/Indiana/Indianapolis", str "US");
   (str "America/Indiana/Knox", str "US"); (str "America/Indiana/Marengo", str "US");
   (str "America/Indiana/Petersburg", str "US"); (str "America/Indiana/Tell_City", str "US");
   (str "America/Indiana/Vevay", str "US"); (str "America/Indiana/Vincennes", str "US");
   (str "America/Indiana/Winamac", str "US"); (str "America/Inuvik", str "CA"); (str "America/Iqaluit", str "CA");
   (str "America/Jamaica", str "JM"); (str "America/Juneau", str "US"); (str "America/Kentucky/Louisville", str "US");
   (str "America/Kentucky/Monticello", str "US"); (str "America/Kralendijk", str "BQ"); (str "America/La_Paz", str "BO");
   (str "America/Lima", str "PE"); (str "America/Los_Angeles", str "US"); (str "America/Lower_Princes", str "SX");
   (str "America/Maceio", str "BR"); (str "America/Managua", str "NI"); (str "America/Manaus", str "BR");
   (str "America/Marigot", str "MF"); (str "America/Martinique", str "MQ"); (str "America/Matamoros", str "MX");
   (str "America/Mazatlan", str "MX"); (str "America/Menominee", str "US"); (str "America/Merida", str "MX");
   (str "America/Metlakatla", str "US"); (str "America/Mexico_City", str "MX"); (str "America/Miquelon", str "PM");
   (str "America/Moncton", str "CA"); (str "America/Monterrey", str "MX"); (str "America/Montevideo", str "UY");
   (str "America/Montserrat", str "MS"); (str "America/Nassau", str "BS"); (str "America/New_York", str "US");
   (str "America/Nipigon", str "CA"); (str "America/Nome", str "US"); (str "America/Noronha", str "BR");
   (str "America/North_Dakota/Beulah", str "US"); (str "America/North_Dakota/Center", str "US");
   (str "America/North_Dakota/New_Salem", str "US"); (str "America/Nuuk", str "GL"); (str "America/Ojinaga", str "MX");
   (str "America/Panama", str "PA"); (str "America/Pangnirtung", str "CA"); (str "America/Paramaribo", str "SR");
   (str "America/Phoenix", str "US"); (str "America/Port-au-Prince", str "HT"); (str "America/Port_of_Spain", str "TT");
   (str "America/Porto_Velho", str "BR"); (str "America/Puerto_Rico", str "PR"); (str "America/Punta_Arenas", str "CL");
   (str "America/Rainy_River", str "CA"); (str "America/Rankin_Inlet", str "CA"); (str "America/Recife", str "BR");
   (str "America/Regina", str "CA"); (str "America/Resolute", str "CA"); (str "America/Rio_Branco", str "BR");
   (str "America/Santarem", str "BR"); (str "America/Santiago", str "CL"); (str "America/Santo_Domingo", str "DO");
   (str "America/Sao_Paulo", str "BR"); (str "America/Scoresbysund", str "GL"); (str "America/Sitka", str "US");
   (str "America/St_Barthelemy", str "BL"); (str "America/St_Johns", str "CA"); (str "America/St_Kitts", str "KN");
   (str "America/St_Lucia", str "LC"); (str "America/St_Thomas", str "VI"); (str "America/St_Vincent", str "VC");
   (str "America/Swift_Current", str "CA"); (str "America/Tegucigalpa", str "HN"); (str "America/Thule", str "GL");
   (str "America/Thunder_Bay", str "CA"); (str "America/Tijuana", str "MX"); (str "America/Toronto", str "CA");
   (str "America/Tortola", str "VG"); (str "America/Vancouver", str "CA"); (str "America/Whitehorse", str "CA");
   (str "America/Winnipeg", str "CA"); (str "America/Yakutat", str "US"); (str "America/Yellowknife", str "CA")].

Definition tz_antarctica : list (bytes * bytes) :=
  [(str "Antarctica/Casey", str "AQ"); (str "Antarctica/Davis", str "AQ"); (str "Antarctica/DumontDUrville", str "AQ");
   (str "Antarctica/Macquarie", str "AU"); (str "Antarctica/Mawson", str "AQ"); (str "Antarctica/McMurdo", str "AQ");
   (str "Antarctica/Palmer", str "AQ"); (str "Antarctica/Rothera", str "AQ"); (str "Antarctica/Syowa", str "AQ");
   (str "Antarctica/Troll", str "AQ"); (str "Antarctica/Vostok", str "AQ")].

Definition tz_arctic : list (bytes * bytes) :=
  [(str "Arctic/Longyearbyen", str "SJ")].

Definition tz_asia : list (bytes * bytes) :=
  [(str "Asia/Aden", str "YE"); (str "Asia/Almaty", str "KZ"); (str "Asia/Amman", str "JO"); (str "Asia/Anadyr", str "RU");
   (str "Asia/Aqtau", str "KZ"); (str "Asia/Aqtobe", str "KZ"); (str "Asia/Ashgabat", str "TM");
   (str "Asia/Atyrau", str "KZ"); (str "Asia/Baghdad", str "IQ"); (str "Asia/Bahrain", str "BH");
   (str "Asia/Baku", str "AZ"); (str "Asia/Bangkok", str "TH"); (str "Asia/Barnaul", str "RU");
   (str "Asia/Beirut", str "LB"); (str "Asia/Bishkek", str "KG"); (str "Asia/Brunei", str "BN");
   (str "Asia/Chita", str "RU"); (str "Asia/Choibalsan", str "MN"); (str "Asia/Colombo", str "LK");
   (str "Asia/Damascus", str "SY"); (str "Asia/Dhaka", str "BD"); (str "Asia/Dili", str "TL"); (str "Asia/Dubai", str "AE");
   (str "Asia/Dushanbe", str "TJ"); (str "Asia/Famagusta", str "CY"); (str "Asia/Gaza", str "PS");
   (str "Asia/Hebron", str "PS"); (str "Asia/Ho_Chi_Minh", str "VN"); (str "Asia/Hong_Kong", str "HK");
   (str "Asia/Hovd", str "MN"); (str "Asia/Irkutsk", str "RU"); (str "Asia/Jakarta", str "ID");
   (str "Asia/Jayapura", str "ID"); (str "Asia/Jerusalem", str "IL"); (str "Asia/Kabul", str "AF");
   (str "Asia/Kamchatka", str "RU"); (str "Asia/Karachi", str "PK"); (str "Asia/Kathmandu", str "NP");
   (str "Asia/Khandyga", str "RU"); (str "Asia/Kolkata", str "IN"); (str "Asia/Krasnoyarsk", str "RU");
   (str "Asia/Kuala_Lumpur", str "MY"); (str "Asia/Kuching", str "MY"); (str "Asia/Kuwait", str "KW");
   (str "Asia/Macau", str "MO"); (str "Asia/Magadan", str "RU"); (str "Asia/Makassar", str "ID");
   (str "Asia/Manila", str "PH"); (str "Asia/Muscat", str "OM"); (str "Asia/Nicosia", str "CY");
   (str "Asia/Novokuznetsk", str "RU"); (str "Asia/Novosibirsk", str "RU"); (str "Asia/Omsk", str "RU");
   (str "Asia/Oral", str "KZ"); (str "Asia/Phnom_Penh", str "KH"); (str "Asia/Pontianak", str "ID");
   (str "Asia/Pyongyang", str "KP"); (str "Asia/Qatar", str "QA"); (str "Asia/Qostanay", str "KZ");
   (str "Asia/Qyzylorda", str "KZ"); (str "Asia/Riyadh", str "SA"); (str "Asia/Sakhalin", str "RU");
   (str "Asia/Samarkand", str "UZ"); (str "Asia/Seoul", str "KR"); (str "Asia/Shanghai", str "CN");
   (str "Asia/Singapore", str "SG"); (str "Asia/Srednekolymsk", str "RU"); (str "Asia/Taipei", str "TW");
   (str "Asia/Tashkent", str "UZ"); (str "Asia/Tbilisi", str "GE"); (str "Asia/Tehran", str "IR");
   (str "Asia/Thimphu", str "BT"); (str "Asia/Tokyo", str "JP"); (str "Asia/Tomsk", str "RU");
   (str "Asia/Ulaanbaatar", str "MN"); (str "Asia/Urumqi", str "CN"); (str "Asia/Ust-Nera", str "RU");
   (str "Asia/Vientiane", str "LA"); (str "Asia/Vladivostok", str "RU"); (str "Asia/Yakutsk", str "RU");
   (str "Asia/Yangon", str "MM"); (str "Asia/Yekaterinburg", str "RU"); (str "Asia/Yerevan", str "AM")].

Definition tz_atlantic : list (bytes * bytes) :=
  [(str "Atlantic/Azores", str "PT"); (str "Atlantic/Bermuda", str "BM"); (str "Atlantic/Canary", str "ES");
   (str "Atlantic/Cape_Verde", str "CV"); (str "Atlantic/Faroe", str "FO"); (str "Atlantic/Madeira", str "PT");
   (str "Atlantic/Reykjavik", str "IS"); (str "Atlantic/South_Georgia", str "GS"); (str "Atlantic/St_Helena", str "SH");
   (str "Atlantic/Stanley", str "FK")].

Definition tz_australia : list (bytes * bytes) :=
  [(str "Australia/Adelaide", str "AU"); (str "Australia/Brisbane", str "AU"); (str "Australia/Broken_Hill", str "AU");
   (str "Australia/Darwin", str "AU"); (str "Australia/Eucla", str "AU"); (str "Australia/Hobart", str "AU");
   (str "Australia/Lindeman", str "AU"); (str "Australia/Lord_Howe", str "AU"); (str "Australia/Melbourne", str "AU");
   (str "Australia/Perth", str "AU"); (str "Australia/Sydney", str "AU")].

Definition tz_europe : list (bytes * bytes) :=
  [(str "Europe/Amsterdam", str "NL"); (str "Europe/Andorra", str "AD"); (str "Europe/Astrakhan", str "RU");
   (str "Europe/Athens", str "GR"); (str "Europe/Belgrade", str "RS"); (str "Europe/Berlin", str "DE");
   (str "Europe/Bratislava", str "SK"); (str "Europe/Brussels", str "BE"); (str "Europe/Bucharest", str "RO");
   (str "Europe/Budapest", str "HU"); (str "Europe/Busingen", str "DE"); (str "Europe/Chisinau", str "MD");
   (str "Europe/Copenhagen", str "DK"); (str "Europe/Dublin", str "IE"); (str "Europe/Gibraltar", str "GI");
   (str "Europe/Guernsey", str "GG"); (str "Europe/Helsinki", str "FI"); (str "Europe/Isle_of_Man", str "IM");
   (str "Europe/Istanbul", str "TR"); (str "Europe/Jersey", str "JE"); (str "Europe/Kaliningrad", str "RU");
   (str "Europe/Kiev", str "UA"); (str "Europe/Kirov", str "RU"); (str "Europe/Kyiv", str "UA");
   (str "Europe/Lisbon", str "PT"); (str "Europe/Ljubljana", str "SI"); (str "Europe/London", str "GB");
   (str "Europe/Luxembourg", str "LU"); (str "Europe/Madrid", str "ES"); (str "Europe/Malta", str "MT");
   (str "Europe/Mariehamn", str "FI"); (str "Europe/Minsk", str "BY"); (str "Europe/Monaco", str "MC");
   (str "Europe/Moscow", str "RU"); (str "Europe/Nicosia", str "CY"); (str "Europe/Oslo", str "NO");
   (str "Europe/Paris", str "FR"); (str "Europe/Podgorica", str "ME"); (str "Europe/Prague", str "CZ");
   (str "Europe/Riga", str "LV"); (str "Europe/Rome", str "IT"); (str "Europe/Samara", str "RU");
   (str "Europe/San_Marino", str "SM"); (str "Europe/Sarajevo", str "BA"); (str "Europe/Saratov", str "RU");
   (str "Europe/Simferopol", str "UA"); (str "Europe/Skopje", str "MK"); (str "Europe/Sofia", str "BG");
   (str "Europe/Stockholm", str "SE"); (str "Europe/Tallinn", str "EE"); (str "Europe/Tirane", str "AL");
   (str "Europe/Ulyanovsk", str "RU"); (str "Europe/Uzhgorod", str "UA"); (str "Europe/Vaduz", str "LI");
   (str "Europe/Vatican", str "VA"); (str "Europe/Vienna", str "AT"); (str "Europe/Vilnius", str "LT");
   (str "Europe/Volgograd", str "RU"); (str "Europe/Warsaw", str "PL"); (str "Europe/Zagreb", str "HR");
   (str "Europe/Zaporozhye", str "UA"); (str "Europe/Zurich", str "CH")].

Definition tz_indian : list (bytes * bytes) :=
  [(str "Indian/Antananarivo", str "MG"); (str "Indian/Chagos", str "IO"); (str "Indian/Christmas", str "CX");
   (str "Indian/Cocos", str "CC"); (str "Indian/Comoro", str "KM"); (str "Indian/Kerguelen", str "TF");
   (str "Indian/Mahe", str "SC"); (str "Indian/Maldives", str "MV"); (str "Indian/Mauritius", str "MU");
   (str "Indian/Mayotte", str "YT"); (str "Indian/Reunion", str "RE")].

Definition tz_pacific : list (bytes * bytes) :=
  [(str "Pacific/Apia", str "WS"); (str "Pacific/Auckland", str "NZ"); (str "Pacific/Bougainville", str "PG");
   (str "Pacific/Chatham", str "NZ"); (str "Pacific/Chuuk", str "FM"); (str "Pacific/Easter", str "CL");
   (str "Pacific/Efate", str "VU"); (str "Pacific/Fakaofo", str "TK"); (str "Pacific/Fiji", str "FJ");
   (str "Pacific/Funafuti", str "TV"); (str "Pacific/Galapagos", str "EC"); (str "Pacific/Gambier", str "PF");
   (str "Pacific/Guadalcanal", str "SB"); (str "Pacific/Guam", str "GU"); (str "Pacific/Honolulu", str "US");
   (str "Pacific/Kiritimati", str "KI"); (str "Pacific/Kosrae", str "FM"); (str "Pacific/Kwajalein", str "MH");
   (str "Pacific/Majuro", str "MH"); (str "Pacific/Marquesas", str "PF"); (str "Pacific/Midway", str "UM");
   (str "Pacific/Nauru", str "NR"); (str "Pacific/Niue", str "NU"); (str "Pacific/Norfolk", str "NF");
   (str "Pacific/Noumea", str "NC"); (str "Pacific/Pago_Pago", str "AS"); (str "Pacific/Palau", str "PW");
   (str "Pacific/Pitcairn", str "PN"); (str "Pacific/Pohnpei", str "FM"); (str "Pacific/Port_Moresby", str "PG");
   (str "Pacific/Rarotonga", str "CK"); (str "Pacific/Saipan", str "MP"); (str "Pacific/Tahiti", str "PF");
   (str "Pacific/Tarawa", str "KI"); (str "Pacific/Tongatapu", str "TO"); (str "Pacific/Wake", str "UM");
   (str "Pacific/Wallis", str "WF")].

Definition tzCountry : list (bytes * bytes) :=
  tz_africa ++ tz_america ++ tz_antarctica ++ tz_arctic ++ tz_asia ++ tz_atlantic ++ tz_australia ++ tz_europe ++ tz_indian ++ tz_pacific.

Definition TimezoneCC (tz : bytes) : bytes :=
  match find (fun e => bool_decide (e.1 = tz)) tzCountry with Some e => e.2 | None => [] end.

(** ** Properties *)

Definition is_upper (b : byte) : bool := (65 <=? b2z b) && (b2z b <=? 90).
Definition is_alpha2 (cc : bytes) : bool := match cc with [a; b] => is_upper a && is_upper b | _ => false end.

Fixpoint distinct (l : list bytes) : bool :=
  match l with [] => true | x :: l => negb (existsb (fun y => bool_decide (y = x)) l) && distinct l end.

Lemma distinct_ok l : distinct l = true -> NoDup l.
Proof.
  induction l as [|x l IH]; cbn [distinct]; [constructor|]. intros [Hx Hl]%andb_true_iff. constructor; [|by apply IH].
  intros Hin. apply negb_true_iff in Hx. assert (existsb (fun y => bool_decide (y = x)) l = true) as E; [|congruence].
  apply existsb_exists. exists x. split; [by apply list_elem_of_In|by apply bool_decide_eq_true].
Qed.

Lemma table_names : distinct (fst <$> tzCountry) = true.
Proof. vm_compute. reflexivity. Qed.

Lemma table_codes : forallb (fun e => is_alpha2 e.2) tzCountry = true.
Proof. vm_compute. reflexivity. Qed.

Lemma find_name l tz e : NoDup (fst <$> l) -> e ∈ l -> e.1 = tz -> find (fun x : bytes * bytes => bool_decide (x.1 = tz)) l = Some e.
Proof.
  intros Hn Hin He. induction l as [|y l IH]; [by apply elem_of_nil in Hin|]. rewrite fmap_cons in Hn. apply NoDup_cons in Hn as [Hy Hn].
  cbn [find]. apply elem_of_cons in Hin as [->|Hin]; [by rewrite bool_decide_true|].
  rewrite bool_decide_false; [by apply IH|]. intros Eq. apply Hy. rewrite Eq, <- He. by apply (list_elem_of_fmap_2 fst).
Qed.

(** The lookup of a time zone returns either the empty string or a country code of
    two capital letters, whatever name the system reports; a zone of the table gives
    its own entry (no name occurs twice), any other the empty string, and so do the
    zones that belong to no country. *)
Theorem timezone_country (tz : bytes) :
  (TimezoneCC tz = [] \/ is_alpha2 (TimezoneCC tz) = true) /\
  (forall cc, (tz, cc) ∈ tzCountry -> TimezoneCC tz = cc) /\
  (tz ∉ (fst <$> tzCountry) -> TimezoneCC tz = []) /\
  TimezoneCC (str "UTC") = [] /\ TimezoneCC (str "Local") = [].
Proof.
  split; [|split; [|split; [|split; by vm_compute]]].
  - unfold TimezoneCC. destruct (find _ _) as [e|] eqn:E; [|by left]. right. apply find_some in E as [Hin _].
    pose proof table_codes as Hc. rewrite forallb_forall in Hc. by apply Hc.
  - intros cc Hin. unfold TimezoneCC. by rewrite (find_name tzCountry tz (tz, cc) (distinct_ok _ table_names) Hin eq_refl).
  - intros Hnot. unfold TimezoneCC. destruct (find _ _) as [e|] eqn:E; [|done]. exfalso. apply find_some in E as [Hin He].
    apply bool_decide_eq_true in He as <-. apply Hnot. apply (list_elem_of_fmap_2 fst). by apply list_elem_of_In.
Qed.
