(* ===== verification/Tun.v ===== *)
(** * Tun: starting and stopping the TUN bridge (tun.go, tun_linux.go, tun_darwin.go)

    The bridge of each platform with the engine it drives, the retries of [Start], the
    settle time Windows needs, the detection of the interface macOS creates, [Stop].
    What the engine, the driver and the configuration commands answer is an argument;
    time is nanoseconds. *)
From S2P Require Import Prelude Encoding Env.

Definition tsec : Z := 1000000000.
Definition tunPNPSettleDelay : Z := 25 * tsec.
Definition maxAttempts : nat := 3.

(** The tun2socks engine: not started, running, left half-started by a failed start,
    or stopped. *)
Inductive engine := EIdle | ERunning | EPartial | EStopped.
#[global] Instance engine_eq : EqDecision engine. Proof. solve_decision. Defined.

Record TUNBridge := mkBridge {
  tb_running : bool;
  tb_ifaceName : bytes;
  tb_engine : engine
}.

Definition NewTUNBridge : TUNBridge := mkBridge false [] EIdle.

Definition with_engine (b : TUNBridge) (e : engine) : TUNBridge := mkBridge (tb_running b) (tb_ifaceName b) e.

(** [safeEngineStart] returns an error instead of a panic; the engine may then be
    half-started. *)
Definition safeEngineStart (ok : bool) (b : TUNBridge) : TUNBridge * bool := (with_engine b (if ok then ERunning else EPartial), ok).
Definition safeEngineStop (b : TUNBridge) : TUNBridge := with_engine b EStopped.

(** The retry loop of [Start]: [attempt]s still to come, the number of the next one,
    the sleeps taken.  [once] is [startOnce]. *)
Section retry.
Context {E : Type} (once : E -> TUNBridge -> TUNBridge * bool).

Fixpoint start_loop (todo attempt : nat) (envs : list E) (b : TUNBridge) : option (TUNBridge * bool * list Z) :=
  match todo, envs with
  | S todo, e :: envs =>
    let '(b, ok) := once e b in
    if ok then Some (b, true, [])
    else match todo with
      | O => Some (b, false, [])
      | _ => match start_loop todo (S attempt) envs (safeEngineStop b) with
             | Some (b, r, sleeps) => Some (b, r, Z.of_nat attempt * 3 * tsec :: sleeps)
             | None => None
             end
      end
  | _, _ => None
  end.
End retry.

Module Linux.
Definition TUNDeviceName : bytes := str "snc0".

(** The outcomes of one attempt: the engine, "ip addr add", "ip link set up".  The MTU
    and the IPv6 address only log. *)
Record attempt_env := mkEnv { ae_engine : bool; ae_addr : bool; ae_up : bool }.

Definition startOnce (e : attempt_env) (b : TUNBridge) : TUNBridge * bool :=
  let '(b, ok) := safeEngineStart (ae_engine e) b in
  if negb ok then (b, false)
  else if negb (ae_addr e) then (safeEngineStop b, false)
  else if negb (ae_up e) then (safeEngineStop b, false)
  else (mkBridge true TUNDeviceName (tb_engine b), true).

Definition Start (envs : list attempt_env) (b : TUNBridge) := start_loop startOnce maxAttempts 1 envs b.

Definition Stop (b : TUNBridge) : TUNBridge := if tb_running b then mkBridge false [] EStopped else b.
End Linux.

Module Darwin.
(** [listUtunInterfaces]: the utun names in the output of ifconfig, nil when it fails. *)
Definition listUtunInterfaces (fields : option (list bytes)) : gset bytes :=
  match fields with
  | None => ∅
  | Some l => list_to_set (List.filter (fun i => has_prefix i (str "utun")) l)
  end.

(** [findNewUtun] ranges over a map: any order, given by [order]. *)
Definition findNewUtun (order : gset bytes -> list bytes) (before after : gset bytes) : bytes :=
  match find (fun i => bool_decide (i ∉ before)) (order after) with Some i => i | None => [] end.

Record attempt_env := mkEnv {
  ae_before : option (list bytes);
  ae_engine : bool;
  ae_after : option (list bytes);
  ae_order : gset bytes -> list bytes;
  ae_config : bool                                 (* "ifconfig <iface> inet" *)
}.

Definition startOnce (e : attempt_env) (b : TUNBridge) : TUNBridge * bool :=
  let before := listUtunInterfaces (ae_before e) in
  let '(b, ok) := safeEngineStart (ae_engine e) b in
  if negb ok then (b, false) else
  let iface := findNewUtun (ae_order e) before (listUtunInterfaces (ae_after e)) in
  if bool_decide (iface = []) then (safeEngineStop b, false) else
  let b := mkBridge (tb_running b) iface (tb_engine b) in
  if negb (ae_config e) then (safeEngineStop b, false)
  else (mkBridge true iface (tb_engine b), true).

Definition Start (envs : list attempt_env) (b : TUNBridge) := start_loop startOnce maxAttempts 1 envs b.

Definition IfaceName (b : TUNBridge) : bytes := tb_ifaceName b.

Definition Stop (b : TUNBridge) : TUNBridge := if tb_running b then mkBridge false [] EStopped else b.
End Darwin.

Module Windows.
(** [ae_netsh]: [None] when setting the address succeeds, else whether the message
    says that it exists already. *)
Record attempt_env := mkEnv { ae_engine : bool; ae_netsh : option bool }.

Definition startOnce (e : attempt_env) (b : TUNBridge) : TUNBridge * bool :=
  let '(b, ok) := safeEngineStart (ae_engine e) b in
  if negb ok then (b, false) else
  match ae_netsh e with
  | Some false => (with_engine b EStopped, false)
  | _ => (mkBridge true (tb_ifaceName b) (tb_engine b), true)
  end.

(** How long [Start] sleeps for the previous removal; 0 is "never stopped". *)
Definition settle_wait (lastTUNStop now : Z) : Z :=
  if negb (lastTUNStop =? 0) && (now - lastTUNStop <? tunPNPSettleDelay) then tunPNPSettleDelay - (now - lastTUNStop) else 0.

Inductive start_result := Started | DllFailed | NotReady | StartFailed.
#[global] Instance start_result_eq : EqDecision start_result. Proof. solve_decision. Defined.

(** [extract] is when the DLL is in place ([None]: it failed); the preflight check
    runs at the time the result carries. *)
Definition Start (extract : option Z) (preflight : bool) (lastTUNStop : Z) (envs : list attempt_env) (b : TUNBridge)
    : option (TUNBridge * start_result * option Z) :=
  match extract with
  | None => Some (b, DllFailed, None)
  | Some now =>
    let at_preflight := now + settle_wait lastTUNStop now in
    if negb preflight then Some (b, NotReady, Some at_preflight) else
    match start_loop startOnce maxAttempts 1 envs b with
    | None => None
    | Some (b, ok, _) => Some (b, if ok : bool then Started else StartFailed, Some at_preflight)
    end
  end.

(** The bridge and the recorded time of the stop. *)
Definition Stop (now lastTUNStop : Z) (b : TUNBridge) : TUNBridge * Z :=
  if tb_running b then (mkBridge false (tb_ifaceName b) EStopped, now) else (b, lastTUNStop).
End Windows.

(** ** Properties *)

(** What one attempt may do, on every platform. *)
Record once_ok {E} (once : E -> TUNBridge -> TUNBridge * bool) (good : E -> bool) (engine_of : E -> bool) : Prop := {
  oo_result : forall e b, (once e b).2 = good e;
  oo_running : forall e b, good e = true -> tb_running (once e b).1 = true /\ tb_engine (once e b).1 = ERunning;
  oo_failed : forall e b, good e = false -> tb_running (once e b).1 = tb_running b /\
    tb_engine (once e b).1 = if engine_of e then EStopped else EPartial
}.

Fixpoint first_good {E} (good : E -> bool) (envs : list E) : option nat :=
  match envs with [] => None | e :: envs => if good e then Some 0%nat else S <$> first_good good envs end.

Section retry_props.
Context {E : Type} (once : E -> TUNBridge -> TUNBridge * bool) (good engine_of : E -> bool) (Honce : once_ok once good engine_of).

Lemma start_loop_spec todo : forall attempt envs b, (0 < todo)%nat -> (todo <= length envs)%nat ->
  exists b' r sleeps, start_loop once todo attempt envs b = Some (b', r, sleeps) /\
    (r = true <-> is_Some (first_good good (take todo envs))) /\
    (r = true -> tb_running b' = true /\ tb_engine b' = ERunning) /\
    (r = false -> tb_running b' = tb_running b /\ exists e, envs !! pred todo = Some e /\ tb_engine b' = if engine_of e then EStopped else EPartial) /\
    (length sleeps < todo)%nat /\ forall i s, sleeps !! i = Some s -> s = Z.of_nat (attempt + i) * 3 * tsec.
Proof.
  induction todo as [|todo IH]; intros attempt envs b Hpos Hlen; [lia|]. destruct envs as [|e envs]; [simpl in Hlen; lia|].
  cbn [start_loop take first_good]. pose proof (oo_result _ _ _ Honce e b) as Hr. pose proof (oo_running _ _ _ Honce e b) as Hrun.
  pose proof (oo_failed _ _ _ Honce e b) as Hf. destruct (once e b) as [b1 ok]. cbn [fst snd] in *. subst ok.
  destruct (good e) eqn:Eg; [exists b1, true, []; split; [done|]; split; [by split|]; split; [auto|]; split; [done|]; split; [simpl; lia|done]|].
  destruct (Hf eq_refl) as [Hf1 Hf2]. destruct todo as [|todo].
  - exists b1, false, []. split; [done|]. split; [split; [done|by intros []]|]. split; [done|].
    split; [intros _; split; [done|]; by exists e|]. split; [simpl; lia|by intros].
  - destruct (IH (S attempt) envs (safeEngineStop b1) ltac:(lia) ltac:(simpl in Hlen; lia)) as (b' & r & sleeps & -> & H1 & H2 & H3 & H4 & H5).
    exists b', r, (Z.of_nat attempt * 3 * tsec :: sleeps). split; [done|]. split.
    + by rewrite H1, fmap_is_Some.
    + split; [done|]. split; [intros Hff; destruct (H3 Hff) as [Ha Hb]; split; [cbn in Ha; congruence|exact Hb]|].
      split; [simpl; lia|]. intros [|i] s; cbn; [intros [= <-]; by rewrite Nat.add_0_r|]. intros Hs. apply H5 in Hs. by rewrite Hs, Nat.add_succ_r.
Qed.
End retry_props.

Definition linux_good (e : Linux.attempt_env) : bool := Linux.ae_engine e && Linux.ae_addr e && Linux.ae_up e.
Definition windows_good (e : Windows.attempt_env) : bool := Windows.ae_engine e && negb (bool_decide (Windows.ae_netsh e = Some false)).

Lemma linux_once : once_ok Linux.startOnce linux_good Linux.ae_engine.
Proof. split; intros [[] [] []] b; cbn; done. Qed.

Lemma windows_once : once_ok Windows.startOnce windows_good Windows.ae_engine.
Proof. split; intros [[] [[]|]] b; cbn; done. Qed.

(** Starting the bridge on Linux tries at most three times, 3 s and 6 s apart, and
    always ends: with success as soon as an attempt brings the engine, the address and
    the link up, and then the engine runs and the interface is known; otherwise the
    bridge is not running and the engine is stopped, unless the last attempt failed
    inside the engine itself.  Stopping it afterwards leaves nothing running. *)
Theorem linux_bridge (envs : list Linux.attempt_env) (Hn : (3 <= length envs)%nat) :
  exists b r sleeps, Linux.Start envs NewTUNBridge = Some (b, r, sleeps) /\
    (r = true <-> is_Some (first_good linux_good (take 3 envs))) /\
    (r = true -> tb_running b = true /\ tb_engine b = ERunning) /\
    (r = false -> tb_running b = false /\ exists e, envs !! 2%nat = Some e /\ tb_engine b = if Linux.ae_engine e then EStopped else EPartial) /\
    (forall i s, sleeps !! i = Some s -> (i = 0%nat /\ s = 3 * tsec) \/ (i = 1%nat /\ s = 6 * tsec)) /\
    tb_running (Linux.Stop b) = false /\ Linux.Stop (Linux.Stop b) = Linux.Stop b.
Proof.
  destruct (start_loop_spec Linux.startOnce linux_good Linux.ae_engine linux_once maxAttempts 1 envs NewTUNBridge) as (b & r & sleeps & E & H1 & H2 & H3 & H4 & H5);
    [unfold maxAttempts; lia..|].
  exists b, r, sleeps. split; [exact E|]. split; [exact H1|]. split; [exact H2|]. split; [exact H3|]. split.
  - intros i s Hs. pose proof (lookup_lt_Some _ _ _ Hs). unfold maxAttempts in H4. rewrite (H5 _ _ Hs).
    destruct i as [|[|i]]; [left|right|lia]; by split.
  - unfold Linux.Stop. destruct (tb_running b) eqn:Eb; cbn; by rewrite ?Eb.
Qed.

(** On Windows the driver is only probed 25 s or more after the bridge was last
    stopped, and the start never waits when it was not stopped or was stopped longer
    ago; the engine is only started when the driver answered the probe. *)
Theorem pnp_settled (now0 last0 now : Z) (b0 : TUNBridge) (preflight : bool) (envs : list Windows.attempt_env)
    (Hrun : tb_running b0 = true) (Hnow0 : 0 < now0) (Hlater : now0 <= now) (Hn : (3 <= length envs)%nat) :
  let '(b1, last) := Windows.Stop now0 last0 b0 in
  tb_running b1 = false /\
  exists b2 r t, Windows.Start (Some now) preflight last envs b1 = Some (b2, r, Some t) /\
    last + tunPNPSettleDelay <= t /\ now <= t /\ (now0 + tunPNPSettleDelay <= now -> t = now) /\
    (tb_engine b2 = ERunning -> preflight = true) /\ (r = Windows.Started -> tb_running b2 = true).
Proof.
  unfold Windows.Stop. rewrite Hrun. split; [done|]. unfold Windows.Start. set (t := now + Windows.settle_wait now0 now).
  assert (now0 + tunPNPSettleDelay <= t /\ now <= t /\ (now0 + tunPNPSettleDelay <= now -> t = now)) as Ht.
  { unfold t, Windows.settle_wait. rewrite (proj2 (Z.eqb_neq now0 0)) by lia. cbn [negb andb].
    assert (0 < tunPNPSettleDelay) by done. destruct (now - now0 <? tunPNPSettleDelay) eqn:E; lia. }
  destruct preflight; cbn [negb].
  - set (b1 := mkBridge _ _ _).
    destruct (start_loop_spec Windows.startOnce windows_good Windows.ae_engine windows_once maxAttempts 1 envs b1) as (b2 & r & sleeps & -> & _ & H2 & _);
      [unfold maxAttempts; lia..|].
    exists b2, (if r then Windows.Started else Windows.StartFailed), t. split; [done|]. destruct Ht as (A & B & C).
    split; [done|]. split; [done|]. split; [done|]. split; [done|]. destruct r; [intros _; by apply H2|done].
  - do 3 eexists. split; [done|]. destruct Ht as (A & B & C). by repeat split.
Qed.

(** When both listings succeed, the interface macOS's bridge configures is a utun
    device that was not there before; it is found whenever there is one.  When the
    first listing fails every device counts as new: with one utun device that belongs
    to another program, that is the one configured. *)
Theorem utun_detection (order : gset bytes -> list bytes) (before after : list bytes) (other : bytes)
    (Horder : forall s i, i ∈ order s <-> i ∈ s) (Hother : has_prefix other (str "utun") = true) :
  let found := Darwin.findNewUtun order (Darwin.listUtunInterfaces (Some before)) (Darwin.listUtunInterfaces (Some after)) in
  (found <> [] -> found ∈ after /\ (found ∉ before) /\ has_prefix found (str "utun") = true) /\
  ((exists i, i ∈ after /\ (i ∉ before) /\ has_prefix i (str "utun") = true) -> found <> []) /\
  Darwin.findNewUtun order (Darwin.listUtunInterfaces None) (Darwin.listUtunInterfaces (Some [other])) = other.
Proof.
  assert (forall l i, i ∈ Darwin.listUtunInterfaces (Some l) <-> i ∈ l /\ has_prefix i (str "utun") = true) as Hin.
  { intros l i. cbn [Darwin.listUtunInterfaces]. rewrite elem_of_list_to_set, list_elem_of_In, filter_In, <- list_elem_of_In. done. }
  cbv zeta. unfold Darwin.findNewUtun. split; [|split].
  - destruct (find _ _) as [i|] eqn:E; [|done]. intros _. apply find_some in E as [Hi Hb]. apply bool_decide_eq_true in Hb.
    apply list_elem_of_In, Horder, Hin in Hi as [Ha Hp]. split; [done|]. split; [|done]. intros Hbe. apply Hb, Hin. by split.
  - intros (i & Ha & Hb & Hp). destruct (find _ _) as [j|] eqn:E.
    + apply find_some in E as [Hj _]. apply list_elem_of_In, Horder, Hin in Hj as [_ Hj]. by intros ->.
    + exfalso. assert (In i (order (Darwin.listUtunInterfaces (Some after)))) as Hi by (by apply list_elem_of_In, Horder, Hin).
      pose proof (find_none _ _ E i Hi) as Hf. cbv beta in Hf.
      apply bool_decide_eq_false in Hf. apply Hf. rewrite Hin. tauto.
  - cbn [Darwin.listUtunInterfaces List.filter]. rewrite Hother. destruct (find _ _) as [j|] eqn:E.
    + apply find_some in E as [Hj _]. apply list_elem_of_In, Horder in Hj. by apply elem_of_list_to_set, list_elem_of_singleton in Hj.
    + exfalso. assert (other ∈ order (list_to_set [other])) as Ho by (apply Horder; set_solver).
      pose proof (find_none _ _ E other (proj1 (list_elem_of_In _ _) Ho)) as Hf. apply bool_decide_eq_false in Hf. set_solver.
Qed.

(** On macOS a start that fails while configuring the interface it found leaves
    that name behind: [IfaceName] reports an interface although the bridge never ran. *)
Theorem darwin_stale_iface (e : Darwin.attempt_env) (b : TUNBridge) (iface : bytes)
    (Hf : Darwin.findNewUtun (Darwin.ae_order e) (Darwin.listUtunInterfaces (Darwin.ae_before e)) (Darwin.listUtunInterfaces (Darwin.ae_after e)) = iface)
    (Hne : iface <> []) (He : Darwin.ae_engine e = true) (Hc : Darwin.ae_config e = false) :
  let '(b', ok) := Darwin.startOnce e b in
  ok = false /\ tb_running b' = tb_running b /\ tb_engine b' = EStopped /\ Darwin.IfaceName b' = iface.
Proof.
  unfold Darwin.startOnce, safeEngineStart. rewrite He. cbn [negb]. rewrite Hf, bool_decide_false, Hc by done. by split_and!.
Qed.

(** ** Concrete runs *)

Definition toy_linux : list Linux.attempt_env := [Linux.mkEnv false true true; Linux.mkEnv true true true; Linux.mkEnv true true true].

Lemma linux_bridge_witness : exists b sleeps, Linux.Start toy_linux NewTUNBridge = Some (b, true, sleeps) /\ tb_running b = true.
Proof.
  destruct (linux_bridge toy_linux ltac:(simpl; lia)) as (b & r & sleeps & E & Hr & Hrun & _).
  assert (r = true) as -> by (apply Hr; by eexists). exists b, sleeps. split; [exact E|]. by apply Hrun.
Defined.

Lemma pnp_settled_witness :
  exists b r t, Windows.Start (Some (110 * tsec)) true (100 * tsec) (replicate 3 (Windows.mkEnv true None)) (mkBridge false [] EStopped) =
    Some (b, r, Some t) /\ 125 * tsec <= t.
Proof.
  destruct (pnp_settled (100 * tsec) 0 (110 * tsec) (mkBridge true [] ERunning) true (replicate 3 (Windows.mkEnv true None))
    eq_refl ltac:(done) ltac:(done) ltac:(simpl; lia)) as (_ & b & r & t & E & H & _).
  exists b, r, t. by split.
Defined.

Lemma utun_detection_witness :
  Darwin.findNewUtun elements (Darwin.listUtunInterfaces None) (Darwin.listUtunInterfaces (Some [str "utun3"])) = str "utun3".
Proof. apply (utun_detection elements [] [] (str "utun3")); [intros s i; apply elem_of_elements|by vm_compute]. Defined.

Lemma darwin_stale_iface_witness :
  Darwin.IfaceName (Darwin.startOnce (Darwin.mkEnv None true (Some [str "utun3"]) (fun _ => [str "utun3"]) false) NewTUNBridge).1 = str "utun3".
Proof.
  pose proof (darwin_stale_iface (Darwin.mkEnv None true (Some [str "utun3"]) (fun _ => [str "utun3"]) false) NewTUNBridge (str "utun3")) as G.
  destruct (Darwin.startOnce _ _) as [b ok]. apply G; [|done|done|done].
  unfold Darwin.findNewUtun. cbn [Darwin.ae_order Darwin.ae_before find Darwin.listUtunInterfaces]. by rewrite bool_decide_true by set_solver.
Defined.
