(* ===== verification/ProcFilter.v ===== *)
(** * ProcFilter: refusing torrent clients at the listener (procfilter_windows.go)

    The lookup of the process behind a local connection in the system's TCP table, the
    decision by executable name, and the filtering [Accept].  What the Windows calls
    return is an argument.  [filepath.Base] is modelled for paths with or without a
    drive letter, and lower-casing for ASCII. *)
From S2P Require Import Prelude Encoding Env.

Definition torrentExeNames : list bytes :=
  [str "qbittorrent.exe"; str "utorrent.exe"; str "bittorrent.exe"; str "transmission.exe"; str "transmission-qt.exe";
   str "deluge.exe"; str "vuze.exe"; str "tixati.exe"; str "bitcomet.exe"; str "biglybt.exe"; str "webtorrent.exe"; str "frostwire.exe"].

Record mibTcpRowOwnerPid := mkRow { row_localAddr : Z; row_localPort : Z; row_owningPid : Z }.

(** The port in network byte order in the low 16 bits. *)
Definition netPort (port : Z) : Z := Z.lor (Z.shiftr port 8) (Z.shiftl (Z.land port 255) 8).

(** [find_ok]: the procedure exists; [size]: what the first call reports; [ret]: the
    result of the second; [rows]: the table it filled in. *)
Definition pidForLocalPort (find_ok : bool) (size ret : Z) (rows : list mibTcpRowOwnerPid) (port : Z) : res Z :=
  if negb find_ok then Err "procedure not found" else
  if size =? 0 then Panic else                     (* &buf[0] of an empty buffer *)
  if negb (ret =? 0) then Err "errno" else
  match find (fun row => (row_localPort row mod 2 ^ 16) =? (netPort port mod 2 ^ 16)) rows with
  | Some row => Ok (row_owningPid row)
  | None => Ok 0
  end.

(** ** The name of the executable *)

Definition is_sep (b : byte) : bool := byte_eqb b x5c || byte_eqb b x2f.

Definition after_last_sep (p : bytes) : bytes := fold_left (fun acc b => if is_sep b then [] else acc ++ [b]) p [].

Definition drop_drive (p : bytes) : bytes :=
  match p with
  | a :: b :: rest => if byte_eqb b x3a && ((65 <=? b2z a) && (b2z a <=? 90) || (97 <=? b2z a) && (b2z a <=? 122)) then rest else p
  | _ => p
  end.

Fixpoint drop_seps (p : bytes) : bytes := match p with b :: p' => if is_sep b then drop_seps p' else p | [] => [] end.

(** [filepath.Base]. *)
Definition base (p : bytes) : bytes :=
  if bool_decide (p = []) then str "." else
  let p := after_last_sep (drop_drive (rev (drop_seps (rev p)))) in
  if bool_decide (p = []) then [x5c] else p.

Section filter.
Context (find_ok : bool) (size ret : Z) (rows : list mibTcpRowOwnerPid) (exeNameForPID : Z -> option bytes).

(** [remote]: the port of a TCP peer, nothing for another kind of address. *)
Definition isTorrentConn (remote : option Z) : res bool :=
  match remote with
  | None => Ok false
  | Some port =>
    if port =? 0 then Ok false else
    match pidForLocalPort find_ok size ret rows port with
    | Panic => Panic
    | Err _ => Ok false
    | Ok pid =>
      if pid =? 0 then Ok false else
      match exeNameForPID pid with
      | None => Ok false
      | Some name => Ok (bool_decide (to_lower (base name) ∈ torrentExeNames))
      end
    end
  end.

(** The listener's answers: a connection (its number and peer) or an error.  The
    result is what [Accept] returns and the connections it has closed; nothing while
    it still waits. *)
Fixpoint Accept (incoming : list (nat * option Z + bytes)) : res (option (nat + bytes) * list nat) :=
  match incoming with
  | [] => Ok (None, [])
  | inr e :: _ => Ok (Some (inr e), [])
  | inl (c, remote) :: incoming =>
    t ← isTorrentConn remote;
    if t : bool then r ← Accept incoming; Ok (r.1, c :: r.2) else Ok (Some (inl c), [])
  end.
End filter.

(** ** Properties *)

Lemma land_shifted a x : 0 <= a < 256 -> Z.land a (Z.shiftl x 8) = 0.
Proof.
  intros Ha. apply Z.bits_inj'. intros n Hn. rewrite Z.land_spec, Z.shiftl_spec, Z.bits_0 by done.
  destruct (Z.lt_ge_cases n 8) as [Hlt|Hge].
  - rewrite (Z.testbit_neg_r x) by lia. apply andb_false_r.
  - rewrite <- (Z.mod_small a (2 ^ 8)) by lia. by rewrite Z.mod_pow2_bits_high by lia.
Qed.

Lemma net_port_swap port : 0 <= port < 2 ^ 16 -> netPort port = port / 256 + port mod 256 * 256.
Proof.
  intros Hp. unfold netPort. assert (0 <= port / 256 < 256) as Hh by (split; [apply Z.div_pos; lia|apply Z.div_lt_upper_bound; lia]).
  rewrite Z.shiftr_div_pow2 by lia. change (2 ^ 8) with 256. rewrite <- Z.add_nocarry_lor by (by apply land_shifted).
  change 255 with (Z.ones 8). rewrite Z.land_ones by lia. rewrite Z.shiftl_mul_pow2 by lia. done.
Qed.

Lemma net_port_range port : 0 <= port < 2 ^ 16 -> 0 <= netPort port < 2 ^ 16.
Proof. intros Hp. rewrite net_port_swap by done. Z.div_mod_to_equations. lia. Qed.

Lemma net_port_inj p q : 0 <= p < 2 ^ 16 -> 0 <= q < 2 ^ 16 -> netPort p = netPort q -> p = q.
Proof. intros Hp Hq. rewrite !net_port_swap by done. Z.div_mod_to_equations. lia. Qed.

(** A row as the system fills it in: the port of the socket in network order. *)
Definition row_port (row : mibTcpRowOwnerPid) (port : Z) : Prop := row_localPort row mod 2 ^ 16 = netPort port.

(** The table lookup compares ports correctly across the byte order: a row matches
    exactly when its socket's port is the one asked for, so with no such row the answer
    is "unknown".  But it takes the first such row, whatever its address: when another
    process has the same port on another address and is listed first, that process is
    the answer.  And a size of 0 from the first call makes it panic. *)
Theorem tcp_table_lookup (rows1 rows2 : list mibTcpRowOwnerPid) (row : mibTcpRowOwnerPid) (port size : Z) (ports : mibTcpRowOwnerPid -> Z)
    (Hport : 0 <= port < 2 ^ 16) (Hports : forall r, r ∈ rows1 ++ row :: rows2 -> row_port r (ports r) /\ 0 <= ports r < 2 ^ 16)
    (Hsize : size <> 0) (Hrow : ports row = port) (Hbefore : forall r, r ∈ rows1 -> ports r <> port) :
  pidForLocalPort true size 0 (rows1 ++ row :: rows2) port = Ok (row_owningPid row) /\
  pidForLocalPort true size 0 rows1 port = Ok 0 /\
  (forall row', row_port row' port -> pidForLocalPort true size 0 (row' :: rows1 ++ row :: rows2) port = Ok (row_owningPid row')) /\
  pidForLocalPort true 0 0 (rows1 ++ row :: rows2) port = Panic.
Proof.
  pose proof (net_port_range port Hport) as Hr.
  assert (forall r, row_port r port -> (row_localPort r mod 2 ^ 16 =? netPort port mod 2 ^ 16) = true) as Hyes.
  { intros r Er. rewrite Er, (Z.mod_small (netPort port)) by done. apply Z.eqb_refl. }
  assert (forall r, r ∈ rows1 -> (row_localPort r mod 2 ^ 16 =? netPort port mod 2 ^ 16) = false) as Hno.
  { intros r Hin. destruct (Hports r) as [Er Hrr]; [apply elem_of_app; by left|]. rewrite Er, (Z.mod_small (netPort port)) by done.
    apply Z.eqb_neq. intros Eq. apply (Hbefore r Hin). by apply net_port_inj. }
  unfold pidForLocalPort. cbn [negb]. rewrite (proj2 (Z.eqb_neq _ _) Hsize). cbn [negb Z.eqb].
  assert (forall l, find (fun r => row_localPort r mod 2 ^ 16 =? netPort port mod 2 ^ 16) (rows1 ++ l) =
                    find (fun r => row_localPort r mod 2 ^ 16 =? netPort port mod 2 ^ 16) l) as Hskip.
  { intros l. clear Hports Hbefore. induction rows1 as [|r rows1 IH]; [done|]. cbn [app find]. rewrite Hno by left. apply IH. intros r' Hin. apply Hno. by right. }
  split; [|split; [|split; [|done]]].
  - rewrite Hskip. cbn [find]. destruct (Hports row) as [Er _]; [apply elem_of_app; right; left|]. rewrite Hrow in Er. by rewrite (Hyes row Er).
  - rewrite <- (app_nil_r rows1). by rewrite Hskip.
  - intros row' Er. cbn [find]. by rewrite (Hyes row' Er).
Qed.

(** *** The executable's name *)

Lemma after_last_sep_app p q : Forall (fun b => is_sep b = false) q -> forall b, is_sep b = true -> after_last_sep (p ++ b :: q) = q.
Proof.
  intros Hq b Hb. unfold after_last_sep. rewrite fold_left_app. cbn [fold_left]. rewrite Hb.
  assert (forall acc, fold_left (fun acc b => if is_sep b then [] else acc ++ [b]) q acc = acc ++ q) as G; [|by rewrite G].
  induction Hq as [|x q Hx _ IH]; intros acc; cbn [fold_left]; [by rewrite app_nil_r|]. rewrite Hx, IH, <- app_assoc. done.
Qed.

Lemma base_file dir file b :
  file <> [] -> Forall (fun c => is_sep c = false) file -> is_sep b = true -> base (x43 :: x3a :: b :: dir ++ b :: file) = file.
Proof.
  intros Hne Hf Hb. unfold base. rewrite bool_decide_false by done. cbv zeta.
  assert (rev (drop_seps (rev (x43 :: x3a :: b :: dir ++ b :: file))) = x43 :: x3a :: b :: dir ++ b :: file) as ->.
  { destruct (exists_last Hne) as (f & l & ->). assert (is_sep l = false) as Hl by (apply Forall_app in Hf as [_ Hl]; by inversion Hl).
    replace (x43 :: x3a :: b :: dir ++ b :: f ++ [l]) with ((x43 :: x3a :: b :: dir ++ b :: f) ++ [l]) by (cbn; by rewrite <- app_assoc).
    rewrite rev_unit. cbn [drop_seps]. rewrite Hl. rewrite <- rev_unit. apply rev_involutive. }
  change (drop_drive (x43 :: x3a :: b :: dir ++ b :: file)) with (b :: dir ++ b :: file).
  change (b :: dir ++ b :: file) with ((b :: dir) ++ b :: file). rewrite after_last_sep_app by done. by rewrite bool_decide_false.
Qed.

(** The filtering [Accept] hands out the first connection that is not from a known
    torrent client and has closed exactly the ones before it, which all were; an error
    of the listener is returned.  A process is known by the name of its executable
    alone, in any directory of the drive and in any case. *)
Theorem accept_filters (find_ok : bool) (size ret : Z) (rows : list mibTcpRowOwnerPid) (exe : Z -> option bytes)
    (bad : list (nat * option Z)) (next : nat * option Z + bytes) (rest : list (nat * option Z + bytes))
    (Hbad : forall c, c ∈ bad -> isTorrentConn find_ok size ret rows exe c.2 = Ok true)
    (Hnext : forall c, next = inl c -> isTorrentConn find_ok size ret rows exe c.2 = Ok false) :
  Accept find_ok size ret rows exe ((inl <$> bad) ++ next :: rest) =
    Ok (Some (match next with inl c => inl c.1 | inr e => inr e end), fst <$> bad) /\
  (forall port pid dir file b, pidForLocalPort find_ok size ret rows port = Ok pid -> port <> 0 -> pid <> 0 ->
     exe pid = Some (x43 :: x3a :: b :: dir ++ b :: file) -> is_sep b = true -> file <> [] -> Forall (fun c => is_sep c = false) file ->
     isTorrentConn find_ok size ret rows exe (Some port) = Ok (bool_decide (to_lower file ∈ torrentExeNames))).
Proof.
  split.
  - induction bad as [|[c r] bad IH].
    + cbn. destruct next as [[c r]|e]; [|done]. pose proof (Hnext (c, r) eq_refl) as Hx. cbn [snd] in Hx. by rewrite Hx.
    + rewrite !fmap_cons. cbn [app Accept]. pose proof (Hbad (c, r) ltac:(left)) as Hx. cbn [snd] in Hx. rewrite Hx. cbn [mbind res_bind].
      rewrite IH by (intros c' Hc'; apply Hbad; by right). done.
  - intros port pid dir file b Hp H0 Hpid He Hb Hne Hf. unfold isTorrentConn. rewrite (proj2 (Z.eqb_neq _ _) H0), Hp.
    rewrite (proj2 (Z.eqb_neq _ _) Hpid), He. by rewrite base_file.
Qed.

(** ** Concrete runs *)

Module Toy_proc.
Definition row (port pid : Z) : mibTcpRowOwnerPid := mkRow 0 (netPort port) pid.
Definition table : list mibTcpRowOwnerPid := [row 1080 7; row 50000 42; row 50001 43].
Definition exe (pid : Z) : option bytes :=
  if pid =? 42 then Some (str "C:/Apps/uTorrent.EXE") else if pid =? 43 then Some (str "C:/Apps/browser.exe") else None.
End Toy_proc.
Import Toy_proc.

Lemma tcp_table_lookup_witness : pidForLocalPort true 76 0 table 50000 = Ok 42.
Proof.
  apply (tcp_table_lookup [row 1080 7] [row 50001 43] (row 50000 42) 50000 76
    (fun r => if row_owningPid r =? 7 then 1080 else if row_owningPid r =? 42 then 50000 else 50001)); [lia| |done|done|].
  - intros r Hin. vm_compute in Hin. repeat apply elem_of_cons in Hin as [->|Hin]; [by vm_compute..|by apply elem_of_nil in Hin].
  - intros r ->%list_elem_of_singleton. done.
Defined.

Lemma accept_filters_witness :
  Accept true 76 0 table exe [inl (1%nat, Some 50000); inl (2%nat, Some 50001)] = Ok (Some (inl 2%nat), [1%nat]).
Proof.
  apply (accept_filters true 76 0 table exe [(1%nat, Some 50000)] (inl (2%nat, Some 50001)) []).
  - intros c ->%list_elem_of_singleton. by vm_compute.
  - intros c [= <-]. by vm_compute.
Defined.
