(* ===== verification/Tls.v ===== *)
(** * Tls: channel marking and connection set-up of the TLS transports (tls.go)

    Every TLS connection to a control or an exit names its channel in the first two
    bytes of the hello's session identifier.  uTLS is an argument: the session
    identifier it prepares (nothing when that fails) and whether the handshake
    succeeds; so are the dialers.  The connection pools of net/http are not
    modelled. *)
From S2P Require Import Prelude Encoding Env.

Definition chMagic : byte := xa7.
Definition ChTunnel : byte := x00.
Definition ChRelayAPI : byte := x01.
Definition ChSignal : byte := x02.
Definition ChNATRelay : byte := x03.
Definition ChParaExit : byte := x04.

(** [ControlSNILookup] may be nil. *)
Definition sniFor (lookup : option (bytes -> bytes)) (addr : bytes) : bytes := match lookup with None => [] | Some f => f addr end.

(** [sid[0] = chMagic; sid[1] = channelType], when there is room. *)
Definition mark_session (channelType : byte) (sid : bytes) : bytes :=
  if zlen sid >=? 2 then chMagic :: channelType :: drop 2 sid else sid.

(** What setting a connection up leaves: the hello sent, whether it is usable, and
    whether the raw connection was closed. *)
Record tls_result := mkTls { tr_hello : option bytes; tr_sni : bytes; tr_ok : bool; tr_closed : bool }.

(** The steps after the TCP connection is there. *)
Definition handshake (build : option bytes) (ok : bytes -> bool) (channelType : byte) (sni : bytes) : tls_result :=
  match build with
  | None => mkTls None sni false true
  | Some sid => let hello := mark_session channelType sid in
                if ok hello then mkTls (Some hello) sni true false else mkTls (Some hello) sni false true
  end.

Definition wrapUTLS (build : option bytes) (ok : bytes -> bool) (channelType : byte) (serverName : bytes) : tls_result :=
  handshake build ok channelType serverName.

(** [dialUTLS]: the override, if there is one, else the protected dialer; [None] when
    the TCP connection fails. *)
Definition dialUTLS (rawDial : option (bytes -> bool)) (dial : bytes -> bool) (lookup : option (bytes -> bytes))
    (build : option bytes) (ok : bytes -> bool) (channelType : byte) (addr : bytes) : option tls_result :=
  if (match rawDial with Some f => f addr | None => dial addr end)
  then Some (handshake build ok channelType (sniFor lookup addr)) else None.

Definition newUTLSTransport := dialUTLS None.

(** The client for the relay API: its own dialer, always the API channel. *)
Definition newUTLSH1Client (dial : bytes -> bool) (lookup : option (bytes -> bytes)) (build : option bytes) (ok : bytes -> bool)
    (addr : bytes) : option tls_result :=
  if dial addr then Some (handshake build ok ChRelayAPI (sniFor lookup addr)) else None.

Inductive transport := H1 | H2.

(** [utlsRoundTripper.RoundTrip]. *)
Definition RoundTrip (scheme : bytes) : transport := if bool_decide (scheme = str "https") then H2 else H1.

(** ** Browser presets *)

Section presets.
Context {Hello : Type} `{EqDecision Hello} (Chrome Firefox Edge Safari : Hello) (full_name : Hello -> bytes).

Definition utlsPresets : list Hello := [Chrome; Chrome; Firefox; Edge; Safari].
Definition AllUTLSPresets : list Hello := [Chrome; Firefox; Edge; Safari].

Definition pickPreset (draw : Z) : option Hello := utlsPresets !! Z.to_nat (draw mod zlen utlsPresets).

Definition PresetName (p : Hello) : bytes :=
  if decide (p = Chrome) then str "Chrome"
  else if decide (p = Firefox) then str "Firefox"
  else if decide (p = Edge) then str "Edge"
  else if decide (p = Safari) then str "Safari"
  else full_name p.

(** A preset is always picked, from exactly the presets the diagnostics list, and
    where the library's identifiers differ those have different names, none of which
    is the library's own. *)
Theorem presets_listed (draw : Z) (Hd : NoDup AllUTLSPresets) :
  (exists p, pickPreset draw = Some p /\ p ∈ AllUTLSPresets) /\
  (forall p, p ∈ AllUTLSPresets -> exists draw, pickPreset draw = Some p) /\
  NoDup (PresetName <$> AllUTLSPresets).
Proof.
  split; [|split].
  - pose proof (Z.mod_pos_bound draw 5 ltac:(lia)) as Hb. unfold pickPreset. change (zlen utlsPresets) with 5.
    destruct (lookup_lt_is_Some_2 utlsPresets (Z.to_nat (draw mod 5))) as [p Hp]; [cbn; lia|]. exists p. split; [done|].
    apply list_elem_of_lookup_2 in Hp. unfold utlsPresets, AllUTLSPresets in *. set_solver.
  - unfold AllUTLSPresets. intros p Hp. repeat apply elem_of_cons in Hp as [->|Hp]; [by exists 0|by exists 2|by exists 3|by exists 4|by apply elem_of_nil in Hp].
  - unfold AllUTLSPresets in Hd. rewrite !NoDup_cons, !elem_of_cons, elem_of_nil in Hd. destruct Hd as (D1 & D2 & D3 & _).
    unfold AllUTLSPresets, PresetName. rewrite !fmap_cons, fmap_nil.
    rewrite (decide_True (P := Chrome = Chrome)), (decide_False (P := Firefox = Chrome)), (decide_True (P := Firefox = Firefox)),
      (decide_False (P := Edge = Chrome)), (decide_False (P := Edge = Firefox)), (decide_True (P := Edge = Edge)),
      (decide_False (P := Safari = Chrome)), (decide_False (P := Safari = Firefox)), (decide_False (P := Safari = Edge)),
      (decide_True (P := Safari = Safari)) by naive_solver.
    apply (bool_decide_unpack _). by vm_compute.
Qed.
End presets.

(** The server's side: the channel of a hello, if it is marked. *)
Definition channel_of (hello : bytes) : option byte :=
  match hello with m :: ch :: _ => if byte_eqb m chMagic then Some ch else None | _ => None end.

(** Whatever the transport, a connection that is handed out has completed its
    handshake with a hello whose session identifier, when it has two bytes, names the
    channel to the server and is otherwise the one prepared; and the TCP connection is
    closed exactly when the set-up fails after it was dialled, so none is left open. *)
Theorem channel_marked (rawDial : option (bytes -> bool)) (dial : bytes -> bool) (lookup : option (bytes -> bytes)) (build : option bytes)
    (ok : bytes -> bool) (ch : byte) (addr : bytes) (r : tls_result)
    (Hr : dialUTLS rawDial dial lookup build ok ch addr = Some r \/ (ch = ChRelayAPI /\ newUTLSH1Client dial lookup build ok addr = Some r) \/
          r = wrapUTLS build ok ch (sniFor lookup addr)) :
  tr_closed r = negb (tr_ok r) /\ tr_sni r = sniFor lookup addr /\
  (tr_ok r = true -> exists sid hello, build = Some sid /\ tr_hello r = Some hello /\ ok hello = true /\ length hello = length sid /\
     drop 2 hello = drop 2 sid /\ (2 <= zlen sid -> channel_of hello = Some ch) /\ (zlen sid < 2 -> hello = sid)).
Proof.
  assert (r = handshake build ok ch (sniFor lookup addr)) as ->.
  { destruct Hr as [Hr|[[-> Hr]|Hr]]; [| |exact Hr].
    - unfold dialUTLS in Hr. destruct (match rawDial with Some f => f addr | None => dial addr end); congruence.
    - unfold newUTLSH1Client in Hr. destruct (dial addr); congruence. }
  unfold handshake. destruct build as [sid|]; [|by cbn]. destruct (ok (mark_session ch sid)) eqn:Eo; cbn; [|by split_and!].
  split; [done|]. split; [done|]. intros _. exists sid, (mark_session ch sid). split; [done|]. split; [done|]. split; [done|].
  unfold mark_session. destruct (zlen sid >=? 2) eqn:E.
  - destruct sid as [|a [|b sid]]; [done|done|]. cbn. split; [done|]. split; [done|]. split; [done|]. unfold zlen. cbn. lia.
  - split; [done|]. split; [done|]. split; [lia|done].
Qed.

Lemma presets_listed_witness : exists p, pickPreset 1%nat 2%nat 3%nat 4%nat 77 = Some p /\ p ∈ AllUTLSPresets 1%nat 2%nat 3%nat 4%nat.
Proof. apply (presets_listed 1%nat 2%nat 3%nat 4%nat (fun _ => [])). apply (bool_decide_unpack _). by vm_compute. Defined.

Lemma channel_marked_witness : tr_closed (wrapUTLS (Some (make_bytes 32)) (fun _ => true) ChParaExit []) = false.
Proof.
  apply (channel_marked None (fun _ => true) None (Some (make_bytes 32)) (fun _ => true) ChParaExit []). right. right. reflexivity.
Defined.
