(* ===== verification/Punch.v ===== *)
(** * Punch: hole punching and NAT probing (holepunch.go, nat.go)

    One [punch] is the interleaving of the goroutine that sends probes and the
    loop that reads until an authentic probe arrives or a read fails.  Two of them
    run against each other over a network that loses, delays, repeats and reorders
    datagrams and brings in foreign ones of any content, each possibly behind a NAT that lets nothing in before something went
    out.  [probeExternalEndpoint] is one exchange with a reflector. *)
From S2P Require Import Prelude Encoding Env DhtId DhtTable DhtRelay DhtWire UdpRelay UdpAssoc Cidr Bypass Socks5 MirrorTransport.

Definition PunchTimeout : Z := 3000000000.
Definition punchInterval : Z := 100000000.
Definition punch_buf : nat := 256.
Definition natTimeout : Z := 3000000000.
Definition natMaxRespPkt : nat := 256.

(** ** One side *)

Inductive punch_phase := PReading | PSucceeded | PFailed.

#[global] Instance punch_phase_eq_dec : EqDecision punch_phase.
Proof. solve_decision. Defined.

Record puncher := mkPuncher {
  pu_phase : punch_phase;
  pu_stop : bool;              (* the channel stop is closed *)
  pu_sender : bool;            (* the sending goroutine runs *)
  pu_open : bool;              (* the socket *)
  pu_deadline : bool;          (* a deadline is set on the socket *)
  pu_probesSent : Z
}.

Section punch.
Context `{AEAD}.

(** [punch] up to the start of its loops: what resolving and dialling returned. *)
Definition punch (resolved dialled : bool) : res puncher :=
  if negb resolved then Err "punch: resolve" else
  if negb dialled then Err "punch: dial" else
  Ok (mkPuncher PReading false true true true 0).

(** [stopOnce]. *)
Definition stopOnce (p : puncher) : puncher :=
  mkPuncher (pu_phase p) true (pu_sender p) (pu_open p) (pu_deadline p) (pu_probesSent p).

(** The sender takes the ticker's case: what it writes.  A write to the closed
    socket fails, and is counted all the same. *)
Definition sender_tick (rnd : seal_rnd) (p : puncher) : puncher * list bytes :=
  if negb (pu_sender p) then (p, []) else
  match build_probe rnd with
  | Ok pkt => (mkPuncher (pu_phase p) (pu_stop p) (pu_sender p) (pu_open p) (pu_deadline p) (pu_probesSent p + 1),
               if pu_open p then [pkt] else [])
  | _ => (p, [])
  end.

(** The sender takes the case [<-stop]. *)
Definition sender_quit (p : puncher) : puncher :=
  if pu_stop p then mkPuncher (pu_phase p) (pu_stop p) false (pu_open p) (pu_deadline p) (pu_probesSent p) else p.

(** Whether a datagram, cut to the read buffer, is an authentic probe. *)
Definition is_probe (pkt : bytes) : bool :=
  match Open (take punch_buf pkt) with Ok (t, _, _) => byte_eqb t MsgHolePunch | _ => false end.

(** The reading loop gets a datagram. *)
Definition punch_recv (pkt : bytes) (p : puncher) : puncher :=
  match pu_phase p with
  | PReading =>
    if is_probe pkt
    then let p := stopOnce p in mkPuncher PSucceeded (pu_stop p) (pu_sender p) (pu_open p) false (pu_probesSent p)
    else p
  | _ => p
  end.

(** The read fails: the deadline, or any other error. *)
Definition punch_read_error (p : puncher) : puncher :=
  match pu_phase p with
  | PReading => let p := stopOnce p in mkPuncher PFailed (pu_stop p) (pu_sender p) false (pu_deadline p) (pu_probesSent p)
  | _ => p
  end.

(** ** Two sides and the network between them *)

Inductive side := A | B.
Definition other (x : side) : side := match x with A => B | B => A end.

Record world := mkWorld {
  w_a : puncher; w_b : puncher;
  w_sent_a : list bytes; w_sent_b : list bytes;        (* every datagram written *)
  w_foreign_a : list bytes; w_foreign_b : list bytes   (* every datagram read that the peer did not write *)
}.
Definition at_side (w : world) (x : side) : puncher := match x with A => w_a w | B => w_b w end.
Definition sent_by (w : world) (x : side) : list bytes := match x with A => w_sent_a w | B => w_sent_b w end.
Definition foreign_to (w : world) (x : side) : list bytes := match x with A => w_foreign_a w | B => w_foreign_b w end.
Definition update (w : world) (x : side) (p : puncher) (out : list bytes) : world :=
  match x with
  | A => mkWorld p (w_b w) (w_sent_a w ++ out) (w_sent_b w) (w_foreign_a w) (w_foreign_b w)
  | B => mkWorld (w_a w) p (w_sent_a w) (w_sent_b w ++ out) (w_foreign_a w) (w_foreign_b w)
  end.
Definition intrude (w : world) (x : side) (pkt : bytes) : world :=
  match x with
  | A => mkWorld (w_a w) (w_b w) (w_sent_a w) (w_sent_b w) (w_foreign_a w ++ [pkt]) (w_foreign_b w)
  | B => mkWorld (w_a w) (w_b w) (w_sent_a w) (w_sent_b w) (w_foreign_a w) (w_foreign_b w ++ [pkt])
  end.

(** [filtered x]: the NAT of side [x] drops what arrives before [x] sent anything. *)
Context (filtered : side -> bool).

Inductive world_step : world -> world -> Prop :=
| WTick w x rnd p out :
    sender_tick rnd (at_side w x) = (p, out) -> world_step w (update w x p out)
| WQuit w x : world_step w (update w x (sender_quit (at_side w x)) [])
| WDeliver w x pkt :
    pkt ∈ sent_by w (other x) -> (filtered x = true -> sent_by w x <> []) ->
    world_step w (update w x (punch_recv pkt (at_side w x)) [])
| WNoise w x pkt :                               (* whatever claims to come from the peer's address *)
    (filtered x = true -> sent_by w x <> []) ->
    world_step w (update (intrude w x pkt) x (punch_recv pkt (at_side w x)) [])
| WError w x : world_step w (update w x (punch_read_error (at_side w x)) []).

Definition fresh : puncher := mkPuncher PReading false true true true 0.
Definition start_world : world := mkWorld fresh fresh [] [] [] [].
Definition punch_reach : world -> Prop := rtc world_step start_world.
End punch.

Lemma at_update w x p out y : at_side (update w x p out) y = match x, y with A, A | B, B => p | _, _ => at_side w y end.
Proof. by destruct x, y. Qed.

Lemma sent_update w x p out y :
  sent_by (update w x p out) y = sent_by w y ++ match x, y with A, A | B, B => out | _, _ => [] end.
Proof. by destruct x, y; simpl; rewrite ?app_nil_r. Qed.

(** A datagram whose first 256 bytes open under the network's key as a probe. *)
Definition opens_as_probe `{AEAD} (pkt : bytes) : Prop :=
  exists ttl body, Open (take 256 pkt) = Ok (MsgHolePunch, ttl, body).

Section punch_facts.
Context `{AEADLaws} (filtered : side -> bool).

(** A probe fits the read buffer, and is taken for what it is. *)
Lemma built_probe_is_probe rnd pkt : build_probe rnd = Ok pkt -> is_probe pkt = true.
Proof.
  intros E. destruct (open_of_seal rnd MsgHolePunch 1 (@None Empty_set) pkt ltac:(lia) E) as (body & _ & Ho).
  destruct (seal_shape _ _ _ _ _ E) as (body' & nonce & pad & Hb & Hn & Hpad & Hpkt). injection Hb as <-.
  assert (zlen dht_key = key_size) as Hk by apply blake2b_length.
  assert (zlen pkt <= 256) as Hlen.
  { rewrite Hpkt, zlen_app, aead_seal_length by done. unfold nonce_size, aead_overhead in *.
    autorewrite with wire. lia. }
  unfold is_probe. rewrite take_ge by (unfold zlen, punch_buf in *; lia). rewrite Ho. by apply bool_decide_eq_true.
Qed.

Lemma is_probe_opens pkt : is_probe pkt = true -> opens_as_probe pkt.
Proof.
  unfold is_probe, opens_as_probe. change punch_buf with 256%nat. destruct (Open _) as [[[t ttl] body]| |]; [|done..].
  intros Ht. apply bool_decide_eq_true in Ht as ->. by exists ttl, body.
Qed.

(** What a side that succeeded must have been sent. *)
Definition justified (w : world) (x : side) : Prop :=
  sent_by w (other x) <> [] \/ exists pkt, pkt ∈ foreign_to w x /\ opens_as_probe pkt.

(** What every side keeps true of itself and of what was sent. *)
Record side_ok (w : world) (x : side) : Prop := {
  so_sent : Forall (fun p => is_probe p = true) (sent_by w x);
  so_stopped : pu_phase (at_side w x) <> PReading -> pu_stop (at_side w x) = true;
  so_quit : pu_sender (at_side w x) = false -> pu_stop (at_side w x) = true;
  so_open : pu_open (at_side w x) = true <-> pu_phase (at_side w x) <> PFailed;
  so_deadline : pu_phase (at_side w x) = PSucceeded -> pu_deadline (at_side w x) = false;
  so_won : pu_phase (at_side w x) = PSucceeded ->
    justified w x /\ (filtered x = true -> sent_by w x <> [])
}.
Definition world_ok (w : world) : Prop := forall x, side_ok w x.

Lemma app_not_nil {X} (l l' : list X) : l <> [] -> l ++ l' <> [].
Proof. by destruct l. Qed.
Hint Resolve app_not_nil : core.

Lemma justified_update w x p out y : justified w y -> justified (update w x p out) y.
Proof. intros [Hs|(pkt & Hin & Ho)]; [left; rewrite sent_update; auto|right; exists pkt; by destruct x]. Qed.
Lemma justified_intrude w x pkt y : justified w y -> justified (intrude w x pkt) y.
Proof.
  intros [Hs|(q & Hin & Ho)]; [left; by destruct x, y|right]. exists q. split; [|done]. destruct x, y; simpl in *; try done; apply elem_of_app; by left.
Qed.
Hint Resolve justified_update justified_intrude : core.

(** A step of one side leaves the other side's facts alone. *)
Lemma side_ok_other w x p out : side_ok w (other x) -> side_ok (update w x p out) (other x).
Proof.
  intros [S1 S2 S3 S4 S5 S6]. split.
  6:{ intros E. assert (pu_phase (at_side w (other x)) = PSucceeded) as E' by (by destruct x). destruct (S6 E').
      split; [auto|]. intros Hf. rewrite sent_update. auto. }
  all: destruct x; simpl in *; rewrite ?app_nil_r; auto.
Qed.

Lemma world_ok_update w x p out : world_ok w -> side_ok (update w x p out) x -> world_ok (update w x p out).
Proof.
  intros Hw Hx y. destruct (side_ok_other w x p out (Hw (other x))).
  destruct x, y; (exact Hx || by split).
Qed.

Lemma intrude_ok w x pkt : world_ok w -> world_ok (intrude w x pkt).
Proof.
  intros Hw y. destruct (Hw y) as [S1 S2 S3 S4 S5 S6]. split.
  6:{ intros E. assert (pu_phase (at_side w y) = PSucceeded) as E' by (by destruct x, y). destruct (S6 E'). split; [auto|by destruct x, y]. }
  all: by destruct x, y.
Qed.

Lemma sender_tick_ok w x rnd p out :
  world_ok w -> sender_tick rnd (at_side w x) = (p, out) -> side_ok (update w x p out) x.
Proof.
  intros Hw Ht. destruct (Hw x) as [S1 S2 S3 S4 S5 S6].
  assert (pu_phase p = pu_phase (at_side w x) /\ pu_stop p = pu_stop (at_side w x) /\ pu_sender p = pu_sender (at_side w x) /\
    pu_open p = pu_open (at_side w x) /\ pu_deadline p = pu_deadline (at_side w x) /\ Forall (fun p => is_probe p = true) out) as (E1 & E2 & E3 & E4 & E5 & E6).
  { revert Ht. unfold sender_tick. destruct (negb _); [by intros [= <- <-]|].
    destruct (build_probe rnd) as [pkt| |] eqn:Eb; intros [= <- <-]; split_and!; auto.
    apply built_probe_is_probe in Eb. destruct (pu_open _); auto. }
  assert (at_side (update w x p out) x = p) as Ep by (by destruct x). split; rewrite ?Ep, ?E1, ?E2, ?E3, ?E4, ?E5; auto.
  - rewrite sent_update. apply Forall_app. split; [done|]. by destruct x.
  - intros E. destruct (S6 E). split; [auto|]. intros Hf. rewrite sent_update. auto.
Qed.

Lemma punch_recv_ok w x pkt :
  world_ok w -> (is_probe pkt = true -> justified w x) -> (filtered x = true -> sent_by w x <> []) ->
  side_ok (update w x (punch_recv pkt (at_side w x)) []) x.
Proof.
  intros Hw Hp Hf. destruct (Hw x) as [S1 S2 S3 S4 S5 S6].
  assert (at_side (update w x (punch_recv pkt (at_side w x)) []) x = punch_recv pkt (at_side w x)) as Ep by (by destruct x).
  assert (sent_by (update w x (punch_recv pkt (at_side w x)) []) x = sent_by w x) as Es by (by rewrite sent_update; destruct x; rewrite app_nil_r).
  split; rewrite ?Ep, ?Es; [done|..]; unfold punch_recv in *;
    (destruct (pu_phase (at_side w x)) eqn:E; [destruct (is_probe pkt) eqn:F|..]); simpl; rewrite ?E; auto; try done.
  - by rewrite S4.
  - intros Hc. destruct (S6 Hc). split; auto.
Qed.

Lemma world_step_ok w w' : world_step filtered w w' -> world_ok w -> world_ok w'.
Proof.
  intros Hs Hw. destruct Hs as [w x rnd p out Hstep|w x|w x pkt Hin Hf|w x pkt Hf|w x]; apply world_ok_update; try done.
  - by eapply sender_tick_ok.
  - destruct (Hw x) as [S1 S2 S3 S4 S5 S6]. unfold sender_quit.
    destruct (pu_stop (at_side w x)) eqn:E; destruct x; simpl in *; split; simpl; rewrite ?app_nil_r, ?E; auto.
    all: intros Hs; destruct (S6 Hs); split; auto.
  - apply punch_recv_ok; [done| |done]. intros _. left. intros E. rewrite E in Hin. by apply not_elem_of_nil in Hin.
  - by apply intrude_ok.
  - assert (at_side (intrude w x pkt) x = at_side w x) as <- by (by destruct x). apply punch_recv_ok; [by apply intrude_ok| |by destruct x].
    intros Hp%is_probe_opens. right. exists pkt. split; [|done]. destruct x; apply elem_of_app; right; by left.
  - destruct (Hw x) as [S1 S2 S3 S4 S5 S6]. unfold punch_read_error.
    destruct (pu_phase (at_side w x)) eqn:E; destruct x; simpl in *; split; simpl; rewrite ?app_nil_r, ?E; auto; try done.
    all: intros Hs; destruct (S6 Hs); split; auto.
Qed.

Lemma reach_world_ok w : punch_reach filtered w -> world_ok w.
Proof.
  assert (world_ok start_world) as H1 by (intros []; by split).
  intros Hr. unfold punch_reach in Hr. induction Hr as [|w1 w2 w3 Hs _ IH]; [done|]. by apply IH, (world_step_ok w1).
Qed.

(** A probe of the peer that reached a side which still reads ends its wait. *)
Lemma deliver_wins w x pkt :
  pkt ∈ sent_by w (other x) -> is_probe pkt = true -> (filtered x = true -> sent_by w x <> []) ->
  pu_phase (at_side w x) = PReading ->
  exists w', world_step filtered w w' /\ pu_phase (at_side w' x) = PSucceeded.
Proof.
  intros Hin Hp Hf Hr. eexists. split; [by apply (WDeliver filtered w x pkt)|].
  rewrite at_update. unfold punch_recv. rewrite Hr, Hp. by destruct x.
Qed.


Lemma sender_tick_phase rnd p : pu_phase (sender_tick rnd p).1 = pu_phase p.
Proof. unfold sender_tick. destruct (negb _); [done|]. by destruct (build_probe rnd). Qed.

(** What a side that sent nothing and stopped its sender keeps from its peer. *)
Definition abandoned (x : side) (w : world) : Prop :=
  pu_sender (at_side w x) = false /\ sent_by w x = [] /\
  (pu_phase (at_side w (other x)) = PSucceeded -> exists pkt, pkt ∈ foreign_to w (other x) /\ opens_as_probe pkt).

Lemma abandoned_step w w' x : world_step filtered w w' -> abandoned x w -> abandoned x w'.
Proof.
  unfold abandoned. intros Hs (Hq & Hn & Hp).
  destruct Hs as [w y rnd p out Hstep|w y|w y pkt Hin Hf|w y pkt Hf|w y]; rewrite !at_update, sent_update.
  - pose proof (sender_tick_phase rnd (at_side w y)) as Hph. rewrite Hstep in Hph. simpl in Hph. rewrite Hn.
    destruct x, y; simpl in *; rewrite ?Hph; try done; unfold sender_tick in Hstep; rewrite Hq in Hstep.
    all: by injection Hstep as <- <-.
  - rewrite Hn. by destruct x, y; simpl in *; unfold sender_quit; destruct (pu_stop _).
  - rewrite Hn. destruct x, y; simpl in *; try (by rewrite Hn in Hin; apply not_elem_of_nil in Hin).
    all: unfold punch_recv; repeat case_goal; done.
  - assert (forall l, (exists q, q ∈ l /\ opens_as_probe q) -> exists q, q ∈ l ++ [pkt] /\ opens_as_probe q) as Hgrow.
    { intros l (q & ? & ?). exists q. split; [apply elem_of_app; by left|done]. }
    destruct x, y; simpl in *; rewrite Hn; split_and!; try done; unfold punch_recv; repeat case_goal; simpl in *; auto; try congruence.
    all: intros _; exists pkt; split; [apply elem_of_app; right; by left|by apply is_probe_opens].
  - rewrite Hn. destruct x, y; simpl in *; unfold punch_read_error; repeat case_goal; split_and!; simpl; done || congruence || auto.
Qed.

Lemma abandoned_peer w w' x :
  rtc (world_step filtered) w w' -> abandoned x w -> abandoned x w'.
Proof. intros Hr. induction Hr as [|w1 w2 w3 Hs _ IH]; [done|]. intros Hw. by apply IH, (abandoned_step w1). Qed.

(** Without such a NAT (a peer with a public address) one side does leave the other
    behind: it may get its peer's probe before its own ticker fires for the first
    time, stop its sender without having sent anything, and succeed; the peer then
    waits in vain until its deadline, unless a foreign datagram opens as a probe. *)
Theorem punch_one_sided (x : side) (rnd : seal_rnd) (pkt : bytes)
    (Hopen : filtered x = false) (Hb : build_probe rnd = Ok pkt) :
  exists w, punch_reach filtered w /\ pu_phase (at_side w x) = PSucceeded /\ pu_probesSent (at_side w x) = 0 /\
    pu_phase (at_side w (other x)) = PReading /\
    forall w', rtc (world_step filtered) w w' -> pu_phase (at_side w' (other x)) = PSucceeded ->
      exists pkt, pkt ∈ foreign_to w' (other x) /\ opens_as_probe pkt.
Proof.
  pose proof (built_probe_is_probe rnd pkt Hb) as Hp.
  set (w1 := update start_world (other x) (mkPuncher PReading false true true true 1) [pkt]).
  set (w2 := update w1 x (mkPuncher PSucceeded true true true false 0) []).
  set (w3 := update w2 x (mkPuncher PSucceeded true false true false 0) []).
  exists w3. split.
  - unfold punch_reach. apply (rtc_l _ _ w1), (rtc_l _ _ w2), (rtc_once (R := world_step filtered) w2 w3).
    + apply (WTick filtered start_world (other x) rnd). unfold sender_tick. destruct x; simpl; by rewrite Hb.
    + assert (punch_recv pkt (at_side w1 x) = mkPuncher PSucceeded true true true false 0) as E
        by (unfold punch_recv; destruct x; simpl; by rewrite Hp).
      unfold w2. rewrite <- E. apply WDeliver; [destruct x; simpl; by left|by rewrite Hopen].
    + assert (sender_quit (at_side w2 x) = mkPuncher PSucceeded true false true false 0) as E by by destruct x.
      unfold w3. rewrite <- E. apply WQuit.
  - split_and!; [by destruct x..|]. intros w' Hr. apply (abandoned_peer w3 w' x Hr). by destruct x.
Qed.
End punch_facts.

(** ** The external endpoint of this client *)

Section nat_probe.
Context `{AEAD}.

(** [probeExternalEndpoint]: what resolving, dialling and the generator returned;
    [exchange] is the answer to the request, [None] when writing or reading failed.
    The answer is cut to the read buffer. *)
Definition probeExternalEndpoint (resolved dialled : bool) (rnd : option bytes) (now_ms : Z)
    (exchange : bytes -> option bytes) : res ExternalEndpoint :=
  match chacha_new natReflectorKey with
  | Ok _ =>
    if negb resolved then Err "nat: resolve" else
    if negb dialled then Err "nat: dial" else
    match rnd with
    | None => Err "nat: nonce"
    | Some rnd =>
      match exchange (nat_request rnd now_ms) with
      | None => Err "nat: recv"
      | Some pkt => nat_response (take natMaxRespPkt pkt)
      end
    end
  | _ => Err "nat: aead"
  end.

(** [ExternalEndpoint.String]. *)
Definition ExternalEndpoint_String (e : ExternalEndpoint) : bytes :=
  IP_String (ee_IP e) ++ [x3a] ++ Dec.print (ee_Port e).

(** A reflector, as nat.go documents its side: it reads the timestamp and answers
    with the address it saw. *)
Definition reflector (rnd ip : bytes) (port : Z) (req : bytes) : option bytes :=
  match slice req 0 nonce_size, slice_from req nonce_size with
  | Ok nonce, Ok ct =>
    match aead_open natReflectorKey nonce ct with
    | Some ts => if zlen ts =? 8 then Some (reflect_answer rnd ip port) else None
    | None => None
    end
  | _, _ => None
  end.
End nat_probe.

Section nat_facts.
Context `{AEADLaws}.

Lemma nat_key_ok : chacha_new natReflectorKey = Ok tt.
Proof. unfold chacha_new, natReflectorKey. by rewrite blake2b_length. Qed.

Lemma reflector_answers rnd rnd' ip port now :
  reflector rnd ip port (nat_request rnd' now) = Some (reflect_answer rnd ip port).
Proof.
  unfold nat_request. cbv zeta. set (nonce := rand_fill nonce_size rnd').
  assert (zlen nonce = nonce_size) as Hn by (apply zlen_rand_fill; by vm_compute).
  destruct (nat_open nonce (put_u64 now) Hn ltac:(wire_lia)) as (_ & E1 & E2 & E3).
  unfold reflector. by rewrite E1, E2, E3, zlen_put_u64.
Qed.

(** The probe as a whole: every failure before the exchange is reported as such; a
    reflector that saw this client as [ip] and [port] makes the probe return exactly
    that, for both families; no answer makes it panic. *)
Theorem nat_probe_endpoint (rnd rnd' ip : bytes) (port now : Z)
    (Hip : zlen ip = 4 \/ zlen ip = 16) (Hport : 0 <= port < 2 ^ 16) :
  probeExternalEndpoint true true (Some rnd') now (reflector rnd ip port) = Ok (mkEndpoint ip port) /\
  (forall resolved dialled r ex, no_panic (probeExternalEndpoint resolved dialled r now ex)) /\
  (forall dialled r ex, is_err (probeExternalEndpoint false dialled r now ex) = true).
Proof.
  unfold probeExternalEndpoint. rewrite nat_key_ok. split_and!.
  - simpl. rewrite reflector_answers.
    assert (zlen (reflect_answer rnd ip port) <= 256) as Hl.
    { unfold reflect_answer. assert (zlen natReflectorKey = key_size) by apply blake2b_length.
      assert (zlen (rand_fill nonce_size rnd) = nonce_size) as Hn by (apply zlen_rand_fill; by vm_compute).
      rewrite zlen_app, aead_seal_length by done. rewrite Hn.
      autorewrite with wire. unfold nonce_size, aead_overhead. simpl Z.of_nat. lia. }
    rewrite take_ge by (unfold zlen, natMaxRespPkt in *; lia).
    by apply nat_reflection_roundtrip.
  - intros resolved dialled r ex. unfold no_panic. destruct resolved, dialled, r as [r|]; simpl; try done.
    destruct (ex _); [|done]. apply (nat_reflection_roundtrip [] [x00; x00; x00; x00] 0); [by left|lia].
  - done.
Qed.
End nat_facts.

(** The text of an IPv6 address contains a colon. *)
Lemma join_groups_colon g g' l : existsb (byte_eqb x3a) (join_groups (g :: g' :: l)) = true.
Proof.
  change (join_groups (g :: g' :: l)) with (hex_group g ++ [x3a] ++ join_groups (g' :: l)).
  rewrite existsb_app_eq. apply orb_true_intro. by right.
Qed.

Lemma ip6_string_colon ip : 4 <= zlen ip -> existsb (byte_eqb x3a) (ip6_string ip) = true.
Proof.
  intros Hl. unfold ip6_string. destruct (longest_run _ _ _) as [i n]. destruct (Nat.eqb n 0).
  - destruct ip as [|a [|b [|c [|d ip]]]]; try (by vm_compute in Hl).
    change (groups16 (a :: b :: c :: d :: ip)) with ((b2z a * 256 + b2z b) :: (b2z c * 256 + b2z d) :: groups16 ip).
    apply join_groups_colon.
  - rewrite !existsb_app_eq. apply orb_true_intro. right. by simpl.
Qed.

(** A host that contains a colon and no bracket is no host of a "host:port" text. *)
Lemma split_unbracketed host port :
  existsb (byte_eqb x3a) host = true -> forallb no_bracket host = true -> forallb plain_byte port = true ->
  split_host_port (host ++ [x3a] ++ port) = None.
Proof.
  intros Hc Hb Hp. unfold split_host_port. cbn [app]. rewrite last_colon_app by (by apply existsb_plain; [|left]).
  cbn [Nat.add]. rewrite take_app_length, Hc.
  destruct host as [|b host]; [done|]. simpl in Hb. bool_to_prop. unfold no_bracket, byte_eqb in *. bool_to_prop.
  simpl. by destruct b.
Qed.

(** The text of an endpoint: with an IPv4 address it is a "host:port" that splits
    back into address and port; with an IPv6 address the brackets are missing, and no
    user of net.SplitHostPort or net.ResolveUDPAddr can read it. *)
Theorem endpoint_text (e : ExternalEndpoint) (Hport : 0 <= ee_Port e < 2 ^ 16) :
  (zlen (ee_IP e) = 4 ->
     split_host_port (ExternalEndpoint_String e) = Some (IP_String (ee_IP e), Dec.print (ee_Port e)) /\
     parse_uint16 (Dec.print (ee_Port e)) = Some (ee_Port e)) /\
  (zlen (ee_IP e) = 16 -> To4 (ee_IP e) = None -> split_host_port (ExternalEndpoint_String e) = None).
Proof.
  destruct (print_port (ee_Port e) Hport) as [Hp Hq]. unfold ExternalEndpoint_String. split.
  - intros Hl. split; [|done]. apply split_plain; [|done]. unfold IP_String, To4. rewrite Hl. apply ip4_string_plain.
  - intros Hl H4. apply split_unbracketed; [|apply IP_String_no_bracket|done].
    unfold IP_String. rewrite H4. apply ip6_string_colon. lia.
Qed.

(** ** Witnesses *)

#[local] Existing Instances Toy.aead Toy.aead_laws.

Definition toy_probe : bytes := match build_probe toy_rnd with Ok p => p | _ => [] end.
Lemma toy_probe_built : build_probe toy_rnd = Ok toy_probe.
Proof. by vm_compute. Qed.

Definition toy_sent : puncher := mkPuncher PReading false true true true 1.
Definition toy_world (p : puncher) : world := mkWorld p toy_sent [toy_probe] [toy_probe] [] [].
Definition toy_won : world := toy_world (mkPuncher PSucceeded true true true false 1).


Lemma punch_one_sided_witness :
  exists w, punch_reach (fun _ => false) w /\ pu_phase (w_a w) = PSucceeded /\ pu_phase (w_b w) = PReading.
Proof.
  destruct (punch_one_sided (fun _ => false) A toy_rnd toy_probe eq_refl toy_probe_built) as (w & E1 & E2 & _ & E3 & _).
  exists w. split; [exact E1|]. split; [exact E2|exact E3].
Defined.

Lemma nat_probe_endpoint_witness :
  probeExternalEndpoint true true (Some []) 5 (reflector [] [x01; x02; x03; x04] 4242) = Ok (mkEndpoint [x01; x02; x03; x04] 4242).
Proof. apply (nat_probe_endpoint [] [] [x01; x02; x03; x04] 4242 5); [by left|lia]. Defined.

Lemma endpoint_text_witness :
  split_host_port (ExternalEndpoint_String (mkEndpoint (replicate 15 x00 ++ [x01]) 443)) = None.
Proof. by apply (endpoint_text (mkEndpoint (replicate 15 x00 ++ [x01]) 443)); [simpl; lia|..]; vm_compute. Defined.
