(* ===== verification/Lifecycle.v ===== *)
(** * Lifecycle: background goroutines and how they are stopped

    The goroutines that [Discoverer.Start], [LogUploader.Start],
    [BypassManager.Start] and [DialerPool.StartManagement] launch are one loop: an
    optional first run of the body, then a [select] between the stop channel and a
    ticker, whose channel holds at most one tick.  The [Stop] methods close a channel,
    each with its own guard against closing it twice; calls of them run concurrently
    as sequences of atomic steps. *)
From S2P Require Import Prelude Encoding Env Cidr Bypass.

(** [close(ch)] of a channel that carries no values. *)
Definition close (closed : bool) : res bool := if closed then Panic else Ok true.

(** ** The polling loop *)

Inductive body_result := Returned | Panicked.

Record poller := mkPoller {
  po_began : bool;        (* the goroutine reached its loop *)
  po_tick : bool;         (* a tick waits in the ticker's channel *)
  po_closed : bool;       (* the stop channel *)
  po_exited : bool;
  po_crashed : bool       (* a panic that nothing recovers ends the process *)
}.
Definition new_poller : poller := mkPoller false false false false false.

Inductive poll_event :=
| EBegin (r : body_result)     (* the goroutine starts; its first run, if any, ends with [r] *)
| EElapse                      (* the ticker's interval elapses *)
| ETick (r : body_result)      (* select takes the tick; the run ends with [r] *)
| EExit                        (* select takes the stop channel *)
| EClose.                      (* somebody closes the stop channel *)

(** [first]: the body runs once before the loop; [recovers]: the goroutine has a
    deferred [recover].  The result is the state and the number of runs. *)
Definition poll_step (first recovers : bool) (p : poller) (ev : poll_event) : option (poller * nat) :=
  let after r began tick runs :=
    match r with
    | Returned => (mkPoller began tick (po_closed p) false false, runs)
    | Panicked => (mkPoller began tick (po_closed p) true (negb recovers), runs)
    end in
  if po_crashed p then None else
  match ev with
  | EBegin r =>
    if po_began p || po_exited p then None else
    if first then Some (after r true false 1%nat) else Some (after Returned true false O)
  | EElapse => Some (mkPoller (po_began p) (po_began p && negb (po_exited p)) (po_closed p) (po_exited p) false, O)
  | ETick r =>
    if po_began p && negb (po_exited p) && po_tick p then Some (after r true false 1%nat) else None
  | EExit =>
    if po_began p && negb (po_exited p) && po_closed p
    then Some (mkPoller true (po_tick p) true true false, O) else None
  | EClose => Some (mkPoller (po_began p) (po_tick p) true (po_exited p) false, O)
  end.

Definition disc_Start : poller -> poll_event -> option (poller * nat) := poll_step true true.
Definition uploader_Start : poller -> poll_event -> option (poller * nat) := poll_step true false.
Definition StartManagement : poller -> poll_event -> option (poller * nat) := poll_step false false.

Fixpoint poll_run (first recovers : bool) (p : poller) (evs : list poll_event) : option (poller * nat) :=
  match evs with
  | [] => Some (p, O)
  | ev :: evs =>
    '(p, n) ← poll_step first recovers p ev;
    '(p, m) ← poll_run first recovers p evs;
    Some (p, (n + m)%nat)
  end.

Definition is_elapse (ev : poll_event) : bool := match ev with EElapse => true | _ => false end.
Definition elapses (evs : list poll_event) : nat := length (filter (fun ev => is_elapse ev = true) evs).

(** Runs still to come without another tick: the first one and the waiting one. *)
Definition poll_credit (p : poller) : nat :=
  (if po_exited p then 0 else (if po_began p then 0 else 1) + (if po_tick p then 1 else 0))%nat.

Lemma poll_step_credit first recovers p ev p' n :
  poll_step first recovers p ev = Some (p', n) ->
  (n + poll_credit p' <= poll_credit p + (if is_elapse ev then 1 else 0))%nat.
Proof.
  unfold poll_step, poll_credit.
  destruct (po_crashed p); [done|]. destruct ev as [r| |r| |]; simpl.
  - destruct (po_began p), (po_exited p), first, r, recovers; simpl; intros; simplify_eq; simpl; lia.
  - destruct (po_began p), (po_exited p), (po_tick p); simpl; intros; simplify_eq; simpl; lia.
  - destruct (po_began p), (po_exited p), (po_tick p), r, recovers; simpl; intros; simplify_eq; simpl; lia.
  - destruct (po_began p), (po_exited p), (po_tick p), (po_closed p); simpl; intros; simplify_eq; simpl; lia.
  - destruct (po_began p), (po_exited p), (po_tick p); simpl; intros; simplify_eq; simpl; lia.
Qed.

Lemma poll_run_credit first recovers p evs p' n :
  poll_run first recovers p evs = Some (p', n) -> (n + poll_credit p' <= poll_credit p + elapses evs)%nat.
Proof.
  revert p n. induction evs as [|ev evs IH]; simpl; intros p n; [intros [= <- <-]; unfold elapses; simpl; lia|].
  destruct (poll_step _ _ p ev) as [[p1 n1]|] eqn:E1; [|done]. simpl.
  destruct (poll_run _ _ p1 evs) as [[p2 n2]|] eqn:E2; [|done]. simpl. intros [= <- <-].
  apply poll_step_credit in E1. apply IH in E2. unfold elapses in *. rewrite filter_cons.
  case_decide as F; simpl length; destruct (is_elapse ev); try done; lia.
Qed.

Lemma poll_run_exited first recovers p evs p' n :
  poll_run first recovers p evs = Some (p', n) -> po_exited p = true -> n = O.
Proof.
  revert p n. induction evs as [|ev evs IH]; intros p n; [by intros [= <- <-]|].
  cbn [poll_run]. destruct (poll_step _ _ p ev) as [[p1 n1]|] eqn:E1; [|done]. simpl.
  destruct (poll_run _ _ p1 evs) as [[p2 n2]|] eqn:E2; [|done]. simpl. intros [= <- <-] He.
  assert (n1 = O /\ po_exited p1 = true) as [-> He1]; [|by apply (IH p1)].
  revert E1. unfold poll_step. destruct (po_crashed p); [done|]. rewrite He.
  destruct ev; simpl; rewrite ?orb_true_r, ?andb_false_r; simpl; intros; by simplify_eq.
Qed.

(** The polling goroutines: the body runs at most once at the start and once for each
    elapsed interval; a run that returns, whatever it found, leaves the loop running;
    once the stop channel is closed and the goroutine is in its loop it can leave at
    every select, and if no further interval elapses it runs the body at most once
    more; after it left it never runs again. *)
Theorem poller_contract (first recovers : bool) (before after : list poll_event) (p p' : poller) (n n' : nat)
    (Hbefore : poll_run first recovers new_poller before = Some (p, n))
    (Hafter : poll_run first recovers p after = Some (p', n')) :
  (n <= 1 + elapses before)%nat /\
  (po_exited p = true -> n' = O) /\
  (po_began p = true -> elapses after = O -> (n' <= 1)%nat) /\
  (po_began p = true -> po_closed p = true -> po_exited p = false -> po_crashed p = false ->
     exists q, poll_step first recovers p EExit = Some (q, O) /\ po_exited q = true) /\
  (forall q, poll_step first recovers p (ETick Returned) = Some (q, 1%nat) -> po_exited q = false /\ po_crashed q = false).
Proof.
  pose proof (poll_run_credit _ _ _ _ _ _ Hbefore) as H1. pose proof (poll_run_credit _ _ _ _ _ _ Hafter) as H2.
  unfold poll_credit in H1 at 2. simpl in H1. split; [lia|]. split_and!.
  - intros He. by apply (poll_run_exited first recovers p after p').
  - intros Hb He. rewrite He in H2. unfold poll_credit in H2 at 2. rewrite Hb in H2.
    destruct (po_exited p), (po_tick p); lia.
  - intros Hb Hc He Hk. eexists. unfold poll_step. rewrite Hk, Hb, He, Hc. by split.
  - intros q. unfold poll_step. destruct (po_crashed p); [done|].
    destruct (po_began p && negb (po_exited p) && po_tick p); [|done]. by intros [= <-].
Qed.

(** A panic in a run of the discoverer is recovered and the process lives on, but the
    goroutine is gone: no interval brings another fetch.  The other loops recover
    nothing. *)
Theorem panic_ends_polling (p q : poller) (evs : list poll_event) (r : poller) (n m : nat)
    (Hpanic : disc_Start p (ETick Panicked) = Some (q, n)) (Hrun : poll_run true true q evs = Some (r, m)) :
  po_crashed q = false /\ m = O /\
  exists q', uploader_Start p (ETick Panicked) = Some (q', 1%nat) /\ po_crashed q' = true.
Proof.
  unfold disc_Start, uploader_Start, poll_step in *. destruct (po_crashed p); [done|].
  destruct (po_began p && negb (po_exited p) && po_tick p); [|done]. injection Hpanic as <- <-.
  split; [done|]. split; [by apply (poll_run_exited _ _ _ _ _ _ Hrun)|by eexists].
Qed.

(** ** The refresh interval of the bypass manager *)

Record bypass_loop := mkBLoop { bl_interval : Z; bl_period : Z }.   (* the variable, the ticker's period *)

(** The goroutine of [BypassManager.Start]: its first refresh, then one per tick;
    the ticker is reset only when the interval changes. *)
Definition bypass_Start (refreshed : bool) : bypass_loop :=
  let interval := if refreshed then 30 * minute else 2 * minute in mkBLoop interval interval.
Definition bypass_tick (l : bypass_loop) (refreshed : bool) : bypass_loop :=
  let next := if refreshed then 30 * minute else 2 * minute in
  if negb (next =? bl_interval l) then mkBLoop next next else l.

(** The period of the ticker is always the one for the outcome of the last refresh:
    half an hour after a success, two minutes after a failure. *)
Theorem bypass_interval_follows (first : bool) (later : list bool) :
  bl_period (fold_left bypass_tick later (bypass_Start first)) = next_interval (List.last later first).
Proof.
  enough (fold_left bypass_tick later (bypass_Start first) = bypass_Start (List.last later first)) as ->
    by by destruct (List.last later first).
  induction later as [|r l IH] using rev_ind; [done|].
  rewrite fold_left_app, last_last, IH. simpl. by destruct (List.last l first), r.
Qed.

(** ** Stopping

    A call of [Stop] is an entry, which may return at once, and then the close. *)

Record stop_flag := mkFlag { fl_closed : bool; fl_active : bool }.
Inductive stop_call := SEntry | SAtClose | SReturned | SPanicked.

#[global] Instance stop_call_eq_dec : EqDecision stop_call.
Proof. solve_decision. Defined.

(** The entries: whether the call goes on to close the channel. *)
(** [BypassManager.Stop], [LogUploader.Stop], [Node.Stop], [watchCtrl]. *)
Definition enter_plain (f : stop_flag) : stop_flag * bool := (f, true).
(** [Discoverer.Stop]: a select that finds the channel open. *)
Definition enter_check (f : stop_flag) : stop_flag * bool := (f, negb (fl_closed f)).
(** [ParaExitClient.Stop]: [active.CompareAndSwap(true, false)]; a [sync.Once] has
    the same entry. *)
Definition enter_cas (f : stop_flag) : stop_flag * bool := (mkFlag (fl_closed f) false, fl_active f).

Section stop.
Context (enter : stop_flag -> stop_flag * bool).

Definition call_step (f : stop_flag) (c : stop_call) : stop_flag * stop_call :=
  match c with
  | SEntry => let '(f, go) := enter f in (f, if go then SAtClose else SReturned)
  | SAtClose => match close (fl_closed f) with Ok b => (mkFlag b (fl_active f), SReturned) | _ => (f, SPanicked) end
  | _ => (f, c)
  end.

(** The calls in progress, and a schedule: which of them makes the next step. *)
Definition stop_step (s : stop_flag * list stop_call) (i : nat) : stop_flag * list stop_call :=
  match s.2 !! i with
  | None => s
  | Some c => let '(f, c) := call_step s.1 c in (f, <[i := c]> s.2)
  end.
Definition stop_run (f : stop_flag) (calls : nat) (schedule : list nat) : stop_flag * list stop_call :=
  fold_left stop_step schedule (f, replicate calls SEntry).

(** Calls one after another, each to its end. *)
Fixpoint stop_sequence (n : nat) (f : stop_flag) : res stop_flag :=
  match n with
  | O => Ok f
  | S n =>
    let '(f, c) := call_step f SEntry in
    let '(f, c) := call_step f c in
    if bool_decide (c = SPanicked) then Panic else stop_sequence n f
  end.
End stop.

(** With the swap, at most one call is between its entry and the close, and only
    while the channel is open. *)
Definition one_closer (s : stop_flag * list stop_call) : Prop :=
  (SPanicked ∉ s.2) /\
  (fl_active s.1 = true -> (SAtClose ∉ s.2) /\ fl_closed s.1 = false) /\
  (forall i j, s.2 !! i = Some SAtClose -> s.2 !! j = Some SAtClose -> i = j) /\
  (SAtClose ∈ s.2 -> fl_closed s.1 = false).

Lemma not_elem_insert (l : list stop_call) i c d : d <> c -> d ∉ l -> d ∉ <[i := c]> l.
Proof. intros Hd Hn (j & Hj)%list_elem_of_lookup. apply list_lookup_insert_Some in Hj as [(_ & -> & _)|[_ Hj]]; [done|]. by apply Hn, (list_elem_of_lookup_2 l j). Qed.

Lemma cas_step_ok s i : one_closer s -> one_closer (stop_step enter_cas s i).
Proof.
  destruct s as [f l]. intros (H1 & H2 & H3 & H4). unfold stop_step. simpl in *.
  destruct (l !! i) as [c|] eqn:Ei; [|done].
  assert (i < length l)%nat as Hi by by apply lookup_lt_Some in Ei.
  destruct c; simpl.
  - destruct (fl_active f) eqn:Ea; simpl.
    + destruct (H2 eq_refl) as [Hn Hc]. split_and!; simpl.
      * by apply not_elem_insert.
      * done.
      * intros a b [(-> & _)|[_ Ha]]%list_lookup_insert_Some [(-> & _)|[_ Hb]]%list_lookup_insert_Some; try done.
        all: exfalso; by eapply Hn, list_elem_of_lookup_2.
      * done.
    + split_and!; simpl.
      * by apply not_elem_insert.
      * done.
      * intros a b [(_ & ? & _)|[_ Ha]]%list_lookup_insert_Some [(_ & ? & _)|[_ Hb]]%list_lookup_insert_Some; try done. by apply H3.
      * intros (a & Ha)%list_elem_of_lookup. apply list_lookup_insert_Some in Ha as [(_ & ? & _)|[_ Ha]]; [done|].
        by eapply H4, list_elem_of_lookup_2.
  - assert (fl_closed f = false) as Hc by by eapply H4, list_elem_of_lookup_2. unfold close. rewrite Hc. simpl.
    assert (SAtClose ∉ <[i := SReturned]> l) as Hgone.
    { intros (a & Ha)%list_elem_of_lookup. apply list_lookup_insert_Some in Ha as [(_ & ? & _)|[Hne Ha]]; [done|].
      by apply Hne, H3. }
    split_and!; simpl.
    + by apply not_elem_insert.
    + intros Ha. destruct (H2 Ha) as [Hn _]. by destruct Hn; eapply list_elem_of_lookup_2.
    + intros a b Ha. by destruct Hgone; eapply list_elem_of_lookup_2.
    + done.
  - rewrite list_insert_id by done. by split_and!.
  - rewrite list_insert_id by done. by split_and!.
Qed.

(** Stopping behind a compare-and-swap ([ParaExitClient.Stop], and every Close that
    uses a sync.Once): however many calls run at once and however they interleave,
    none panics; a first entry closes the channel as soon as that call makes its next
    step. *)
Theorem stop_cas_safe (calls : nat) (schedule : list nat) :
  (SPanicked ∉ (stop_run enter_cas (mkFlag false true) calls schedule).2) /\
  forall f, stop_sequence enter_cas (S calls) (mkFlag false true) = Ok f -> fl_closed f = true.
Proof.
  split.
  - enough (one_closer (stop_run enter_cas (mkFlag false true) calls schedule)) as [? _] by done.
    unfold stop_run. assert (one_closer (mkFlag false true, replicate calls SEntry)) as H0.
    { split_and!; simpl.
      - by intros [? _]%elem_of_replicate.
      - intros _. split; [by intros [? _]%elem_of_replicate|done].
      - by intros i j [? _]%lookup_replicate.
      - done. }
    revert H0. generalize (mkFlag false true, replicate calls SEntry).
    induction schedule as [|i sch IH]; simpl; [done|]. intros s Hs. by apply IH, cas_step_ok.
  - intros f. cbn [stop_sequence call_step enter_cas]. simpl.
    assert (forall n, stop_sequence enter_cas n (mkFlag true false) = Ok (mkFlag true false)) as Hn by (induction n; [done|exact IHn]).
    rewrite Hn. by intros [= <-].
Qed.

(** [Discoverer.Stop] is documented as safe to call multiple times.  One after
    another, calls never panic and the first closes the channel; but the test and the
    close are two steps, and two calls at the same time that both find the channel
    open make the second close panic. *)
Theorem stop_check_races (n : nat) :
  stop_sequence enter_check (S n) (mkFlag false true) = Ok (mkFlag true true) /\
  (stop_run enter_check (mkFlag false true) 2 [0; 1; 0; 1]%nat).2 = [SReturned; SPanicked].
Proof.
  split; [|done]. cbn [stop_sequence call_step enter_check]. simpl.
  induction n as [|n IH]; [done|]. exact IH.
Qed.

(** The other [Stop] methods may be called once: the second call panics. *)
Theorem stop_plain_once (n : nat) :
  stop_sequence enter_plain 1 (mkFlag false true) = Ok (mkFlag true true) /\
  stop_sequence enter_plain (S (S n)) (mkFlag false true) = Panic.
Proof. by split. Qed.

(** ** ParaExitClient.Start and Stop, with the sessions *)

Record para_life := mkParaLife { pl_flag : stop_flag; pl_sessions : list nat; pl_closed_sessions : list nat }.

Definition para_Start (c : para_life) : para_life :=
  mkParaLife (mkFlag (fl_closed (pl_flag c)) true) (pl_sessions c) (pl_closed_sessions c).

Definition para_Stop (c : para_life) : res para_life :=
  if fl_active (pl_flag c)
  then closed ← close (fl_closed (pl_flag c));
       Ok (mkParaLife (mkFlag closed false) [] (pl_closed_sessions c ++ pl_sessions c))
  else Ok c.

(** Stopping closes every registered session, is idempotent, and does nothing before
    Start; a client that is started again keeps the closed stop channel: its loop
    sees the stop at once, and the next Stop panics. *)
Theorem para_lifecycle (c : para_life) (Hopen : fl_closed (pl_flag c) = false) :
  (fl_active (pl_flag c) = false -> para_Stop c = Ok c) /\
  exists c', para_Stop (para_Start c) = Ok c' /\ pl_sessions c' = [] /\
    (forall s, s ∈ pl_sessions c -> s ∈ pl_closed_sessions c') /\
    fl_closed (pl_flag c') = true /\ para_Stop c' = Ok c' /\
    fl_closed (pl_flag (para_Start c')) = true /\ para_Stop (para_Start c') = Panic.
Proof.
  unfold para_Stop, para_Start. simpl. rewrite Hopen. split; [by intros ->|]. simpl. eexists. split; [reflexivity|].
  simpl. split_and!; try done. intros s Hs. apply elem_of_app. by right.
Qed.

(** ** Witnesses *)

Lemma poller_contract_witness :
  let evs := [EBegin Returned; EElapse; EElapse; ETick Returned; EElapse; EClose] in
  poll_run true true new_poller evs = Some (mkPoller true true true false false, 2%nat) /\ (2 <= 1 + elapses evs)%nat.
Proof.
  simpl. split; [reflexivity|].
  apply (poller_contract true true [EBegin Returned; EElapse; EElapse; ETick Returned; EElapse; EClose] []
    (mkPoller true true true false false) (mkPoller true true true false false) 2 0); reflexivity.
Defined.

Lemma panic_ends_polling_witness :
  exists q, disc_Start (mkPoller true true false false false) (ETick Panicked) = Some (q, 1%nat) /\
    poll_run true true q [EElapse; EElapse] = Some (q, O).
Proof.
  exists (mkPoller true false false true false). split; [reflexivity|].
  destruct (panic_ends_polling (mkPoller true true false false false) (mkPoller true false false true false) [EElapse; EElapse]
    (mkPoller true false false true false) 1 0) as (_ & _ & _); reflexivity.
Defined.

Lemma para_lifecycle_witness :
  exists c', para_Stop (para_Start (mkParaLife (mkFlag false false) [3%nat] [])) = Ok c' /\ para_Stop (para_Start c') = Panic.
Proof.
  destruct (para_lifecycle (mkParaLife (mkFlag false false) [3%nat] []) eq_refl) as (_ & c' & E1 & _ & _ & _ & _ & _ & E2).
  exists c'. split; [exact E1|exact E2].
Defined.
