(* ===== verification/PeerPool.v ===== *)
(** * PeerPool: the pooled peer connections of the mirror (mirror.go)

    [fetchChunkFromPeer] and [peerConn] run in many goroutines at once; the pool is
    only touched under [connMu], so a fetch is a sequence of atomic steps between
    which other fetches, [Close] and the idle timeout of a connection interleave.
    Connections are numbered in the order they are opened; the relay fallback
    [DefaultRelayChunkFetcher] is a function of what the controls answer. *)
From S2P Require Import Prelude Encoding Env Mirror.

(** ** The pool *)

(** Where a fetch is.  [FInsert], [FDiscard] and [FClosing] hold a connection that
    only this fetch knows. *)
Inductive fetcher :=
| FLookup (addr : bytes)                     (* peerConn: before its first lookup *)
| FPunch (addr : bytes)                      (* punching, without the lock *)
| FInsert (addr : bytes) (id : nat)          (* punched, before the second lock *)
| FDiscard (addr : bytes) (id e : nat)       (* lost the race: about to close [id] and use [e] *)
| FUse (addr : bytes) (id : nat)             (* RequestChunk *)
| FDrop (addr : bytes) (id : nat)            (* failed, before the lock *)
| FClosing (id : nat)                        (* about to close *)
| FDone (ok : bool).

Record peers := mkPeers {
  pp_pool : gmap bytes nat;                  (* peerConns *)
  pp_opened : list bytes;                    (* the address every connection was punched to *)
  pp_closed : gset nat;
  pp_fetchers : list fetcher
}.

Inductive peer_event :=
| PSpawn (addr : bytes)                      (* a call of fetchChunkFromPeer *)
| PStep (i : nat) (good : bool)              (* fetch [i]; [good]: its punch or request succeeds *)
| PClose                                     (* MirrorManager.Close *)
| PIdle (id : nat).                          (* a connection closes itself *)

Definition with_fetcher (s : peers) (i : nat) (f : fetcher) : peers :=
  mkPeers (pp_pool s) (pp_opened s) (pp_closed s) (<[i := f]> (pp_fetchers s)).

(** One atomic step of a fetch; [has_punch]: [punchFn] is set. *)
Definition fetcher_step (has_punch : bool) (s : peers) (i : nat) (f : fetcher) (good : bool) : peers :=
  match f with
  | FLookup a =>
    match pp_pool s !! a with
    | Some id => with_fetcher s i (FUse a id)
    | None => with_fetcher s i (if has_punch then FPunch a else FDone false)
    end
  | FPunch a =>
    if good
    then mkPeers (pp_pool s) (pp_opened s ++ [a]) (pp_closed s) (<[i := FInsert a (length (pp_opened s))]> (pp_fetchers s))
    else with_fetcher s i (FDone false)
  | FInsert a id =>
    match pp_pool s !! a with
    | Some e => with_fetcher s i (FDiscard a id e)
    | None => mkPeers (<[a := id]> (pp_pool s)) (pp_opened s) (pp_closed s) (<[i := FUse a id]> (pp_fetchers s))
    end
  | FDiscard a id e => mkPeers (pp_pool s) (pp_opened s) ({[id]} ∪ pp_closed s) (<[i := FUse a e]> (pp_fetchers s))
  | FUse a id => with_fetcher s i (if good then FDone true else FDrop a id)
  | FDrop a id =>
    mkPeers (if bool_decide (pp_pool s !! a = Some id) then delete a (pp_pool s) else pp_pool s)
      (pp_opened s) (pp_closed s) (<[i := FClosing id]> (pp_fetchers s))
  | FClosing id => mkPeers (pp_pool s) (pp_opened s) ({[id]} ∪ pp_closed s) (<[i := FDone false]> (pp_fetchers s))
  | FDone _ => s
  end.

(** [MirrorManager.Close]: the whole body holds the lock. *)
Definition pool_Close (s : peers) : peers :=
  mkPeers ∅ (pp_opened s) (list_to_set (snd <$> map_to_list (pp_pool s)) ∪ pp_closed s) (pp_fetchers s).

Definition peer_step (has_punch : bool) (s : peers) (ev : peer_event) : peers :=
  match ev with
  | PSpawn a => mkPeers (pp_pool s) (pp_opened s) (pp_closed s) (pp_fetchers s ++ [FLookup a])
  | PStep i good => match pp_fetchers s !! i with Some f => fetcher_step has_punch s i f good | None => s end
  | PClose => pool_Close s
  | PIdle id =>
    if bool_decide (id < length (pp_opened s))%nat
    then mkPeers (pp_pool s) (pp_opened s) ({[id]} ∪ pp_closed s) (pp_fetchers s) else s
  end.

Definition no_peers : peers := mkPeers ∅ [] ∅ [].
Definition peer_run (has_punch : bool) (evs : list peer_event) : peers := fold_left (peer_step has_punch) evs no_peers.

(** ** No connection is lost *)

(** The connection a fetch alone is responsible for. *)
Definition owes (f : fetcher) : option nat :=
  match f with FInsert _ id | FDiscard _ id _ | FClosing id => Some id | _ => None end.

(** The connection a fetch to an address works with. *)
Definition works_with (f : fetcher) : option (bytes * nat) :=
  match f with FInsert a id | FUse a id | FDrop a id | FDiscard a _ id => Some (a, id) | _ => None end.

Definition accounted (s : peers) (id : nat) : Prop :=
  id ∈ pp_closed s \/ (exists a, pp_pool s !! a = Some id) \/ (exists i f, pp_fetchers s !! i = Some f /\ owes f = Some id).

Record peers_ok (s : peers) : Prop := {
  ok_accounted : forall id, (id < length (pp_opened s))%nat -> accounted s id;
  ok_pool : forall a id, pp_pool s !! a = Some id -> pp_opened s !! id = Some a;
  ok_works : forall i f a id, pp_fetchers s !! i = Some f -> works_with f = Some (a, id) -> pp_opened s !! id = Some a
}.

Lemma closed_snd (m : gmap bytes nat) a id : m !! a = Some id -> id ∈ (list_to_set (snd <$> map_to_list m) : gset nat).
Proof.
  intros Hl. apply elem_of_list_to_set, list_elem_of_fmap. exists (a, id). split; [done|]. by apply elem_of_map_to_list.
Qed.

(** The conditions under which one step of a fetch keeps the invariant: the fetch's
    own new state is in order, and what it gave up is accounted for. *)
Lemma fetcher_move s s' i f f' :
  peers_ok s -> pp_fetchers s !! i = Some f -> pp_fetchers s' = <[i := f']> (pp_fetchers s) ->
  (exists ext, pp_opened s' = pp_opened s ++ ext) -> pp_closed s ⊆ pp_closed s' ->
  (forall id, (length (pp_opened s) <= id < length (pp_opened s'))%nat -> owes f' = Some id) ->
  (forall a id, works_with f' = Some (a, id) -> pp_opened s' !! id = Some a) ->
  (forall a id, pp_pool s' !! a = Some id -> pp_pool s !! a = Some id \/ pp_opened s' !! id = Some a) ->
  (forall a id, pp_pool s !! a = Some id -> pp_pool s' !! a = Some id \/ owes f' = Some id) ->
  (forall id, owes f = Some id -> id ∈ pp_closed s' \/ (exists a, pp_pool s' !! a = Some id) \/ owes f' = Some id) ->
  peers_ok s'.
Proof.
  intros [A P W] Hi Hf [ext He] Hc Hnew Hw Hp Hk Ho.
  assert (forall id a, pp_opened s !! id = Some a -> pp_opened s' !! id = Some a) as Hext
    by (intros id a E; rewrite He; by apply lookup_app_l_Some).
  assert (pp_fetchers s' !! i = Some f') as Hi'
    by (rewrite Hf; apply list_lookup_insert_eq; by apply lookup_lt_Some in Hi).
  split.
  - intros id Hid. destruct (decide (id < length (pp_opened s))%nat) as [Hlt|Hge].
    2: { right; right. exists i, f'. split; [done|]. apply Hnew. lia. }
    destruct (A id Hlt) as [Hcl|[(a & Ha)|(j & g & Hj & Hg)]].
    + left. by apply Hc.
    + destruct (Hk a id Ha) as [?|?]; right; [left; by exists a|right; by exists i, f'].
    + destruct (decide (i = j)) as [<-|Hne].
      * rewrite Hi in Hj. injection Hj as ->. destruct (Ho id Hg) as [?|[?|?]]; [by left|by right; left|].
        right; right. by exists i, f'.
      * right; right. exists j, g. split; [|done]. rewrite Hf. by rewrite list_lookup_insert_ne.
  - intros a id Ha. destruct (Hp a id Ha) as [?|?]; [by apply Hext, P|done].
  - intros j g a id Hj Hg. rewrite Hf in Hj. apply list_lookup_insert_Some in Hj as [(<- & -> & _)|[_ Hj]]; [by apply Hw|].
    by eapply Hext, W.
Qed.

Lemma lookup_last {X} (l : list X) x : (l ++ [x]) !! length l = Some x.
Proof. by rewrite lookup_app_r, Nat.sub_diag. Qed.

Lemma same_opened (s : peers) : exists ext, pp_opened s = pp_opened s ++ ext.
Proof. exists []. by rewrite app_nil_r. Qed.
#[local] Hint Resolve same_opened : core.

Lemma fetcher_step_ok has_punch s i f good :
  peers_ok s -> pp_fetchers s !! i = Some f -> peers_ok (fetcher_step has_punch s i f good).
Proof.
  intros Hs Hi. pose proof Hs as [A P W]. pose proof (fun a id => W i f a id Hi) as Wf.
  destruct f as [a|a|a id|a id e|a id|a id|id|ok]; simpl.
  - destruct (pp_pool s !! a) as [id|] eqn:Ea; [|destruct has_punch]; eapply (fetcher_move s); try done; simpl; auto; try lia.
    intros b id' [= <- <-]. by apply P.
  - destruct good; eapply (fetcher_move s); try done; simpl; auto; try lia.
    + by eexists.
    + intros id. rewrite length_app. simpl. intros ?. f_equal. lia.
    + intros b id [= <- <-]. apply lookup_last.
  - assert (pp_opened s !! id = Some a) as Ho by by apply Wf.
    destruct (pp_pool s !! a) as [e|] eqn:Ea; eapply (fetcher_move s); try done; simpl; auto; try lia.
    + intros b id' [= <- <-]. by apply P.
    + intros b id' [[<- <-]|[_ Hb]]%lookup_insert_Some; [by right|by left].
    + intros b id' Hb. left. rewrite lookup_insert_ne; [done|]. intros ->. congruence.
    + intros id' [= <-]. right; left. exists a. apply lookup_insert_eq.
  - eapply (fetcher_move s); try done; simpl; auto; try lia.
    + set_solver.
    + intros id' [= <-]. left. set_solver.
  - assert (pp_opened s !! id = Some a) as Ho by by apply Wf.
    destruct good; eapply (fetcher_move s); try done; simpl; auto; try lia.
  - eapply (fetcher_move s); try done; simpl; auto; try lia.
    + case_bool_decide; [|by left]. intros b id' [_ Hb]%lookup_delete_Some. by left.
    + intros b id' Hb. case_bool_decide as E; [|by left]. destruct (decide (a = b)) as [<-|Hne].
      * right. congruence.
      * left. by rewrite lookup_delete_ne.
  - eapply (fetcher_move s); try done; simpl; auto; try lia.
    + set_solver.
    + intros id' [= <-]. left. set_solver.
  - done.
Qed.

Lemma peer_step_ok has_punch s ev : peers_ok s -> peers_ok (peer_step has_punch s ev).
Proof.
  intros Hs. pose proof Hs as [A P W]. destruct ev as [a|i good| |id]; simpl.
  - split; simpl; [|done|].
    + intros id Hid. destruct (A id Hid) as [?|[?|(j & f & Hj & Hf)]]; [by left|by right; left|].
      right; right. exists j, f. split; [by apply lookup_app_l_Some|done].
    + intros j f b id [Hj|[_ Hj]]%lookup_app_Some Hf; [by eapply W|].
      by apply list_lookup_singleton_Some in Hj as [_ <-].
  - destruct (pp_fetchers s !! i) eqn:Ei; [|done]. by apply fetcher_step_ok.
  - split; simpl; [|done|done]. intros id Hid. destruct (A id Hid) as [?|[(a & Ha)|?]]; [left|left|by right; right].
    + simpl. set_solver.
    + simpl. apply elem_of_union_l. by apply (closed_snd _ a).
  - case_bool_decide; [|done]. split; simpl; [|done|done].
    intros id' Hid. destruct (A id' Hid) as [?|[?|?]]; [left; simpl; set_solver|by right; left|by right; right].
Qed.

Lemma peer_run_ok has_punch evs : peers_ok (peer_run has_punch evs).
Proof.
  unfold peer_run. assert (peers_ok no_peers) as H0 by (split; simpl; [intros; lia|by intros|by intros]).
  revert H0. generalize no_peers. induction evs as [|ev evs IH]; simpl; [done|]. intros s Hs. by apply IH, peer_step_ok.
Qed.

Definition finished (s : peers) : Prop := forall i f, pp_fetchers s !! i = Some f -> exists ok, f = FDone ok.

(** C13: the connections to peers, however fetches, closing and timeouts interleave: a
    fetch uses a connection that was punched to the address it asked for; every
    connection ever opened is closed, in the pool, or in the hands of one fetch that
    is about to insert or close it; so when no fetch runs, the open connections are
    those of the pool, at most one per address, and Close closes all of them. *)
Theorem peer_pool_no_leak (has_punch : bool) (evs : list peer_event) :
  let s := peer_run has_punch evs in
  (forall i a id, pp_fetchers s !! i = Some (FUse a id) -> pp_opened s !! id = Some a) /\
  (forall id, (id < length (pp_opened s))%nat -> accounted s id) /\
  (finished s -> forall id, (id < length (pp_opened s))%nat -> id ∉ pp_closed s ->
     exists a, pp_pool s !! a = Some id /\ pp_opened s !! id = Some a /\
       forall id', (id' < length (pp_opened s))%nat -> id' ∉ pp_closed s -> pp_opened s !! id' = Some a -> id' = id) /\
  (finished s -> forall id, (id < length (pp_opened s))%nat -> id ∈ pp_closed (pool_Close s)).
Proof.
  intros s. destruct (peer_run_ok has_punch evs) as [A P W]. fold s in A, P, W.
  assert (finished s -> forall id, (id < length (pp_opened s))%nat -> id ∉ pp_closed s -> exists a, pp_pool s !! a = Some id) as Hopen.
  { intros Hf id Hid Hc. destruct (A id Hid) as [?|[?|(i & f & Hi & Ho)]]; [done|done|].
    destruct (Hf i f Hi) as [ok ->]. done. }
  split_and!.
  - intros i a id Hi. by apply (W i _ a id Hi).
  - done.
  - intros Hf id Hid Hc. destruct (Hopen Hf id Hid Hc) as [a Ha]. exists a. split; [done|]. split; [by apply P|].
    intros id' Hid' Hc' Ho. destruct (Hopen Hf id' Hid' Hc') as [b Hb]. pose proof (P _ _ Hb) as Ho'. congruence.
  - intros Hf id Hid. simpl. destruct (decide (id ∈ pp_closed s)) as [?|Hc]; [by apply elem_of_union_r|].
    destruct (Hopen Hf id Hid Hc) as [a Ha]. apply elem_of_union_l. by apply (closed_snd _ a).
Qed.

Lemma peer_step_at has_punch s i f good :
  pp_fetchers s !! i = Some f -> peer_step has_punch s (PStep i good) = fetcher_step has_punch s i f good.
Proof. intros Hi. simpl. by rewrite Hi. Qed.

(** A connection that fails is dropped from the pool before it is closed, unless a
    newer one took its place: the next fetch from that peer punches again. *)
Theorem failed_connection_dropped (has_punch : bool) (s : peers) (i : nat) (a : bytes) (id : nat)
    (Hi : pp_fetchers s !! i = Some (FUse a id)) :
  let s' := fold_left (peer_step has_punch) [PStep i false; PStep i true; PStep i true] s in
  pp_pool s' !! a <> Some id /\ id ∈ pp_closed s' /\ pp_fetchers s' !! i = Some (FDone false) /\
  forall b, b <> a -> pp_pool s' !! b = pp_pool s !! b.
Proof.
  pose proof (lookup_lt_Some _ _ _ Hi) as Hlt. cbn [fold_left]. rewrite (peer_step_at _ s i _ false Hi). cbn [fetcher_step].
  rewrite (peer_step_at _ (with_fetcher s i (FDrop a id)) i (FDrop a id) true) by (by apply list_lookup_insert_eq). cbn [fetcher_step].
  erewrite (peer_step_at _ _ i (FClosing id)) by (apply list_lookup_insert_eq; simpl; by rewrite length_insert).
  cbn [fetcher_step pp_pool pp_closed pp_fetchers with_fetcher].
  rewrite list_lookup_insert_eq by (by rewrite !length_insert).
  split_and!; [|set_solver|done|].
  - case_bool_decide; [|done]. by rewrite lookup_delete_eq.
  - intros b Hb. case_bool_decide; [|done]. by rewrite lookup_delete_ne.
Qed.

(** Close is documented to tear down all connections and to be safe at shutdown; a
    fetch that is punching at that moment adds its connection afterwards, and it
    stays open in the pool although nothing will use it. *)
Theorem close_misses_punching (a : bytes) :
  exists evs, let s := peer_run true (evs ++ [PClose; PStep 0 true; PStep 0 true; PStep 0 true]) in
    finished s /\ pp_pool s = {[a := O]} /\ pp_opened s = [a] /\ (O ∉ pp_closed s).
Proof.
  exists [PSpawn a; PStep 0 true]. unfold peer_run. simpl. rewrite lookup_empty. simpl.
  rewrite lookup_empty. simpl. split_and!.
  - intros [|i] f; simpl; [intros [= <-]; by eexists|done].
  - done.
  - done.
  - set_solver.
Qed.
