(* ===== verification/MirrorFs.v ===== *)
(** * MirrorFs: syncFile on a file system (mirror.go)

    [Mirror.syncFile] changes the disk in one step.  Here it runs call by call on a file
    system with names, inodes and open files: the temporary file is opened and truncated,
    each chunk is written at the position its writer has reached, the file is closed and
    renamed, and the deferred removal runs.  A sync that nobody disturbs does what
    [Mirror.syncFile] says; two syncs of one path, which [OnContentManifest] can start,
    share the temporary file.  The calls on a path that can be written do not fail, except
    the renaming of a name that is gone. *)
From S2P Require Import Prelude Encoding Env DhtId DhtTable DhtRelay DhtWire UdpRelay MirrorTransport Mirror.

Record fs := mkFs { fs_names : gmap bytes nat; fs_data : gmap nat bytes; fs_next : nat }.

Definition fs_content (f : fs) (i : nat) : bytes := default [] (fs_data f !! i).

(** The files by name. *)
Definition fs_view (f : fs) : gmap bytes bytes := fs_content f <$> fs_names f.

(** [os.OpenFile] with O_CREATE, O_WRONLY and O_TRUNC. *)
Definition open_trunc (p : bytes) (f : fs) : nat * fs :=
  match fs_names f !! p with
  | Some i => (i, mkFs (fs_names f) (<[i := []]> (fs_data f)) (fs_next f))
  | None => (fs_next f, mkFs (<[p := fs_next f]> (fs_names f)) (<[fs_next f := []]> (fs_data f)) (S (fs_next f)))
  end.

(** A write at a position; a gap before it reads as zeros. *)
Definition write_at (i pos : nat) (data : bytes) (f : fs) : fs :=
  let old := fs_content f i in
  let new := take pos (old ++ replicate (pos - length old) x00) ++ data ++ drop (pos + length data) old in
  mkFs (fs_names f) (<[i := new]> (fs_data f)) (fs_next f).

(** [os.Rename]: whether it succeeded. *)
Definition rename (a b : bytes) (f : fs) : bool * fs :=
  match fs_names f !! a with
  | Some i => (true, mkFs (<[b := i]> (delete a (fs_names f))) (fs_data f) (fs_next f))
  | None => (false, f)
  end.

(** [os.Remove]. *)
Definition remove (a : bytes) (f : fs) : fs := mkFs (delete a (fs_names f)) (fs_data f) (fs_next f).

Section steps.
Context `{Signatures}.

(** Where a [syncFile] is; the open file has an inode and a position. *)
Inductive progress :=
| FStart (hashes : list bytes)
| FLoop (i pos : nat) (hashes : list bytes)        (* before the check for the next chunk *)
| FFetching (i pos : nat) (hash : bytes) (hashes : list bytes)
| FClosed                                          (* the temporary file is complete and closed *)
| FDeferred (ok : bool)                            (* before the deferred removal *)
| FEnd (ok : bool).

(** One call; [sup] is the answer of [superseded] where it is asked. *)
Definition file_step (net : sources) (p : bytes) (sup : bool) (st : progress) (f : fs) : option (progress * fs) :=
  match st with
  | FStart hashes => let '(i, f) := open_trunc (part p) f in Some (FLoop i 0 hashes, f)
  | FLoop i pos [] => Some (FClosed, f)
  | FLoop i pos (h :: hashes) => Some (if sup then FDeferred false else FFetching i pos h hashes, f)
  | FFetching i pos h hashes =>
    match fetchChunk net h with
    | Some data => Some (FLoop i (pos + length data) hashes, write_at i pos data f)
    | None => Some (FDeferred false, f)
    end
  | FClosed => let '(ok, f) := rename (part p) p f in Some (FDeferred ok, f)
  | FDeferred ok => Some (FEnd ok, remove (part p) f)
  | FEnd _ => None
  end.

(** Undisturbed, to its end. *)
Inductive file_run (net : sources) (p : bytes) : progress -> fs -> bool -> fs -> Prop :=
| run_end ok f : file_run net p (FEnd ok) f ok f
| run_step sup st f st' f' ok f'' :
    file_step net p sup st f = Some (st', f') -> file_run net p st' f' ok f'' -> file_run net p st f ok f''.

(** Two of them on one file system, in the order of the list. *)
Record sync_job := mkJob { job_net : sources; job_path : bytes; job_at : progress }.

Fixpoint two_jobs (sched : list (bool * bool)) (a b : sync_job) (f : fs) : option (sync_job * sync_job * fs) :=
  match sched with
  | [] => Some (a, b, f)
  | (first, sup) :: sched =>
    let j := if first : bool then a else b in
    match file_step (job_net j) (job_path j) sup (job_at j) f with
    | None => None
    | Some (st, f) =>
      let j := mkJob (job_net j) (job_path j) st in
      if first then two_jobs sched j b f else two_jobs sched a j f
    end
  end.
End steps.

(** ** A sync that nobody disturbs *)

(** No two names for one file, and new inodes are new. *)
Definition fs_ok (f : fs) : Prop :=
  (forall p q i, fs_names f !! p = Some i -> fs_names f !! q = Some i -> p = q) /\
  (forall p i, fs_names f !! p = Some i -> (i < fs_next f)%nat).

Lemma part_ne p : part p <> p.
Proof. unfold part. intros E. apply (f_equal length) in E. rewrite length_app in E. cbn in E. lia. Qed.

Lemma view_lookup f p : fs_view f !! p = fs_content f <$> fs_names f !! p.
Proof. unfold fs_view. apply lookup_fmap. Qed.

(** Changing the data of a file leaves the other names alone. *)
Lemma view_other f f' i p :
  fs_ok f -> fs_names f !! p = Some i -> fs_names f' = fs_names f -> (forall j, j <> i -> fs_content f' j = fs_content f j) ->
  delete p (fs_view f') = delete p (fs_view f).
Proof.
  intros [Hinj _] Hp Hn Hd. apply map_eq. intros q. destruct (decide (q = p)) as [->|Hq]; [by rewrite !lookup_delete_eq|].
  rewrite !lookup_delete_ne by done. rewrite !view_lookup, Hn. destruct (fs_names f !! q) as [j|] eqn:Ej; [|done].
  cbn. f_equal. apply Hd. intros ->. by destruct Hq, (Hinj _ _ _ Ej Hp).
Qed.

Lemma content_insert n d k i j x : j <> i -> fs_content (mkFs n (<[i := x]> d) k) j = default [] (d !! j).
Proof. intros Hj. unfold fs_content. cbn. by rewrite lookup_insert_ne by done. Qed.

Lemma open_trunc_ok p f i f' : fs_ok f -> open_trunc p f = (i, f') ->
  fs_ok f' /\ fs_names f' !! p = Some i /\ fs_content f' i = [] /\ delete p (fs_view f') = delete p (fs_view f).
Proof.
  intros Hok. unfold open_trunc. destruct (fs_names f !! p) as [j|] eqn:Ep; intros [= <- <-].
  - split; [exact Hok|]. split; [done|]. split; [unfold fs_content; cbn; by rewrite lookup_insert_eq|].
    eapply view_other; [exact Hok|exact Ep|done|]. intros k Hk. by apply content_insert.
  - destruct Hok as [Hinj Hlt]. split; [split|split; [apply lookup_insert_eq|split]].
    + cbn. intros q r i. rewrite !lookup_insert. repeat case_decide; intros; simplify_eq; try done.
      * exfalso. match goal with H : fs_names f !! _ = Some _ |- _ => apply Hlt in H; lia end.
      * exfalso. match goal with H : fs_names f !! _ = Some _ |- _ => apply Hlt in H; lia end.
      * by eapply Hinj.
    + cbn. intros q i. rewrite lookup_insert. case_decide; [intros [= <-]; lia|]. intros Hq%Hlt. lia.
    + unfold fs_content. cbn. by rewrite lookup_insert_eq.
    + apply map_eq. intros q. destruct (decide (q = p)) as [->|Hq]; [by rewrite !lookup_delete_eq|].
      rewrite !lookup_delete_ne by done. rewrite !view_lookup. cbn. rewrite lookup_insert_ne by done.
      destruct (fs_names f !! q) as [k|] eqn:Ek; [|done]. cbn. f_equal. apply content_insert. apply Hlt in Ek. lia.
Qed.

Lemma write_at_end i data f : fs_content (write_at i (length (fs_content f i)) data f) i = fs_content f i ++ data.
Proof.
  unfold write_at. cbv zeta. unfold fs_content at 1. cbn. rewrite lookup_insert_eq. cbn.
  rewrite Nat.sub_diag, app_nil_r, take_ge by done. rewrite drop_ge by lia. by rewrite app_nil_r.
Qed.

Section alone.
Context `{Signatures} (net : sources) (p : bytes).

Ltac next_step H E Hn := inversion H as [|? ? ? ? ? ? ? E Hn]; subst; clear H; cbn [file_step] in *.

(** The removal, after which the temporary name is gone. *)
Lemma run_deferred ok f ok' f' : fs_ok f -> file_run net p (FDeferred ok) f ok' f' ->
  ok' = ok /\ fs_ok f' /\ fs_view f' = delete (part p) (fs_view f).
Proof.
  intros [Hinj Hlt] Hr. next_step Hr E Hn. injection E as <- <-. next_step Hn E2 Hn2; [|done]. split; [done|]. split; [split|].
  - cbn. intros q r i. rewrite !lookup_delete. repeat case_decide; try done. apply Hinj.
  - cbn. intros q i. rewrite lookup_delete. case_decide; [done|]. apply Hlt.
  - unfold fs_view, remove. cbn. by rewrite fmap_delete.
Qed.

Lemma run_closed i f ok f' : fs_ok f -> fs_names f !! part p = Some i -> file_run net p FClosed f ok f' ->
  ok = true /\ fs_ok f' /\ fs_view f' = <[p := fs_content f i]> (delete (part p) (fs_view f)).
Proof.
  intros [Hinj Hlt] Hi Hr. next_step Hr E Hn. unfold rename in E. rewrite Hi in E. injection E as <- <-.
  apply run_deferred in Hn as (-> & Hok & ->).
  - split; [done|]. split; [done|]. unfold fs_view. cbn. rewrite fmap_insert, fmap_delete.
    rewrite delete_insert_ne by (first [apply part_ne | apply not_eq_sym, part_ne]). by rewrite delete_delete_eq.
  - split; cbn.
    + intros q r j. rewrite !lookup_insert, !lookup_delete. repeat case_decide; intros Hq Hr; simplify_eq; try done.
      all: first [by destruct (Hinj _ _ _ Hi Hr) | by destruct (Hinj _ _ _ Hi Hq) | by eapply Hinj].
    + intros q j. rewrite lookup_insert, lookup_delete. repeat case_decide; intros; simplify_eq; by eapply Hlt.
Qed.

Lemma run_loop hashes : forall i f ok f',
  fs_ok f -> fs_names f !! part p = Some i -> file_run net p (FLoop i (length (fs_content f i)) hashes) f ok f' ->
  exists sup r, fetch_all net hashes sup (fs_content f i) = (r, []) /\ ok = bool_decide (is_Some r) /\ fs_ok f' /\
    fs_view f' = match r with Some data => <[p := data]> (delete (part p) (fs_view f)) | None => delete (part p) (fs_view f) end.
Proof.
  induction hashes as [|h hashes IH]; intros i f ok f' Hok Hi Hr.
  - next_step Hr E Hn. injection E as <- <-. apply (run_closed i) in Hn as (-> & Hok' & Hv); [|done|done].
    exists [], (Some (fs_content f i)). by split_and!.
  - inversion Hr as [|sup ? ? ? ? ? ? E Hn]; subst; clear Hr; cbn [file_step] in E. injection E as <- <-. destruct sup.
    { apply run_deferred in Hn as (-> & Hok' & Hv); [|done]. exists [true], None. by split_and!. }
    next_step Hn E H1. destruct (fetchChunk net h) as [data|] eqn:Ef; injection E as <- <-.
    2:{ apply run_deferred in H1 as (-> & Hok' & Hv); [|done]. exists [false], None. cbn. rewrite Ef. by split_and!. }
    pose proof (write_at_end i data f) as Hw. rewrite <- length_app, <- Hw in H1.
    destruct (IH i (write_at i (length (fs_content f i)) data f) ok f' Hok Hi H1) as (sup' & r & Hfa & Hr & Hok' & Hv).
    exists (false :: sup'), r. cbn [fetch_all superseded]. rewrite Ef, <- Hw. split_and!; try done.
    rewrite Hv. rewrite (view_other f (write_at i (length (fs_content f i)) data f) i (part p)); try done.
    intros j Hj. unfold write_at. cbv zeta. by rewrite content_insert.
Qed.
End alone.

Section refinement.
Context `{Signatures}.

(** A [syncFile] that no other one disturbs, run call by call, changes the files by name
    exactly as [Mirror.syncFile] says for some answers of [superseded], succeeds exactly when
    that does, and never leaves its temporary file behind. *)
Theorem sync_file_refines (abs : bytes -> bytes) (net : sources) (writable : bytes -> bool) (c : contentFile) (state : option bytes)
    (f f' : fs) (ok : bool) (Hw : writable (abs (cf_Path c)) = true) (Hok : fs_ok f)
    (Hrun : file_run net (abs (cf_Path c)) (FStart (cf_ChunkHashes c)) f ok f') :
  fs_ok f' /\ fs_view f' !! part (abs (cf_Path c)) = None /\
  exists sup, syncFile abs net writable c sup (mkDisk (fs_view f) state) = (ok, mkDisk (fs_view f') state, []).
Proof.
  inversion Hrun as [|sup st ? st' f1 ? ? E Hr]; subst. cbn [file_step] in E.
  destruct (open_trunc _ f) as [i f2] eqn:Eo. injection E as <- <-.
  destruct (open_trunc_ok _ _ _ _ Hok Eo) as (Hok2 & Hi & Hc & Hd).
  replace 0%nat with (length (fs_content f2 i)) in Hr by (by rewrite Hc).
  destruct (run_loop net _ _ _ _ _ _ Hok2 Hi Hr) as (sup' & r & Hfa & -> & Hok' & Hv). rewrite Hc in Hfa. rewrite Hd in Hv.
  split; [done|]. split.
  { rewrite Hv. destruct r as [data|]; [rewrite lookup_insert_ne by (first [apply part_ne | apply not_eq_sym, part_ne])|]; apply lookup_delete_eq. }
  exists sup'. unfold syncFile. rewrite Hw. cbn [negb dk_files dk_state]. rewrite Hfa, Hv. by destruct r.
Qed.
End refinement.

(** ** Two syncs of one path *)

(** The first sync opens the temporary file and is fetching its chunk when a newer manifest
    starts the second. *)
Definition overlap : list (bool * bool) :=
  [(true, false); (true, false)] ++ replicate 6 (false, false) ++ replicate 4 (true, false).

Section overlapping.
Context `{Signatures}.

(** Overlapping syncs corrupt a file.  The second sync truncates the temporary file the first
    has open, writes its own chunk, renames it into place and reports success, so that its
    version is announced as complete; then the chunk of the first arrives and is written
    over the start of that same file, under its final name.  The first notices nothing but
    that there is no file left to rename. *)
Theorem overlapping_syncs_corrupt (p h1 h2 old new : bytes) (net1 net2 : sources)
    (Hold : fetchChunk net1 h1 = Some old) (Hnew : fetchChunk net2 h2 = Some new) :
  exists f, two_jobs overlap (mkJob net1 p (FStart [h1])) (mkJob net2 p (FStart [h2])) (mkFs ∅ ∅ 0) =
      Some (mkJob net1 p (FEnd false), mkJob net2 p (FEnd true), f) /\
    fs_view f !! p = Some (old ++ drop (length old) new).
Proof.
  pose proof (part_ne p) as Hne. assert (p <> part p) as Hne' by (by apply not_eq_sym).
  unfold overlap. cbn [app replicate].
  repeat first [progress cbn [two_jobs job_net job_path job_at file_step remove write_at fs_names fs_data fs_next]
    | progress unfold open_trunc, rename | rewrite lookup_empty | rewrite lookup_insert_eq | rewrite Hnew | rewrite Hold | rewrite lookup_delete_eq
    | rewrite lookup_delete_ne by done | rewrite lookup_insert_ne by done].
  eexists. split; [reflexivity|]. rewrite view_lookup. unfold write_at, remove, fs_content. cbn [fs_names fs_data].
  repeat first [rewrite lookup_insert_eq | rewrite lookup_delete_ne by done
    | progress cbn [fmap option_fmap option_map default from_option id fs_names fs_data]].
  rewrite !take_0, drop_nil, !app_nil_r. done.
Qed.
End overlapping.

Module Toy_overlap.
#[export] Instance lengths : Signatures := {|
  ed25519_check := fun _ _ _ => true;
  sha256_sum := fun m => if bool_decide (m = str "new!") then replicate 32 xab else replicate 32 x00
|}.
Definition hash_new : bytes := Hex.encode (replicate 32 xab).
Definition hash_old : bytes := Hex.encode (replicate 32 x00).
Definition gives (data : bytes) : sources := mkSources (fun _ => []) (fun _ _ => None) (Some (fun _ => Some data)).
Definition alone : fs := mkFs ∅ ∅ 0.
End Toy_overlap.
Import Toy_overlap.

Lemma overlapping_syncs_corrupt_witness :
  exists f, two_jobs overlap (mkJob (gives (str "old!")) (str "a") (FStart [hash_old])) (mkJob (gives (str "new!")) (str "a") (FStart [hash_new]))
      (mkFs ∅ ∅ 0) = Some (mkJob (gives (str "old!")) (str "a") (FEnd false), mkJob (gives (str "new!")) (str "a") (FEnd true), f) /\
    fs_view f !! str "a" = Some (str "old!") /\ chunkHashMatches (str "old!") hash_new = false.
Proof.
  destruct (overlapping_syncs_corrupt (str "a") hash_old hash_new (str "old!") (str "new!") (gives (str "old!")) (gives (str "new!")))
    as (f & E & Hv); [by vm_compute..|]. exists f. split; [exact E|]. split; [exact Hv|by vm_compute].
Defined.

Lemma sync_file_refines_witness :
  exists ok f', file_run (gives (str "new!")) (str "a") (FStart [hash_new]) alone ok f' /\ ok = true /\
    fs_view f' !! part (str "a") = None.
Proof.
  destruct (two_jobs (replicate 6 (true, false)) (mkJob (gives (str "new!")) (str "a") (FStart [hash_new]))
    (mkJob (gives []) [] (FEnd true)) alone) as [[[j ?] f']|] eqn:E; [|by vm_compute in E].
  assert (file_run (gives (str "new!")) (str "a") (FStart [hash_new]) alone true f') as Hr.
  { vm_compute in E. injection E as <- _ <-. repeat (eapply (run_step _ _ false); [by vm_compute|]). apply run_end. }
  exists true, f'. split; [exact Hr|]. split; [done|].
  apply (sync_file_refines (fun p => p) (gives (str "new!")) (fun _ => true) (mkFile (str "a") 4 8 [hash_new]) None alone f' true eq_refl); [|exact Hr].
  unfold fs_ok, alone. cbn [fs_names]. split; intros *; rewrite lookup_empty; discriminate.
Defined.
