(* ===== verification/Replication.v ===== *)
(** * Replication: the mirror end to end

    Composes the manager (mirror.go) with the chunk transport
    (mirror_transport.go) and the relay fallback: what a mirror downloads from a peer
    that has the content, over a socket that loses datagrams, and from the controls. *)
From S2P Require Import Prelude Encoding Env DhtId DhtTable DhtRelay DhtWire UdpRelay MirrorTransport Mirror.

Definition mirrorMaxFrame : nat := 32 * 1024.

(** What [conn.Read(buf)] leaves of a datagram. *)
Definition read_frame (d : bytes) : bytes := take mirrorMaxFrame d.

(** ** One chunk from a peer *)

(** [RequestChunk] against the [readLoop] and [serveChunkRequest] of the peer:
    [losses] rounds are lost, then request and answer arrive. *)
Definition chunk_over_udp (now id : Z) (getChunk : bytes -> option bytes) (losses : nat) (hash : bytes)
    : option (bytes * bool) :=
  match Hex.decode hash with
  | None => None
  | Some h =>
    let c := MirrorTransport.mkMirror {[id := None]} 0 now false in
    let answer :=
      match mirror_recv now (NewMirrorConn now) (read_frame (mirrorEncodeRequest id h)) with
      | Ok (_, [MServe id' h']) =>
        match mirror_recv now c (read_frame (serveChunkRequest (Some getChunk) id' h')) with
        | Ok (c, _) => match mc_pending c !! id with Some (Some r) => Some r | _ => None end
        | _ => None
        end
      | _ => None
      end in
    let outs := match answer with
                | Some r => replicate losses RTimedOut ++ [RResponse r]
                | None => replicate mirrorRetries RTimedOut
                end in
    match (RequestChunk c id hash outs).1.1 with
    | Ok (Some data) => Some (data, true)
    | Ok None => Some ([], false)
    | _ => None
    end
  end.

(** ** The relay fallback *)

Definition chunk_url (addr hash : bytes) : bytes :=
  (if has_prefix addr (str "http") then addr else str "https://" ++ addr) ++ str "/p/v1/content/chunk?hash=" ++ hash.

Definition chunk_limit : nat := Z.to_nat (2 ^ 20).

Fixpoint relay_from (get : bytes -> option (Z * bytes)) (controls : list bytes) (hash : bytes) : option bytes :=
  match controls with
  | [] => None
  | addr :: controls =>
    match get (chunk_url addr hash) with
    | Some (status, body) => if negb (status =? 200) then relay_from get controls hash else Some (take chunk_limit body)
    | None => relay_from get controls hash
    end
  end.

(** [shuffled]: the known controls in the order drawn. *)
Definition DefaultRelayChunkFetcher (get : bytes -> option (Z * bytes)) (shuffled : list bytes) (hash : bytes) : option bytes :=
  if Nat.eqb (length shuffled) 0 then None else relay_from get shuffled hash.

Definition peerCandidates (completePeersFn : option (Z -> list bytes)) (ts : Z) : list bytes :=
  match completePeersFn with None => [] | Some f => f ts end.

Section exchange.
Context (now id : Z) (Hid : 0 <= id < 2 ^ 32).

Lemma request_chunk_answer c hash h losses r :
  Hex.decode hash = Some h -> length h = 32%nat -> (losses < 3)%nat ->
  (RequestChunk c id hash (replicate losses RTimedOut ++ [RResponse r])).1.1 =
  if mr_found r then Ok (Some (mr_data r)) else Ok None.
Proof.
  intros Hdec Hh Hl. unfold RequestChunk. rewrite Hdec.
  rewrite (proj2 (Z.eqb_eq _ _)) by (unfold zlen; lia). simpl negb. cbv iota.
  pose proof (rounds_after_losses mirrorRetries (mirrorEncodeRequest id (copy (make_bytes 32) h)) losses r [] Hl) as R.
  destruct (request_rounds _ _ _) as [[x ws] ok]. simpl in *. by injection R as -> _.
Qed.

Lemma read_frame_short d : zlen d <= 32768 -> read_frame d = d.
Proof. intros Hd. unfold read_frame, mirrorMaxFrame. apply take_ge. unfold zlen in Hd. lia. Qed.

(** A chunk that fits a frame is fetched over the socket exactly when the peer's
    lookup has it, under the hash printed in lower case. *)
Lemma chunk_over_udp_exact getChunk losses hash h :
  Hex.decode hash = Some h -> length h = 32%nat -> (losses < 3)%nat ->
  (forall d, getChunk (Hex.encode h) = Some d -> zlen d + 13 <= 32768) ->
  chunk_over_udp now id getChunk losses hash =
  Some (match getChunk (Hex.encode h) with Some d => (d, true) | None => ([], false) end).
Proof.
  intros Hdec Hh Hl Hsize. unfold chunk_over_udp. rewrite Hdec. cbv zeta.
  rewrite read_frame_short by (unfold mirrorEncodeRequest; rewrite !zlen_app, !zlen_put_u32; unfold zlen at 1 2; simpl length; lia).
  rewrite recv_chunk_request by done. unfold serveChunkRequest.
  destruct (getChunk (Hex.encode h)) as [d|] eqn:E.
  - specialize (Hsize d eq_refl). pose proof (zlen_nonneg d).
    rewrite read_frame_short by (unfold mirrorEncodeFound; rewrite !zlen_app, !zlen_put_u32; unfold zlen at 1; simpl length; lia).
    rewrite recv_chunk_found by lia. unfold deliver. simpl. rewrite lookup_singleton_eq. simpl. rewrite lookup_insert_eq.
    by rewrite (request_chunk_answer _ _ h) by done.
  - rewrite read_frame_short by (unfold mirrorEncodeMiss; rewrite !zlen_app, !zlen_put_u32; by vm_compute). rewrite recv_chunk_miss by done.
    unfold deliver. simpl. rewrite lookup_singleton_eq. simpl. rewrite lookup_insert_eq.
    by rewrite (request_chunk_answer _ _ h) by done.
Qed.
End exchange.

(** ** A peer that has the content *)

Section replicate.
Context `{Signatures} `{JSON signedContentManifest} `{JSON contentPayload}.

(** The lookup a mirror with these files on disk offers to its peers. *)
Definition peer_serves (absP : bytes -> bytes) (files : list contentFile) (dP : disk) (hash : bytes) : option bytes :=
  match ServeChunk (buildChunkIndex absP files) dP hash with Ok r => r | _ => None end.

Lemma index_chunks_size path size cs M hashes : forall offset idx h loc,
  cs <= M -> (forall h loc, idx !! h = Some loc -> cl_size loc <= M) ->
  index_chunks path size cs hashes offset idx !! h = Some loc -> cl_size loc <= M.
Proof.
  induction hashes as [|hash hashes IH]; intros offset idx h loc Hcs Hidx; simpl; [apply Hidx|].
  apply IH; [done|]. intros h' loc' [[_ <-]|[_ Hl]]%lookup_insert_Some; [|by apply (Hidx h')].
  simpl. destruct (_ <? _) eqn:E; [apply Z.ltb_lt in E|]; lia.
Qed.

Lemma build_index_size absP files M h loc :
  (forall f, f ∈ files -> cf_ChunkSize f <= M) -> buildChunkIndex absP files !! h = Some loc -> cl_size loc <= M.
Proof.
  unfold buildChunkIndex. intros Hf.
  assert (forall idx, (forall h loc, idx !! h = Some loc -> cl_size loc <= M) -> forall h loc,
    fold_left (fun idx f => index_chunks (absP (cf_Path f)) (cf_Size f) (cf_ChunkSize f) (cf_ChunkHashes f) 0 idx) files idx !! h
      = Some loc -> cl_size loc <= M) as G.
  { induction files as [|f files IH]; intros idx Hidx; simpl; [exact Hidx|]. apply IH; [intros; apply Hf; by right|].
    intros h' loc' Hl. eapply index_chunks_size; [|exact Hidx|exact Hl]. apply Hf. left. }
  apply G. intros h' loc' Hl. by rewrite lookup_empty in Hl.
Qed.

Lemma peer_serves_listed absP files dP f h :
  Forall (laid_out absP dP) files -> f ∈ files -> h ∈ cf_ChunkHashes f ->
  (forall f, f ∈ files -> cf_ChunkSize f <= 32755) ->
  exists c, peer_serves absP files dP h = Some c /\ chunkHashMatches c h = true /\ zlen c + 13 <= 32768.
Proof.
  intros Hd Hf Hh Hs. destruct (proj2 (build_index_keys absP files h) (ex_intro _ f (conj Hf Hh))) as [loc E].
  pose proof (build_index_size absP files 32755 h loc Hs E).
  destruct (build_index_served absP files dP h loc Hd E) as (content & Hc & Ho & Hz & c & Hsl & Hm).
  exists c. unfold peer_serves, ServeChunk. rewrite E, Hc, !(proj2 (Z.ltb_ge _ _)) by done. rewrite Hsl.
  split; [done|]. split; [done|]. apply slice_length in Hsl. lia.
Qed.

(** Asking the candidates in turn, one that has the chunk is enough, whatever the
    others do. *)
Lemma fetch_from_peers_reaches peer addrs hash addr c :
  addr ∈ addrs -> peer addr hash = Some (c, true) -> chunkHashMatches c hash = true ->
  is_Some (fetch_from_peers peer addrs hash).
Proof.
  intros Hin Hp Hm. induction addrs as [|a addrs IH]; [by apply elem_of_nil in Hin|]. simpl.
  apply elem_of_cons in Hin as [<-|Hin]; [rewrite Hp; simpl; rewrite Hm; by eexists|].
  destruct (peer a hash) as [[data []]|]; simpl; [|by apply IH..].
  destruct (chunkHashMatches data hash); [by eexists|by apply IH].
Qed.

Lemma fetch_chunk_from_peers net hash c :
  is_Some (fetch_from_peers (src_peer net) (src_candidates net hash) hash) -> c = fetchChunk net hash -> is_Some c.
Proof. intros [d Hd] ->. unfold fetchChunk. rewrite Hd. by eexists. Qed.

(** The chunks a file is made of, as they were fetched. *)
Definition fetched (net : sources) (hashes : list bytes) (chunks : list bytes) : Prop :=
  Forall2 (fun h c => fetchChunk net h = Some c) hashes chunks.

Lemma fetch_all_complete net hashes acc :
  (forall h, h ∈ hashes -> is_Some (fetchChunk net h)) ->
  exists chunks, fetched net hashes chunks /\ fetch_all net hashes [] acc = (Some (acc ++ mjoin chunks), []).
Proof.
  revert acc. induction hashes as [|h hashes IH]; intros acc Hall; simpl.
  { exists []. split; [constructor|]. by rewrite app_nil_r. }
  destruct (Hall h ltac:(left)) as [d Ed]. rewrite Ed. destruct (IH (acc ++ d)) as (chunks & Hc & ->); [intros h' Hh'; apply Hall; by right|].
  exists (d :: chunks). split; [by constructor|]. simpl. by rewrite app_assoc.
Qed.

Lemma sync_files_complete abs net writable files : forall d, separate abs files ->
  (forall f, f ∈ files -> writable (abs (cf_Path f)) = true) ->
  (forall f h, f ∈ files -> h ∈ cf_ChunkHashes f -> is_Some (fetchChunk net h)) ->
  exists d', sync_files abs net writable ∅ files [] d true = (Some true, d', []) /\
    forall f, f ∈ files -> exists chunks, fetched net (cf_ChunkHashes f) chunks /\ dk_files d' !! abs (cf_Path f) = Some (mjoin chunks).
Proof.
  induction files as [|f files IH]; intros d Hsep Hw Hf; simpl; [eexists; split; [done|]; by intros f ?%elem_of_nil|].
  destruct (fetch_all_complete net (cf_ChunkHashes f) [] (fun h => Hf f h ltac:(left))) as (chunks & Hc & Ea).
  destruct (separate_cons _ _ _ Hsep) as (Hsep' & Hff & Hfg).
  rewrite lookup_empty. unfold syncFile. rewrite Hw by left. simpl negb. cbv iota. rewrite Ea. cbn [andb app].
  match goal with |- context [sync_files _ _ _ _ _ _ ?d1 _] => destruct (IH d1 Hsep') as (d' & E & Hall) end;
    [intros; apply Hw; by right|intros; eapply Hf; [by right|done]|].
  exists d'. split; [done|]. intros g [->|Hg]%elem_of_cons; [|by apply Hall]. exists chunks. split; [done|].
  destruct (sync_files_spec abs net writable ∅ files _ _ _ _ _ _ E Hsep') as (_ & Hfr & _); [done|].
  rewrite Hfr; [cbn; apply lookup_insert_eq|]. intros g Hg. destruct (Hfg g Hg) as (_ & ? & ?). auto.
Qed.

(** The chunks that play a part: those fetched for the manifest and those of the peer's files. *)
Definition at_hand (net : sources) (absP : bytes -> bytes) (dP : disk) (files : list contentFile) (x : bytes) : Prop :=
  (exists f h, f ∈ files /\ h ∈ cf_ChunkHashes f /\ fetchChunk net h = Some x) \/
  (exists f chunks, f ∈ files /\ x ∈ chunks /\ dk_files dP !! absP (cf_Path f) = Some (mjoin chunks) /\
     Forall2 (fun h c => chunkHashMatches c h = true) (cf_ChunkHashes f) chunks).

Lemma matches_same x y h : chunkHashMatches x h = true -> chunkHashMatches y h = true -> sha256_sum x = sha256_sum y.
Proof. unfold chunkHashMatches. intros Hx Hy. bool_to_prop. apply Hex.encode_inj. congruence. Qed.

(** Chunks that match the same hashes are the same, where no two chunks at hand collide. *)
Lemma same_chunks (P : bytes -> Prop) hashes l l' :
  (forall x y, P x -> P y -> sha256_sum x = sha256_sum y -> x = y) -> Forall P l -> Forall P l' ->
  Forall2 (fun h c => chunkHashMatches c h = true) hashes l -> Forall2 (fun h c => chunkHashMatches c h = true) hashes l' -> l = l'.
Proof.
  intros Hu Hp Hp' Hl. revert l' Hp'. induction Hl as [|h c hashes l Hm Hl IH]; intros l' Hp' Hl'; inversion Hl' as [|? c' ? l1 Hm' Hl1]; subst; [done|].
  apply Forall_cons in Hp as [? ?], Hp' as [? ?]. f_equal; [|by apply IH]. apply Hu; [done|done|]. by eapply matches_same.
Qed.


(** A manifest may list hashes in upper case: a chunk is compared with the hash in
    lower case.  But peers ask for a chunk by its 32 bytes, which the serving side
    prints in lower case and looks up in an index keyed by the manifest's own text:
    the peer has the chunk and answers that it has not. *)
Theorem uppercase_hash_not_shared (absP : bytes -> bytes) (files : list contentFile) (dP : disk) (f : contentFile)
    (h b : bytes) (now id : Z) (losses : nat)
    (Hid : 0 <= id < 2 ^ 32) (Hloss : (losses < 3)%nat)
    (HdP : Forall (laid_out absP dP) files) (Hf : f ∈ files) (Hh : h ∈ cf_ChunkHashes f)
    (Hsize : forall f, f ∈ files -> cf_ChunkSize f <= 32755)
    (Hdec : Hex.decode h = Some b) (Hlen : length b = 32%nat)
    (Hupper : forall g, g ∈ files -> Hex.encode b ∉ cf_ChunkHashes g) :
  (exists c, peer_serves absP files dP h = Some c /\ chunkHashMatches c h = true) /\
  chunk_over_udp now id (peer_serves absP files dP) losses h = Some ([], false).
Proof.
  split.
  - destruct (peer_serves_listed absP files dP f h HdP Hf Hh Hsize) as (c & Hc & Hm & _). by exists c.
  - assert (peer_serves absP files dP (Hex.encode b) = None) as Hn.
    { unfold peer_serves, ServeChunk. destruct (buildChunkIndex absP files !! Hex.encode b) as [loc|] eqn:E; [|done].
      destruct (proj1 (build_index_keys absP files (Hex.encode b)) (ex_intro _ loc E)) as (g & Hg & Hin).
      by destruct (Hupper g Hg). }
    rewrite (chunk_over_udp_exact _ _ Hid _ _ _ b), Hn by (done || by intros d; rewrite Hn). done.
Qed.

(** ** The fallback *)

Lemma relay_from_first get controls hash data :
  relay_from get controls hash = Some data <->
  exists pre a post body, controls = pre ++ a :: post /\ get (chunk_url a hash) = Some (200, body) /\
    data = take chunk_limit body /\ forall p st b, p ∈ pre -> get (chunk_url p hash) = Some (st, b) -> st <> 200.
Proof.
  revert data. induction controls as [|a controls IH]; intros data; simpl.
  - split; [done|]. by intros ([] & ? & ? & ? & ? & _).
  - assert ((forall b, get (chunk_url a hash) <> Some (200, b)) -> relay_from get controls hash = Some data <->
      exists pre a' post body, a :: controls = pre ++ a' :: post /\ get (chunk_url a' hash) = Some (200, body) /\
        data = take chunk_limit body /\ forall p st b, p ∈ pre -> get (chunk_url p hash) = Some (st, b) -> st <> 200) as Hskip.
    { intros Hno. rewrite IH. split.
      - intros (pre & a' & post & body & -> & Hg & Hd & Hp). exists (a :: pre), a', post, body. split_and!; try done.
        intros p st b [->|Hin]%elem_of_cons Hb; [intros ->; by apply (Hno b)|by eapply Hp].
      - intros ([|x pre] & a' & post & body & [= -> E] & Hg & Hd & Hp); [by destruct (Hno body)|].
        exists pre, a', post, body. split_and!; try done. intros p st b Hin. apply Hp. by right. }
    destruct (get (chunk_url a hash)) as [[st body]|] eqn:E; [|apply Hskip; done].
    destruct (Z.eqb_spec st 200) as [->|Hne]; simpl; [|apply Hskip; by intros b [= ->]].
    split.
    + intros [= <-]. exists [], a, controls, body. split_and!; try done. by intros p st b ?%elem_of_nil.
    + intros ([|x pre] & a' & post & body' & [= -> Ea] & Hg & -> & Hp); [by rewrite E in Hg; injection Hg as ->|].
      by destruct (Hp x 200 body ltac:(left) E).
Qed.

(** The fallback takes the body, cut at 1 MiB, of the first control that answers 200,
    and goes on to the next only when a control does not.  Since the hash is checked
    afterwards, one control that answers with other bytes ends the fetch of the chunk,
    although another control has it. *)
Theorem relay_fallback_first_answer (net : sources) (get : bytes -> option (Z * bytes)) (pre post : list bytes)
    (a hash body : bytes)
    (Hrelay : src_relay net = Some (DefaultRelayChunkFetcher get (pre ++ a :: post)))
    (Hnone : fetch_from_peers (src_peer net) (src_candidates net hash) hash = None)
    (Hpre : forall p st b, p ∈ pre -> get (chunk_url p hash) = Some (st, b) -> st <> 200)
    (Ha : get (chunk_url a hash) = Some (200, body)) :
  fetchChunk net hash = if chunkHashMatches (take chunk_limit body) hash then Some (take chunk_limit body) else None.
Proof.
  unfold fetchChunk. rewrite Hnone, Hrelay. unfold DefaultRelayChunkFetcher.
  replace (Nat.eqb (length (pre ++ a :: post)) 0) with false by (rewrite length_app; simpl; symmetry; apply Nat.eqb_neq; lia).
  rewrite (proj2 (relay_from_first get (pre ++ a :: post) hash (take chunk_limit body))) by (by exists pre, a, post, body).
  by destruct (chunkHashMatches _ _).
Qed.
End replicate.

(** ** Witnesses *)

Module Toy_replica.
Definition chunk : bytes := str "hello".

(** A hash that distinguishes the one chunk. *)
#[export] Instance one_hash : Signatures := {|
  ed25519_check := fun _ _ _ => true;
  sha256_sum := fun m => if bool_decide (m = chunk) then replicate 32 xab else replicate 32 x00
|}.
#[export] Instance json_content_manifest : JSON signedContentManifest := Toy.json_of_countable _.
#[export] Instance json_content_payload : JSON contentPayload := Toy.json_of_countable _.

Definition lower : bytes := Hex.encode (replicate 32 xab).
Definition upper : bytes := mjoin (replicate 32 (str "AB")).
Definition file (h : bytes) : contentFile := mkFile (str "a") 5 8 [h].
Definition manifest : signedContentManifest := mkManifest (str "content") 7 [file lower] [].
Definition full : disk := mkDisk {[str "a" := chunk]} None.
Definition empty : disk := mkDisk ∅ None.
Definition same (p : bytes) : bytes := p.
Definition yes (p : bytes) : bool := true.
(** Two candidates: one lies, one has the content behind a lossy socket. *)
Definition net : sources := mkSources (fun _ => [str "liar"; str "p"])
  (fun a h => if bool_decide (a = str "p") then chunk_over_udp 0 9 (peer_serves same [file lower] full) 2 h else Some (str "junk", true))
  None.
Definition get_chunk (url : bytes) : option (Z * bytes) :=
  if bool_decide (url = chunk_url (str "down") lower) then Some (503, [])
  else if bool_decide (url = chunk_url (str "bad") lower) then Some (200, str "junk") else Some (200, chunk).
Definition fallback : sources := mkSources (fun _ => []) (fun _ _ => None)
  (Some (DefaultRelayChunkFetcher get_chunk [str "down"; str "bad"; str "good"])).

Lemma only_chunk z : chunkHashMatches z lower = true -> z = chunk.
Proof.
  unfold chunkHashMatches, sha256_sum, one_hash.
  destruct (decide (z = chunk)) as [->|Hz]; [done|]. rewrite (bool_decide_eq_false_2 (z = chunk)) by done.
  intros E. by vm_compute in E.
Qed.

Lemma laid_out_full h : chunkHashMatches chunk h = true -> Forall (laid_out same full) [file h].
Proof.
  intros Hm. apply Forall_singleton. exists [chunk]. split; [reflexivity|]. split; [|split; [reflexivity|exact I]].
  apply Forall2_cons. split; [exact Hm|constructor].
Qed.
End Toy_replica.

Section replication_witnesses.
Import Toy_replica.


Lemma uppercase_hash_not_shared_witness :
  chunk_over_udp 0 9 (peer_serves same [file upper] full) 0 upper = Some ([], false).
Proof.
  apply (uppercase_hash_not_shared same [file upper] full (file upper) upper (replicate 32 xab) 0 9 0); try lia.
  - by apply laid_out_full; vm_compute.
  - left.
  - left.
  - intros f ->%list_elem_of_singleton. simpl. lia.
  - by vm_compute.
  - reflexivity.
  - intros g ->%list_elem_of_singleton Hin%list_elem_of_singleton. by vm_compute in Hin.
Defined.

Lemma relay_fallback_first_answer_witness : fetchChunk fallback lower = None.
Proof.
  rewrite (relay_fallback_first_answer fallback get_chunk [str "down"] [str "good"] (str "bad") lower (str "junk")); try reflexivity.
  intros p st b ->%list_elem_of_singleton Hg. vm_compute in Hg. injection Hg as <- _. done.
Defined.
End replication_witnesses.
