(* ===== verification/UdpDrain.v ===== *)
(** * UdpDrain: the goroutines of a UDP ASSOCIATE session (udp_assoc.go)

    A session is its state ([UdpAssoc.assoc]) together with the goroutines around it:
    [relayLoop] on the socket, [watchCtrl] on the control connection, and one
    [drainLoop] per destination that was sent to through the tunnel.  Their steps
    interleave with those of the tunnel workers. *)
From S2P Require Import Prelude Encoding Env UdpAssoc.

(** [newUDPAssocSession]: which socket is opened, and what opening returned.  Without
    a bypass manager it listens on the loopback interface and only tunnels. *)
Inductive assoc_socket := SockBypass | SockLoopback.
Definition newUDPAssocSession (hasBypass altDNS blockQUIC : bool) (opened : assoc_socket -> bool) : res (assoc * assoc_socket) :=
  let sock := if hasBypass then SockBypass else SockLoopback in
  if negb (opened sock) then Err "listen" else Ok (newAssoc (negb hasBypass) altDNS blockQUIC, sock).

Inductive drain_phase := DPolling | DPausing | DGone.

#[global] Instance drain_phase_eq_dec : EqDecision drain_phase.
Proof. solve_decision. Defined.

Record session := mkSession {
  ss_assoc : assoc;
  ss_stop : bool;                              (* stopCh *)
  ss_relay : bool;                             (* relayLoop runs, the socket is open *)
  ss_drains : gmap Addr (Addr * drain_phase)   (* the drain goroutines ever started, by destination *)
}.

Inductive drained := DFrames (frames : list bytes) | DCanceled | DError.
Inductive sock_read := RData (src : Addr) (data : bytes) | RTimeout | RFailed.

Inductive session_event :=
| SRead (now : Z) (r : sock_read)              (* relayLoop: one iteration *)
| SFallback (key : Addr)
| SWorker (now : Z) (dst : Addr) (posted : option (list bytes))   (* a worker takes a payload; its select may do so after the stop too *)
| SDrain (key : Addr) (picked : option drained)   (* drainLoop: one iteration from its top; [None]: no dialer *)
| SPause (key : Addr)                          (* drainLoop: the end of its 100 ms, or the stop *)
| SCtrl.                                       (* watchCtrl: the control connection closes *)

Section session.
Context (is_bypass : Addr -> bool) (lookup_host : bytes -> option bytes).

Definition with_assoc (s : session) (a : assoc) : session := mkSession a (ss_stop s) (ss_relay s) (ss_drains s).
Definition with_phase (s : session) (k : Addr) (dst : Addr) (p : drain_phase) : session :=
  mkSession (ss_assoc s) (ss_stop s) (ss_relay s) (<[k := (dst, p)]> (ss_drains s)).

(** The goroutines that [go s.drainLoop(dst)] starts. *)
Definition start_drains (acts : list assoc_act) (m : gmap Addr (Addr * drain_phase)) : gmap Addr (Addr * drain_phase) :=
  fold_left (fun m a => match a with AStartDrain dst => <[addr_key dst := (dst, DPolling)]> m | _ => m end) acts m.

Definition run_assoc (s : session) (r : assoc * list assoc_act) : session * list assoc_act :=
  (mkSession r.1 (ss_stop s) (ss_relay s) (start_drains r.2 (ss_drains s)), r.2).

(** [deliverFrames] looks at the stop channel before it writes. *)
Definition unless_stopped (s : session) (acts : list assoc_act) : list assoc_act :=
  if ss_stop s then filter (fun a => match a with AStartDrain _ => true | _ => false end = true) acts else acts.

Definition drainLoop (s : session) (k dst : Addr) (picked : option drained) : session * list assoc_act :=
  if ss_stop s then (with_phase s k dst DGone, []) else
  match picked with
  | None => (with_phase s k dst DPausing, [])
  | Some DCanceled => (with_phase s k dst DGone, [])
  | Some DError => (with_phase s k dst DPausing, [])
  | Some (DFrames frames) => (s, deliverFrames (ss_assoc s) dst frames)
  end.

Definition session_step (s : session) (ev : session_event) : session * list assoc_act :=
  match ev with
  | SRead now r =>
    if negb (ss_relay s) then (s, []) else
    if ss_stop s then (mkSession (ss_assoc s) (ss_stop s) false (ss_drains s), []) else
    match r with
    | RTimeout => (s, [])
    | RFailed => (mkSession (ss_assoc s) (ss_stop s) false (ss_drains s), [])
    | RData src data => run_assoc s (relay_datagram is_bypass lookup_host now (ss_assoc s) src data)
    end
  | SFallback key => (with_assoc s (checkFallback (ss_assoc s) key), [])
  | SWorker now dst posted =>
    let '(a, acts) := runTunnelWorker now (ss_assoc s) dst posted in run_assoc s (a, unless_stopped s acts)
  | SDrain k picked =>
    match ss_drains s !! k with
    | Some (dst, DPolling) => drainLoop s k dst picked
    | _ => (s, [])
    end
  | SPause k =>
    match ss_drains s !! k with
    | Some (dst, DPausing) => (with_phase s k dst (if ss_stop s then DGone else DPolling), [])
    | _ => (s, [])
    end
  | SCtrl => (mkSession (ss_assoc s) true (ss_relay s) (ss_drains s), [])
  end.

Definition session_run (s : session) (evs : list session_event) : session :=
  fold_left (fun s ev => (session_step s ev).1) evs s.

Definition start_session (a : assoc) : session := mkSession a false true ∅.
End session.

Section session_facts.
Context (is_bypass : Addr -> bool) (lookup_host : bytes -> option bytes).

Definition is_start (a : assoc_act) : bool := match a with AStartDrain _ => true | _ => false end.

Lemma start_drains_none acts m : Forall (fun a => is_start a = false) acts -> start_drains acts m = m.
Proof. intros Ha. unfold start_drains. revert m. induction Ha as [|a acts Hs _ IH]; intros m; simpl; [done|]. rewrite IH. by destruct a. Qed.

Lemma start_drains_app acts acts' m : start_drains (acts ++ acts') m = start_drains acts' (start_drains acts m).
Proof. apply fold_left_app. Qed.

Lemma deliver_no_start a src frames : Forall (fun a => is_start a = false) (deliverFrames a src frames).
Proof.
  unfold deliverFrames. destruct (as_client a); [|constructor]. induction frames as [|f l IH]; simpl; [constructor|].
  apply Forall_app. split; [|exact IH]. apply Forall_app. split; [destruct (_ =? _); repeat constructor|repeat constructor].
Qed.

Lemma go_send_drains now a dst payload :
  let '(a', acts) := goSendViaTunnel now a dst payload in as_drains a' = as_drains a /\ Forall (fun a => is_start a = false) acts.
Proof.
  unfold goSendViaTunnel. destruct (match _ with Some _ => _ | None => _ end); [by repeat constructor|].
  destruct (_ <? _); by repeat constructor.
Qed.

Lemma relay_drains now a src data :
  let '(a', acts) := relay_datagram is_bypass lookup_host now a src data in
  as_drains a' = as_drains a /\ Forall (fun a => is_start a = false) acts.
Proof.
  unfold relay_datagram.
  assert (as_drains (recordRecv a src) = as_drains a) as Hr by (unfold recordRecv; by destruct (as_stats a !! _)).
  assert (forall (x : assoc * list assoc_act), x = (let a := recordRecv a src in
    let dns := if a_Port src =? 53 then [ALearnDNS data] else [] in
    match as_client a with None => (a, dns) | Some c => (a, dns ++ [AToClient (buildSOCKS5UDPHeader src data) c]) end) ->
    let '(a', acts) := x in as_drains a' = as_drains a /\ Forall (fun a => is_start a = false) acts) as Hin.
  { intros x ->. cbv zeta. destruct (as_client _); (split; [exact Hr|]); destruct (_ =? _); repeat constructor. }
  destruct (parseSOCKS5UDPHeader lookup_host data) as [[[dst payload] frag]| |]; [|by apply Hin..].
  destruct frag; try by apply Hin. destruct (_ && _); [by repeat constructor|].
  unfold forwardOutbound. destruct (To4 _); [|by repeat constructor]. destruct (a_Port dst =? 53).
  - destruct (_ && _); [by repeat constructor|]. apply (go_send_drains now (with_client a (Some src))).
  - cbv zeta. destruct (_ || _ || _); [exact (go_send_drains now (with_stats (with_client a (Some src)) _ _) dst payload)|].
    split; [done|]. constructor; [done|]. destruct (_ =? socks5UDPFallbackSent); repeat constructor.
Qed.

(** What a worker's step does to the drains: nothing, or it starts the one of its
    destination, for the first time. *)
Lemma worker_drains now a dst posted m :
  let '(a', acts) := runTunnelWorker now a dst posted in
  (as_drains a' = as_drains a /\ Forall (fun a => is_start a = false) acts) \/
  (addr_key dst ∉ as_drains a) /\ as_drains a' = {[addr_key dst]} ∪ as_drains a /\
    filter (fun a => is_start a = true) acts = [AStartDrain dst] /\ start_drains acts m = <[addr_key dst := (dst, DPolling)]> m.
Proof.
  unfold runTunnelWorker. destruct (as_workers a !! addr_key dst) as [[|payload q]|]; [left; by repeat constructor| |left; by repeat constructor].
  unfold sendViaTunnel. destruct posted as [frames|].
  2: { simpl. destruct (as_stats a !! addr_key dst); [|left; by repeat constructor].
       destruct (_ >=? _); left; by repeat constructor. }
  pose proof (deliver_no_start (with_queue a (addr_key dst) q) dst frames) as Hd. set (ds := deliverFrames _ dst frames) in *.
  case_decide as Hin; simpl in Hin.
  - simpl. destruct (as_stats a !! addr_key dst); left; by split.
  - assert (filter (fun a => is_start a = true) ds = []) as Hf.
    { clearbody ds. induction Hd as [|x l Hx _ IH]; [done|]. rewrite filter_cons, Hx. by case_decide. }
    simpl. destruct (as_stats a !! addr_key dst); right; (split; [done|]); (split; [done|]);
      rewrite filter_app, Hf, start_drains_app, (start_drains_none ds) by done; done.
Qed.

Lemma unless_stopped_start s acts m : start_drains (unless_stopped s acts) m = start_drains acts m.
Proof.
  unfold unless_stopped. destruct (ss_stop s); [|done]. unfold start_drains. revert m.
  induction acts as [|a acts IH]; intros m; [done|]. rewrite filter_cons. case_decide as E; simpl; rewrite IH; by destruct a.
Qed.

(** Every drain goroutine was started once, by the first successful send. *)
Definition drains_ok (s : session) : Prop := dom (ss_drains s) = as_drains (ss_assoc s).

Lemma drainLoop_shape s k dst picked :
  exists ph, (drainLoop s k dst picked).1 = with_phase s k dst ph \/ (drainLoop s k dst picked).1 = s.
Proof.
  unfold drainLoop. destruct (ss_stop s); [by exists DGone; left|].
  destruct picked as [[]|]; [by exists DGone; right|by exists DGone; left|by exists DPausing; left|by exists DPausing; left].
Qed.

Lemma session_step_ok s ev : drains_ok s -> drains_ok (session_step is_bypass lookup_host s ev).1.
Proof.
  unfold drains_ok. intros Hs.
  assert (forall k dst ph ph', ss_drains s !! k = Some (dst, ph) -> dom (ss_drains (with_phase s k dst ph')) = as_drains (ss_assoc s)) as Hph.
  { intros k dst ph ph' Hk. simpl. rewrite dom_insert_L, <- Hs. apply elem_of_dom_2 in Hk. set_solver. }
  destruct ev as [now r|key|now dst posted|k picked|k|]; simpl.
  - destruct (ss_relay s); [|done]. destruct (ss_stop s); [done|]. destruct r as [src data| |]; try done.
    pose proof (relay_drains now (ss_assoc s) src data) as Hr. destruct (relay_datagram _ _ _ _ _ _) as [a' acts].
    destruct Hr as [Hd Ha]. simpl. by rewrite start_drains_none, Hd.
  - rewrite Hs. unfold checkFallback. destruct (as_stats _ !! key); [|done]. by destruct (_ || _).
  - pose proof (worker_drains now (ss_assoc s) dst posted (ss_drains s)) as Hw.
    destruct (runTunnelWorker _ _ _ _) as [a' acts]. simpl. rewrite unless_stopped_start.
    destruct Hw as [[Hd Ha]|(_ & Hd & _ & Ha)]; [by rewrite start_drains_none, Hd|].
    by rewrite Ha, Hd, dom_insert_L, Hs.
  - destruct (ss_drains s !! k) as [[dst []]|] eqn:E; try done.
    destruct (drainLoop_shape s k dst picked) as [ph [-> | ->]]; [|done]. by apply (Hph k dst DPolling ph).
  - destruct (ss_drains s !! k) as [[dst []]|] eqn:E; try done. by apply (Hph k dst DPausing).
  - done.
Qed.

Lemma session_run_ok s evs : drains_ok s -> drains_ok (session_run is_bypass lookup_host s evs).
Proof. revert s. induction evs as [|ev evs IH]; intros s Hs; [done|]. by apply IH, session_step_ok. Qed.

(** A drain goroutine that has ended stays ended: its destination remains marked. *)
Lemma gone_step s ev k dst :
  drains_ok s -> ss_drains s !! k = Some (dst, DGone) -> ss_drains (session_step is_bypass lookup_host s ev).1 !! k = Some (dst, DGone).
Proof.
  intros Hs Hk.
  assert (forall j d ph ph', ss_drains s !! j = Some (d, ph) -> ph <> DGone -> ss_drains (with_phase s j d ph') !! k = Some (dst, DGone)) as Hph.
  { intros j d ph ph' Hj Hne. simpl. rewrite lookup_insert_ne; [done|]. intros ->. rewrite Hk in Hj. by injection Hj as _ <-. }
  destruct ev as [now r|key|now d posted|j picked|j|]; simpl.
  - destruct (ss_relay s); [|done]. destruct (ss_stop s); [done|]. destruct r as [src data| |]; try done.
    pose proof (relay_drains now (ss_assoc s) src data) as Hr. destruct (relay_datagram _ _ _ _ _ _) as [a' acts].
    destruct Hr as [_ Ha]. simpl. by rewrite start_drains_none.
  - done.
  - pose proof (worker_drains now (ss_assoc s) d posted (ss_drains s)) as Hw.
    destruct (runTunnelWorker _ _ _ _) as [a' acts]. simpl. rewrite unless_stopped_start.
    destruct Hw as [[_ Ha]|(Hn & _ & _ & Ha)]; [by rewrite start_drains_none|].
    rewrite Ha, lookup_insert_ne; [done|]. intros <-. apply Hn. rewrite <- Hs. by eapply elem_of_dom_2.
  - destruct (ss_drains s !! j) as [[d []]|] eqn:E; try done.
    destruct (drainLoop_shape s j d picked) as [ph [-> | ->]]; [|done]. by apply (Hph j d DPolling ph).
  - destruct (ss_drains s !! j) as [[d []]|] eqn:E; try done. by apply (Hph j d DPausing).
  - done.
Qed.

Lemma gone_run s evs k dst :
  drains_ok s -> ss_drains s !! k = Some (dst, DGone) -> ss_drains (session_run is_bypass lookup_host s evs) !! k = Some (dst, DGone).
Proof. revert s. induction evs as [|ev evs IH]; intros s Hs Hk; [done|]. by apply IH; [apply session_step_ok|apply gone_step]. Qed.

Lemma drains_start a0 : as_drains a0 = ∅ -> drains_ok (start_session a0).
Proof. intros H0. unfold drains_ok. simpl. by rewrite dom_empty_L, H0. Qed.

(** Drains of a session: there is exactly one drain goroutine for each destination
    that was sent to through the tunnel, and each batch it polls is passed on to the
    client in order.  The goroutine ends when its transport is cancelled, and the mark
    that guards against a second one is never removed: from then on the destination is
    not polled again in this session, whatever dialers the pool offers and however
    often the client sends. *)
Theorem drain_never_restarted (tunnelOnly altDNS blockQUIC : bool) (before after : list session_event) (k dst : Addr)
    (picked : option drained) :
  let s := session_run is_bypass lookup_host (start_session (newAssoc tunnelOnly altDNS blockQUIC)) before in
  let s1 := (session_step is_bypass lookup_host s (SDrain k (Some DCanceled))).1 in
  let s2 := session_run is_bypass lookup_host s1 after in
  dom (ss_drains s) = as_drains (ss_assoc s) /\
  (ss_drains s !! k = Some (dst, DPolling) ->
     (forall frames, ss_stop s = false ->
        session_step is_bypass lookup_host s (SDrain k (Some (DFrames frames))) = (s, deliverFrames (ss_assoc s) dst frames)) /\
     ss_drains s2 !! k = Some (dst, DGone) /\ session_step is_bypass lookup_host s2 (SDrain k picked) = (s2, [])).
Proof.
  intros s s1 s2. assert (drains_ok s) as Hs by (by apply session_run_ok, drains_start). split; [done|]. intros Hk.
  split; [intros frames Hns; simpl; rewrite Hk; unfold drainLoop; by rewrite Hns|].
  assert (ss_drains s1 !! k = Some (dst, DGone)) as H1.
  { unfold s1. simpl. rewrite Hk. unfold drainLoop. destruct (ss_stop s); simpl; apply lookup_insert_eq. }
  assert (drains_ok s1) as Hs1 by by apply session_step_ok.
  assert (ss_drains s2 !! k = Some (dst, DGone)) as H2 by by apply gone_run.
  split; [done|]. simpl. by rewrite H2.
Qed.

Lemma stop_kept s ev : ss_stop s = true -> ss_stop (session_step is_bypass lookup_host s ev).1 = true.
Proof.
  intros Hs. destruct ev as [now r|key|now d posted|j picked|j|]; simpl; auto.
  - destruct (ss_relay s); simpl; [|done]. by rewrite Hs.
  - by destruct (runTunnelWorker _ _ _ _).
  - destruct (ss_drains s !! j) as [[d []]|]; try done. destruct (drainLoop_shape s j d picked) as [ph [-> | ->]]; done.
  - by destruct (ss_drains s !! j) as [[d []]|].
Qed.

Lemma stopped_quiet s ev act :
  ss_stop s = true -> act ∈ (session_step is_bypass lookup_host s ev).2 -> is_start act = true.
Proof.
  intros Hs. destruct ev as [now r|key|now d posted|j picked|j|]; simpl; try (by intros ?%elem_of_nil).
  - destruct (ss_relay s); simpl; [|by intros ?%elem_of_nil]. rewrite Hs. by intros ?%elem_of_nil.
  - destruct (runTunnelWorker _ _ _ _) as [a acts]. simpl. unfold unless_stopped. rewrite Hs.
    by intros [? _]%list_elem_of_filter.
  - destruct (ss_drains s !! j) as [[d []]|]; simpl; try (by intros ?%elem_of_nil).
    unfold drainLoop. rewrite Hs. by intros ?%elem_of_nil.
  - destruct (ss_drains s !! j) as [[d []]|]; simpl; by intros ?%elem_of_nil.
Qed.

(** When the control connection closes, the session ends: nothing more is written to
    the client or sent directly, whatever still arrives; the relay loop closes the
    socket at its next iteration, and every drain goroutine ends at its next step. *)
Theorem session_stops (s : session) (evs : list session_event) (ev : session_event) (act : assoc_act) :
  let s' := session_run is_bypass lookup_host (session_step is_bypass lookup_host s SCtrl).1 evs in
  (act ∈ (session_step is_bypass lookup_host s' ev).2 -> exists dst, act = AStartDrain dst) /\
  (forall now r, ss_relay (session_step is_bypass lookup_host s' (SRead now r)).1 = false) /\
  (forall k dst picked, ss_drains s' !! k = Some (dst, DPolling) ->
     ss_drains (session_step is_bypass lookup_host s' (SDrain k picked)).1 !! k = Some (dst, DGone)) /\
  (forall k dst, ss_drains s' !! k = Some (dst, DPausing) ->
     ss_drains (session_step is_bypass lookup_host s' (SPause k)).1 !! k = Some (dst, DGone)).
Proof.
  intros s'. assert (ss_stop s' = true) as Hs.
  { unfold s'. generalize (eq_refl : ss_stop (session_step is_bypass lookup_host s SCtrl).1 = true).
    generalize ((session_step is_bypass lookup_host s SCtrl).1).
    induction evs as [|e evs IH]; intros s0 H0; [done|]. by apply IH, stop_kept. }
  split_and!.
  - intros Hin. apply stopped_quiet in Hin; [|done]. destruct act; try done. by eexists.
  - intros now r. simpl. destruct (ss_relay s') eqn:E; simpl; [|done]. by rewrite Hs.
  - intros k dst picked Hk. simpl. rewrite Hk. unfold drainLoop. rewrite Hs. apply lookup_insert_eq.
  - intros k dst Hk. simpl. rewrite Hk, Hs. apply lookup_insert_eq.
Qed.
End session_facts.
