(* ===== verification/FileCache.v ===== *)
(** * FileCache: encrypted files of the two platforms and the caches built on them

    nodeid_windows.go and nodeid_other.go implement the same two functions; the
    discoverer (discovery.go), the bypass manager (bypass.go) and the node identity
    (nodeid.go) are their clients.  [FileCrypt] is the interface between them, with the
    law the clients rely on; both platforms discharge it.  A cache file is [None] when
    it does not exist. *)
From S2P Require Import Prelude Encoding Env Cidr Bypass Discovery Identity.

Class FileCrypt := {
  nodeIDEncrypt : bytes -> option bytes;
  nodeIDDecrypt : bytes -> option bytes
}.

(** What the clients rely on, for contents below 4 GiB. *)
Class FileCryptLaws `{FileCrypt} : Prop := {
  decrypt_encrypt : forall p c, zlen p < 2 ^ 32 -> nodeIDEncrypt p = Some c -> nodeIDDecrypt c = Some p;
  encrypt_nonempty : forall p, p <> [] -> zlen p < 2 ^ 32 -> is_Some (nodeIDEncrypt p)
}.

(** ** Platforms without encryption *)

Definition plain_Encrypt (plain : bytes) : option bytes := Some plain.
Definition plain_Decrypt (enc : bytes) : option bytes := Some enc.
Definition plain_files : FileCrypt := {| nodeIDEncrypt := plain_Encrypt; nodeIDDecrypt := plain_Decrypt |}.
#[export] Instance plain_files_laws : @FileCryptLaws plain_files.
Proof. split; [by intros p c _ [= <-]|by eexists]. Qed.

(** ** Windows: DPAPI *)

(** [CryptProtectData] and [CryptUnprotectData] for the current user, on the bytes
    the blob describes; [None] when the call returns 0. *)
Class DPAPI := {
  CryptProtectData : bytes -> option bytes;
  CryptUnprotectData : bytes -> option bytes
}.

(** As documented: a non-empty blob is protected, and the same user can unprotect it. *)
Class DPAPILaws `{DPAPI} : Prop := {
  dpapi_protect : forall x, x <> [] -> zlen x < 2 ^ 32 ->
    exists c, CryptProtectData x = Some c /\ c <> [] /\ zlen c < 2 ^ 32 /\ CryptUnprotectData c = Some x
}.

Record nodeIDBlob := mkBlob { cbData : Z; pbData : bytes }.

(** A blob has a 32-bit length and a pointer to the first byte. *)
Definition blob_of (b : bytes) : nodeIDBlob := mkBlob (zlen b mod 2 ^ 32) b.
Definition blob_bytes (b : nodeIDBlob) : bytes := take (Z.to_nat (cbData b)) (pbData b).

Section windows.
Context `{DPAPI}.

Definition win_Encrypt (plain : bytes) : option bytes :=
  if zlen plain =? 0 then None else
  out ← CryptProtectData (blob_bytes (blob_of plain)); Some (blob_bytes (blob_of out)).
Definition win_Decrypt (enc : bytes) : option bytes :=
  if zlen enc =? 0 then None else
  out ← CryptUnprotectData (blob_bytes (blob_of enc)); Some (blob_bytes (blob_of out)).

Definition windows_files : FileCrypt := {| nodeIDEncrypt := win_Encrypt; nodeIDDecrypt := win_Decrypt |}.
End windows.

Lemma blob_bytes_of b : zlen b < 2 ^ 32 -> blob_bytes (blob_of b) = b.
Proof.
  intros Hb. unfold blob_bytes, blob_of. simpl. rewrite Z.mod_small by (pose proof (zlen_nonneg b); lia).
  apply take_ge. unfold zlen. lia.
Qed.

Lemma zlen_eqb_0 {X} (l : list X) : (zlen l =? 0) = bool_decide (length l = 0)%nat.
Proof. destruct l; [done|]. rewrite bool_decide_eq_false_2 by done. apply Z.eqb_neq. rewrite zlen_cons. pose proof (zlen_nonneg l). lia. Qed.

(** With DPAPI as documented, the Windows implementation obeys the interface. *)
Lemma win_roundtrip `{DPAPILaws} p :
  p <> [] -> zlen p < 2 ^ 32 -> exists c, win_Encrypt p = Some c /\ win_Decrypt c = Some p.
Proof.
  intros Hp Hl. destruct (dpapi_protect p Hp Hl) as (c & Ec & Hc & Hlc & Eu). exists c.
  unfold win_Encrypt, win_Decrypt. rewrite !zlen_eqb_0, !bool_decide_eq_false_2 by by destruct p, c.
  rewrite (blob_bytes_of p), Ec by done. simpl. rewrite (blob_bytes_of c) by done. split; [done|].
  rewrite Eu. simpl. by rewrite blob_bytes_of.
Qed.

#[export] Instance windows_files_laws `{DPAPILaws} : @FileCryptLaws windows_files.
Proof.
  split.
  - intros [|b p] c Hl E; [done|]. destruct (win_roundtrip (b :: p) ltac:(done) Hl) as (c' & E' & D).
    simpl in *. rewrite E in E'. by injection E' as <-.
  - intros p Hp Hl. destruct (win_roundtrip p Hp Hl) as (c & E & _). by exists c.
Qed.

(** ** Writing a cache *)

(** How [os.MkdirAll] and [os.WriteFile] end; a failed write leaves [torn] behind. *)
Record write_env := mkWrite { we_mkdir : bool; we_write : bool; we_torn : option bytes }.

Section persist.
Context `{FileCrypt}.

(** [Discoverer.persist]; its callers check that a cache file is configured. *)
Definition disc_persist (env : write_env) (data : bytes) (file : option bytes) : option bytes :=
  if negb (we_mkdir env) then file else
  match nodeIDEncrypt data with
  | None => file
  | Some enc => if we_write env then Some enc else we_torn env
  end.

(** [BypassManager.persist]. *)
Definition bypass_persist (hasCache : bool) (env : write_env) (data : bytes) (file : option bytes) : option bytes :=
  if negb hasCache then file else
  if negb (we_mkdir env) then file else
  match nodeIDEncrypt data with
  | None => file
  | Some enc => if we_write env then Some enc else we_torn env
  end.

(** The cache file after the actions of the discoverer, and of the manager. *)
Definition disc_file (env : write_env) (acts : list disc_action) (file : option bytes) : option bytes :=
  fold_left (fun file a => match a with DPersist data => disc_persist env data file | _ => file end) acts file.
Definition bypass_file (m : BypassManager) (env : write_env) (acts : list bypass_act) (file : option bytes) : option bytes :=
  fold_left (fun file '(BPersist data) => bypass_persist (bm_hasCache m) env data file) acts file.
End persist.

(** ** What survives a restart *)

Section survive.
Context `{FileCryptLaws} `{SliceSort} `{Signatures}.
Context `{JSON signedManifest} `{JSON manifestPayload} `{JSON ts_only}.
Context `{JSON signedCIDRList} `{JSON cidr_payload} `{JSON country_only}.
Context (parse_cidr : bytes -> option (bytes * bytes)).

Lemma persisted env data file :
  data <> [] -> zlen data < 2 ^ 32 -> we_mkdir env = true -> we_write env = true ->
  exists enc, disc_persist env data file = Some enc /\ bypass_persist true env data file = Some enc /\
    nodeIDDecrypt enc = Some data.
Proof.
  intros Hd Hl Hm Hw. destruct (encrypt_nonempty data Hd Hl) as [enc E]. exists enc.
  unfold disc_persist, bypass_persist. rewrite Hm, E, Hw. split_and!; try done. by apply decrypt_encrypt.
Qed.

(** Which response a successful refresh took. *)
Lemma refresh_from_took get now urls m m' acts :
  refresh_from parse_cidr get now urls m = Ok (m', acts, true) ->
  exists data s, verifyCIDR parse_cidr now (bm_pubkey m) data = Ok s /\ m' = with_list m s (cidrCountry data) CFresh /\
    acts = if bm_hasCache m then [BPersist data] else [].
Proof.
  induction urls as [|u urls IH]; cbn [refresh_from]; [done|].
  destruct (fetchCIDR _ _ _ _ _) as [data|]; [|exact IH].
  destruct (verifyCIDR parse_cidr now (bm_pubkey m) data) as [s|e|] eqn:Ev; [|exact IH|done].
  intros [= <- <-]. by exists data, s.
Qed.

Lemma verify_later now now' pub data s p :
  verifyCIDR parse_cidr now pub data = Ok s -> json_unmarshal data = Some p -> too_old now' p = false ->
  verifyCIDR parse_cidr now' pub data = Ok s.
Proof.
  unfold verifyCIDR. intros Hv Hj Ho. rewrite Hj in *.
  destruct (match pub with None => _ | Some _ => _ end) as [[]| |]; try done. simpl in *.
  rewrite Ho. by destruct (too_old now p).
Qed.

(** C29: on every platform, what was applied and written survives a restart: a discoverer
    with the same key that loads the file has the controls, regions and server URLs
    that were applied; a bypass manager with the same key has the networks and the
    country, as long as the list is not older than 25 hours. *)
Theorem caches_survive_restart (onChange onNotif : bool) (env : write_env)
    (Hmkdir : we_mkdir env = true) (Hwrite : we_write env = true) :
  (forall data d dnew v file,
     data <> [] -> zlen data < 2 ^ 32 -> ds_hasCache d = true -> ds_hasCache dnew = true -> ds_pubkey dnew = ds_pubkey d ->
     disc_verify (ds_pubkey d) data = Ok v -> vm_addrs v <> [] ->
     let '(d1, acts, _) := InjectRaw onChange onNotif data d in
     let '(d2, _, ok) := LoadCached nodeIDDecrypt onChange onNotif (disc_file env acts file) dnew in
     ok = true /\ ds_source d2 = MCached /\ ds_controls d2 = ds_controls d1 /\ ds_regions d2 = ds_regions d1 /\
     ds_serverURLs d2 = ds_serverURLs d1) /\
  (forall get now now' m m1 mnew acts file,
     refresh parse_cidr get now m = Ok (m1, acts, true) -> bm_hasCache m = true -> bm_hasCache mnew = true ->
     bm_pubkey mnew = bm_pubkey m ->
     (forall data, BPersist data ∈ acts -> data <> [] /\ zlen data < 2 ^ 32 /\ forall p, json_unmarshal data = Some p -> too_old now' p = false) ->
     exists m2, loadCached parse_cidr nodeIDDecrypt now' (bypass_file m env acts file) mnew = Ok m2 /\
       bm_cidrs m2 = bm_cidrs m1 /\ bm_country m2 = bm_country m1 /\ bm_source m2 = CCached).
Proof.
  split.
  - intros data d dnew v file Hd Hl Hc Hcn Hk Hv Ha. destruct (persisted env data file Hd Hl Hmkdir Hwrite) as (enc & E & _ & D).
    unfold InjectRaw. rewrite Hv. simpl. rewrite Hc. unfold disc_file. rewrite fold_left_app.
    assert (forall (f : option bytes), fold_left (fun file a => match a with DPersist data => disc_persist env data file | _ => file end)
      ((if negb (stringSliceEqual (ds_controls d) (vm_addrs v)) && onChange then [DOnChange (vm_addrs v)] else []) ++
       (if negb (bool_decide (vm_notifs v = [])) && onNotif then [DNotify (vm_notifs v)] else [])) f = f) as Hno.
    { intros f. rewrite fold_left_app. by destruct (_ && onChange), (_ && onNotif). }
    rewrite Hno. simpl. rewrite E. unfold LoadCached, decrypt_or_plain. rewrite Hcn, D, Hk, Hv. simpl.
    split_and!; try done. by rewrite !bool_decide_eq_false_2 by by destruct (vm_addrs v).
  - intros get now now' m m1 mnew acts file Hr Hc Hcn Hk Hok. unfold refresh in Hr. case_bool_decide; [done|].
    destruct (refresh_from_took _ _ _ _ _ _ Hr) as (data & s & Hv & -> & Hacts). rewrite Hc in Hacts. subst acts.
    destruct (Hok data ltac:(left)) as (Hd & Hl & Ho).
    destruct (persisted env data file Hd Hl Hmkdir Hwrite) as (enc & _ & E & D).
    unfold bypass_file. simpl. rewrite Hc, E. unfold loadCached. rewrite Hcn, D, Hk. simpl.
    assert (exists p : signedCIDRList, json_unmarshal data = Some p) as [p Hp].
    { revert Hv. unfold verifyCIDR. destruct (json_unmarshal data) as [p|]; [by exists p|done]. }
    rewrite (verify_later now now' (bm_pubkey m) data s p Hv Hp (Ho p Hp)).
    eexists. split; [done|]. done.
Qed.
End survive.

(** ** Witnesses *)

Module Toy_files.
(** A data protection that hides a blob by reversing it. *)
#[export] Instance toy_dpapi : DPAPI := {| CryptProtectData := fun x => Some (rev x); CryptUnprotectData := fun x => Some (rev x) |}.
#[export] Instance toy_dpapi_laws : DPAPILaws.
Proof.
  split. intros x Hx Hl. exists (rev x). split; [done|]. split; [|split].
  - intros E. apply (f_equal (@rev byte)) in E. rewrite rev_involutive in E. by subst.
  - unfold zlen in *. by rewrite length_rev.
  - simpl. by rewrite rev_involutive.
Qed.

(** One manifest, under a short text. *)
Definition control : manifestNode := mkMNode (str "a:443") [] 0 0 None.
Definition manifest : signedManifest := mkSigned (str "manifest") 9 [control] [] ∅ [] ∅ [] ∅.
#[export] Instance json_one : JSON signedManifest := {|
  json_marshal := fun _ => Some (str "m");
  json_unmarshal := fun data => if bool_decide (data = str "m") then Some manifest else None
|}.
Definition disc : Discoverer := mkDisc None true [str "https://boot"] [] ∅ ∅ ∅ [] MNone.
End Toy_files.

Section file_witnesses.
Import Toy_discovery Toy_bypass Toy_files.
#[local] Existing Instances windows_files windows_files_laws.

Lemma caches_survive_restart_witness :
  let data := str "m" in
  let '(d1, acts, _) := InjectRaw true true data disc in
  let '(d2, _, ok) := LoadCached nodeIDDecrypt true true (disc_file (mkWrite true true None) acts None) disc in
  ok = true /\ ds_controls d2 = ds_controls d1.
Proof.
  intros data.
  destruct (caches_survive_restart (H := windows_files) toy_parse true true (mkWrite true true None) eq_refl eq_refl) as [H _].
  specialize (H data disc disc (mkVerified [str "a:443"] ∅ [] ∅ ∅) None).
  destruct (InjectRaw true true data disc) as [[d1 acts] b].
  destruct (LoadCached _ _ _ _ _) as [[d2 acts2] ok].
  destruct H as (E1 & _ & E2 & _).
  - discriminate.
  - by vm_compute.
  - reflexivity.
  - reflexivity.
  - reflexivity.
  - reflexivity.
  - discriminate.
  - split; [exact E1|exact E2].
Defined.
End file_witnesses.
