(* ===== verification/WinTun.v ===== *)
(** * WinTun: fetching the WinTun driver library (internal/wintun/embed.go, tools/fetch_wintun)

    The file system is a map from paths to contents.  The HTTP GET, the zip reader and
    the outcome of a write are arguments; a write that fails may leave part of the file
    behind, as os.WriteFile does. *)
From S2P Require Import Prelude Encoding Env.

Definition wintunURL : bytes := str "https://www.wintun.net/builds/wintun-0.14.1.zip".
Definition dllInsideZip : bytes := str "wintun/bin/amd64/wintun.dll".
Definition wintunZipSHA256 : bytes := [].
Definition outPath : bytes := str "internal/wintun/wintun.dll".

(** An entry of an archive: its name, and its content if it opens and reads. *)
Record zip_file := mkZip { zf_Name : bytes; zf_data : option bytes }.

Section wintun.
(** [http.Get] with the body read to its end; [zip.NewReader]. *)
Context (get : bytes -> option (Z * bytes)) (zip_reader : bytes -> option (list zip_file)).

(** ** embed.go *)

(** The loop over the archive: the first entry of that name decides. *)
Fixpoint find_entry (name : bytes) (fs : list zip_file) : res bytes :=
  match fs with
  | [] => Err "file not found in zip"
  | f :: fs =>
    if bool_decide (zf_Name f = name)
    then match zf_data f with Some d => Ok d | None => Err "open" end
    else find_entry name fs
  end.

Definition fetch : res bytes :=
  match get wintunURL with
  | None => Err "get"
  | Some (status, zipData) =>
    if negb (status =? 200) then Err "HTTP status" else
    match zip_reader zipData with
    | None => Err "zip"
    | Some fs => find_entry dllInsideZip fs
    end
  end.

(** [os.WriteFile]: [good], or what it leaves behind. *)
Record file_write := mkFileWrite { fw_good : bool; fw_torn : option bytes }.
Definition WriteFile (w : file_write) (path data : bytes) (fs : gmap bytes bytes) : res unit * gmap bytes bytes :=
  if fw_good w then (Ok tt, <[path := data]> fs)
  else (Err "write", match fw_torn w with Some t => <[path := t]> fs | None => fs end).

(** [exe]: the path of the executable; [beside]: the library next to it. *)
Definition Extract (exe : option bytes) (beside : bytes -> bytes) (w : file_write) (fs : gmap bytes bytes)
    : res unit * gmap bytes bytes :=
  match exe with
  | None => (Err "wintun extract: executable path", fs)
  | Some exe =>
    let dst := beside exe in
    match fs !! dst with
    | Some _ => (Ok tt, fs)
    | None =>
      match fetch with
      | Ok dll => WriteFile w dst dll fs
      | _ => (Err "wintun extract: fetch", fs)
      end
    end
  end.

(** ** The tool *)

Definition download (url : bytes) : res bytes :=
  match get url with
  | None => Err "get"
  | Some (status, data) => if negb (status =? 200) then Err "HTTP status" else Ok data
  end.

Definition extractFromZip (zipData name : bytes) : res bytes :=
  match zip_reader zipData with None => Err "zip" | Some fs => find_entry name fs end.

(** [main]; an error is [fatalf].  [cwd]: the working directory. *)
Definition fetch_main `{Signatures} (cwd : option bytes) (join : bytes -> bytes -> bytes) (mkdir : bool) (w : file_write)
    (fs : gmap bytes bytes) : res unit * gmap bytes bytes :=
  match cwd with
  | None => (Err "cannot locate module root", fs)
  | Some root =>
    let dst := join root outPath in
    match fs !! dst with
    | Some _ => (Ok tt, fs)
    | None =>
      match download wintunURL with
      | Ok data =>
        if negb (bool_decide (wintunZipSHA256 = [])) && negb (bool_decide (Hex.encode (sha256_sum data) = wintunZipSHA256))
        then (Err "checksum mismatch", fs) else
        match extractFromZip data dllInsideZip with
        | Ok dll => if negb mkdir then (Err "mkdir", fs) else WriteFile w dst dll fs
        | _ => (Err "extract", fs)
        end
      | _ => (Err "download", fs)
      end
    end
  end.

(** ** What they do *)

Lemma find_entry_first name fs d :
  find_entry name fs = Ok d <->
  exists pre f post, fs = pre ++ f :: post /\ zf_Name f = name /\ zf_data f = Some d /\ Forall (fun g => zf_Name g <> name) pre.
Proof.
  induction fs as [|f fs IH]; simpl.
  - split; [done|]. by intros ([] & ? & ? & ? & _).
  - case_bool_decide as E.
    + split.
      * destruct (zf_data f) as [x|] eqn:Ed; [|done]. intros [= ->]. exists [], f, fs. by split_and!.
      * intros ([|g pre] & h & post & [= -> Ef] & Hn & Hd & Hall); [by rewrite Hd|]. by inversion Hall.
    + rewrite IH. split.
      * intros (pre & g & post & -> & Hn & Hd & Hall). exists (f :: pre), g, post. split_and!; try done. by constructor.
      * intros ([|g pre] & h & post & [= -> Ef] & Hn & Hd & Hall); [done|]. inversion Hall; subst. by exists pre, h, post.
Qed.

Lemma fetch_is_tool : fetch = (data ← download wintunURL; extractFromZip data dllInsideZip).
Proof. unfold fetch, download, extractFromZip. destruct (get wintunURL) as [[st data]|]; [|done]. by destruct (negb _). Qed.

(** Both programs install the same library: the content of the first entry of that
    name of the downloaded archive, and nothing unless the download answered 200, the
    archive reads and has such an entry.  A library that is there already is left
    alone, without any request, so running again changes nothing. *)
Theorem wintun_installs `{Signatures} (exe cwd : bytes) (beside : bytes -> bytes) (join : bytes -> bytes -> bytes) (w : file_write)
    (fs : gmap bytes bytes) (Hgood : fw_good w = true)
    (Hboth : join cwd outPath = beside exe) :
  (Extract (Some exe) beside w fs).2 = (fetch_main (Some cwd) join true w fs).2 /\
  is_err (Extract (Some exe) beside w fs).1 = is_err (fetch_main (Some cwd) join true w fs).1 /\
  (fs !! beside exe = None -> forall fs', Extract (Some exe) beside w fs = (Ok tt, fs') <->
     exists zipData files pre f post dll, get wintunURL = Some (200, zipData) /\ zip_reader zipData = Some files /\
       files = pre ++ f :: post /\ zf_Name f = dllInsideZip /\ zf_data f = Some dll /\
       Forall (fun g => zf_Name g <> dllInsideZip) pre /\ fs' = <[beside exe := dll]> fs) /\
  (forall fs', Extract (Some exe) beside w fs = (Ok tt, fs') -> Extract (Some exe) beside w fs' = (Ok tt, fs')).
Proof.
  assert (forall dll, WriteFile w (beside exe) dll fs = (Ok tt, <[beside exe := dll]> fs)) as Hw
    by (intros; unfold WriteFile; by rewrite Hgood).
  assert (forall P Q R : Prop, P /\ Q -> R -> P /\ Q /\ R) as Hpair by tauto. apply Hpair; [clear Hpair|clear Hpair; split].
  - unfold Extract, fetch_main. rewrite Hboth. destruct (fs !! beside exe); [done|]. rewrite fetch_is_tool.
    unfold download. destruct (get wintunURL) as [[st data]|]; [|done]. destruct (negb (st =? 200)); [done|]. simpl.
    by destruct (extractFromZip data dllInsideZip).
  - intros Hn fs'. unfold Extract. rewrite Hn. split.
    + destruct fetch as [dll| |] eqn:E; try done. rewrite Hw. intros [= <-]. unfold fetch in E.
      destruct (get wintunURL) as [[st data]|]; [|done]. destruct (Z.eqb_spec st 200) as [->|]; [|done]. simpl in E.
      destruct (zip_reader data) as [files|] eqn:Ez; [|done].
      apply find_entry_first in E as (pre & f & post & -> & ? & ? & ?). by eexists data, _, pre, f, post, dll.
    + intros (data & files & pre & f & post & dll & Hg & Hz & -> & Hn' & Hd & Hall & ->).
      assert (fetch = Ok dll) as ->; [|apply Hw].
      unfold fetch. rewrite Hg, Hz. simpl. apply find_entry_first. by exists pre, f, post.
  - intros fs'. unfold Extract. destruct (fs !! beside exe) as [x|] eqn:Ex; [intros [= <-]; by rewrite Ex|].
    destruct fetch; try done. rewrite Hw. intros [= <-]. by rewrite lookup_insert_eq.
Qed.

(** A write that fails part-way is reported, but the part it left behind counts as the
    library from then on: the next call succeeds at once and never repairs it. *)
Theorem torn_library_kept (exe part : bytes) (beside : bytes -> bytes) (w w' : file_write) (fs : gmap bytes bytes) (dll : bytes)
    (Hfetch : fetch = Ok dll) (Hn : fs !! beside exe = None) (Hbad : fw_good w = false) (Htorn : fw_torn w = Some part) :
  let '(r, fs1) := Extract (Some exe) beside w fs in
  is_err r = true /\ Extract (Some exe) beside w' fs1 = (Ok tt, fs1) /\ fs1 !! beside exe = Some part.
Proof.
  unfold Extract. rewrite Hn, Hfetch. unfold WriteFile. rewrite Hbad, Htorn. simpl.
  by rewrite lookup_insert_eq.
Qed.
End wintun.

(** ** Witnesses *)

Module Toy_wintun.
Definition zip (data : bytes) : option (list zip_file) :=
  Some [mkZip (str "README") (Some (str "doc")); mkZip dllInsideZip (Some data)].
Definition site (url : bytes) : option (Z * bytes) := if bool_decide (url = wintunURL) then Some (200, str "MZ") else None.
Definition beside (exe : bytes) : bytes := str "/app/wintun.dll".
Definition join (root path : bytes) : bytes := str "/app/wintun.dll".
End Toy_wintun.

Section wintun_witnesses.
Import Toy_wintun.
#[local] Existing Instance Toy.signatures.

Lemma wintun_installs_witness :
  (Extract site zip (Some (str "/app/x.exe")) beside (mkFileWrite true None) ∅).2 =
  (fetch_main site zip (Some (str "/src")) join true (mkFileWrite true None) ∅).2.
Proof. apply (wintun_installs site zip (str "/app/x.exe") (str "/src") beside join (mkFileWrite true None) ∅); reflexivity. Defined.

Lemma torn_library_kept_witness :
  let '(r, fs1) := Extract site zip (Some (str "/app/x.exe")) beside (mkFileWrite false (Some (str "M"))) ∅ in
  Extract site zip (Some (str "/app/x.exe")) beside (mkFileWrite true None) fs1 = (Ok tt, fs1).
Proof.
  pose proof (torn_library_kept site zip (str "/app/x.exe") (str "M") beside (mkFileWrite false (Some (str "M")))
    (mkFileWrite true None) ∅ (str "MZ") eq_refl eq_refl eq_refl eq_refl) as H.
  destruct (Extract _ _ _ _ _ _) as [r fs1]. destruct H as (_ & E & _). exact E.
Defined.
End wintun_witnesses.
