(* ===== verification/Decoys.v ===== *)
(** * Decoys: the requests of the decoy manager and their transport (decoy.go)

    [Camouflage.Decoy] models when the loop fires; this file models what a request is,
    the burst of several requests, and how its connections are made.  Random draws, the
    network and the moment the context is cancelled are arguments. *)
From S2P Require Import Prelude Encoding Env Camouflage Tls.
Import Decoy.

Record decoy_request := mkDecoyReq { dr_url : bytes; dr_headers : gmap bytes bytes }.

Definition decoy_headers : gmap bytes bytes :=
  {[ str "Accept" := str "text/html,application/xhtml+xml,application/xml;q=0.9,image/avif,image/webp,*/*;q=0.8";
     str "Accept-Language" := str "en-US,en;q=0.5";
     str "Accept-Encoding" := str "gzip, deflate, br";
     str "Cache-Control" := str "no-cache" ]}.

(** [fire]: the request handed to the transport, unless its URL cannot be parsed
    ([valid]); what comes back is read and thrown away.  An index outside the pool
    panics. *)
Definition fire (valid : bytes -> bool) (targets : list bytes) (idx : Z) : res (option decoy_request) :=
  target ← index targets idx;
  if negb (valid target) then Ok None else Ok (Some (mkDecoyReq target decoy_headers)).

(** The sleep between two requests of a burst. *)
Definition burst_gap (draw : Z) : res Z :=
  r ← below draw (750 * Pacing.ms); Ok (150 * Pacing.ms + r).

(** [burst], from request [i] on; [cancelled i]: the context is done when request [i]
    is about to be made; each round draws a target and, but for the last, a gap.  The
    result is the requests and the gaps, in order. *)
Fixpoint burst_from (valid : bytes -> bool) (targets : list bytes) (cancelled : nat -> bool) (draws : nat -> Z * Z) (i todo : nat)
    : res (list (option decoy_request) * list Z) :=
  match todo with
  | O => Ok ([], [])
  | S todo =>
    if cancelled i then Ok ([], []) else
    idx ← below (draws i).1 (zlen targets);
    req ← fire valid targets idx;
    if Nat.eqb todo 0 then Ok ([req], []) else
    gap ← burst_gap (draws i).2;
    '(reqs, gaps) ← burst_from valid targets cancelled draws (S i) todo;
    Ok (req :: reqs, gap :: gaps)
  end.
Definition burst (valid : bytes -> bool) (targets : list bytes) (cancelled : nat -> bool) (draws : nat -> Z * Z) (n : nat) :=
  burst_from valid targets cancelled draws 0 n.

(** ** The transport *)

(** What setting a decoy connection up leaves; the hello is the preset's own. *)
Record decoy_conn := mkDecoyConn { dc_local : option bytes; dc_sni : bytes; dc_hello : bytes; dc_ok : bool; dc_closed : bool }.

(** [dialUTLS] of [newDecoyTransport]: bound to the physical address when there is
    one; [dialled]: the TCP connection; [hello]: what the preset builds. *)
Definition newDecoyTransport (parse_ip : bytes -> bytes) (physIP : bytes) (dialled : bool) (hello : bytes) (handshake_ok : bool)
    (addr : bytes) : option decoy_conn :=
  let localAddr := if bool_decide (physIP = []) then None else Some (parse_ip physIP) in
  if negb dialled then None else
  let host := match split_host_port addr with Some (h, _) => h | None => [] end in
  if handshake_ok then Some (mkDecoyConn localAddr host hello true false)
  else Some (mkDecoyConn localAddr host hello false true).

(** ** What a burst does *)

Lemma below_range draw n r : below draw n = Ok r -> 0 <= r < n.
Proof. unfold below. destruct (n <=? 0) eqn:E; [done|]. intros [= <-]. bool_to_prop. apply Z.mod_pos_bound. lia. Qed.

Lemma below_some draw n : 0 < n -> exists r, below draw n = Ok r /\ 0 <= r < n.
Proof. intros Hn. destruct (below_ok draw n Hn) as [E Hr]. eauto. Qed.

Lemma burst_gap_range draw : 150 * Pacing.ms <= 150 * Pacing.ms + draw mod (750 * Pacing.ms) < 900 * Pacing.ms.
Proof. pose proof (Z.mod_pos_bound draw (750 * Pacing.ms) ltac:(done)). lia. Qed.

Definition from_pool (targets : list bytes) (r : option decoy_request) : Prop :=
  match r with None => True | Some q => dr_url q ∈ targets /\ dr_headers q = decoy_headers end.

Lemma fire_from_pool valid targets idx :
  0 <= idx < zlen targets -> exists r, fire valid targets idx = Ok r /\ from_pool targets r.
Proof.
  intros Hi. unfold fire. destruct (index_ok targets idx Hi) as (t & -> & Hl). simpl.
  destruct (valid t); simpl; eexists; (split; [done|]); [|done]. split; [|done]. by eapply list_elem_of_lookup_2.
Qed.

(** A burst of [n] from a non-empty pool never panics; it makes at most [n] requests,
    all to targets of the pool and with the headers of a browser, with a pause of 150
    to 900 ms between two of them and none after the last; if the context is done
    before request [i], no request from [i] on is made. *)
Theorem burst_contract (valid : bytes -> bool) (targets : list bytes) (cancelled : nat -> bool) (draws : nat -> Z * Z) (n : nat)
    (Hpool : targets <> []) :
  exists reqs gaps, burst valid targets cancelled draws n = Ok (reqs, gaps) /\
    (length reqs <= n)%nat /\ (length gaps <= length reqs)%nat /\ (length gaps < n \/ n = 0)%nat /\
    Forall (from_pool targets) reqs /\ Forall (fun g => 150 * Pacing.ms <= g < 900 * Pacing.ms) gaps /\
    (forall i, cancelled i = true -> (length reqs <= i)%nat).
Proof.
  assert (0 < zlen targets) as Hz by (destruct targets; [done|]; rewrite zlen_cons; pose proof (zlen_nonneg targets); lia).
  enough (forall todo i, exists reqs gaps, burst_from valid targets cancelled draws i todo = Ok (reqs, gaps) /\
    (length reqs <= todo)%nat /\ (length gaps <= length reqs)%nat /\ (length gaps < todo \/ todo = 0)%nat /\
    Forall (from_pool targets) reqs /\ Forall (fun g => 150 * Pacing.ms <= g < 900 * Pacing.ms) gaps /\
    (forall j, (i <= j)%nat -> cancelled j = true -> (i + length reqs <= j)%nat)) as H.
  { destruct (H n 0%nat) as (reqs & gaps & E & H1 & H2 & H3 & H4 & H5 & H6). exists reqs, gaps. split_and!; try done.
    intros i Hi. apply H6; [lia|done]. }
  induction todo as [|todo IH]; intros i; simpl.
  { exists [], []. split_and!; try done; [by right|]. simpl. intros; lia. }
  destruct (cancelled i) eqn:Ec.
  { exists [], []. split_and!; try done; simpl; try lia. }
  destruct (below_some (draws i).1 _ Hz) as (idx & -> & Hidx). simpl.
  destruct (fire_from_pool valid targets idx Hidx) as (r & -> & Hr). simpl.
  assert (forall j, (i <= j)%nat -> cancelled j = true -> (S i <= j)%nat) as Hnext.
  { intros j Hj Hc. destruct (decide (i = j)) as [<-|]; [congruence|lia]. }
  destruct (Nat.eqb_spec todo 0) as [->|Hl].
  { exists [r], []. split_and!; try done; simpl; try lia; [by constructor|]. intros j Hj Hc. specialize (Hnext j Hj Hc). lia. }
  destruct (IH (S i)) as (reqs & gaps & -> & H1 & H2 & H3 & H4 & H5 & H6). simpl.
  eexists (r :: reqs), (_ :: gaps). split_and!; simpl; [done|lia|lia|lia|by constructor| |].
  - constructor; [apply burst_gap_range|done].
  - intros j Hj Hc. specialize (H6 j (Hnext j Hj Hc) Hc). lia.
Qed.

(** The server name of a decoy connection is the host contacted, its hello is the
    preset's own (no session identifier is put into it), and the raw connection is closed
    exactly when the handshake fails. *)
Theorem decoy_connection (parse_ip : bytes -> bytes) (physIP host port hello : bytes) (handshake_ok : bool) (c : decoy_conn)
    (Hhost : split_host_port (host ++ [x3a] ++ port) = Some (host, port))
    (Hc : newDecoyTransport parse_ip physIP true hello handshake_ok (host ++ [x3a] ++ port) = Some c) :
  dc_sni c = host /\ dc_hello c = hello /\ dc_closed c = negb (dc_ok c) /\
  (dc_local c = None <-> physIP = []).
Proof.
  unfold newDecoyTransport in Hc. rewrite Hhost in Hc. simpl in Hc.
  destruct handshake_ok; injection Hc as <-; simpl; split_and!; try done; case_bool_decide; naive_solver.
Qed.

Lemma burst_contract_witness :
  exists reqs gaps, burst (fun _ => true) decoyTargets (fun i => Nat.eqb i 2) (fun i => (Z.of_nat i, 7)) 5 = Ok (reqs, gaps) /\
    (length reqs <= 2)%nat.
Proof.
  destruct (burst_contract (fun _ => true) decoyTargets (fun i => Nat.eqb i 2) (fun i => (Z.of_nat i, 7)) 5 ltac:(discriminate))
    as (reqs & gaps & E & _ & _ & _ & _ & _ & Hc).
  exists reqs, gaps. split; [exact E|]. apply Hc. reflexivity.
Defined.

Lemma decoy_connection_witness :
  dc_closed (mkDecoyConn None (str "d3js.org") (make_bytes 32) false true) = true /\
  dc_sni (mkDecoyConn None (str "d3js.org") (make_bytes 32) false true) = str "d3js.org".
Proof.
  destruct (decoy_connection (fun ip => ip) [] (str "d3js.org") (str "443") (make_bytes 32) false
    (mkDecoyConn None (str "d3js.org") (make_bytes 32) false true) eq_refl eq_refl) as (Hs & _ & Hc & _).
  split; [exact Hc | exact Hs].
Defined.
