(* ===== verification/WinPlatform.v ===== *)
(** * WinPlatform: Windows adapters and process names (tun.go, procfilter_windows.go)

    The WinTun adapters a session creates and removes, and the path of the executable
    behind a connection.  The driver and the kernel calls are arguments; the UTF-16
    conversion of the language's library is written out. *)
From S2P Require Import Prelude Encoding Env Tun ProcFilter.

(** ** Adapters *)

Definition win_TUNDeviceName : bytes := str "TunnelCatCore".
Definition preflight_name : bytes := str "_snc_preflight".
Definition knownOrphanAdapters : list bytes :=
  [win_TUNDeviceName; preflight_name; str "tun2socks Tunnel"; str "Wintun Userspace Tunnel"].

(** The adapters that exist, and the creations still under way that nobody waits for. *)
Record driver := mkDriver { dv_adapters : gset bytes; dv_creating : list bytes }.

(** [OpenAdapter] and [Close]: the adapter is gone when it was there and closing
    succeeds. *)
Definition open_close (ok : bytes -> bool) (name : bytes) (d : driver) : driver :=
  if bool_decide (name ∈ dv_adapters d) && ok name then mkDriver (dv_adapters d ∖ {[ name ]}) (dv_creating d) else d.

Definition cleanupOrphanedAdapters (ok : bytes -> bool) (d : driver) : driver :=
  fold_left (fun d name => open_close ok name d) knownOrphanAdapters d.

(** How the check's creation goes: an adapter within 12 s (and whether closing it
    succeeds), an error, or no answer in time. *)
Inductive preflight := PCreated (closed : bool) | PFailed | PTimeout.

Definition wintunPreflightCheck (o : preflight) (d : driver) : driver * bool :=
  match o with
  | PCreated closed => (if closed then d else mkDriver ({[ preflight_name ]} ∪ dv_adapters d) (dv_creating d), true)
  | PFailed => (d, false)
  | PTimeout => (mkDriver (dv_adapters d) (preflight_name :: dv_creating d), false)
  end.

(** The deletion at the end of [Stop]. *)
Definition stop_adapter (ok : bytes -> bool) (b : TUNBridge) (d : driver) : driver :=
  if tb_running b then open_close ok win_TUNDeviceName d else d.

(** What happens to the adapters over any number of sessions; the engine creates the
    adapter it is told to, and stopping it, or the end of the process, may leave it. *)
Inductive adapter_event :=
  | ACleanup (ok : bytes -> bool)
  | APreflight (o : preflight)
  | ACreated                                       (* a creation under way succeeds *)
  | AEngineStart
  | AEngineStop (removed : bool)
  | AStop (ok : bytes -> bool) (b : TUNBridge).

Definition adapter_step (d : driver) (ev : adapter_event) : driver :=
  match ev with
  | ACleanup ok => cleanupOrphanedAdapters ok d
  | APreflight o => (wintunPreflightCheck o d).1
  | ACreated => match dv_creating d with n :: l => mkDriver ({[ n ]} ∪ dv_adapters d) l | [] => d end
  | AEngineStart => mkDriver ({[ win_TUNDeviceName ]} ∪ dv_adapters d) (dv_creating d)
  | AEngineStop removed => if removed then mkDriver (dv_adapters d ∖ {[ win_TUNDeviceName ]}) (dv_creating d) else d
  | AStop ok b => stop_adapter ok b d
  end.

Definition adapter_run (evs : list adapter_event) : driver := fold_left adapter_step evs (mkDriver ∅ []).

(** ** The executable's path *)

(** The bytes of a code point, surrogates included. *)
Definition rune_bytes (r : Z) : bytes :=
  if r <? 0x80 then [z2b r]
  else if r <? 0x800 then [z2b (0xc0 + r / 64); z2b (0x80 + r mod 64)]
  else if r <? 0x10000 then [z2b (0xe0 + r / 4096); z2b (0x80 + r / 64 mod 64); z2b (0x80 + r mod 64)]
  else [z2b (0xf0 + r / 262144); z2b (0x80 + r / 4096 mod 64); z2b (0x80 + r / 64 mod 64); z2b (0x80 + r mod 64)].

Definition in_range (lo hi u : Z) : bool := (lo <=? u) && (u <? hi).

Fixpoint decode_units (l : list Z) : bytes :=
  match l with
  | [] => []
  | u :: l' =>
    match l' with
    | v :: l'' =>
      if in_range 0xd800 0xdc00 u && in_range 0xdc00 0xe000 v
      then rune_bytes ((u - 0xd800) * 1024 + (v - 0xdc00) + 0x10000) ++ decode_units l''
      else rune_bytes u ++ decode_units l'
    | [] => rune_bytes u
    end
  end.

(** [syscall.UTF16ToString]: up to the first NUL. *)
Fixpoint until_nul (l : list Z) : list Z := match l with [] => [] | u :: l => if u =? 0 then [] else u :: until_nul l end.
Definition UTF16ToString (l : list Z) : bytes := decode_units (until_nul l).

Definition MAX_PATH : Z := 260.

(** The kernel's calls: OpenProcess is there, the handle it gives, and the units
    QueryFullProcessImageNameW writes into a buffer of the given size. *)
Record process_api := mkProcAPI {
  pa_found : bool;
  pa_open : Z -> option Z;
  pa_query : Z -> Z -> option (list Z)
}.

(** The name, and the handles closed. *)
Definition exeNameForPID (api : process_api) (pid : Z) : option bytes * list Z :=
  if negb (pa_found api) then (None, []) else
  match pa_open api pid with
  | None => (None, [])
  | Some handle =>
    match pa_query api handle MAX_PATH with
    | None => (None, [handle])
    | Some units => (Some (UTF16ToString units), [handle])
    end
  end.

(** The documented behaviour of the query: the whole path when it fits with its
    terminator, else failure. *)
Definition query_ok (api : process_api) (image : Z -> list Z) : Prop :=
  forall h size, pa_query api h size = if zlen (image h) <? size then Some (image h) else None.

(** ** Properties *)

Lemma open_close_subset ok n d : dv_adapters (open_close ok n d) ⊆ dv_adapters d.
Proof. unfold open_close. destruct (_ && _); simpl; set_solver. Qed.

Lemma open_close_creating ok n d : dv_creating (open_close ok n d) = dv_creating d.
Proof. unfold open_close. by destruct (_ && _). Qed.

Lemma cleanup_from ok l d :
  dv_adapters (fold_left (fun d name => open_close ok name d) l d) ⊆ dv_adapters d /\
  dv_creating (fold_left (fun d name => open_close ok name d) l d) = dv_creating d.
Proof.
  revert d. induction l as [|n l IH]; intros d; [done|]. cbn [fold_left]. destruct (IH (open_close ok n d)) as [H1 H2].
  rewrite H2, open_close_creating. split; [|done]. etransitivity; [exact H1|apply open_close_subset].
Qed.

(** The adapters left after closing all of [l]. *)
Lemma cleanup_all l d :
  dv_adapters (fold_left (fun d name => open_close (fun _ => true) name d) l d) = dv_adapters d ∖ list_to_set l.
Proof.
  revert d. induction l as [|n l IH]; intros d; cbn [fold_left list_to_set]; [set_solver|]. rewrite IH.
  unfold open_close. rewrite andb_true_r. case_bool_decide; simpl; set_solver.
Qed.

Definition names_known (d : driver) : Prop :=
  dv_adapters d ⊆ list_to_set knownOrphanAdapters /\ Forall (fun n => n = preflight_name) (dv_creating d).

Lemma adapter_step_known d ev : names_known d -> names_known (adapter_step d ev).
Proof.
  assert (win_TUNDeviceName ∈@{gset bytes} list_to_set knownOrphanAdapters) as Hw by (apply elem_of_list_to_set; left).
  assert (preflight_name ∈@{gset bytes} list_to_set knownOrphanAdapters) as Hp by (apply elem_of_list_to_set; right; left).
  generalize dependent (list_to_set knownOrphanAdapters : gset bytes). intros K Hw Hp. unfold names_known.
  intros [Hs Hc]. destruct ev as [ok|o| | |removed|ok b]; cbn [adapter_step].
  - destruct (cleanup_from ok knownOrphanAdapters d) as [H1 H2]. unfold cleanupOrphanedAdapters. rewrite H2. split; [by etransitivity|done].
  - destruct o as [[]| |]; simpl; (split; [set_solver|done || by constructor]).
  - destruct (dv_creating d) as [|n l] eqn:E; [by rewrite E|]. inversion Hc; subst. simpl. split; [set_solver|done].
  - simpl. split; [set_solver|done].
  - destruct removed; simpl; (split; [set_solver|done]).
  - unfold stop_adapter. destruct (tb_running b); [|done]. rewrite open_close_creating.
    split; [by etransitivity; [apply open_close_subset|]|done].
Qed.

(** Over any number of sessions, crashed ones included, every adapter the program
    leaves behind carries a name of the clean-up list, so a clean-up whose closings
    succeed removes them all. *)
Theorem adapters_cleaned (evs : list adapter_event) :
  dv_adapters (adapter_run evs) ⊆ list_to_set knownOrphanAdapters /\
  dv_adapters (adapter_run (evs ++ [ACleanup (fun _ => true)])) = ∅.
Proof.
  assert (names_known (adapter_run evs)) as [Hs _].
  { unfold adapter_run. assert (names_known (mkDriver ∅ [])) as H0 by (split; [simpl; set_solver|constructor]).
    revert H0. generalize (mkDriver ∅ []). induction evs as [|ev evs IH]; intros d Hd; [done|].
    cbn [fold_left]. apply IH. by apply adapter_step_known. }
  split; [done|]. unfold adapter_run. rewrite fold_left_app. cbn [fold_left adapter_step].
  unfold cleanupOrphanedAdapters. rewrite cleanup_all. fold (adapter_run evs).
  generalize dependent (list_to_set knownOrphanAdapters : gset bytes). set_solver.
Qed.

(** A preflight check that times out reports failure, but the creation goes on: when it
    succeeds later the test adapter stays, and only the next clean-up removes it. *)
Theorem late_preflight_stays (d : driver) :
  let d1 := wintunPreflightCheck PTimeout d in
  d1.2 = false /\ preflight_name ∈ dv_adapters (adapter_step d1.1 ACreated) /\
  preflight_name ∉ dv_adapters (adapter_step (adapter_step d1.1 ACreated) (ACleanup (fun _ => true))).
Proof.
  cbn [wintunPreflightCheck fst snd adapter_step dv_creating dv_adapters]. split; [done|]. split; [set_solver|].
  unfold cleanupOrphanedAdapters. rewrite cleanup_all. cbn [dv_adapters].
  intros [_ Hn]%elem_of_difference. apply Hn. apply elem_of_list_to_set. right. left.
Qed.

(** The settle time counts from the last [Stop] only: in a process that has not stopped
    a bridge yet, the first adapter is created at the moment the clean-up has removed the
    orphans. *)
Theorem orphan_removal_not_settled (now : Z) (ok : bool) (envs : list Windows.attempt_env) (b b' : TUNBridge)
    (r : Windows.start_result) (t : option Z) (Hs : Windows.Start (Some now) ok 0 envs b = Some (b', r, t)) :
  t = Some now.
Proof.
  unfold Windows.Start, Windows.settle_wait in Hs. cbn [Z.eqb negb andb] in Hs. cbv zeta in Hs. rewrite Z.add_0_r in Hs.
  destruct ok; cbn [negb] in Hs; [|by injection Hs]. destruct (start_loop _ _ _ _ _) as [[[? ?] ?]|]; [|done]. by injection Hs.
Qed.

(** *** Names of processes *)

Definition ascii_byte (b : byte) : Prop := 0 < b2z b < 0x80.

Lemma until_nul_ascii p : Forall ascii_byte p -> until_nul (b2z <$> p) = b2z <$> p.
Proof.
  induction 1 as [|b p Hb _ IH]; [done|]. rewrite !fmap_cons. cbn [until_nul].
  rewrite (proj2 (Z.eqb_neq _ _)) by (unfold ascii_byte in Hb; lia). by rewrite IH.
Qed.

Lemma decode_unit_ascii b l : ascii_byte b -> decode_units (b2z b :: l) = b :: decode_units l.
Proof.
  unfold ascii_byte. intros Hb. assert (rune_bytes (b2z b) = [b]) as Hr.
  { unfold rune_bytes. rewrite (proj2 (Z.ltb_lt _ _)) by lia. by rewrite z2b_b2z. }
  cbn [decode_units]. destruct l as [|v l]; [by rewrite Hr|].
  unfold in_range at 1. rewrite (proj2 (Z.leb_gt _ _)) by lia. cbn [andb]. by rewrite Hr.
Qed.

Lemma utf16_ascii p : Forall ascii_byte p -> UTF16ToString (b2z <$> p) = p.
Proof.
  intros Hp. unfold UTF16ToString. rewrite until_nul_ascii by done.
  induction Hp as [|b p Hb _ IH]; [done|]. rewrite fmap_cons, decode_unit_ascii by done. by rewrite IH.
Qed.

(** A connection of a process that can be opened is refused exactly when the
    executable's name is a torrent client's, in any directory and in any case, and its
    whole path is shorter than 260 characters; the process handle is closed. *)
Theorem torrent_process_blocked (api : process_api) (image : Z -> list Z) (find_ok : bool) (size ret : Z)
    (rows : list mibTcpRowOwnerPid) (port pid h : Z) (dir file : bytes) (b : byte)
    (Hq : query_ok api image) (Hpid : pidForLocalPort find_ok size ret rows port = Ok pid) (Hport : port <> 0) (Hpid0 : pid <> 0)
    (Hfound : pa_found api = true) (Hopen : pa_open api pid = Some h)
    (Himg : image h = b2z <$> (x43 :: x3a :: b :: dir ++ b :: file)) (Hascii : Forall ascii_byte (x43 :: x3a :: b :: dir ++ b :: file))
    (Hb : is_sep b = true) (Hne : file <> []) (Hf : Forall (fun c => is_sep c = false) file) :
  isTorrentConn find_ok size ret rows (fun p => (exeNameForPID api p).1) (Some port) =
    Ok (bool_decide (5 + zlen dir + zlen file <= 260 /\ to_lower file ∈ torrentExeNames)) /\
  (exeNameForPID api pid).2 = [h].
Proof.
  set (path := x43 :: x3a :: b :: dir ++ b :: file) in *.
  assert (zlen (image h) = 4 + zlen dir + zlen file) as Hl.
  { rewrite Himg. unfold path, zlen. rewrite length_fmap. cbn [length]. rewrite length_app. cbn [length]. lia. }
  assert (exeNameForPID api pid = (if 4 + zlen dir + zlen file <? 260 then Some path else None, [h])) as He.
  { unfold exeNameForPID. rewrite Hfound, Hopen, Hq, Hl. cbn [negb]. change MAX_PATH with 260.
    destruct (_ <? 260); [|done]. by rewrite Himg, utf16_ascii. }
  rewrite He. split; [|done]. unfold isTorrentConn. rewrite (proj2 (Z.eqb_neq _ _) Hport), Hpid, (proj2 (Z.eqb_neq _ _) Hpid0), He.
  cbn [fst]. destruct (_ <? 260) eqn:E; bool_to_prop.
  - unfold path. rewrite base_file by done. f_equal. apply bool_decide_ext. intuition lia.
  - by rewrite bool_decide_false by lia.
Qed.

Module Toy_win.
Definition image (_ : Z) : list Z := b2z <$> str "C:/Apps/uTorrent.EXE".
Definition api : process_api := mkProcAPI true Some (fun h size => if zlen (image h) <? size then Some (image h) else None).
End Toy_win.

Lemma torrent_process_blocked_witness :
  isTorrentConn true 76 0 Toy_proc.table (fun p => (exeNameForPID Toy_win.api p).1) (Some 50000) = Ok true.
Proof.
  refine (eq_trans (proj1 (torrent_process_blocked Toy_win.api Toy_win.image true 76 0 Toy_proc.table 50000 42 42
    (str "Apps") (str "uTorrent.EXE") x2f _ _ _ _ _ _ _ _ _ _ _)) _); try reflexivity; try discriminate.
  - intros h size. reflexivity.
  - cbn. repeat (constructor; [by vm_compute|]). constructor.
  - apply (bool_decide_unpack _). vm_compute. exact I.
Defined.

Lemma orphan_removal_not_settled_witness :
  Some 7 = Some 7 /\ exists b r t, Windows.Start (Some 7) false 0 [] NewTUNBridge = Some (b, r, t) /\ t = Some 7.
Proof.
  split; [reflexivity|]. exists NewTUNBridge, Windows.NotReady, (Some 7). split; [reflexivity|].
  apply (orphan_removal_not_settled 7 false [] NewTUNBridge NewTUNBridge Windows.NotReady). reflexivity.
Defined.
