(* ===== verification/Logging.v ===== *)
(** * Logging: the two loggers and the buffer for upload (log.go, log_upload.go)

    [InitLogging] and [InitTunLogging] set up the writers of [LogRotate] and the ring of
    [LogRing].  The package's logger and the standard one write to the same io.MultiWriter,
    each under its own mutex: a line goes to the file first, in one step, and to the ring
    in another and only when the first reported no error, and the lines of the other
    logger may come in between.  The directory is read as a list of regular files;
    modification times and the outcome of the system calls are arguments. *)
From S2P Require Import Prelude Encoding Env UdpAssoc Cidr LogRing LogRotate.

Definition logRingSize : Z := 256 * 1024.
Definition log_prefix : bytes := str "snc_".
Definition tun_prefix : bytes := str "snc_tun_".

(** The two loggers that share the writer: [Log], and the one of package log. *)
Inductive logger := MainLogger | StdLogger.
#[global] Instance logger_eq_dec : EqDecision logger.
Proof. solve_decision. Defined.

Record logging := mkLogging {
  lo_fs : log_dir;
  lo_log : option rotatingWriter;                  (* nil: stderr *)
  lo_wait : list (logger * bytes);                 (* lines that the file has and the ring has not yet *)
  lo_ring : ringBuffer;
  lo_tun : option rotatingWriter                   (* nil: discarded *)
}.

(** The state when a process starts, with the files earlier ones have left. *)
Definition boot (fs : log_dir) : logging := mkLogging fs None [] (newRingBuffer logRingSize) None.

Definition read_dir (mods : bytes -> Z) (fs : log_dir) : list log_entry :=
  (fun nc => mkEntry nc.1 false (Some (zlen nc.2, mods nc.1))) <$> map_to_list fs.

Definition remove_all (names : list bytes) (fs : log_dir) : log_dir := fold_left (fun fs n => delete n fs) names fs.

Section loggers.
Context `{SliceSort} (removable : bytes -> bool) (mods : bytes -> Z).

(** [pruneLogFiles] on the directory. *)
Definition prune_dir (prefix : bytes) (totalBytes cutoff : Z) (fs : log_dir) : log_dir :=
  remove_all (lf_name <$> pruneLogFiles removable prefix totalBytes cutoff (read_dir mods fs)) fs.

Definition of_logger (lg : logger) (l : list (logger * bytes)) : list bytes :=
  snd <$> List.filter (fun x => bool_decide (x.1 = lg)) l.

(** A logger holds its mutex while it writes a line. *)
Definition busy (lg : logger) (st : logging) : bool := negb (zlen (of_logger lg (lo_wait st)) =? 0).

(** The first half of a line: the file, or stderr when there is none. *)
Definition Log_line (lg : logger) (p : bytes) (e : open_env) (st : logging) : logging * write_result :=
  match lo_log st with
  | None => (st, if oe_stderr e then WroteStderr else WriteFailed)
  | Some rw =>
    let '(fs, rw, r) := rw_Write p e (lo_fs st) rw in
    (mkLogging fs (Some rw) (match r with WriteFailed => lo_wait st | _ => lo_wait st ++ [(lg, p)] end) (lo_ring st) (lo_tun st), r)
  end.

Definition drop_waiting (lg : logger) : list (logger * bytes) -> list (logger * bytes) :=
  fix go l := match l with [] => [] | x :: l => if bool_decide (x.1 = lg) then l else x :: go l end.

(** The second half: the ring. *)
Definition Log_tee (lg : logger) (st : logging) : logging :=
  match of_logger lg (lo_wait st) with
  | [] => st
  | p :: _ => mkLogging (lo_fs st) (lo_log st) (drop_waiting lg (lo_wait st)) (ring_Write (lo_ring st) p) (lo_tun st)
  end.

Definition TunLog_line (p : bytes) (e : open_env) (st : logging) : logging :=
  match lo_tun st with
  | None => st
  | Some rw => let '(fs, rw, _) := rw_Write p e (lo_fs st) rw in mkLogging fs (lo_log st) (lo_wait st) (lo_ring st) (Some rw)
  end.

(** [openNew]: [openNewLocked] under the lock. *)
Definition openNew (e : open_env) (fs : log_dir) (rw : rotatingWriter) : option (log_dir * rotatingWriter) := openNewLocked e fs rw.

(** [cutoff]: 7 days ago; [banner]: the line that says which version starts. *)
Definition InitLogging (mkdir : bool) (cutoff : Z) (e e' : open_env) (banner : bytes) (st : logging) : logging * bool :=
  if negb mkdir then (st, false) else
  let fs := prune_dir log_prefix logTotalBytes cutoff (lo_fs st) in
  match newRotatingWriter logMaxBytes e fs with
  | None => (mkLogging fs (lo_log st) (lo_wait st) (lo_ring st) (lo_tun st), false)
  | Some (fs, rw) =>
    (Log_tee MainLogger (Log_line MainLogger banner e' (mkLogging fs (Some rw) (lo_wait st) (lo_ring st) (lo_tun st))).1, true)
  end.

Definition InitTunLogging (e : open_env) (st : logging) : logging * bool :=
  match newRotatingWriter tunLogMaxBytes e (lo_fs st) with
  | None => (st, false)
  | Some (fs, rw) => (mkLogging fs (lo_log st) (lo_wait st) (lo_ring st) (Some rw), true)
  end.

(** What a process does to its logs; the prunings are those [rw_Write] starts when it
    rotates, which run whenever they are scheduled. *)
Inductive log_event :=
  | LInit (mkdir : bool) (cutoff : Z) (e e' : open_env) (banner : bytes)
  | LInitTun (e : open_env)
  | LLine (lg : logger) (p : bytes) (e : open_env)
  | LTee (lg : logger)
  | LTunLine (p : bytes) (e : open_env)
  | LPrune (cutoff : Z)
  | LPruneTun (cutoff : Z)
  | LBoot.                                         (* the process ends, another starts *)

(** SetOutput waits for the line its logger is writing; [InitLogging] is called before
    anything is logged, and taken whole. *)
Definition log_step (st : logging) (ev : log_event) : logging :=
  match ev with
  | LInit mkdir cutoff e e' banner => if busy MainLogger st || busy StdLogger st then st else (InitLogging mkdir cutoff e e' banner st).1
  | LInitTun e => (InitTunLogging e st).1
  | LLine lg p e => if busy lg st then st else (Log_line lg p e st).1
  | LTee lg => Log_tee lg st
  | LTunLine p e => TunLog_line p e st
  | LPrune cutoff => match lo_log st with
                     | Some _ => mkLogging (prune_dir log_prefix logTotalBytes cutoff (lo_fs st)) (lo_log st) (lo_wait st) (lo_ring st) (lo_tun st)
                     | None => st
                     end
  | LPruneTun cutoff => match lo_tun st with
                        | Some _ => mkLogging (prune_dir tun_prefix tunLogTotalBytes cutoff (lo_fs st)) (lo_log st) (lo_wait st) (lo_ring st) (lo_tun st)
                        | None => st
                        end
  | LBoot => boot (lo_fs st)
  end.

Definition log_run (evs : list log_event) (st : logging) : logging := fold_left log_step evs st.

(** ** The ring holds what the files got *)

(** The lines that a step writes to the log (a line whose write returned an error is not
    one of them), and those it writes to the ring. *)
Definition wrote (lg : logger) (p : bytes) (e : open_env) (st : logging) : list (logger * bytes) :=
  match lo_log st, (Log_line lg p e st).2 with Some _, WriteFailed | None, _ => [] | _, _ => [(lg, p)] end.

Definition step_lines (st : logging) (ev : log_event) : list (logger * bytes) * list (logger * bytes) :=
  match ev with
  | LLine lg p e => (if busy lg st then [] else wrote lg p e st, [])
  | LTee lg => ([], pair lg <$> take 1 (of_logger lg (lo_wait st)))
  | LInit mkdir cutoff e e' banner =>
    if negb mkdir || busy MainLogger st || busy StdLogger st then ([], []) else
    match newRotatingWriter logMaxBytes e (prune_dir log_prefix logTotalBytes cutoff (lo_fs st)) with
    | None => ([], [])
    | Some (fs, rw) =>
      let l := wrote MainLogger banner e' (mkLogging fs (Some rw) (lo_wait st) (lo_ring st) (lo_tun st)) in (l, l)
    end
  | _ => ([], [])
  end.

Fixpoint run_lines (evs : list log_event) (st : logging) : list (logger * bytes) * list (logger * bytes) :=
  match evs with
  | [] => ([], [])
  | ev :: evs => let '(f, r) := step_lines st ev in let '(f', r') := run_lines evs (log_step st ev) in (f ++ f', r ++ r')
  end.

(** What a run so far has written to the log and to the ring. *)
Record lines_ok (f r : list (logger * bytes)) (st : logging) : Prop := {
  lk_ring : lo_ring st = fold_left ring_Write (snd <$> r) (newRingBuffer logRingSize);
  lk_order : forall lg, of_logger lg f = of_logger lg r ++ of_logger lg (lo_wait st);
  lk_one : forall lg, (length (of_logger lg (lo_wait st)) <= 1)%nat
}.

Lemma of_logger_app lg a b : of_logger lg (a ++ b) = of_logger lg a ++ of_logger lg b.
Proof. unfold of_logger. by rewrite List.filter_app, fmap_app. Qed.

Lemma of_logger_drop lg lg' l : of_logger lg' (drop_waiting lg l) = if bool_decide (lg = lg') then drop 1 (of_logger lg' l) else of_logger lg' l.
Proof.
  induction l as [|[lg0 p] l IH]; [by case_bool_decide|]. unfold of_logger in *. cbn [drop_waiting List.filter fst].
  destruct (bool_decide (lg0 = lg)) eqn:E.
  - apply bool_decide_eq_true in E as ->. by case_bool_decide.
  - apply bool_decide_eq_false in E. cbn [List.filter fst]. destruct (bool_decide (lg0 = lg')) eqn:E'; [|exact IH].
    apply bool_decide_eq_true in E' as ->. cbn. rewrite IH. by rewrite !bool_decide_eq_false_2.
Qed.

Lemma of_logger_one lg lg' p : of_logger lg' [(lg, p)] = if bool_decide (lg = lg') then [p] else [].
Proof. unfold of_logger. cbn. by destruct (bool_decide (lg = lg')). Qed.

Lemma not_busy lg st : busy lg st = false -> of_logger lg (lo_wait st) = [].
Proof. unfold busy. destruct (of_logger lg (lo_wait st)) as [|p l]; [done|]. rewrite zlen_cons. pose proof (zlen_nonneg l). intros Hz%negb_false_iff. lia. Qed.

Lemma log_line_lines lg p e st f r : busy lg st = false -> lines_ok f r st -> lines_ok (f ++ wrote lg p e st) r (Log_line lg p e st).1.
Proof.
  intros Hb%not_busy [Hr Ho H1]. unfold wrote, Log_line. destruct (lo_log st) as [rw|]; [|by rewrite app_nil_r; split].
  destruct (rw_Write p e (lo_fs st) rw) as [[fs rw'] res]. cbn [fst snd].
  assert (lines_ok (f ++ [(lg, p)]) r (mkLogging fs (Some rw') (lo_wait st ++ [(lg, p)]) (lo_ring st) (lo_tun st))) as Hok.
  { split; cbn [lo_ring lo_wait]; [done| |]; intros lg'; rewrite !of_logger_app, of_logger_one.
    - by rewrite Ho, app_assoc.
    - rewrite length_app. case_bool_decide as E; [subst lg'; rewrite Hb; simpl; lia|]. specialize (H1 lg'). simpl. lia. }
  destruct res; [exact Hok|exact Hok|]. rewrite app_nil_r. by split.
Qed.

Lemma log_tee_lines lg st f r : lines_ok f r st ->
  lines_ok f (r ++ (pair lg <$> take 1 (of_logger lg (lo_wait st)))) (Log_tee lg st).
Proof.
  intros [Hr Ho H1]. unfold Log_tee. destruct (of_logger lg (lo_wait st)) as [|p l] eqn:E; [rewrite app_nil_r; by split|].
  cbn [take fmap list_fmap]. rewrite ?take_0. split; cbn [lo_ring lo_wait].
  - by rewrite fmap_app, fold_left_app, Hr.
  - intros lg'. rewrite of_logger_app, of_logger_one, of_logger_drop, Ho. case_bool_decide as Eq; [|by rewrite app_nil_r].
    subst lg'. by rewrite E, <- app_assoc.
  - intros lg'. rewrite of_logger_drop. case_bool_decide; rewrite ?length_drop; specialize (H1 lg'); lia.
Qed.

Lemma wrote_wait lg p e st : lo_log st <> None -> lo_wait (Log_line lg p e st).1 = lo_wait st ++ wrote lg p e st.
Proof.
  intros Hl. unfold wrote, Log_line. destruct (lo_log st) as [rw|]; [|done].
  destruct (rw_Write p e (lo_fs st) rw) as [[fs rw'] []]; cbn [fst snd lo_wait]; by rewrite ?app_nil_r.
Qed.

Lemma log_step_lines st ev f r : (ev <> LBoot) -> lines_ok f r st ->
  lines_ok (f ++ (step_lines st ev).1) (r ++ (step_lines st ev).2) (log_step st ev).
Proof.
  intros Hb Hok. destruct ev as [mkdir cutoff e e' banner|e|lg p e|lg|p e|c|c|]; cbn [log_step step_lines]; [| | | | | | |done].
  - unfold InitLogging. destruct mkdir; cbn [negb orb]; [|rewrite !app_nil_r; by destruct (_ || _)].
    destruct (busy MainLogger st) eqn:B1; cbn [orb]; [by rewrite !app_nil_r|]. destruct (busy StdLogger st); [by rewrite !app_nil_r|].
    cbv zeta. destruct (newRotatingWriter _ e _) as [[fs rw]|]; cbn [fst snd]; [|rewrite !app_nil_r; destruct Hok; by split].
    set (st' := mkLogging fs (Some rw) (lo_wait st) (lo_ring st) (lo_tun st)).
    assert (lines_ok f r st') as Hok' by (destruct Hok; by split). assert (busy MainLogger st' = false) as B1' by done.
    pose proof (log_tee_lines MainLogger _ _ _ (log_line_lines MainLogger banner e' st' f r B1' Hok')) as G.
    rewrite (wrote_wait _ _ _ st'), of_logger_app, (not_busy _ _ B1') in G by done.
    replace (pair MainLogger <$> take 1 ([] ++ of_logger MainLogger (wrote MainLogger banner e' st'))) with (wrote MainLogger banner e' st') in G; [exact G|].
    unfold wrote. cbn [lo_log st']. by destruct (Log_line _ _ _ _).2.
  - rewrite !app_nil_r. unfold InitTunLogging. destruct (newRotatingWriter _ e _) as [[fs rw]|]; [|done]. destruct Hok. by split.
  - rewrite app_nil_r. destruct (busy lg st) eqn:B; [by rewrite app_nil_r|]. by apply log_line_lines.
  - rewrite app_nil_r. by apply log_tee_lines.
  - rewrite !app_nil_r. unfold TunLog_line. destruct (lo_tun st) as [rw|]; [|done]. destruct (rw_Write p e _ rw) as [[fs rw'] ?]. destruct Hok. by split.
  - rewrite !app_nil_r. destruct (lo_log st); [|done]. destruct Hok. by split.
  - rewrite !app_nil_r. destruct (lo_tun st); [|done]. destruct Hok. by split.
Qed.

Lemma log_run_lines evs : Forall (fun ev => ev <> LBoot) evs -> forall st f r, lines_ok f r st ->
  lines_ok (f ++ (run_lines evs st).1) (r ++ (run_lines evs st).2) (log_run evs st).
Proof.
  induction 1 as [|ev evs Hev _ IH]; intros st f r Hok; [by rewrite !app_nil_r|]. cbn [run_lines].
  pose proof (IH _ _ _ (log_step_lines st ev f r Hev Hok)) as G. destruct (step_lines st ev) as [f1 r1].
  destruct (run_lines evs (log_step st ev)) as [f2 r2]. cbn [fst snd] in *. by rewrite !app_assoc.
Qed.

(** C36: within a process, whatever else is logged, rotated, pruned or fails and however
    the lines of the two loggers interleave: of each logger, the ring was given exactly the
    lines whose write to the log reported no error, in the order they were written (the
    last one possibly not yet), and the buffer to upload is the end of what the ring was
    given.  It is all of it below 256 KB, the last 256 KB once the ring has wrapped, and
    always the last 256 KB, or all if there is less, unless lines have filled the ring to
    its last byte exactly. *)
Theorem ring_holds_kept_lines (fs : log_dir) (evs : list log_event) (Hone : Forall (fun ev => ev <> LBoot) evs) :
  let st := log_run evs (boot fs) in
  let '(logged, given) := run_lines evs (boot fs) in
  let h := mjoin (snd <$> given) in
  let snap := Snapshot (lo_ring st) in
  (forall lg, of_logger lg logged = of_logger lg given ++ of_logger lg (lo_wait st) /\ (length (of_logger lg (lo_wait st)) <= 1)%nat) /\
  (exists older, h = older ++ snap) /\
  (zlen h < 256 * 1024 -> snap = h) /\
  (rb_full (lo_ring st) = true -> zlen snap = 256 * 1024) /\
  ((forall k, zlen (mjoin (take k (snd <$> given))) mod (256 * 1024) = 0 -> mjoin (take k (snd <$> given)) = []) ->
   snap = drop (Z.to_nat (zlen h - 256 * 1024)) h).
Proof.
  cbv zeta. assert (lines_ok [] [] (boot fs)) as H0 by (split; [done|done|intros []; simpl; lia]).
  pose proof (log_run_lines evs Hone _ _ _ H0) as [Hr Ho H1]. destruct (run_lines evs (boot fs)) as [logged given]. cbn [fst snd app] in *.
  rewrite Hr. destruct (ring_snapshot_suffix logRingSize (snd <$> given) ltac:(done)) as (S1 & S2 & S3).
  split; [done|]. split; [|split; [exact S3|split; [intros Hf; by apply S2|]]].
  - rewrite S1. set (h := mjoin _). set (n := if rb_full _ then _ else _). exists (take (Z.to_nat (zlen h - n)) h). unfold lastn. by rewrite take_drop.
  - intros Hex. destruct (rb_full (fold_left ring_Write (snd <$> given) (newRingBuffer logRingSize))) eqn:Ef; [by rewrite S1, ?Ef|].
    pose proof (ring_wraps logRingSize _ ltac:(done) Hex Ef) as Hlt. rewrite S3 by done.
    replace (Z.to_nat _) with 0%nat; [done|]. unfold logRingSize in Hlt. lia.
Qed.

(** ** The traffic logs are not pruned by starting *)

Definition is_tun_log (n : bytes) : Prop := exists rest, n = tun_prefix ++ rest.

Lemma tun_log_not_main n : is_tun_log n -> is_log log_prefix n = false.
Proof. intros [rest ->]. unfold is_log. by rewrite !andb_false_r. Qed.

Lemma elem_of_pruned prefix total cutoff entries f :
  f ∈ pruneLogFiles removable prefix total cutoff entries -> is_log prefix (lf_name f) = true.
Proof.
  unfold pruneLogFiles. intros Hf. assert (f ∈ sorted_logs prefix entries) as Hs.
  { apply elem_of_app in Hf as [Hf|Hf].
    - rewrite list_elem_of_In, filter_In, <- list_elem_of_In in Hf. tauto.
    - apply trim_total_sub in Hf as [Hf _]. by apply elem_of_kept in Hf as [Hf _]. }
  apply elem_of_sorted_logs in Hs as (e & _ & He). by apply log_of_is_log in He as (_ & _ & He).
Qed.

Lemma lookup_remove_all names fs n : n ∉ names -> remove_all names fs !! n = fs !! n.
Proof.
  unfold remove_all. revert fs. induction names as [|m names IH]; intros fs Hn; [done|]. cbn [fold_left].
  apply not_elem_of_cons in Hn as [Hm Hn]. rewrite IH by done. by apply lookup_delete_ne.
Qed.

Lemma prune_main_keeps total cutoff fs n : is_tun_log n -> prune_dir log_prefix total cutoff fs !! n = fs !! n.
Proof.
  intros Ht. apply lookup_remove_all. intros (f & -> & Hf)%list_elem_of_fmap. apply elem_of_pruned in Hf.
  by rewrite tun_log_not_main in Hf.
Qed.

Lemma rw_write_keeps p e fs rw n : is_Some (fs !! n) -> is_Some ((rw_Write p e fs rw).1.1 !! n).
Proof.
  intros Hn. assert (forall b fs rw, is_Some (fs !! n) -> is_Some ((write_open p b e fs rw).1.1 !! n)) as Hw.
  { intros b fs' rw' Hn'. unfold write_open. destruct (rw_open rw'); [|done]. simpl. rewrite lookup_insert_is_Some. destruct (decide (rw_name rw' = n)); auto. }
  unfold rw_Write. destruct (_ >? _); [|by apply Hw]. unfold openNewLocked. destruct (oe_ok e); cbn [negb]; [|done].
  apply Hw. rewrite lookup_insert_is_Some. destruct (decide (oe_name e = n)); auto.
Qed.

Lemma new_writer_keeps max e fs fs' rw n : newRotatingWriter max e fs = Some (fs', rw) -> is_Some (fs !! n) -> is_Some (fs' !! n).
Proof.
  unfold newRotatingWriter, openNewLocked. destruct (oe_ok e); cbn [negb]; [|done]. intros [= <- _] Hn.
  rewrite lookup_insert_is_Some. destruct (decide (oe_name e = n)); auto.
Qed.

Lemma log_line_keeps lg p e st n : is_Some (lo_fs st !! n) -> is_Some (lo_fs (Log_line lg p e st).1 !! n).
Proof.
  intros Hn. unfold Log_line. destruct (lo_log st) as [rw|]; [|done].
  pose proof (rw_write_keeps p e (lo_fs st) rw n Hn) as Hk. by destruct (rw_Write p e (lo_fs st) rw) as [[fs rw'] r].
Qed.

Lemma log_tee_fs lg st : lo_fs (Log_tee lg st) = lo_fs st.
Proof. unfold Log_tee. by destruct (of_logger lg (lo_wait st)). Qed.

Lemma log_step_keeps st ev n : (forall c, ev <> LPruneTun c) -> is_tun_log n ->
  is_Some (lo_fs st !! n) -> is_Some (lo_fs (log_step st ev) !! n).
Proof.
  intros Hp Ht Hn. destruct ev as [mkdir cutoff e e' banner|e|lg p e|lg|p e|c|c|]; cbn [log_step];
    [| |destruct (busy lg st); [done|by apply log_line_keeps]|by rewrite log_tee_fs| | |by destruct (Hp c)|done].
  - destruct (_ || _); [done|]. unfold InitLogging. destruct mkdir; cbn [negb]; [|done]. cbv zeta.
    assert (is_Some (prune_dir log_prefix logTotalBytes cutoff (lo_fs st) !! n)) as Hn' by (by rewrite prune_main_keeps).
    destruct (newRotatingWriter _ e _) as [[fs rw]|] eqn:E; [|done]. cbn [fst]. rewrite log_tee_fs. apply log_line_keeps. by eapply new_writer_keeps.
  - unfold InitTunLogging. destruct (newRotatingWriter _ e _) as [[fs rw]|] eqn:E; [|done]. by eapply new_writer_keeps.
  - unfold TunLog_line. destruct (lo_tun st) as [rw|]; [|done]. pose proof (rw_write_keeps p e (lo_fs st) rw n Hn) as Hk.
    by destruct (rw_Write p e (lo_fs st) rw) as [[fs rw'] r].
  - destruct (lo_log st); [|done]. cbn [lo_fs]. by rewrite prune_main_keeps.
Qed.

(** A traffic log stays however old it is and however many sessions follow, starting
    both loggers each time, until a session writes enough traffic to rotate (which is
    when a pruning of the traffic logs is started); the main log's prunings do not touch
    it. *)
Theorem tun_logs_kept (st : logging) (evs : list log_event) (n : bytes)
    (Hquiet : Forall (fun ev => forall c, ev <> LPruneTun c) evs) (Ht : is_tun_log n) (Hn : is_Some (lo_fs st !! n)) :
  is_Some (lo_fs (log_run evs st) !! n).
Proof.
  revert st Hn. unfold log_run. induction Hquiet as [|ev evs Hev _ IH]; intros st Hn; [done|].
  cbn [fold_left]. apply IH. by apply log_step_keeps.
Qed.
End loggers.

(** ** Uploader *)

Record LogUploader := mkUploader { lu_srvURL : bytes; lu_nodeID : bytes; lu_token : bytes }.
Definition trim_slashes (s : bytes) : bytes := rev ((fix go l := match l with b :: l' => if byte_eqb b x2f then go l' else l | [] => [] end) (rev s)).
Definition NewLogUploader (srvURL nodeID token : bytes) : LogUploader := mkUploader (trim_slashes srvURL) nodeID token.
Definition UploadOnce (gzip : bytes -> option bytes) (version : bytes) (lu : LogUploader) (rb : ringBuffer) : option upload_request :=
  upload gzip (lu_srvURL lu) (lu_token lu) (lu_nodeID lu) version rb.

Lemma trim_slashes_slash s n : trim_slashes (s ++ replicate n x2f) = trim_slashes s.
Proof.
  unfold trim_slashes. f_equal. rewrite rev_app_distr. induction n as [|n IH]; [done|].
  replace (rev (replicate (S n) x2f)) with (x2f :: rev (replicate n x2f)); [exact IH|].
  rewrite replicate_S_end. by rewrite rev_unit.
Qed.

(** The upload goes to the same address however many slashes end the server's URL. *)
Theorem upload_address (gzip : bytes -> option bytes) (version s nodeID token : bytes) (n : nat) (rb : ringBuffer) :
  UploadOnce gzip version (NewLogUploader (s ++ replicate n x2f) nodeID token) rb = UploadOnce gzip version (NewLogUploader s nodeID token) rb.
Proof. unfold UploadOnce, NewLogUploader. simpl. by rewrite trim_slashes_slash. Qed.

(** A line of each logger, the second one overtaking the first on its way to the ring. *)
Definition toy_log_events : list log_event :=
  [LInit true 0 (Toy_log.opened "1") (Toy_log.opened "1") (str "v1"); LLine MainLogger (str "line") (Toy_log.opened "1");
   LLine StdLogger (str "other") (Toy_log.opened "1"); LTee StdLogger; LTee MainLogger].

Lemma ring_holds_kept_lines_witness :
  Snapshot (lo_ring (log_run (H := insertion_slice_sort) (fun _ => true) (fun _ => 0) toy_log_events (boot ∅))) = str "v1otherline".
Proof.
  pose proof (ring_holds_kept_lines (H := insertion_slice_sort) (fun _ => true) (fun _ => 0) ∅ toy_log_events ltac:(by repeat constructor)) as G.
  cbv zeta in G. assert (run_lines (H := insertion_slice_sort) (fun _ => true) (fun _ => 0) toy_log_events (boot ∅) =
    ([(MainLogger, str "v1"); (MainLogger, str "line"); (StdLogger, str "other")], [(MainLogger, str "v1"); (StdLogger, str "other"); (MainLogger, str "line")])) as E.
  { vm_compute. reflexivity. }
  rewrite E in G. destruct G as (_ & _ & G & _). by apply G.
Defined.

Lemma tun_logs_kept_witness :
  is_Some (lo_fs (log_run (H := insertion_slice_sort) (fun _ => true) (fun _ => 0)
    [LInit true 1000 (Toy_log.opened "1") (Toy_log.opened "1") (str "v1"); LInitTun (mkOpen (str "snc_tun_2.log") true true None true)]
    (boot {[ str "snc_tun_1.log" := str "old" ]})) !! str "snc_tun_1.log").
Proof.
  apply (tun_logs_kept (H := insertion_slice_sort) (fun _ => true) (fun _ => 0)); [by repeat constructor|by exists (str "1.log")|by eexists].
Defined.
