(* ===== verification/ControlLink.v ===== *)
(** * ControlLink: the tunnel over a UDP relay, end to end (udp_relay.go, udp_control.go, router.go)

    A tunnel request over UDP: the caller's connection, the datagrams both ways (each of
    which may be lost, and none of which carries more than the 65507 bytes of UDP over IPv4:
    writing a longer frame fails), the peer that forwards it to its control, and the answer; then
    the dialer made for a control by the transport its probes found.  The peer's HTTP
    client and the control behind it are arguments. *)
From S2P Require Import Prelude Encoding Env TunnelWire DialWindow Auth Session UdpRelay Router Camouflage TunnelDial UdpControl.

(** ** Forwarding *)

Record forward_request := mkForward { fr_url : bytes; fr_contentType : bytes; fr_session : bytes; fr_body : bytes }.

(** [forwardToControl]; [Do]: nothing when the request fails, the inner nothing when
    reading the answer's body does.  Both are the error that [serveRequest] turns into
    a 503. *)
Definition forwardToControl {S} (Do : S -> forward_request -> S * option (Z * option bytes)) (s : S)
    (controlURL path token body : bytes) : S * option (Z * bytes) :=
  let '(s, resp) := Do s (mkForward (controlURL ++ path) (str "application/octet-stream") token body) in
  (s, match resp with Some (status, Some data) => Some (status, data) | _ => None end).

(** ** A call over a network that loses datagrams *)

(** What becomes of one attempt. *)
Inductive fate := FLostRequest | FLostResponse | FDelivered.

Section exchange.
Context {S : Type} (Do : S -> forward_request -> S * option (Z * option bytes)).

(** The peer's side of one request: the control's new state and the response frame, if it
    could be written. *)
Definition peer_serves (server : UDPRelayConn) (s : S) (frame : bytes) : S * option bytes :=
  match relay_read server frame with
  | Ok (_, [RServe id path token body]) =>
    let '(s, fw) := forwardToControl Do s (uc_controlURL server) path token body in
    let frame := serveRequest id fw in (s, if datagram_fits frame then Some frame else None)
  | _ => (s, None)
  end.

(** The retry loop of [RoundTrip] against that peer; [None] when the fates run out
    while the call still waits. *)
Fixpoint relay_attempts (fates : list fate) (attempt : Z) (c server : UDPRelayConn) (cl : call) (s : S)
    : option (UDPRelayConn * S * res udpPendingResp) :=
  let '(c, cl, _) := rt_send c cl attempt (datagram_fits (cl_frame cl)) in
  match cl_state cl, fates with
  | Returned r, _ => Some (c, s, r)
  | _, [] => None
  | _, f :: fates =>
    let '(s, reply) := match f with FLostRequest => (s, None) | _ => peer_serves server s (cl_frame cl) end in
    match f, reply with
    | FDelivered, Some frame =>
      match relay_read c frame with
      | Ok (c, _) =>
        match rt_wait c cl attempt OResponse with
        | Some (c, cl) => match cl_state cl with Returned r => Some (c, s, r) | _ => None end
        | None => None
        end
      | _ => None
      end
    | _, _ =>
      match rt_wait c cl attempt OTimeout with
      | Some (c, cl) => relay_attempts fates (attempt + 1) c server cl s
      | None => None
      end
    end
  end.

Definition relay_call (fates : list fate) (client server : UDPRelayConn) (id : Z) (path token body : bytes) (s : S) :=
  let '(c, cl) := rt_start client id path token body in relay_attempts fates 0 c server cl s.

(** ** What such a call promises *)

Definition answer_of (fw : option (Z * bytes)) : udpPendingResp :=
  match fw with Some (st, b) => mkResp st b | None => mkResp 503 [] end.

(** Whether a datagram carries the response, after its 15 bytes of header. *)
Definition carried (r : udpPendingResp) : bool := 15 + zlen (pr_body r) <=? 65507.

(** The control sees the request once per attempt that reaches the peer; the call ends
    with the answer of the first attempt that goes through both ways. *)
Fixpoint call_spec (ask : S -> S * option (Z * bytes)) (fates : list fate) (s : S) : S * option udpPendingResp :=
  match fates with
  | [] => (s, None)
  | FLostRequest :: fates => call_spec ask fates s
  | FLostResponse :: fates => call_spec ask fates (ask s).1
  | FDelivered :: fates =>
    if carried (answer_of (ask s).2) then ((ask s).1, Some (answer_of (ask s).2)) else call_spec ask fates (ask s).1
  end.

Context (server : UDPRelayConn) (id : Z) (path token body : bytes)
  (Hid : 0 <= id < 2 ^ 32) (Hserver : uc_controlURL server <> [])
  (Hdo : forall s r s' st b, Do s r = (s', Some (st, Some b)) -> 0 <= st < 2 ^ 16).

Definition ask (s : S) : S * option (Z * bytes) := forwardToControl Do s (uc_controlURL server) path token body.

Lemma ask_bounds s st b : (ask s).2 = Some (st, b) -> 0 <= st < 2 ^ 16.
Proof.
  unfold ask, forwardToControl. destruct (Do s _) as [s' [[st' [b'|]]|]] eqn:E; try done. intros [= <- <-]. by eapply Hdo.
Qed.

Lemma request_fits : datagram_fits (udpEncodeRequest id path token body) = (17 + zlen path + zlen token + zlen body <=? 65507).
Proof. unfold datagram_fits. f_equal. unfold udpEncodeRequest. wire_lia. Qed.

Lemma response_fits s : datagram_fits (serveRequest id (ask s).2) = carried (answer_of (ask s).2).
Proof.
  unfold datagram_fits, carried, serveRequest, answer_of. destruct (ask s).2 as [[st b]|]; f_equal; unfold udpEncodeResponse; cbn [pr_body]; wire_lia.
Qed.

Lemma peer_serves_request s : 17 + zlen path + zlen token + zlen body <= 65507 ->
  peer_serves server s (udpEncodeRequest id path token body) =
    ((ask s).1, if carried (answer_of (ask s).2) then Some (serveRequest id (ask s).2) else None).
Proof.
  intros Hfit. pose proof (zlen_nonneg path). pose proof (zlen_nonneg token). pose proof (zlen_nonneg body).
  unfold peer_serves. rewrite read_fits by (rewrite request_fits; by apply Z.leb_le). rewrite recv_request by (done || lia).
  rewrite <- response_fits. fold (ask s). by destruct (ask s).
Qed.

Lemma recv_answer c s : carried (answer_of (ask s).2) = true -> uc_pending c !! id = Some None ->
  relay_read c (serveRequest id (ask s).2) = Ok (with_pending c (<[id := Some (answer_of (ask s).2)]> (uc_pending c)), []).
Proof.
  intros Hfit Hc. rewrite read_fits by (by rewrite response_fits). pose proof (ask_bounds s) as Hbd. unfold serveRequest, carried in *.
  destruct (ask s).2 as [[st b]|]; cbn [answer_of pr_body] in Hfit.
  - specialize (Hbd st b eq_refl). rewrite recv_response by (done || lia). by rewrite Hc.
  - rewrite recv_response by (try lia; by vm_compute). by rewrite Hc.
Qed.

Lemma relay_attempts_spec fates : forall attempt c s, 17 + zlen path + zlen token + zlen body <= 65507 ->
  0 <= attempt -> Z.of_nat (length fates) = udpRelayRetries - attempt -> uc_pending c !! id = Some None ->
  exists c', relay_attempts fates attempt c server (mkCall id (udpEncodeRequest id path token body) (Sending attempt)) s =
    Some (c', (call_spec ask fates s).1,
          match (call_spec ask fates s).2 with Some r => Ok r | None => Err "udp-relay: retries exhausted" end) /\
    uc_pending c' !! id = None /\ uc_failCount c' = match (call_spec ask fates s).2 with Some _ => 0 | None => uc_failCount c + 1 end.
Proof.
  induction fates as [|f fates IH]; intros attempt c s Hfit Ha Hl Hc.
  - cbn [relay_attempts length] in *. unfold rt_send. rewrite (proj2 (Z.ltb_ge _ _)) by lia. cbn [negb].
    unfold rt_return. cbn [cl_state cl_id]. eexists. split; [done|]. cbn [call_spec snd].
    unfold recordFailure, markFailed. destruct (_ >=? _); cbn; (split; [apply lookup_delete_eq|done]).
  - cbn [length] in Hl. cbn [relay_attempts]. unfold rt_send. rewrite (proj2 (Z.ltb_lt _ _)) by lia. cbn [negb].
    cbn [cl_state cl_frame cl_id]. rewrite request_fits, (proj2 (Z.leb_le _ _) Hfit). cbn [cl_state cl_frame cl_id]. destruct f.
    + cbn [rt_wait call_spec cl_id cl_frame]. apply IH; [done|lia|lia|done].
    + rewrite peer_serves_request by done. cbn [rt_wait call_spec cl_id cl_frame].
      apply IH; [done|lia|lia|done].
    + rewrite peer_serves_request by done. cbn [call_spec]. destruct (carried (answer_of (ask s).2)) eqn:Ec.
      * rewrite recv_answer by done. cbn [rt_wait cl_id uc_pending with_pending].
        rewrite lookup_insert_eq. cbn [rt_return cl_state cl_id cl_frame call_spec fst snd]. eexists. split; [done|].
        cbn. split; [apply lookup_delete_eq|done].
      * cbn [rt_wait cl_id cl_frame]. apply IH; [done|lia|lia|done].
Qed.

(** C5: A call over the relay, whatever datagrams are lost and whatever does not fit one:
    it returns, with the control's own answer to the unchanged request (503 when the peer
    could not get one) as soon as one of its three attempts goes through both ways, else
    with an error; the control has then seen the same request once for each attempt whose
    request arrived, so possibly more than once; an answer that no datagram carries is lost
    like any other; a request that no datagram carries is an error at once, and the control
    sees nothing; the call is no longer pending, and the failure count is reset or goes up
    by one. *)
Theorem relay_call_refines (client : UDPRelayConn) (f1 f2 f3 : fate) (s : S) :
  let fits := 17 + zlen path + zlen token + zlen body <=? 65507 in
  let spec := call_spec ask [f1; f2; f3] s in
  exists c', relay_call [f1; f2; f3] client server id path token body s =
    Some (c', if fits then spec.1 else s,
          if fits then match spec.2 with Some r => Ok r | None => Err "udp-relay: retries exhausted" end else Err "udp-relay write") /\
    uc_pending c' !! id = None /\
    uc_failCount c' = if fits then match spec.2 with Some _ => 0 | None => uc_failCount client + 1 end else uc_failCount client + 1.
Proof.
  cbv zeta. unfold relay_call, rt_start. cbv zeta. destruct (_ <=? _) eqn:Ef.
  - apply Z.leb_le in Ef.
    destruct (relay_attempts_spec [f1; f2; f3] 0 (with_pending client (<[id := None]> (uc_pending client))) s) as (c' & E & Hpd & Hf);
      [done|lia|done|cbn; apply lookup_insert_eq|].
    exists c'. split; [exact E|]. split; [done|]. exact Hf.
  - cbn [relay_attempts]. unfold rt_send. change (0 <? udpRelayRetries) with true. cbn [negb cl_frame].
    rewrite request_fits, Ef. cbn [cl_state rt_return cl_id]. eexists. split; [done|].
    unfold recordFailure, markFailed. destruct (_ >=? _); cbn; (split; [apply lookup_delete_eq|done]).
Qed.
End exchange.

(** ** Tunnel requests through a relay peer *)

Section tunnel.
Context `{AEADLaws} (control : bytes -> bytes -> bytes -> option (Z * bytes)) (url : bytes) (id : Z).

(** The control as the HTTP client of the peer sees it, one without state. *)
Definition peer_client (_ : unit) (r : forward_request) : unit * option (Z * option bytes) :=
  (tt, match control (drop (length url) (fr_url r)) (fr_session r) (fr_body r) with Some (st, b) => Some (st, Some b) | None => None end).

(** [RoundTrip] on a network that loses nothing, as a POST uses it. *)
Definition via_relay (path token body : bytes) : option (Z * bytes) :=
  match relay_call peer_client [FDelivered; FDelivered; FDelivered] (NewUDPRelayConn []) (NewUDPRelayConn url) id path token body tt with
  | Some (_, _, Ok r) => Some (pr_status r, pr_body r)
  | _ => None
  end.

(** The same world with the relay, and without. *)
Definition with_relay (env : post_env) : post_env :=
  mkPEnv (pe_rnd env) (Some false) via_relay (pe_http env) (pe_elapsed env) (pe_reauth env).
Definition with_http (env : post_env) : post_env :=
  mkPEnv (pe_rnd env) None (pe_udp env) (fun p t b => (fun r => (r.1, Some r.2)) <$> control p t b) (pe_elapsed env) (pe_reauth env).

Context (Hid : 0 <= id < 2 ^ 32) (Hurl : url <> [])
  (Hanswers : forall p t b, exists st raw, control p t b = Some (st, raw) /\ 0 <= st < 2 ^ 16 /\ 15 + zlen raw <= 65507).

Lemma via_relay_control path token body :
  17 + zlen path + zlen token + zlen body <= 65507 -> via_relay path token body = control path token body.
Proof.
  intros Hfit. destruct (Hanswers path token body) as (st & raw & Ec & Hst & Hraw).
  assert (ask peer_client (NewUDPRelayConn url) path token body tt = (tt, Some (st, raw))) as Ea.
  { unfold ask, forwardToControl, peer_client. cbn. by rewrite drop_app_length, Ec. }
  unfold via_relay, relay_call, rt_start. cbv zeta.
  destruct (relay_attempts_spec peer_client (NewUDPRelayConn url) id path token body Hid Hurl) with
    (fates := [FDelivered; FDelivered; FDelivered]) (attempt := 0) (s := tt)
    (c := with_pending (NewUDPRelayConn []) (<[id := None]> (uc_pending (NewUDPRelayConn [])))) as (c' & E & _);
    [|done|lia|done|cbn; apply lookup_insert_eq|].
  - intros s r s' st' b. unfold peer_client. destruct (Hanswers (drop (length url) (fr_url r)) (fr_session r) (fr_body r)) as (? & ? & -> & ? & ?).
    by intros [= _ <- <-].
  - rewrite E. cbn [call_spec]. rewrite Ea. cbn [fst snd answer_of]. unfold carried. cbn [pr_body].
    rewrite (proj2 (Z.leb_le _ _) Hraw). cbn. by rewrite Ec.
Qed.

Lemma via_relay_oversize path token body : 65507 < 17 + zlen path + zlen token + zlen body -> via_relay path token body = None.
Proof.
  intros Hbig. unfold via_relay, relay_call, rt_start. cbv zeta. cbn [relay_attempts]. unfold rt_send. change (0 <? udpRelayRetries) with true.
  cbn [negb cl_frame]. rewrite request_fits, (proj2 (Z.leb_gt _ _)) by lia. done.
Qed.

(** Events with the transport left out, and without the time samples. *)
Definition untimed (evs : list post_event) : list post_event :=
  omap (fun e => match e with EvSend _ p t b => Some (EvSend false p t b) | EvRTT _ => None | _ => Some e end) evs.

Lemma untimed_app a b : untimed (a ++ b) = untimed a ++ untimed b.
Proof. apply omap_app. Qed.

Definition same_post (a b : option (post_state * (bytes + post_error) * list post_event)) : Prop :=
  match a, b with
  | Some (d, r, evs), Some (d', r', evs') => d = d' /\ r = r' /\ untimed evs = untimed evs'
  | None, None => True
  | _, _ => False
  end.

Lemma same_post_refl x : same_post x x.
Proof. by destruct x as [[[]]|]. Qed.

End tunnel.

(** ** The dialer for a control *)

(** [newUDPControlConn]: [dial] gives nothing on failure, else whether the connection is
    a UDP socket (another kind is closed).  The result is the address dialled and the
    connection, which has no control to forward to. *)
Definition newUDPControlConn (dial : bytes -> option bool) (controlAddr : bytes) : res (bytes * UDPRelayConn) :=
  let addr := control_udp_addr controlAddr in
  match dial addr with
  | None => Err "udp-control: dial"
  | Some isUDP => if negb isUDP then Err "udp-control: unexpected conn type" else Ok (addr, NewUDPRelayConn [])
  end.

(** A dialer and the relay its POSTs use, if any. *)
Record control_dialer := mkCD { cd_td : TunnelDialer; cd_relay : option UDPRelayConn }.

Definition NewTunnelDialer (token : bytes) : control_dialer := mkCD (newTunnelDialer token false true) None.
Definition NewTunnelDialerPolling (token : bytes) : control_dialer := mkCD (newTunnelDialer token false false) None.
Definition NewUDPRelayDialer (relay : UDPRelayConn) (token : bytes) : control_dialer := mkCD (newTunnelDialer token false false) (Some relay).

Definition NewControlDialer (dial : bytes -> option bool) (addr token : bytes) (r : Router) : res control_dialer :=
  match ControlTransport addr r with
  | transportUDP =>
    match newUDPControlConn dial addr with
    | Ok (_, conn) => Ok (NewUDPRelayDialer conn token)
    | Err e => Err e
    | Panic => Panic
    end
  | transportTCP => Ok (NewTunnelDialer token)
  end.

Definition Paths (r : Router) : list RouterPath := r_paths r.

(** [ProbeControlE2E] and [probeControlPing]; [get]: the decoded answer of a GET and the
    time it took. *)
Definition ProbeControlE2E (get : bytes -> option (Z * option (bool * Z))) (addr : bytes) : option Z :=
  match get (str "https://" ++ addr ++ str "/p/v1/ping") with
  | None => None
  | Some (elapsed, body) => probe_answer elapsed body
  end.

(** A connection with no control to forward to never serves a request. *)
Lemma recv_no_serve c data c' acts : uc_controlURL c = [] -> relay_recv c data = Ok (c', acts) ->
  forall id p t b, RServe id p t b ∉ acts.
Proof.
  intros Hu. unfold relay_recv. intros E id p t b Hin. revert E.
  destruct (_ <? _); [intros [= _ <-]; by apply elem_of_nil in Hin|].
  destruct (be_at 4 data 0); cbn [mbind res_bind]; [|done..]. destruct (negb _); [intros [= _ <-]; by apply elem_of_nil in Hin|].
  destruct (be_at 4 data 4) as [i| |]; cbn [mbind res_bind]; [|done..].
  destruct (index data 8) as [ty| |]; cbn [mbind res_bind]; [|done..].
  destruct (byte_eqb ty udpRelayTypeResponse).
  { destruct (udpDecodeResponse data) as [[r|]| |]; cbn [mbind res_bind]; try done; [|intros [= _ <-]; by apply elem_of_nil in Hin].
    destruct (uc_pending c !! i) as [[]|]; intros [= _ <-]; by apply elem_of_nil in Hin. }
  destruct (byte_eqb ty udpRelayTypeRequest).
  { rewrite bool_decide_eq_true_2 by done. intros [= _ <-]. by apply elem_of_nil in Hin. }
  destruct (byte_eqb ty udpRelayTypeKeepalive); [intros [= _ <-]; by apply list_elem_of_singleton in Hin|].
  destruct (byte_eqb ty udpRelayTypePong); intros [= _ <-]; by apply elem_of_nil in Hin.
Qed.

Lemma step_url s acts s' : relay_step s acts s' -> uc_controlURL (sys_conn s') = uc_controlURL (sys_conn s).
Proof.
  destruct 1 as [c cs data c' acts E|?|c cs id cl att wrote c' cl' acts _ _ E|c cs id cl att o c' cl' _ _ E|?|c cs id wrote _ _|?]; cbn; try done.
  - by apply recv_effect in E as [->|[->|(? & ? & _ & _ & ->)]].
  - revert E. unfold rt_send, rt_return, recordFailure, markFailed. destruct (negb _); [|destruct wrote];
      [destruct (_ >=? _)| |destruct (_ >=? _)]; by intros [= <- _ _].
  - destruct o; cbn in E; [destruct (uc_pending c !! cl_id cl) as [[]|]; try done|..]; [by injection E as <- _|by injection E as <- _|].
    destruct (uc_closed c); [|done]. by injection E as <- _.
  - unfold keepalive_tick, recordFailure, markFailed. destruct wrote; cbn [negb]; destruct (_ >=? _); done.
Qed.

Lemma step_no_serve s acts s' : uc_controlURL (sys_conn s) = [] -> relay_step s acts s' -> forall id p t b, RServe id p t b ∉ acts.
Proof.
  intros Hu. destruct 1 as [c cs data c' acts E|?|c cs i cl att wrote c' cl' acts _ _ E|?|?|c cs i wrote _ _|?]; intros rid p t b Hin;
    try by apply elem_of_nil in Hin.
  - apply elem_of_cons in Hin as [Hin|Hin]; [done|]. by eapply recv_no_serve.
  - revert E. unfold rt_send, rt_return. destruct (negb _); [intros [= _ _ <-]; by apply elem_of_nil in Hin|].
    destruct wrote; [|intros [= _ _ <-]; by apply elem_of_nil in Hin]. intros [= _ _ <-]. by apply list_elem_of_singleton in Hin.
  - unfold keepalive_tick in Hin. destruct wrote; cbn [negb] in Hin; [destruct (_ >=? _)|]; cbn in Hin;
      first [by apply elem_of_nil in Hin | by apply list_elem_of_singleton in Hin].
Qed.

(** The dialer made for a control has the transport its last probe found: for a control
    reached over UDP only it polls over a connection to port 443 unless the address names
    one, else it streams over TCP; and the UDP connection is a client only: whatever
    datagrams arrive, it never forwards a request for anyone. *)
Theorem control_dialer_transport (dial : bytes -> option bool) (addr token : bytes) (r : Router) (cd : control_dialer)
    (Hcd : NewControlDialer dial addr token r = Ok cd) :
  (ControlTransport addr r = transportTCP -> cd = NewTunnelDialer token) /\
  (ControlTransport addr r = transportUDP ->
     dial (control_udp_addr addr) = Some true /\ td_streaming (cd_td cd) = false /\
     cd_relay cd = Some (NewUDPRelayConn []) /\
     forall s acts, relay_reach [] s acts -> forall id p t b, RServe id p t b ∉ acts).
Proof.
  unfold NewControlDialer in Hcd. destruct (ControlTransport addr r); (split; [|done || intros _]); try done; try by injection Hcd.
  unfold newUDPControlConn in Hcd. cbv zeta in Hcd. destruct (dial (control_udp_addr addr)) as [[]|]; cbn [negb] in Hcd; try done.
  injection Hcd as <-. split; [done|]. split; [done|]. split; [done|]. intros s acts Hr.
  enough (uc_controlURL (sys_conn s) = [] /\ forall id p t b, RServe id p t b ∉ acts) by tauto.
  induction Hr as [|s acts s' new Hr [Hu IH] Hs]; [split; [done|]; intros *; apply not_elem_of_nil|].
  split; [by rewrite (step_url _ _ _ Hs)|]. intros id p t b. rewrite elem_of_app. intros [Hin|Hin]; [by eapply IH|by eapply step_no_serve].
Qed.

(** ** Concrete runs *)

Module Toy_link.
(** A control that counts requests and answers with their body. *)
Definition counting (n : Z) (r : forward_request) : Z * option (Z * option bytes) := (n + 1, Some (200, Some (take 8 (fr_body r)))).
Definition answering (_ _ _ : bytes) : option (Z * bytes) := Some (401, []).
Definition env : post_env := mkPEnv (Some (make_bytes 12)) None (fun _ _ _ => None) (fun _ _ _ => None) 5
  (mkReauth None 0 [mkAttempt (inl (str "token-two")) 1 []]).
Definition router : Router := router_run (H := insertion_slice_sort) Toy_router.mean
  (Toy_router.events ++ [EProbeTCP 1 Toy_router.home None; EProbeUDP 1 Toy_router.home (Some 5)]).
End Toy_link.
Import Toy_link Toy.

Lemma counting_bounds n r n' st b : counting n r = (n', Some (st, Some b)) -> 0 <= st < 2 ^ 16.
Proof. by intros [= _ <- <-]. Qed.

Lemma relay_call_refines_witness :
  exists c', relay_call counting [FLostResponse; FLostRequest; FDelivered] (NewUDPRelayConn []) (NewUDPRelayConn (str "https://c")) 7
      (str "/p") (str "t") (str "body") 0 = Some (c', 2, Ok (mkResp 200 (str "body"))).
Proof.
  destruct (relay_call_refines counting (NewUDPRelayConn (str "https://c")) 7 (str "/p") (str "t") (str "body")
    ltac:(lia) ltac:(discriminate) counting_bounds
    (NewUDPRelayConn []) FLostResponse FLostRequest FDelivered 0) as (c' & E & _).
  exists c'. exact E.
Defined.

Lemma answering_bounds p t b : exists st raw, answering p t b = Some (st, raw) /\ 0 <= st < 2 ^ 16 /\ 15 + zlen raw <= 65507.
Proof. by exists 401, []. Qed.


Lemma control_dialer_transport_witness :
  td_streaming (cd_td (NewUDPRelayDialer (NewUDPRelayConn []) (str "t"))) = false.
Proof.
  destruct (control_dialer_transport (fun _ => Some true) (str "ru1:443") (str "t") router (NewUDPRelayDialer (NewUDPRelayConn []) (str "t")))
    as [_ Hu]; [by vm_compute|]. destruct (Hu ltac:(by vm_compute)) as (_ & Hs & _). exact Hs.
Defined.
