(* ===== verification/Client.v ===== *)
(** * Client: the SOCKS5 listener and the demo client (socks5.go, cmd/demo/main.go)

    The accept loop of the proxy with [Close], and the demo's [main] as the composition
    of the components: log in, make a dialer with the session, bind the proxy, start the
    TUN bridge, wait for an interrupt.  The flags, the login's exchanges, the bound
    address and the outcome of the bridge's attempts are arguments; the bridge is the
    Linux one. *)
From S2P Require Import Prelude Encoding Env Cidr DialWindow TunnelWire Auth Session Bypass Socks5 UdpRelay Camouflage AuthRequest TunnelDial UdpControl Tun ProcFilter ControlLink.

(** ** The accept loop *)

Record serving := mkServing {
  sl_ln : bool;                                    (* s.ln is set: Serve has begun *)
  sl_open : bool;                                  (* the listener *)
  sl_returned : bool;
  sl_handled : list nat                            (* connections given to a goroutine of handle *)
}.

Definition new_serving : serving := mkServing false true false [].

Inductive serve_event :=
  | VServe
  | VAccept (c : nat)
  | VAcceptError                                   (* of the system, or the listener is closed *)
  | VClose.

(** [Serve], [Close]. *)
Definition serve_step (s : serving) (ev : serve_event) : option serving :=
  match ev with
  | VServe => if sl_ln s then None else Some (mkServing true (sl_open s) false (sl_handled s))
  | VAccept c => if sl_ln s && sl_open s && negb (sl_returned s) then Some (mkServing true true false (sl_handled s ++ [c])) else None
  | VAcceptError => if sl_ln s && negb (sl_returned s) then Some (mkServing true (sl_open s) true (sl_handled s)) else None
  | VClose => Some (if sl_ln s then mkServing true false (sl_returned s) (sl_handled s) else s)
  end.

Definition serve_run (evs : list serve_event) (s : serving) : option serving :=
  fold_left (fun s ev => s ← s; serve_step s ev) evs (Some s).

(** [ListenAndServe]: [listen] tells whether binding succeeds; then [Serve]. *)
Definition ListenAndServe (listen : bool) (s : serving) : res serving :=
  if negb listen then Err "listen" else match serve_step s VServe with Some s => Ok s | None => Panic end.

Definition accepted (ev : serve_event) : option nat := match ev with VAccept c => Some c | _ => None end.

(** ** The demo *)

Record demo_flags := mkFlags {
  fl_server : bytes; fl_apiKey : bytes; fl_user : bytes; fl_pass : bytes; fl_socks : bytes; fl_tun : bool
}.

Record demo := mkDemo {
  dm_dialer : control_dialer;
  dm_socks : SOCKS5Server;
  dm_serving : serving;
  dm_addr : bytes;                                 (* of the bound listener *)
  dm_tun : option TUNBridge
}.

(** How [main] gets on: it exits with a status, or waits for an interrupt. *)
Inductive demo_state := DExit (status : Z) | DRunning (d : demo).

Section demo.
Context (raw_object : bytes -> option (gmap bytes bytes)) (raw_string : bytes -> option bytes)
        (raw_notifs : bytes -> option (list bytes)) (raw_generic : bytes -> option (gmap bytes gval))
        (parse_transient : bytes -> bool) (client h1 : http_request -> http_exchange).

Definition demo_login (keyFirst : bool) (a : authenticator) :=
  login raw_object raw_string raw_notifs raw_generic parse_transient client h1 keyFirst a.

(** [main] up to the wait; [listen]: the address bound.  The proxy's goroutine begins to
    serve at some later moment. *)
Definition demo_main (fl : demo_flags) (s : Headers.Session) (keyFirst : bool) (listen : bytes -> option bytes)
    (attempts : list Linux.attempt_env) : res demo_state :=
  if bool_decide (fl_server fl = []) then Ok (DExit 2) else
  let auth := NewAuthenticator (fl_server fl) (fl_apiKey fl) (fl_user fl) (fl_pass fl) s in
  r ← demo_login keyFirst auth;
  match r.2 with
  | Some _ => Ok (DExit 1)
  | None =>
    let dialer := NewTunnelDialer (au_token r.1) in
    match listen (fl_socks fl) with
    | None => Ok (DExit 1)
    | Some addr =>
      let running tun := Ok (DRunning (mkDemo dialer NewSOCKS5Server new_serving addr tun)) in
      if fl_tun fl then
        match Linux.Start attempts NewTUNBridge with
        | Some (b, true, _) => running (Some b)
        | _ => Ok (DExit 1)
        end
      else running None
    end
  end.
End demo.

(** While it runs: what the proxy's goroutine does, and the interrupt, on which the
    deferred [tun.Stop] runs and the process ends. *)
Inductive demo_event := DServe (ev : serve_event) | DInterrupt.

Definition demo_step (st : demo_state) (ev : demo_event) : option (demo_state * option TUNBridge) :=
  match st, ev with
  | DExit _, _ => None
  | DRunning d, DServe ev =>
    sv ← serve_step (dm_serving d) ev; Some (DRunning (mkDemo (dm_dialer d) (dm_socks d) sv (dm_addr d) (dm_tun d)), None)
  | DRunning d, DInterrupt => Some (DExit 0, Linux.Stop <$> dm_tun d)
  end.

Fixpoint demo_run (st : demo_state) (evs : list demo_event) : option demo_state :=
  match evs with
  | [] => Some st
  | ev :: evs => r ← demo_step st ev; demo_run r.1 evs
  end.

(** ** Properties *)

Lemma serve_run_cons ev evs s : serve_run (ev :: evs) s = s' ← serve_step s ev; serve_run evs s'.
Proof.
  unfold serve_run. cbn [fold_left]. change (Some s ≫= fun s => serve_step s ev) with (serve_step s ev).
  destruct (serve_step s ev); [done|]. induction evs as [|e evs IH]; [done|]. exact IH.
Qed.

Lemma serve_run_app evs evs' s : serve_run (evs ++ evs') s = s' ← serve_run evs s; serve_run evs' s'.
Proof.
  revert s. induction evs as [|ev evs IH]; intros s; [done|]. rewrite <- app_comm_cons, !serve_run_cons.
  destruct (serve_step s ev); [apply IH|done].
Qed.

Lemma serve_run_handled evs : forall s s', serve_run evs s = Some s' -> sl_handled s' = sl_handled s ++ omap accepted evs.
Proof.
  induction evs as [|ev evs IH]; intros s s' E; [injection E as <-; by rewrite app_nil_r|].
  rewrite serve_run_cons in E. destruct (serve_step s ev) as [s1|] eqn:E1; [|done]. rewrite (IH _ _ E).
  destruct ev as [|c| |]; cbn in *; repeat case_match; simplify_eq; cbn; rewrite <- ?app_assoc; done.
Qed.

(** The loop is over: [Serve] has returned, or its listener is closed. *)
Definition done_serving (s : serving) : Prop := sl_ln s = true /\ (sl_returned s = true \/ sl_open s = false).

Lemma done_stays evs : forall s s', done_serving s -> serve_run evs s = Some s' -> omap accepted evs = [].
Proof.
  induction evs as [|ev evs IH]; intros s s' Hd E; [done|]. rewrite serve_run_cons in E.
  destruct (serve_step s ev) as [s1|] eqn:E1; [|done].
  assert (done_serving s1 /\ accepted ev = None) as [Hd1 Ha].
  { destruct s as [ln op rt hs], Hd as [Hln Hd], ev as [|c| |]; cbn in *; subst ln; destruct op, rt; cbn in *; simplify_eq;
      try (by destruct Hd); split; try done; split; cbn; auto. }
  cbn. rewrite Ha. by eapply IH.
Qed.

(** Every connection the listener accepts is given to exactly one handler, in order, and
    nothing is accepted after the loop has seen one error of the listener, whatever its
    cause, or after [Close] once the loop has begun. *)
Theorem proxy_accepts (evs evs' : list serve_event) (ev : serve_event) (s s' : serving)
    (Hs : serve_run evs new_serving = Some s) (Hend : ev = VAcceptError \/ (ev = VClose /\ sl_ln s = true))
    (Hs' : serve_run (evs ++ ev :: evs') new_serving = Some s') :
  sl_handled s = omap accepted evs /\ sl_handled s' = sl_handled s.
Proof.
  split; [by rewrite (serve_run_handled _ _ _ Hs)|]. rewrite serve_run_app, Hs in Hs'. cbn [mbind option_bind] in Hs'.
  rewrite (serve_run_handled _ _ _ Hs'). rewrite serve_run_cons in Hs'. destruct (serve_step s ev) as [s1|] eqn:E1; [|done].
  assert (done_serving s1) as Hd.
  { destruct Hend as [->|[-> Hln]]; cbn in E1.
    - destruct (sl_ln s && negb (sl_returned s)); [|done]. injection E1 as <-. split; cbn; auto.
    - rewrite Hln in E1. injection E1 as <-. split; cbn; auto. }
  cbn [mbind option_bind] in Hs'. assert (omap accepted evs' = []) as Ho by (by eapply done_stays).
  assert (accepted ev = None) as Ha by (by destruct Hend as [->|[-> _]]).
  change (omap accepted (ev :: evs')) with (match accepted ev with Some y => y :: omap accepted evs' | None => omap accepted evs' end).
  by rewrite Ha, Ho, app_nil_r.
Qed.

(** [Close] before [Serve] has begun has no effect: the server then accepts. *)
Theorem early_close_lost (c : nat) : sl_handled <$> serve_run [VClose; VServe; VAccept c] new_serving = Some [c].
Proof. done. Qed.

Section demo_props.
Context (raw_object : bytes -> option (gmap bytes bytes)) (raw_string : bytes -> option bytes)
        (raw_notifs : bytes -> option (list bytes)) (raw_generic : bytes -> option (gmap bytes gval))
        (parse_transient : bytes -> bool) (client h1 : http_request -> http_exchange).

Abbreviation main := (demo_main raw_object raw_string raw_notifs raw_generic parse_transient client h1).
Abbreviation log_in := (demo_login raw_object raw_string raw_notifs raw_generic parse_transient client h1).

Lemma start_loop_running {E} (once : E -> TUNBridge -> TUNBridge * bool) :
  (forall e b, (once e b).2 = true -> tb_running (once e b).1 = true /\ tb_engine (once e b).1 = ERunning) ->
  forall todo attempt envs b b' sl, start_loop once todo attempt envs b = Some (b', true, sl) -> tb_running b' = true /\ tb_engine b' = ERunning.
Proof.
  intros Ho. induction todo as [|todo IH]; intros attempt envs b b' sl; [done|]. destruct envs as [|e envs]; [done|].
  cbn [start_loop]. pose proof (Ho e b) as Hb. destruct (once e b) as [b1 []]; cbn in Hb.
  - intros [= <- _]. by apply Hb.
  - destruct todo as [|todo]; [done|]. destruct (start_loop once (S todo) _ _ _) as [[[b2 r] sl2]|] eqn:E2; [|done].
    intros [= <- -> _]. by eapply IH.
Qed.

Lemma linux_once_running e b : (Linux.startOnce e b).2 = true ->
  tb_running (Linux.startOnce e b).1 = true /\ tb_engine (Linux.startOnce e b).1 = ERunning.
Proof. unfold Linux.startOnce, safeEngineStart. destruct (Linux.ae_engine e), (Linux.ae_addr e), (Linux.ae_up e); done. Qed.

(** The demo gets to serving exactly when a server was given, the login succeeded, the
    proxy's address was bound and, when a TUN interface was asked for, the bridge came up.
    It then dials through the session the login obtained, by streaming, for every
    connection of the proxy, without a bypass; and an interrupt stops the bridge. *)
Theorem demo_starts (fl : demo_flags) (s : Headers.Session) (keyFirst : bool) (listen : bytes -> option bytes)
    (attempts : list Linux.attempt_env) (d : demo) (Hd : main fl s keyFirst listen attempts = Ok (DRunning d)) :
  let auth := NewAuthenticator (fl_server fl) (fl_apiKey fl) (fl_user fl) (fl_pass fl) s in
  fl_server fl <> [] /\ listen (fl_socks fl) = Some (dm_addr d) /\
  (exists a, log_in keyFirst auth = Ok (a, None) /\ ps_token (td_post (cd_td (dm_dialer d))) = au_token a) /\
  cd_relay (dm_dialer d) = None /\ td_streaming (cd_td (dm_dialer d)) = true /\
  sv_hasPool (dm_socks d) = true /\ sv_hasBypass (dm_socks d) = false /\
  (fl_tun fl = true <-> is_Some (dm_tun d)) /\
  (forall b, dm_tun d = Some b -> tb_running b = true /\ tb_engine b = ERunning /\
     demo_step (DRunning d) DInterrupt = Some (DExit 0, Some (mkBridge false [] EStopped))).
Proof.
  intros auth. unfold demo_main in Hd. fold auth in Hd. case_bool_decide as Hs; [done|]. split; [done|].
  destruct (log_in keyFirst auth) as [[a err]| |] eqn:El; [|done..]. cbn [mbind res_bind fst snd] in Hd.
  destruct err; [done|]. destruct (listen (fl_socks fl)) as [addr|]; [|done]. cbv zeta in Hd.
  assert (exists tun, d = mkDemo (NewTunnelDialer (au_token a)) NewSOCKS5Server new_serving addr tun /\
    (fl_tun fl = true <-> is_Some tun) /\ (forall b, tun = Some b -> tb_running b = true /\ tb_engine b = ERunning)) as (tun & -> & Ht & Hb).
  { destruct (fl_tun fl).
    - destruct (Linux.Start attempts NewTUNBridge) as [[[b []] sl]|] eqn:Et; try done. injection Hd as <-. exists (Some b).
      split; [done|]. split; [by split|]. intros b' [= <-]. by eapply start_loop_running; [apply linux_once_running|exact Et].
    - injection Hd as <-. exists None. split; [done|]. split; [|done]. split; [done|by intros []]. }
  cbn. split; [done|]. split; [by exists a|]. split; [done|]. split; [done|]. split; [done|]. split; [done|]. split; [done|].
  intros b ->. destruct (Hb b eq_refl) as [Hr He]. split; [done|]. split; [done|]. cbn. unfold Linux.Stop. by rewrite Hr.
Qed.

(** Without a password the login has no method to try, so the demo exits whatever API key
    it is given and whatever the server would answer. *)
Theorem demo_needs_password (fl : demo_flags) (s : Headers.Session) (keyFirst : bool) (listen : bytes -> option bytes)
    (attempts : list Linux.attempt_env) (Hpass : fl_pass fl = []) :
  main fl s keyFirst listen attempts = Ok (DExit (if bool_decide (fl_server fl = []) then 2 else 1)).
Proof.
  unfold demo_main. case_bool_decide; [done|]. unfold demo_login, login, NewAuthenticator. cbn [au_keyAuth au_password au_deviceID au_token].
  rewrite Hpass. by destruct keyFirst.
Qed.
End demo_props.

(** Once the listener has reported an error the demo goes on running, logged in and with
    its bridge up, but the proxy accepts nothing until the process ends. *)
Theorem demo_outlives_proxy (d d' : demo) (evs : list serve_event)
    (Hstop : sl_ln (dm_serving d) = true /\ sl_returned (dm_serving d) = true)
    (Hrun : demo_run (DRunning d) (DServe <$> evs) = Some (DRunning d')) :
  sl_handled (dm_serving d') = sl_handled (dm_serving d) /\ dm_tun d' = dm_tun d.
Proof.
  assert (serve_run evs (dm_serving d) = Some (dm_serving d') /\ dm_tun d' = dm_tun d) as [Hs Ht].
  { clear Hstop. revert d Hrun. induction evs as [|ev evs IH]; intros d Hrun; [by injection Hrun as <-|].
    rewrite fmap_cons in Hrun. cbn [demo_run demo_step] in Hrun. rewrite serve_run_cons.
    destruct (serve_step (dm_serving d) ev) as [sv|]; [|done]. cbn [mbind option_bind fst] in Hrun.
    destruct (IH _ Hrun) as [H1 H2]. cbn in H1, H2. done. }
  split; [|done]. rewrite (serve_run_handled _ _ _ Hs).
  rewrite (done_stays _ _ _ (conj (proj1 Hstop) (or_introl (proj2 Hstop))) Hs). by rewrite app_nil_r.
Qed.

(** ** Concrete runs *)

Module Toy_demo.
Definition flags : demo_flags := mkFlags (str "https://c") [] (str "u") (str "p") (str "127.0.0.1:1080") true.
Definition generic (_ : bytes) : option (gmap bytes gval) := Some {[ str "session" := GStr (str "tok") ]}.
Definition yes (_ : http_request) : http_exchange := Some (200, []).
Definition up : Linux.attempt_env := Linux.mkEnv true true true.
Definition running : demo := mkDemo (NewTunnelDialer (str "tok")) NewSOCKS5Server new_serving (str "127.0.0.1:1080")
  (Some (mkBridge true Linux.TUNDeviceName ERunning)).
End Toy_demo.
Import Toy_demo.

Lemma demo_starts_witness :
  demo_main (fun _ => None) (fun _ => None) (fun _ => None) generic (fun _ => false) yes yes flags Toy_login.browser true Some [up] = Ok (DRunning running) /\
  td_streaming (cd_td (dm_dialer running)) = true.
Proof.
  split; [by vm_compute|].
  destruct (demo_starts (fun _ => None) (fun _ => None) (fun _ => None) generic (fun _ => false) yes yes flags Toy_login.browser true Some [up] running
    ltac:(by vm_compute)) as (_ & _ & _ & _ & Hs & _).
  exact Hs.
Defined.

Lemma demo_needs_password_witness :
  demo_main (fun _ => None) (fun _ => None) (fun _ => None) generic (fun _ => false) yes yes
    (mkFlags (str "https://c") (str "key") (str "u") [] (str "127.0.0.1:1080") false) Toy_login.browser true Some [] = Ok (DExit 1).
Proof.
  apply (demo_needs_password (fun _ => None) (fun _ => None) (fun _ => None) generic (fun _ => false) yes yes
    (mkFlags (str "https://c") (str "key") (str "u") [] (str "127.0.0.1:1080") false)). reflexivity.
Defined.

Lemma proxy_accepts_witness :
  exists s s', serve_run [VServe; VAccept 4] new_serving = Some s /\ serve_run ([VServe; VAccept 4] ++ VClose :: [VAcceptError]) new_serving = Some s' /\
    sl_handled s' = sl_handled s.
Proof.
  exists (mkServing true true false [4%nat]), (mkServing true false true [4%nat]). split; [reflexivity|]. split; [reflexivity|].
  apply (proxy_accepts [VServe; VAccept 4] [VAcceptError] VClose); [reflexivity|right; split; reflexivity|reflexivity].
Defined.

Lemma demo_outlives_proxy_witness :
  exists d d', demo_run (DRunning d) (DServe <$> [VClose]) = Some (DRunning d') /\ sl_handled (dm_serving d') = [4%nat].
Proof.
  set (d := mkDemo (NewTunnelDialer (str "tok")) NewSOCKS5Server (mkServing true true true [4%nat]) [] None).
  set (d' := mkDemo (NewTunnelDialer (str "tok")) NewSOCKS5Server (mkServing true false true [4%nat]) [] None).
  exists d, d'. split; [reflexivity|].
  apply (demo_outlives_proxy d d' [VClose]); [split; reflexivity|reflexivity].
Defined.
