(* ===== verification/Egress.v ===== *)
(** * Egress: where the program's own sockets go out (bypass.go, dial_control.go and the dialers)

    When the default route leads into the TUN interface, a socket of the program itself
    must leave by another way: bound to the physical interface's address, or passed to
    the hook that [SetDialControl] installs.  Here is what each dialer of the program
    sets, and the server name its TLS connections send. *)
From S2P Require Import Prelude Encoding Env DhtRelay Cidr Discovery Bypass Tls.

(** The options of a socket: the address it is bound to, the hook it is passed to. *)
Record socket_opts := mkSocket { so_local : option bytes; so_hook : option nat }.

(** The package variable [dialControl]. *)
Definition SetDialControl (fn : option nat) : option nat := fn.

Definition bound_to (ip : bytes) : option bytes := if bool_decide (ip = []) then None else Some ip.

(** ** The bypass manager *)

Definition Country (m : BypassManager) : bytes := bm_country m.
Definition Enabled (m : BypassManager) : bool := bm_enabled m.

Definition BypassDialer (dialControl : option nat) (m : BypassManager) : socket_opts := mkSocket (bound_to (bm_localIP m)) dialControl.

(** The address text given to ListenPacket; one that does not split into host and port
    is an error, and so may be the call itself. *)
Definition DialUDP (dialControl : option nat) (listen : bytes -> bool) (m : BypassManager) : res socket_opts :=
  let laddr := if bool_decide (bm_localIP m = []) then str "0.0.0.0:0" else bm_localIP m ++ str ":0" in
  match split_host_port laddr with
  | None => Err "bypass: ListenUDP"
  | Some _ => if listen laddr then Ok (mkSocket (bound_to (bm_localIP m)) dialControl) else Err "bypass: ListenUDP"
  end.

(** [None]: the manager's default client, whose connections are not set up here. *)
Definition makeClient (dialControl : option nat) (localIP : bytes) : option socket_opts :=
  if bool_decide (localIP = []) then None else Some (mkSocket (Some localIP) dialControl).

(** ** The other dialers *)

Definition decoy_transport_socket (physIP : bytes) (controlFn : option nat) : socket_opts := mkSocket (bound_to physIP) controlFn.
Definition decoy_manager_socket (physIP : bytes) : socket_opts := decoy_transport_socket physIP None.

Definition punch_socket (localIP : bytes) (fn : option nat) : socket_opts := mkSocket (bound_to localIP) fn.
Definition Punch_socket (localIP : bytes) : socket_opts := punch_socket localIP None.
Definition PunchProtected_socket (fn : option nat) : socket_opts := punch_socket [] fn.

Definition nat_socket (localIP : bytes) (fn : option nat) : socket_opts := mkSocket (bound_to localIP) fn.
Definition ProbeExternalEndpoint_socket (localIP : bytes) : socket_opts := nat_socket localIP None.
Definition ProbeExternalEndpointProtected_socket (fn : option nat) : socket_opts := nat_socket [] fn.

(** Both dialers of the para-exit client. *)
Definition para_socket (localIP : bytes) : socket_opts := mkSocket (bound_to localIP) None.

(** The TLS transports, the tunnel's own dialer, and the direct UDP channel. *)
Definition tls_socket (dialControl : option nat) : socket_opts := mkSocket None dialControl.
Definition udp_control_socket (dialControl : option nat) : socket_opts := mkSocket None dialControl.

(** net.DialTimeout of [MeasureRTTs]; the discovery client. *)
Definition measure_socket : socket_opts := mkSocket None None.
Definition discovery_socket : socket_opts := mkSocket None None.

Definition leaves_tun (o : socket_opts) : bool := bool_decide (is_Some (so_local o) \/ is_Some (so_hook o)).

(** ** Properties *)

Lemma bound_some ip : is_Some (bound_to ip) <-> ip <> [].
Proof. unfold bound_to. case_bool_decide; [split; [by intros []|done]|]. split; [done|by eexists]. Qed.

(** Which sockets leave around the TUN interface: those of the bypass manager when it
    knows the physical address or a hook is installed; the tunnel's TLS and UDP channels
    exactly when a hook is installed; hole punching, the NAT probe, decoys and para-exit
    exactly when they are given the physical address or their own hook, whatever
    [SetDialControl] installed; and the round-trip probes of the router and the discovery
    client in no case. *)
Theorem egress_of_dialers (hook own : option nat) (ip : bytes) (m : BypassManager) :
  (leaves_tun (BypassDialer hook m) = true <-> bm_localIP m <> [] \/ is_Some hook) /\
  (forall o, DialUDP hook (fun _ => true) m = Ok o -> leaves_tun o = leaves_tun (BypassDialer hook m)) /\
  (leaves_tun (tls_socket hook) = true <-> is_Some hook) /\ (leaves_tun (udp_control_socket hook) = true <-> is_Some hook) /\
  (leaves_tun (Punch_socket ip) = true <-> ip <> []) /\ (leaves_tun (ProbeExternalEndpoint_socket ip) = true <-> ip <> []) /\
  (leaves_tun (PunchProtected_socket own) = true <-> is_Some own) /\
  (leaves_tun (decoy_transport_socket ip own) = true <-> ip <> [] \/ is_Some own) /\ (leaves_tun (para_socket ip) = true <-> ip <> []) /\
  leaves_tun measure_socket = false /\ leaves_tun discovery_socket = false.
Proof.
  assert (forall l fn, leaves_tun (mkSocket l fn) = true <-> is_Some l \/ is_Some fn) as Hl
    by (intros; unfold leaves_tun; by rewrite bool_decide_eq_true).
  assert (~ is_Some (@None nat)) as Hn by (by intros []). assert (~ is_Some (@None bytes)) as Hn' by (by intros []).
  unfold BypassDialer, tls_socket, udp_control_socket, Punch_socket, ProbeExternalEndpoint_socket, PunchProtected_socket, punch_socket, nat_socket, decoy_transport_socket, para_socket.
  rewrite !Hl, !bound_some. split_and!; try tauto; try done.
  - intros o. unfold DialUDP. destruct (split_host_port _); [|done]. by intros [= <-].
Qed.

(** An IPv6 address of the physical interface makes [DialUDP] fail (the port is appended
    without brackets), while TCP dials with the same manager are bound to it. *)
Theorem ipv6_udp_bypass_fails (hook : option nat) (m : BypassManager) (Hip : bm_localIP m = str "fe80::1") :
  (forall listen, DialUDP hook listen m = Err "bypass: ListenUDP") /\ so_local (BypassDialer hook m) = Some (str "fe80::1").
Proof. unfold DialUDP, BypassDialer. rewrite Hip. split; [|done]. intros listen. by vm_compute. Qed.

(** ** Server names *)

Definition Controls (d : Discoverer) : list bytes := ds_controls d.
Definition Regions (d : Discoverer) : gmap bytes bytes := ds_regions d.
Definition Notifications (d : Discoverer) : list Notification := ds_notifications d.

(** [ControlSNILookup = d.SNIFor]; [draw addr] is what rand.Intn is fed. *)
Definition UseAsSNIProvider (draw : bytes -> Z) (d : Discoverer) : option (bytes -> bytes) :=
  Some (fun addr => SNIFor (draw addr mod zlen (default [] (ds_nodeSNIs d !! addr))) d addr).

Lemma sni_listed draw d addr l : ds_nodeSNIs d !! addr = Some l -> l <> [] ->
  SNIFor (draw mod zlen l) d addr ∈ l.
Proof.
  intros Hl Hne. unfold SNIFor. rewrite Hl. destruct l as [|s l]; [done|].
  assert (0 <= draw mod zlen (s :: l) < zlen (s :: l)) as Hr.
  { apply Z.mod_pos_bound. rewrite zlen_cons. pose proof (zlen_nonneg l). lia. }
  destruct (index_ok (s :: l) _ Hr) as (x & E & Hx). cbn beta iota delta [from_option id]. rewrite E. by eapply list_elem_of_lookup_2.
Qed.

(** Once a discoverer provides the names, every TLS connection to a control, of every
    channel, sends a server name the manifest lists for exactly that address, and none
    when it lists none. *)
Theorem sni_from_manifest (draw : bytes -> Z) (d : Discoverer) (rawDial : option (bytes -> bool)) (dial : bytes -> bool)
    (build : option bytes) (ok : bytes -> bool) (ch : byte) (addr : bytes) (r : tls_result)
    (Hr : dialUTLS rawDial dial (UseAsSNIProvider draw d) build ok ch addr = Some r) :
  match default [] (ds_nodeSNIs d !! addr) with [] => tr_sni r = [] | l => tr_sni r ∈ l end.
Proof.
  assert (tr_sni r = sniFor (UseAsSNIProvider draw d) addr) as ->.
  { unfold dialUTLS in Hr. destruct (match rawDial with Some f => f addr | None => dial addr end); [|done]. injection Hr as <-.
    unfold handshake. destruct build as [sid|]; [|done]. by destruct (ok _). }
  cbn. destruct (ds_nodeSNIs d !! addr) as [[|s l]|] eqn:E; cbn [default from_option].
  - unfold SNIFor. by rewrite E.
  - by apply sni_listed.
  - unfold SNIFor. by rewrite E.
Qed.

(** ** Concrete runs *)

Module Toy_egress.
Definition manager : BypassManager := mkBypass [] None false None [] true [] [] [] CNone ∅.
Definition disc : Discoverer := mkDisc None false [] [] ∅ {[ str "c:443" := [str "cdn.example"] ]} ∅ [] MNone.
End Toy_egress.

Lemma ipv6_udp_bypass_fails_witness :
  forall listen, DialUDP None listen (SetLocalIP (str "fe80::1") Toy_egress.manager) = Err "bypass: ListenUDP".
Proof. apply (ipv6_udp_bypass_fails None (SetLocalIP (str "fe80::1") Toy_egress.manager)). reflexivity. Defined.

Lemma sni_from_manifest_witness : [str "cdn.example"] = [str "cdn.example"] /\ exists r,
  dialUTLS None (fun _ => true) (UseAsSNIProvider (fun _ => 5) Toy_egress.disc) (Some (make_bytes 32)) (fun _ => true) ChTunnel (str "c:443") = Some r /\
  tr_sni r ∈ [str "cdn.example"].
Proof.
  split; [reflexivity|]. eexists. split; [reflexivity|].
  exact (sni_from_manifest (fun _ => 5) Toy_egress.disc None (fun _ => true) (Some (make_bytes 32)) (fun _ => true) ChTunnel (str "c:443") _ eq_refl).
Defined.
